(* ===== verification/_CoqProject ===== *)
-Q . S2P
Prelude.v
Table.v
Codec.v
RowCodec.v
Float64.v
Json.v
MemTable.v
Txn.v
Wal.v
WalWriter.v
WalStore.v
Changefeed.v
StorageJson.v
Storage.v
StorageCommit.v
StorageRecovery.v
StorageSnapshot.v
StorageThreads.v
StorageSerial.v
StorageCrash.v
RowJson.v
HostFunctions.v
HostReads.v
HostCommit.v
HostMemory.v
WasmEngine.v
WasmExec.v
WasmLoad.v
WasmVersion.v
WasmSub.v
WasmSubEvents.v
Tick.v
BinaryProtocol.v
BinaryBenchmark.v
ModuleStore.v
ModuleStoreRestart.v
Auth.v
WsFrame.v
Regex.v
Predicate.v
PredicateText.v
PredicateGrammar.v
PredicateEval.v
StdNumbers.v
SqlEngine.v
SqlExec.v
SqlText.v
SqlSub.v
SqlSubParse.v
SqlSubManager.v
SqlSubEvents.v
WsServer.v
WsAdmission.v
WsEvents.v
LivePath.v
WsSession.v
GrpcServices.v
GrpcCalls.v
GrpcDeploy.v
Client.v
ClientCalls.v
Cli.v
CliPublish.v
GrpcSql.v
Config.v
Server.v
ServerRestart.v
ServerLife.v
ServerMain.v
Metrics.v
Init.v
SqlTool.v
Demo.v
