(* ===== verification/Prelude.v ===== *)
(** * OriginDB: a verification development

    OriginDB is a C++ database server: in-memory tables, a write-ahead log, a
    changefeed of committed writes, SQL statements and SQL subscriptions,
    reducers in WebAssembly with their own subscriptions and ticks, a store of
    deployed modules, token authentication, and a WebSocket and a gRPC
    interface.  This development models these as executable definitions
    translated from the sources, and proves what makes them correct.  Names
    follow the sources, which are under src/src (implementation) and src/include
    (headers) of the repository.

    ** The program and its model

    A client's transaction stages writes in a write set ([Txn]); [Commit] of the
    storage engine ([Storage]) applies them to the tables ([MemTable]) under the
    commit lock, turns each into a log entry whose payload the row codec encodes
    ([RowCodec]), appends the batch to the write-ahead log ([WalStore], from
    [WalWriter] and [Wal]), waits for the log's answer and, after the lock,
    publishes an event per write ([Changefeed]) with the rows as JSON
    ([StorageJson]).  The delivery thread of the changefeed calls the
    subscribers.  One is the WebSocket server ([WsServer]), which asks the
    subscription manager ([SqlSub]) which clients' SELECT statements match,
    their WHERE clauses compiled by the predicate evaluator ([Predicate]); the
    other the manager of modules' subscriptions ([WasmSub]).  Recovery replays
    the log, and snapshots restart the tables.

    A reducer call runs guest code against the host functions
    ([HostFunctions]), which stage its writes in an overlay that the engine
    ([WasmEngine]) commits as one transaction when the guest succeeds.  The
    engine loads modules (stored by [ModuleStore]) and keeps the tick scheduler
    ([Tick]) informed.  Clients reach the engines through WebSocket frames
    ([WsFrame]) and messages ([WsServer], with [Auth] as the gate, [SqlEngine]
    for statements, [BinaryProtocol] for the compact encoding), or through gRPC
    calls ([GrpcServices]).  The process ([Server]) creates all of them in
    order from its configuration ([Config], [ServerMain]) and takes them down
    ([ServerLife]).  The command-line client ([Client]) calls the gRPC handlers;
    the origindb command ([Cli]) becomes it or runs it through a shell.

    Data and storage:
    - Prelude: machine integers, bytes, exceptions ([exc]), iteration orders of
      C++ maps ([HashOrder], [map_iter]), shared lemmas and hints.
    - Table (storage/table.h): column types, schemas, the [Value] variant, rows.
    - Codec: the bounded reader as a monad, and the interfaces [Codec] (an
      encoder and decoder pair) and [Extends] (a reader that does not look past
      what it consumes), which RowCodec, Wal and BinaryProtocol instantiate.
    - RowCodec (storage/row_codec.cpp): EncodeRow, DecodeRow, EncodeSchema,
      DecodeSchema, byte for byte.
    - Float64: IEEE-754 bit patterns, conversion, comparison, [std::stod].
    - Json: JSON values and the interface [JsonLib] of the JSON library.
    - MemTable (storage/mem_table.cpp): each method under its mutex is one
      function; the JSON cache is part of the state.
    - Txn (storage/transaction_impl.cpp): the write set and reads of it.
    - Wal (storage/wal_impl.cpp): records, the recovery scan with its torn-tail
      tolerance, magic and sequence recovery, on the bytes of the file.
    - WalWriter (storage/wal_impl.cpp): committers and the writer thread as the
      step relation [wal_step]; a step is one critical section.
    - WalStore: the interface [WalApi]/[WalSpec] that the engine calls, and the
      instance that runs WalWriter's group commit.
    - Changefeed (changefeed/changefeed_engine.cpp): publication, retention,
      subscriptions, acknowledgements, reads of the history, and the delivery
      thread with its pool as the step relation [cf_step].
    - StorageJson, Storage (storage/storage_engine.cpp): the JSON texts, and
      the engine's tables, transactions, commit in its locked and unlocked
      halves, recovery, snapshots, checkpointing, statistics.
    - StorageCommit, StorageRecovery, StorageSnapshot: the abstract store and
      the theorems about commit, recovery and snapshots.
    - StorageThreads (storage/storage_engine.cpp, wal_impl.cpp): commits, table
      operations, the checkpointer and the log's writer as threads that stop at
      the lock, at the log's promise and between events ([thread_step]), with the
      log's sync mode an instance of [SyncSetting].  StorageSerial holds in every
      mode; StorageCrash in the default mode, Fsync.

    Reducers (src/wasm/):
    - RowJson (host_functions.cpp): rows to and from JSON.
    - HostFunctions (host_functions.cpp): the functions a guest imports, on
      a state with the guest's memory, the staged overlay and the engine; guest
      code is a program over these calls.  HostReads, HostCommit, HostMemory:
      what a guest reads, what its commit applies, where results are written.
    - WasmEngine (wasm_engine.cpp): load, hot swap, unload, execute.  WasmExec,
      WasmLoad, WasmVersion: its theorems.
    - WasmSub, WasmSubEvents (wasm_subscription.cpp): modules'
      subscriptions, their events and acknowledgements.
    - Tick (tick_scheduler.cpp): registrations and the coalescing timer loop.
    - ModuleStore, ModuleStoreRestart (module_store.cpp): the directory of
      deployed modules, with every file operation able to fail.

    Queries and clients:
    - Regex: [std::regex] for the constructs the sources use: parser of
      patterns, backtracking matcher with captures, the relation it decides.
    - Predicate (changefeed/predicate_evaluator.cpp): tokenizer, translation of
      LIKE, recursive-descent parser with its position and error state,
      evaluator; PredicateText, PredicateGrammar, PredicateEval: its theorems.
    - StdNumbers: [std::stoi], [std::stoll], [std::to_string], streams.
    - SqlEngine (src/sql/): parser and executor of statements; SqlExec,
      SqlText: its theorems.
    - SqlSub (changefeed/sql_subscription.cpp): matching, projection, the SELECT
      parser, the manager; SqlSubParse, SqlSubManager, SqlSubEvents: its
      theorems.
    - BinaryProtocol (websocket/binary_protocol.cpp): serializer, deserializer
      and converter of the compact encoding.  BinaryBenchmark: its benchmark.
    - Auth (common/auth.cpp, grpc/auth_check.h): tokens, their file, and the checks.
    - WsFrame, WsServer (websocket/websocket_server.cpp): frames and their
      reassembly; the handshake, the message handlers, the fan-out of events,
      connecting and disconnecting.  WsAdmission: what the regular expressions of
      the handshake find in a request.  WsEvents, WsSession: their theorems.
    - LivePath: the storage engine, the SQL subscriptions and the server composed.

    The process:
    - GrpcServices (src/grpc/): the handlers of both services, on the engine,
      the module store and the tokens.  GrpcCalls: scopes; GrpcDeploy:
      deployment; GrpcSql: batches of statements.
    - Config (common/config.h, config.cpp): the configuration records and
      ParseCommandLine.  ServerMain (cmd/origindb_server.cpp): the options and
      environment of the server executable.
    - Server (cmd/origindb_server.cpp): start-up, shutdown, and the setters,
      [Start] and [Stop] of the WebSocket server and the gRPC server.
      ServerRestart: the modules a new process restores.  ServerLife: signals
      and the end of the process as the step relation [life_step].
    - Metrics (common/metrics.cpp): counters, gauges and their text.

    The other executables (src/cmd/):
    - Client (grpc_client.cpp): arguments, commands, texts and exit codes of
      origindb_client, on the handlers of GrpcServices.  ClientCalls: what its
      commands do to the server.
    - Cli (origindb_cli.cpp): the origindb command on the class [Os] of
      operating-system calls.  CliPublish: dispatch, and a publication down to
      the module the server serves.
    - Init (origindb_init.cpp): the scaffolding of projects.
    - SqlTool (sql_demo.cpp), Demo (prototype_demo.cpp): one statement on a
      directory, and the demonstration, on the engines above.

    ** What is proved

    - Durability: on a log that opened whole, a batch whose future resolved true
      survives any later crash, in order (WalWriter); scanning a log gives back its records, torn tail or
      not (Wal); the codec round trips and refuses truncated input (RowCodec).
    - Commit and recovery: [Commit] refines an abstract store on every branch,
      publishes one event per write, and keeps the row count (StorageCommit);
      recovery replays the log on the abstract store, and after a run of the
      engine rebuilds its tables (StorageRecovery); a snapshot restarts them
      (StorageSnapshot).
    - Concurrency and crashes: no event is published before its batch is durable
      (StorageThreads); the tables are the serial replay of the submitted batches
      (StorageSerial), and a crash at any point of any interleaving recovers every
      commit that had returned (StorageCrash), both for histories the log can
      tell: no failed log write and no unfaithful call ([faithful]); the
      snapshot file in place survives, and an example shows the loss when it does
      not.
    - Changefeed: offsets and retention, in-order delivery without duplicates,
      one call per matching subscriber, paging, acknowledgement (Changefeed).
    - Reducers: a guest reads the committed tables under its own staged writes
      (HostReads); its commit is one transaction with exactly these writes
      (HostCommit); a call is all or nothing, traps and exhausted fuel included
      (WasmExec); a hot swap migrates or leaves the old module (WasmLoad);
      results stay in the guest's buffers (HostMemory); ticks coalesce and the
      timer's loops end (Tick); subscriptions receive the matching events and
      their indices agree (WasmSubEvents); the module store survives a restart
      and serves nothing corrupt (ModuleStoreRestart).
    - Statements: [Execute] refines SQL on tables as row lists (SqlExec), and
      the parser reads back printed statements (SqlText).
    - Subscriptions: the predicate parser decides the documented grammar on
      every text, without leaving its token vector (PredicateGrammar); the
      tokenizer inverts printing (PredicateText); LIKE is SQL's LIKE up to line
      breaks, and evaluation follows three-valued logic (PredicateEval); the
      parsed SELECT (SqlSubParse); the indexed manager refines a plain registry
      after any calls (SqlSubManager); a committed write reaches exactly the
      subscriptions whose clause its rows satisfy (SqlSubEvents).
    - Clients: messages cut into frames and chunks in any way are reassembled
      (WsFrame); an event reaches exactly the registered clients, every message
      is answered, a reducer call is answered with the engine's outcome
      (WsEvents): the right module, arguments and sender, and a reply that says
      what the database holds; a commit of UTF-8 rows tells every connected client of exactly
      the writes its subscriptions select (LivePath); a connection
      without the upgrade, a token or a key is turned away, and the session of any
      other greets, handles its messages and leaves nothing behind (WsAdmission,
      WsSession, Auth); tokens survive a restart (Auth); the compact encoding
      round trips what it can carry (BinaryProtocol).
    - The process: a gRPC call does nothing its token has no scope for
      (GrpcCalls); a deployment serves what was sent or says why not
      (GrpcDeploy); a transaction over gRPC is its statements one by one
      (GrpcSql); a new process serves the modules that were deployed,
      if manifests were written and removals complete (ServerRestart); the configuration is the command line over the
      environment over the defaults (ServerMain); a signal skips the ordered
      shutdown (ServerLife); metrics hold what was written (Metrics).
    - The command line: a deployment or reducer call that exits with 0 has
      happened on the server, one that exits with 1 has not or says why
      (ClientCalls); a publication that exits with 0 serves the built file, a
      verb becomes its executable with its arguments (CliPublish); placeholders
      are replaced from left to right, no existing file is touched without --force,
      and publish finds what was created (Init); a statement of the one-shot tool is there at the next start
      (SqlTool); the demonstration does what it announces, twice (Demo).
    - Where the code departs from what it means to do, the behaviour is an
      example or a theorem too: an INSERT over an existing key lost by recovery,
      a re-created table dropped by a second recovery, an acknowledged record
      hidden by a torn tail, a batch acknowledged after a failed write,
      half a transaction recovered after a crash, a snapshot ahead of its log, a failed
      redeployment that loses the stored module, a commit the one-shot tool
      removes, a publication reported that did not happen, projected events
      without columns, a frame length that wraps around, and others next to the
      components they concern.

    ** Conventions

    Integers are [Z] with the width written out ([u8], [u32], [u64], [i32],
    [i64], [is_u], [is_i]); a [std::string] is a [string] of bytes; floats are
    bit patterns.  A call that throws is a value of [exc], together with the
    state it had reached when it mutates.  A mutex-protected method is one
    function; threads interleave in step relations whose environment chooses
    outcomes of system calls, clocks, wake-ups and crashes.  The iteration order
    of an unordered container is an instance of [HashOrder], and theorems hold
    for all of them.  What is not in src/ is a parameter: the JSON library
    ([JsonLib], [IndentedDump], [ParseWhat]), the log as the engine sees it
    ([WalApi], with an instance), the WebAssembly runtime and the modules'
    code ([Wasmtime], guest programs), digests ([Sha256], [Sha1]), random bytes
    and clocks ([Environment]), the order of socket pointers ([SocketOrder]),
    the operating system of the command-line programs ([Os], [OsFiles]) and the
    shell (hypotheses of CliPublish, with an instance).

    Fuel: the tokenizer gets one more than the length of the text, each of its
    rounds consuming a character; the predicate parser 4 per token plus 3, since
    a call chain without reading is at most three deep; the pattern parser twice
    the length plus 3; a star of the matcher stops when an iteration consumes
    nothing; a search tries each of the length plus one starting points; the
    comparison of versions consumes a component per round; the tick loop is
    bounded by the periods that fit before the deadline ([advance_terminates]);
    the frame loop by the bytes received, a frame having at least two; replacing
    placeholders by the characters, a round consuming one; the search for a decimal
    exponent by 400, that of a double being above.  [Parse_decides_grammar],
    [LIKE_is_sql_like], [advance_terminates], [messages_reassembled] and
    [replace_loop_spec] show these are enough.

    ** What is not modelled

    A write of the log's magic bytes that fails (the file is opened and they are
    written in one step); the moment between the compare-and-exchange of the tick
    dispatcher and its push to the queue, which are one step; the limit of
    [std::regex] on the size of an expression; a client that comes and goes while
    another one's message is handled (the WebSocket theorems take one call of the
    server at a time).  Logging, timings and thread start-up; the depth of the C++ stack and memory
    exhaustion; accepting sockets; the generated gRPC classes; the texts of the
    project templates, which are other languages; what the delivery thread of the
    demonstration prints.  The C++ SDK header does not compile (it uses a macro
    before its definition) and its examples with it; the other SDKs, examples
    and tests run outside the server. *)

From Stdlib Require Export ZArith Lia.
From Stdlib Require Import Strings.String Strings.Ascii Strings.Byte.
From stdpp Require Export base gmap sets list strings sorting pretty.
From coqutil Require Import Byte Word.LittleEndianList.

#[global] Open Scope Z_scope.

Declare Scope odb_scope.
Delimit Scope odb_scope with odb.
#[global] Open Scope odb_scope.

(** ** Machine integers *)

(** [uintN_t] arithmetic is arithmetic modulo [2^N]; [intN_t] is read back in
    two's complement. *)
Definition u8 (z : Z) : Z := z mod 2 ^ 8.
Definition u32 (z : Z) : Z := z mod 2 ^ 32.
Definition u64 (z : Z) : Z := z mod 2 ^ 64.
Definition signed (w z : Z) : Z := (z + 2 ^ (w - 1)) mod 2 ^ w - 2 ^ (w - 1).
Definition i32 (z : Z) : Z := signed 32 z.
Definition i64 (z : Z) : Z := signed 64 z.

Definition is_u (w z : Z) : Prop := 0 <= z < 2 ^ w.
Definition is_i (w z : Z) : Prop := - 2 ^ (w - 1) <= z < 2 ^ (w - 1).

#[export] Instance is_u_dec w z : Decision (is_u w z).
Proof. unfold is_u. apply _. Defined.
#[export] Instance is_i_dec w z : Decision (is_i w z).
Proof. unfold is_i. apply _. Defined.

(** ** Bytes and strings *)

(** A [std::string] is a Rocq [string] (a sequence of 8-bit characters, any
    byte allowed); a [std::vector<uint8_t>] is a list of bytes. *)
Abbreviation bytes := (list Byte.byte).

Definition str_bytes (s : string) : bytes := String.list_byte_of_string s.
Definition bytes_str (b : bytes) : string := String.string_of_list_byte b.

Lemma bytes_str_bytes s : bytes_str (str_bytes s) = s.
Proof. apply String.string_of_list_byte_of_string. Qed.
Lemma str_bytes_str b : str_bytes (bytes_str b) = b.
Proof. apply String.list_byte_of_string_of_list_byte. Qed.

Definition zlength {A} (l : list A) : Z := Z.of_nat (length l).
Definition str_len (s : string) : Z := zlength (str_bytes s).

(** ** Exceptions *)

(** A computation that may throw a C++ exception; the argument of [Throw] is
    the exception's message. *)
Inductive exc (A : Type) : Type :=
| Ret (a : A)
| Throw (what : string).
Arguments Ret {A} a.
Arguments Throw {A} what.

#[export] Instance exc_ret : MRet exc := λ A a, Ret a.
#[export] Instance exc_bind : MBind exc := λ A B f m,
  match m with Ret a => f a | Throw w => Throw w end.
#[export] Instance exc_fmap : FMap exc := λ A B f m,
  match m with Ret a => Ret (f a) | Throw w => Throw w end.

Definition is_throw {A} (m : exc A) : Prop := ∃ w, m = Throw w.

#[export] Instance exc_eq_dec {A} `{EqDecision A} : EqDecision (exc A).
Proof. solve_decision. Defined.

(** ** Unordered and ordered containers *)

(** The iteration order of a [std::unordered_map] is not specified: a model
    that iterates over one takes the order as an instance of [HashOrder], and
    its theorems hold for every instance. *)
Class HashOrder := {
  hash_iter : ∀ {A : Type}, gmap string A → list (string * A);
  hash_iter_perm : ∀ A (m : gmap string A), hash_iter m ≡ₚ map_to_list m
}.

(** One admissible order, used by the witnesses. *)
Definition std_order : HashOrder :=
  {| hash_iter := λ A m, map_to_list m; hash_iter_perm := λ A m, reflexivity _ |}.

(** A [std::map<std::string, A>] iterates by increasing key; [std::string]s
    compare as sequences of unsigned bytes. *)
Definition key_le {A} (p q : string * A) : Prop := String.le p.1 q.1.

#[export] Instance key_le_dec {A} : RelDecision (@key_le A).
Proof. intros p q. unfold key_le. apply _. Defined.
#[export] Instance key_le_trans {A} : Transitive (@key_le A).
Proof. intros p q r. unfold key_le. apply transitivity. Qed.
#[export] Instance key_le_total {A} : Total (@key_le A).
Proof. intros p q. unfold key_le. apply (total String.le). Qed.

Definition map_iter {A} (m : gmap string A) : list (string * A) :=
  merge_sort key_le (map_to_list m).

Lemma map_iter_perm {A} (m : gmap string A) : map_iter m ≡ₚ map_to_list m.
Proof. apply merge_sort_Permutation. Qed.

Lemma map_iter_sorted {A} (m : gmap string A) : StronglySorted key_le (map_iter m).
Proof. apply StronglySorted_merge_sort; apply _. Qed.

Lemma elem_of_map_iter {A} (m : gmap string A) k v :
  (k, v) ∈ map_iter m ↔ m !! k = Some v.
Proof. rewrite map_iter_perm. apply elem_of_map_to_list. Qed.

Lemma map_iter_NoDup {A} (m : gmap string A) : NoDup (map_iter m).*1.
Proof. rewrite map_iter_perm. apply NoDup_fst_map_to_list. Qed.

Lemma list_to_map_iter {A} (m : gmap string A) :
  list_to_map (map_iter m) = m.
Proof.
  rewrite (list_to_map_proper _ (map_to_list m)).
  - apply list_to_map_to_list.
  - apply map_iter_NoDup.
  - apply map_iter_perm.
Qed.

Lemma map_iter_unique {A} (m : gmap string A) l :
  StronglySorted key_le l → l ≡ₚ map_to_list m → map_iter m = l.
Proof.
  intros Hs Hp. apply (StronglySorted_unique_strong key_le); [|apply map_iter_sorted|done|].
  - intros [k v] [k' v'] H1 H2 Hle Hge. unfold key_le in *. simpl in *.
    assert (k = k') as -> by (by apply (anti_symm String.le)).
    rewrite Hp in H2. apply elem_of_map_iter in H1. apply elem_of_map_to_list in H2. congruence.
  - by rewrite Hp, map_iter_perm.
Qed.

Lemma map_iter_fmap {A B} (f : A → B) (m : gmap string A) :
  map_iter (f <$> m) = (λ kv, (kv.1, f kv.2)) <$> map_iter m.
Proof.
  apply map_iter_unique.
  - pose proof (map_iter_sorted m) as H. induction H as [|kv l _ IH Hl]; csimpl; constructor; [done|].
    apply Forall_fmap. exact Hl.
  - rewrite map_iter_perm, map_to_list_fmap. done.
Qed.

Section hash_order.
Context `{HashOrder}.

Lemma elem_of_hash_iter {A} (m : gmap string A) k v :
  (k, v) ∈ hash_iter m ↔ m !! k = Some v.
Proof. rewrite hash_iter_perm. apply elem_of_map_to_list. Qed.

Lemma hash_iter_NoDup {A} (m : gmap string A) : NoDup (hash_iter m).*1.
Proof. rewrite hash_iter_perm. apply NoDup_fst_map_to_list. Qed.

Lemma list_to_hash_iter {A} (m : gmap string A) :
  list_to_map (hash_iter m) = m.
Proof.
  rewrite (list_to_map_proper _ (map_to_list m)).
  - apply list_to_map_to_list.
  - apply hash_iter_NoDup.
  - apply hash_iter_perm.
Qed.

Lemma length_hash_iter {A} (m : gmap string A) : length (hash_iter m) = size m.
Proof. rewrite hash_iter_perm. apply length_map_to_list. Qed.
End hash_order.

(** ** Arithmetic lemmas shared by the codecs *)

Lemma zlength_app {A} (l k : list A) : zlength (l ++ k) = zlength l + zlength k.
Proof. unfold zlength. rewrite length_app. lia. Qed.
Lemma zlength_nonneg {A} (l : list A) : 0 <= zlength l.
Proof. unfold zlength. lia. Qed.

Lemma u32_small z : is_u 32 z → u32 z = z.
Proof. unfold u32, is_u. intros. by apply Z.mod_small. Qed.
Lemma u64_small z : is_u 64 z → u64 z = z.
Proof. unfold u64, is_u. intros. by apply Z.mod_small. Qed.

Lemma u64_add_l a b : u64 (u64 a + b) = u64 (a + b).
Proof. unfold u64. apply Zplus_mod_idemp_l. Qed.

Lemma signed_range w z : 0 < w → is_i w (signed w z).
Proof.
  intros Hw. unfold signed, is_i.
  assert (2 ^ w = 2 * 2 ^ (w - 1)) as E by (rewrite <- Z.pow_succ_r by lia; f_equal; lia).
  pose proof (Z.mod_pos_bound (z + 2 ^ (w - 1)) (2 ^ w)).
  assert (0 < 2 ^ (w - 1)) by (apply Z.pow_pos_nonneg; lia). lia.
Qed.

Lemma i64_keeps n : - 2 ^ 63 <= n < 2 ^ 63 → i64 n = n.
Proof. intros Hn. unfold i64, signed. change (64 - 1) with 63. rewrite Z.mod_small by lia. lia. Qed.
Lemma i64_wraps n : 2 ^ 63 <= n < 2 ^ 64 → i64 n = n - 2 ^ 64.
Proof.
  intros Hn. unfold i64, signed. change (64 - 1) with 63.
  rewrite <- (Z.mod_unique (n + 2 ^ 63) (2 ^ 64) 1 (n - 2 ^ 63)); lia.
Qed.

Lemma signed_mod w z : 0 < w → is_i w z → signed w (z mod 2 ^ w) = z.
Proof.
  intros Hw [Hl Hu]. unfold signed.
  assert (2 ^ w = 2 * 2 ^ (w - 1)) as E by (rewrite <- Z.pow_succ_r by lia; f_equal; lia).
  assert (0 < 2 ^ (w - 1)) by (apply Z.pow_pos_nonneg; lia).
  rewrite Zplus_mod_idemp_l, Z.mod_small; lia.
Qed.

Lemma byte_of_Z_mod z : Byte.byte.of_Z z = Byte.byte.of_Z (z mod 256).
Proof.
  apply Byte.byte.unsigned_inj. rewrite !Byte.byte.unsigned_of_Z.
  unfold Byte.byte.wrap. change (2 ^ 8) with 256. by rewrite Zmod_mod.
Qed.

(** ** Filters *)

Lemma list_filter_all {A} (P : A → Prop) `{!∀ x, Decision (P x)} l :
  Forall P l → filter P l = l.
Proof. induction 1; [done|]. by rewrite filter_cons_True, IHForall. Qed.
Lemma list_filter_none {A} (P : A → Prop) `{!∀ x, Decision (P x)} l :
  Forall (λ x, ¬ P x) l → filter P l = [].
Proof. induction 1; [done|]. by rewrite filter_cons_False, IHForall. Qed.

(** ** Automation *)

(** Splits on the scrutinee of a [match] or on a decision procedure in the
    goal or in a hypothesis, then simplifies equations. *)
Ltac step_match :=
  repeat (case_match || case_decide || case_bool_decide); simplify_eq/=.

Create HintDb odb discriminated.
Create Rewrite HintDb odb.
#[export] Hint Resolve zlength_nonneg : odb.
#[export] Hint Rewrite @zlength_app bytes_str_bytes str_bytes_str : odb.
