(* ===== verification/Table.v ===== *)
(** * Tables: schemas, values and rows (include/storage/table.h)

    The data the storage engine keeps: column types, table and index schemas,
    the [Value] variant and [Row].  Integers are [Z] with their width stated by
    [value_wf]; a [float] or [double] is its IEEE-754 bit pattern; a
    [system_clock::time_point] is the signed 64-bit count of nanoseconds since
    the epoch (the tick of libstdc++). *)

From S2P Require Import Prelude.

(** ** Column types *)

(** [enum class DataType] has [int] as underlying type, so a [static_cast] from
    an integer without an enumerator is a value of the type: [DT_other]. *)
Inductive DataType :=
| INT32 | INT64 | FLOAT | DOUBLE | STRING | BYTES | BOOLEAN | TIMESTAMP | JSON
| DT_other (n : Z).

#[export] Instance DataType_eq_dec : EqDecision DataType.
Proof. solve_decision. Defined.

(** [static_cast<int>(type)] and [static_cast<DataType>(n)]. *)
Definition DataType_to_int (t : DataType) : Z :=
  match t with
  | INT32 => 0 | INT64 => 1 | FLOAT => 2 | DOUBLE => 3 | STRING => 4
  | BYTES => 5 | BOOLEAN => 6 | TIMESTAMP => 7 | JSON => 8 | DT_other n => n
  end.

Definition DataType_of_int (n : Z) : DataType :=
  match n with
  | 0 => INT32 | 1 => INT64 | 2 => FLOAT | 3 => DOUBLE | 4 => STRING
  | 5 => BYTES | 6 => BOOLEAN | 7 => TIMESTAMP | 8 => JSON | _ => DT_other n
  end.

(** An enumerator, or an unnamed value in the range of the one-byte encoding. *)
Definition DataType_wf (t : DataType) : Prop :=
  match t with DT_other n => 9 <= n < 256 | _ => True end.

Lemma DataType_of_to_int t :
  DataType_wf t → DataType_of_int (DataType_to_int t) = t.
Proof.
  destruct t as [| | | | | | | | |n]; try done. simpl. intros Hn.
  unfold DataType_of_int. destruct n as [|p|p]; try lia.
  do 4 (destruct p as [p|p|]; try done; try lia).
Qed.

Lemma DataType_to_int_range t : DataType_wf t → 0 <= DataType_to_int t < 256.
Proof. destruct t; simpl; lia. Qed.

(** ** Schemas *)

(** [std::variant<std::monostate, int64_t, double, std::string>] *)
Inductive DefaultValue :=
| DefNone | DefInt (n : Z) | DefDouble (bits : Z) | DefString (s : string).

Record Column := {
  col_name : string;
  col_type : DataType;
  nullable : bool;
  is_primary_key : bool;
  default_value : DefaultValue
}.

Record TableSchema := {
  sch_name : string;
  sch_columns : list Column;
  primary_key : list string;
  sch_options : gmap string string
}.

Inductive IndexType := BTREE | HASH | FULLTEXT.

Record IndexSchema := {
  ix_name : string;
  ix_columns : list string;
  ix_type : IndexType;
  ix_unique : bool
}.

(** ** Values and rows *)

Inductive Value :=
| VNull
| VInt32 (n : Z)
| VInt64 (n : Z)
| VFloat (bits : Z)
| VDouble (bits : Z)
| VString (s : string)
| VBytes (b : bytes)
| VBool (b : bool)
| VTime (ns : Z).

#[export] Instance byte_eq_dec : EqDecision Byte.byte := Byte.byte_eq_dec.
#[export] Instance Value_eq_dec : EqDecision Value.
Proof. solve_decision. Defined.
#[export] Instance DefaultValue_eq_dec : EqDecision DefaultValue.
Proof. solve_decision. Defined.
#[export] Instance Column_eq_dec : EqDecision Column.
Proof. solve_decision. Defined.
#[export] Instance TableSchema_eq_dec : EqDecision TableSchema.
Proof. solve_decision. Defined.

Record Row := {
  row_key : string;
  row_columns : gmap string Value;
  row_version : Z;
  row_timestamp : Z
}.

#[export] Instance Row_eq_dec : EqDecision Row.
Proof. solve_decision. Defined.

(** A row as a default-constructed [Row] leaves it: empty, version 0. *)
Definition mkRow (key : string) (columns : gmap string Value) : Row :=
  {| row_key := key; row_columns := columns; row_version := 0; row_timestamp := 0 |}.

Definition with_key (key : string) (r : Row) : Row :=
  {| row_key := key; row_columns := row_columns r;
     row_version := row_version r; row_timestamp := row_timestamp r |}.

Definition with_columns (cols : gmap string Value) (r : Row) : Row :=
  {| row_key := row_key r; row_columns := cols;
     row_version := row_version r; row_timestamp := row_timestamp r |}.

(** ** Well-formedness: every integer fits its C++ type, every length its
    32-bit length prefix. *)

Definition string_wf (s : string) : Prop := str_len s < 2 ^ 32.

Definition value_wf (v : Value) : Prop :=
  match v with
  | VNull | VBool _ => True
  | VInt32 n => is_i 32 n
  | VInt64 n | VTime n => is_i 64 n
  | VFloat b => is_u 32 b
  | VDouble b => is_u 64 b
  | VString s => string_wf s
  | VBytes b => zlength b < 2 ^ 32
  end.

#[export] Instance value_wf_dec v : Decision (value_wf v).
Proof. destruct v; unfold value_wf, string_wf; apply _. Defined.

Definition row_wf (r : Row) : Prop :=
  string_wf (row_key r) ∧
  Z.of_nat (size (row_columns r)) < 2 ^ 32 ∧
  map_Forall (λ name v, string_wf name ∧ value_wf v) (row_columns r).

#[export] Instance string_wf_dec s : Decision (string_wf s).
Proof. unfold string_wf. apply _. Defined.
#[export] Instance row_wf_dec r : Decision (row_wf r).
Proof. unfold row_wf. apply _. Defined.

Definition column_wf (c : Column) : Prop :=
  string_wf (col_name c) ∧ DataType_wf (col_type c).

Definition schema_wf (s : TableSchema) : Prop :=
  string_wf (sch_name s) ∧
  zlength (primary_key s) < 2 ^ 32 ∧ Forall string_wf (primary_key s) ∧
  zlength (sch_columns s) < 2 ^ 32 ∧ Forall column_wf (sch_columns s).
