(* ===== verification/Codec.v ===== *)
(** * Readers and codecs

    The bounded reader shared by the row codec and the write-ahead log, as a
    state-and-exception monad over the bytes not read yet; the interface
    [Codec] that an encoder/decoder pair offers (encoders append to an output
    buffer, decoders give back the value and leave what follows untouched); and
    the interface [Extends] of the readers whose result does not depend on the
    bytes after the ones they consume. *)

From S2P Require Import Prelude.
From coqutil Require Import Byte Word.LittleEndianList.

(** ** The reader monad *)

Definition reader (A : Type) : Type := bytes → exc (A * bytes).

#[export] Instance reader_ret : MRet reader := λ A a p, Ret (a, p).
#[export] Instance reader_bind : MBind reader := λ A B f m p,
  match m p with Ret (a, p') => f a p' | Throw w => Throw w end.

(** Direct access to the bytes not read yet. *)
Definition consume {A} (f : bytes → exc (A * bytes)) : reader A := f.

Definition throw {A} (what : string) : reader A := λ _, Throw what.

Lemma reader_bind_unfold {A B} (m : reader A) (f : A → reader B) p :
  (m ≫= f) p = match m p with Ret (a, p') => f a p' | Throw w => Throw w end.
Proof. done. Qed.

(** [for (i = 0; i < count; i++) body] with an accumulator; an exception leaves
    the loop. *)
Fixpoint repeat_read {A} (count : nat) (body : A → reader A) (acc : A) : reader A :=
  match count with
  | O => mret acc
  | S n => acc' ← body acc; repeat_read n body acc'
  end.

(** ** Codecs *)

Class Codec {A} (put : bytes → A → bytes) (get : reader A) (wf : A → Prop) := {
  codec_append : ∀ out a, put out a = out ++ put [] a;
  codec_read : ∀ a rest, wf a → get (put [] a ++ rest) = Ret (a, rest)
}.

(** Reading what was put, in the middle of a monadic reader. *)
Lemma codec_bind {A B} put get wf `{!Codec put get wf} (a : A) (f : A → reader B) rest :
  wf a → (get ≫= f) (put [] a ++ rest) = f a rest.
Proof. intros Ha. rewrite reader_bind_unfold. by rewrite codec_read. Qed.

(** A counted sequence written by one encoder after another and read back by a
    loop that folds each element into an accumulator. *)
Lemma codec_repeat {A S} put get wf `{!Codec put get wf}
    (body : S → reader S) (upd : S → A → S) (l : list A) :
  (∀ s a rest, wf a → body s (put [] a ++ rest) = Ret (upd s a, rest)) →
  ∀ s rest, Forall wf l →
    repeat_read (length l) body s (fold_left put l [] ++ rest)
    = Ret (fold_left upd l s, rest).
Proof.
  intros Hbody. induction l as [|a l IH]; intros s rest Hl; [done|].
  inversion_clear Hl as [|?? Ha Hl']. simpl.
  assert (∀ l out, fold_left put l out = out ++ fold_left put l []) as Happ.
  { clear -Codec0. induction l as [|a l IH]; intros out; simpl.
    - by rewrite app_nil_r.
    - rewrite (codec_append out), IH, (IH (put [] a)). by rewrite app_assoc. }
  rewrite Happ, <- app_assoc, reader_bind_unfold, Hbody by done.
  by apply IH.
Qed.

Lemma codec_fold_append {A} put get wf `{!Codec put get wf} (l : list A) out :
  fold_left put l out = out ++ fold_left put l [].
Proof.
  revert out. induction l as [|a l IH]; intros out; simpl.
  - by rewrite app_nil_r.
  - rewrite (codec_append out), IH, (IH (put [] a)). by rewrite app_assoc.
Qed.

(** ** Readers that ignore what follows *)

Class Extends {A} (m : reader A) : Prop :=
  extends : ∀ p a rest x, m p = Ret (a, rest) → m (p ++ x) = Ret (a, rest ++ x).

#[export] Instance extends_ret {A} (a : A) : Extends (mret a).
Proof. intros p b rest x [= -> ->]. done. Qed.

#[export] Instance extends_throw {A} w : Extends (throw (A:=A) w).
Proof. by intros p a rest x [=]. Qed.

#[export] Instance extends_bind {A B} (m : reader A) (f : A → reader B) :
  Extends m → (∀ a, Extends (f a)) → Extends (m ≫= f).
Proof.
  intros Hm Hf p b rest x. rewrite !reader_bind_unfold.
  destruct (m p) as [[a p']|] eqn:E; [|done]. intros Hb.
  rewrite (Hm _ _ _ x E). by apply Hf.
Qed.

#[export] Instance extends_repeat {A} n (body : A → reader A) acc :
  (∀ a, Extends (body a)) → Extends (repeat_read n body acc).
Proof.
  intros Hb. revert acc. induction n as [|n IH]; intros acc; simpl; [apply _|].
  apply extends_bind; [apply Hb | apply IH].
Qed.

(** A reader that consumes [p] exactly throws on every proper prefix of [p]. *)
Lemma extends_prefix_throws {A} (m : reader A) p q a :
  Extends m → m (p ++ q) = Ret (a, []) → q ≠ [] → is_throw (m p).
Proof.
  intros Hm Hfull Hq. destruct (m p) as [[b rest]|w] eqn:E; [|by eexists].
  pose proof (Hm _ _ _ q E) as Hx. rewrite Hfull in Hx. simplify_eq.
  by destruct rest, q.
Qed.

(** ** Little-endian words *)

(** [reinterpret_cast<const uint8_t *>] of an [8n]-bit object on a little-endian
    host, and [memcpy] back. *)
Definition le_bytes (n : nat) (z : Z) : bytes := le_split n z.
Definition le_word (b : bytes) : Z := le_combine b.

Lemma le_word_cons b l : le_word (b :: l) = Z.lor (byte.unsigned b) (Z.shiftl (le_word l) 8).
Proof. done. Qed.
Lemma le_word_nil : le_word [] = 0.
Proof. done. Qed.

Lemma le_word_bytes n z : le_word (le_bytes n z) = z mod 2 ^ (8 * Z.of_nat n).
Proof. unfold le_word, le_bytes. rewrite le_combine_split. do 2 f_equal. lia. Qed.

Lemma length_le_bytes n z : length (le_bytes n z) = n.
Proof. apply length_le_split. Qed.
#[export] Hint Rewrite length_le_bytes : odb.

Lemma take_app_exact {A} n (l k : list A) : length l = n → take n (l ++ k) = l.
Proof. intros <-. apply take_app_length. Qed.
Lemma drop_app_exact {A} n (l k : list A) : length l = n → drop n (l ++ k) = k.
Proof. intros <-. apply drop_app_length. Qed.
