(* ===== verification/RowCodec.v ===== *)
(** * The row codec (src/storage/row_codec.cpp)

    The little-endian binary codec of rows and schemas: the append helpers, the
    bounded [Reader], [EncodeValue]/[DecodeValue], [EncodeRow]/[DecodeRow] and
    [EncodeSchema]/[DecodeSchema].  An encoder takes the buffer it appends to.
    A row's columns are a [std::unordered_map], so [EncodeRow] writes them in
    an order given by [HashOrder]. *)

From S2P Require Import Prelude Table Codec.
From coqutil Require Import Byte Word.LittleEndianList.

(** ** Append helpers *)

Definition PutU8 (out : bytes) (v : Z) : bytes := out ++ [byte.of_Z v].

Definition PutU32 (out : bytes) (v : Z) : bytes :=
  out ++ [byte.of_Z v; byte.of_Z (Z.shiftr v 8);
          byte.of_Z (Z.shiftr v 16); byte.of_Z (Z.shiftr v 24)].

Definition PutU64 (out : bytes) (v : Z) : bytes :=
  fold_left (λ out i, out ++ [byte.of_Z (Z.shiftr v (8 * i))]) (seqZ 0 8) out.

Definition PutBytes (out : bytes) (p : bytes) : bytes :=
  PutU32 out (u32 (zlength p)) ++ p.

Definition PutString (out : bytes) (s : string) : bytes := PutBytes out (str_bytes s).

#[global] Arguments PutU8 : simpl never.
#[global] Arguments PutU32 : simpl never.
#[global] Arguments PutU64 : simpl never.
#[global] Arguments PutBytes : simpl never.

(** ** The bounded reader *)

Definition truncated : string := "row_codec: truncated record".

Definition Need (n : Z) : reader () := λ p,
  if zlength p <? n then Throw truncated else Ret ((), p).

Definition U8 : reader Z :=
  Need 1;; consume (λ p,
  match p with
  | b0 :: p' => Ret (byte.unsigned b0, p')
  | _ => Throw truncated
  end).

Definition U32 : reader Z :=
  Need 4;; consume (λ p,
  match p with
  | b0 :: b1 :: b2 :: b3 :: p' =>
      Ret (Z.lor (Z.lor (Z.lor (byte.unsigned b0)
                               (Z.shiftl (byte.unsigned b1) 8))
                        (Z.shiftl (byte.unsigned b2) 16))
                 (Z.shiftl (byte.unsigned b3) 24), p')
  | _ => Throw truncated
  end).

Definition U64 : reader Z :=
  Need 8;; consume (λ p,
  Ret (fold_left (λ v i, Z.lor v (Z.shiftl (byte.unsigned (nth i p Byte.x00))
                                           (8 * Z.of_nat i))) (seq 0 8) 0,
       drop 8 p)).

Definition Str : reader string :=
  n ← U32;
  Need n;; consume (λ p, Ret (bytes_str (take (Z.to_nat n) p), drop (Z.to_nat n) p)).

Definition Bytes : reader bytes :=
  n ← U32;
  Need n;; consume (λ p, Ret (take (Z.to_nat n) p, drop (Z.to_nat n) p)).

(** [Fixed<T>] for a [T] of [n] bytes: the raw little-endian word. *)
Definition Fixed (n : nat) : reader Z :=
  Need (Z.of_nat n);; consume (λ p, Ret (le_word (take n p), drop n p)).

(** ** Values *)

Definition TAG_NULL := 0.
Definition TAG_INT32 := 1.
Definition TAG_INT64 := 2.
Definition TAG_FLOAT := 3.
Definition TAG_DOUBLE := 4.
Definition TAG_STRING := 5.
Definition TAG_BYTES := 6.
Definition TAG_BOOL := 7.
Definition TAG_TIMESTAMP := 8.

Definition EncodeValue (out : bytes) (value : Value) : bytes :=
  match value with
  | VNull => PutU8 out TAG_NULL
  | VInt32 v => PutU8 out TAG_INT32 ++ le_bytes 4 v
  | VInt64 v => PutU8 out TAG_INT64 ++ le_bytes 8 v
  | VFloat v => PutU8 out TAG_FLOAT ++ le_bytes 4 v
  | VDouble v => PutU8 out TAG_DOUBLE ++ le_bytes 8 v
  | VString v => PutString (PutU8 out TAG_STRING) v
  | VBytes v => PutBytes (PutU8 out TAG_BYTES) v
  | VBool v => PutU8 (PutU8 out TAG_BOOL) (if v then 1 else 0)
  | VTime ns => PutU64 (PutU8 out TAG_TIMESTAMP) (u64 ns)
  end.

Definition DecodeValue : reader Value :=
  tag ← U8;
  match tag with
  | 0 => mret VNull
  | 1 => v ← Fixed 4; mret (VInt32 (i32 v))
  | 2 => v ← Fixed 8; mret (VInt64 (i64 v))
  | 3 => v ← Fixed 4; mret (VFloat v)
  | 4 => v ← Fixed 8; mret (VDouble v)
  | 5 => s ← Str; mret (VString s)
  | 6 => b ← Bytes; mret (VBytes b)
  | 7 => v ← U8; mret (VBool (negb (v =? 0)))
  | 8 => v ← U64; mret (VTime (i64 v))
  | _ => throw "row_codec: unknown value tag"
  end.

(** ** Rows *)

Definition PutColumn (out : bytes) (nv : string * Value) : bytes :=
  EncodeValue (PutString out nv.1) nv.2.

Definition EncodeRow `{HashOrder} (row : Row) : bytes :=
  let out := PutString [] (row_key row) in
  let out := PutU32 out (u32 (Z.of_nat (size (row_columns row)))) in
  fold_left PutColumn (hash_iter (row_columns row)) out.

Definition ReadColumn (columns : gmap string Value) : reader (gmap string Value) :=
  name ← Str;
  v ← DecodeValue;
  mret (<[name := v]> columns).

Definition ReadRow : reader Row :=
  key ← Str;
  count ← U32;
  columns ← repeat_read (Z.to_nat count) ReadColumn ∅;
  mret (mkRow key columns).

(** [DecodeRow] returns after the last column, whatever follows. *)
Definition DecodeRow (data : bytes) : exc Row := fst <$> ReadRow data.

(** ** Schemas *)

Definition PutSchemaColumn (out : bytes) (col : Column) : bytes :=
  let out := PutString out (col_name col) in
  let out := PutU8 out (u8 (DataType_to_int (col_type col))) in
  let out := PutU8 out (if nullable col then 1 else 0) in
  PutU8 out (if is_primary_key col then 1 else 0).

Definition EncodeSchema (schema : TableSchema) : bytes :=
  let out := PutString [] (sch_name schema) in
  let out := PutU32 out (u32 (zlength (primary_key schema))) in
  let out := fold_left PutString (primary_key schema) out in
  let out := PutU32 out (u32 (zlength (sch_columns schema))) in
  fold_left PutSchemaColumn (sch_columns schema) out.

Definition ReadSchemaColumn : reader Column :=
  name ← Str;
  ty ← U8;
  nu ← U8;
  pk ← U8;
  mret {| col_name := name; col_type := DataType_of_int ty;
          nullable := negb (nu =? 0); is_primary_key := negb (pk =? 0);
          default_value := DefNone |}.

Definition ReadSchema : reader TableSchema :=
  name ← Str;
  pk_count ← U32;
  pks ← repeat_read (Z.to_nat pk_count) (λ acc, s ← Str; mret (acc ++ [s])) [];
  col_count ← U32;
  cols ← repeat_read (Z.to_nat col_count)
           (λ acc, c ← ReadSchemaColumn; mret (acc ++ [c])) [];
  mret {| sch_name := name; sch_columns := cols; primary_key := pks; sch_options := ∅ |}.

Definition DecodeSchema (data : bytes) : exc TableSchema := fst <$> ReadSchema data.

(** ** Words: the shift-and-or loops are the little-endian words *)

Lemma PutU32_le out v : PutU32 out v = out ++ le_bytes 4 v.
Proof.
  unfold PutU32, le_bytes. reflexivity.
Qed.

Lemma PutU64_le out v : PutU64 out v = out ++ le_bytes 8 v.
Proof.
  unfold PutU64, le_bytes. change (seqZ 0 8) with [0;1;2;3;4;5;6;7].
  cbn [fold_left]. rewrite <- !app_assoc. reflexivity.
Qed.


Lemma Need_ok n p : n <= zlength p → Need n p = Ret ((), p).
Proof. intros. unfold Need. by rewrite (proj2 (Z.ltb_ge _ _)). Qed.

Lemma Need_app n (l rest : bytes) : n = zlength l → Need n (l ++ rest) = Ret ((), l ++ rest).
Proof. intros ->. apply Need_ok. rewrite zlength_app. pose proof (zlength_nonneg rest). lia. Qed.

Lemma Need_short n p : zlength p < n → Need n p = Throw truncated.
Proof. intros. unfold Need. by rewrite (proj2 (Z.ltb_lt _ _)). Qed.

Lemma U32_bytes l rest : length l = 4%nat → U32 (l ++ rest) = Ret (le_word l, rest).
Proof.
  intros Hl. unfold U32. rewrite reader_bind_unfold, Need_app by (unfold zlength; lia).
  do 4 (destruct l as [|? l]; [done|]). destruct l; [|done]. unfold consume. simpl.
  rewrite !le_word_cons, le_word_nil. do 2 f_equal.
  rewrite !Z.shiftl_lor, !Z.shiftl_shiftl, Z.shiftl_0_l, Z.lor_0_r by lia.
  by rewrite !Z.lor_assoc.
Qed.

Lemma U64_bytes l rest : length l = 8%nat → U64 (l ++ rest) = Ret (le_word l, rest).
Proof.
  intros Hl. unfold U64. rewrite reader_bind_unfold, Need_app by (unfold zlength; lia).
  do 8 (destruct l as [|? l]; [done|]). destruct l; [|done]. unfold consume.
  simpl. unfold drop, skipn. rewrite !le_word_cons, le_word_nil. do 2 f_equal.
  rewrite !Z.shiftl_lor, !Z.shiftl_shiftl, Z.shiftl_0_l, Z.lor_0_r by lia.
  change (8 * Z.of_nat 0) with 0. rewrite ?Z.shiftl_0_r.
  by rewrite !Z.lor_assoc.
Qed.

Lemma Fixed_bytes n l rest : length l = n → Fixed n (l ++ rest) = Ret (le_word l, rest).
Proof.
  intros Hl. unfold Fixed. rewrite reader_bind_unfold, Need_app by (unfold zlength; lia).
  unfold consume. by rewrite take_app_exact, drop_app_exact.
Qed.

(** ** Every encoder/decoder pair is a codec *)

#[export] Instance U8_codec : Codec PutU8 U8 (is_u 8).
Proof.
  split; [done|]. intros v rest Hv. unfold U8, PutU8.
  rewrite reader_bind_unfold, Need_app by done. unfold consume. simpl.
  rewrite byte.unsigned_of_Z. unfold byte.wrap. by rewrite Z.mod_small.
Qed.
Lemma PutU8_app out v : PutU8 out v = out ++ PutU8 [] v.
Proof. apply (@codec_append _ _ _ _ U8_codec). Qed.

#[export] Instance U32_codec : Codec PutU32 U32 (is_u 32).
Proof.
  split; [intros; by rewrite !PutU32_le|]. intros v rest Hv.
  rewrite PutU32_le, app_nil_l, U32_bytes, le_word_bytes by apply length_le_bytes.
  by rewrite Z.mod_small.
Qed.
Lemma PutU32_app out v : PutU32 out v = out ++ PutU32 [] v.
Proof. apply (@codec_append _ _ _ _ U32_codec). Qed.

#[export] Instance U64_codec : Codec PutU64 U64 (is_u 64).
Proof.
  split; [intros; by rewrite !PutU64_le|]. intros v rest Hv.
  rewrite PutU64_le, app_nil_l, U64_bytes, le_word_bytes by apply length_le_bytes.
  by rewrite Z.mod_small.
Qed.
Lemma PutU64_app out v : PutU64 out v = out ++ PutU64 [] v.
Proof. apply (@codec_append _ _ _ _ U64_codec). Qed.

Lemma is_u32_zlength {A} (l : list A) : zlength l < 2 ^ 32 → is_u 32 (u32 (zlength l)).
Proof. intros H. pose proof (zlength_nonneg l). by rewrite u32_small; split. Qed.

#[export] Instance Bytes_codec : Codec PutBytes Bytes (λ b, zlength b < 2 ^ 32).
Proof.
  split; [intros; unfold PutBytes; by rewrite (PutU32_app out), app_assoc|].
  intros b rest Hb. pose proof (zlength_nonneg b). unfold PutBytes, Bytes.
  rewrite <- app_assoc. erewrite codec_bind by (first [apply _ | by apply is_u32_zlength]).
  rewrite u32_small by done. rewrite reader_bind_unfold, Need_app by done.
  unfold consume. by rewrite take_app_exact, drop_app_exact by (unfold zlength; lia).
Qed.
Lemma PutBytes_app out v : PutBytes out v = out ++ PutBytes [] v.
Proof. apply (@codec_append _ _ _ _ Bytes_codec). Qed.

#[export] Instance String_codec : Codec PutString Str string_wf.
Proof.
  split; [intros; unfold PutString; by rewrite (PutBytes_app out)|].
  intros s rest Hs. unfold string_wf, str_len in Hs. pose proof (zlength_nonneg (str_bytes s)).
  unfold PutString, PutBytes, Str.
  rewrite <- app_assoc. erewrite codec_bind by (first [apply _ | by apply is_u32_zlength]).
  rewrite u32_small by done. rewrite reader_bind_unfold, Need_app by done.
  unfold consume. rewrite take_app_exact, drop_app_exact by (unfold zlength; lia).
  by rewrite bytes_str_bytes.
Qed.
Lemma PutString_app out v : PutString out v = out ++ PutString [] v.
Proof. apply (@codec_append _ _ _ _ String_codec). Qed.

(** The tag byte, then what the case of [EncodeValue] wrote. *)
Lemma tag_read {A} (t : Z) (f : Z → reader A) rest :
  is_u 8 t → (U8 ≫= f) (PutU8 [] t ++ rest) = f t rest.
Proof. apply codec_bind; apply _. Qed.

Lemma Fixed_read n v rest :
  Fixed n (le_bytes n v ++ rest) = Ret (v mod 2 ^ (8 * Z.of_nat n), rest).
Proof. rewrite Fixed_bytes, le_word_bytes by apply length_le_bytes. done. Qed.


Lemma EncodeValue_append out v : EncodeValue out v = out ++ EncodeValue [] v.
Proof.
  destruct v; simpl; unfold PutString;
    rewrite ?(PutBytes_app (PutU8 _ _)), ?(PutU64_app (PutU8 _ _)),
      ?(PutU8_app (PutU8 out _)), ?(PutU8_app (PutU8 [] _)), ?(PutU8_app out);
    rewrite <- ?app_assoc; reflexivity.
Qed.

Lemma i32_wrap n : is_i 32 n → i32 (n mod 2 ^ 32) = n.
Proof. apply signed_mod. lia. Qed.
Lemma i64_wrap n : is_i 64 n → i64 (n mod 2 ^ 64) = n.
Proof. apply signed_mod. lia. Qed.

#[export] Instance Value_codec : Codec EncodeValue DecodeValue value_wf.
Proof.
  split; [apply EncodeValue_append|].
  intros v rest Hv. unfold DecodeValue.
  destruct v; simpl in Hv; cbn [EncodeValue]; unfold PutString;
    rewrite ?(PutBytes_app (PutU8 _ _)), ?(PutU64_app (PutU8 _ _)),
      ?(PutU8_app (PutU8 _ _)), <- ?app_assoc, tag_read by done;
    cbv beta iota delta [TAG_NULL TAG_INT32 TAG_INT64 TAG_FLOAT TAG_DOUBLE
      TAG_STRING TAG_BYTES TAG_BOOL TAG_TIMESTAMP];
    try done; rewrite reader_bind_unfold.
  - by rewrite Fixed_read, i32_wrap.
  - by rewrite Fixed_read, i64_wrap.
  - rewrite Fixed_read. by rewrite Z.mod_small.
  - rewrite Fixed_read. by rewrite Z.mod_small.
  - change (PutBytes [] (str_bytes s)) with (PutString [] s). by rewrite codec_read.
  - by rewrite codec_read.
  - rewrite codec_read by by destruct b. by destruct b.
  - rewrite codec_read by (apply Z.mod_pos_bound; lia). unfold u64. simpl.
    by rewrite i64_wrap.
Qed.

(** ** Rows and schemas round-trip *)

Definition column_entry_wf (nv : string * Value) : Prop :=
  string_wf nv.1 ∧ value_wf nv.2.

#[export] Instance Column_entry_codec :
  Codec PutColumn (name ← Str; v ← DecodeValue; mret (name, v)) column_entry_wf.
Proof.
  split.
  - intros out [n v]. unfold PutColumn. simpl.
    by rewrite (EncodeValue_append (PutString out n)), (PutString_app out),
      (EncodeValue_append (PutString [] n)), app_assoc.
  - intros [n v] rest [Hn Hv]. unfold PutColumn. simpl in *.
    rewrite (EncodeValue_append (PutString [] n)), <- app_assoc.
    erewrite codec_bind by (apply _ || done).
    by erewrite codec_bind by (apply _ || done).
Qed.

Lemma ReadColumn_put columns nv rest :
  column_entry_wf nv →
  ReadColumn columns (PutColumn [] nv ++ rest) = Ret (<[nv.1 := nv.2]> columns, rest).
Proof.
  destruct nv as [n v]. intros [Hn Hv]. unfold ReadColumn, PutColumn. simpl in *.
  rewrite (EncodeValue_append (PutString [] n)), <- app_assoc.
  erewrite codec_bind by (apply _ || done).
  by erewrite codec_bind by (apply _ || done).
Qed.

Lemma fold_left_insert {A} (l : list (string * A)) (m : gmap string A) :
  NoDup l.*1 →
  fold_left (λ m nv, <[nv.1 := nv.2]> m) l m = list_to_map l ∪ m.
Proof.
  revert m. induction l as [|[n v] l IH]; intros m; simpl; [by rewrite (left_id_L ∅ (∪))|].
  intros [Hn Hl]%NoDup_cons. rewrite IH by done.
  rewrite <- insert_union_l, <- insert_union_r; [done|].
  by apply not_elem_of_list_to_map.
Qed.

Section row_codec.
Context `{HO : HashOrder}.

Lemma hash_iter_wf (cols : gmap string Value) :
  map_Forall (λ name v, string_wf name ∧ value_wf v) cols →
  Forall column_entry_wf (hash_iter cols).
Proof.
  intros H. apply Forall_forall. intros [n v] Hnv%elem_of_hash_iter.
  by apply (H n v).
Qed.

Lemma ReadRow_EncodeRow row rest :
  row_wf row →
  ReadRow (EncodeRow row ++ rest) = Ret (mkRow (row_key row) (row_columns row), rest).
Proof.
  intros (Hk & Hn & Hc). unfold ReadRow, EncodeRow.
  erewrite (codec_fold_append PutColumn), PutU32_app by apply _.
  rewrite <- !app_assoc.
  erewrite codec_bind by (apply _ || done).
  erewrite codec_bind; [| apply _ | rewrite u32_small; unfold is_u; lia].
  rewrite u32_small by (unfold is_u; lia).
  rewrite Nat2Z.id, <- length_hash_iter, reader_bind_unfold.
  erewrite (codec_repeat PutColumn);
    [| apply _ | apply ReadColumn_put | by apply hash_iter_wf].
  rewrite fold_left_insert by apply hash_iter_NoDup.
  by rewrite list_to_hash_iter, (right_id_L ∅ (∪)).
Qed.

(** C25. The row codec round-trips: decoding what [EncodeRow] produced, with
    any bytes after it, gives back the key and every column with its exact
    [Value] alternative (int32/int64 and float/double are not confused); the
    MVCC version and timestamp are not stored and come back as 0. *)
Theorem DecodeRow_EncodeRow row rest :
  row_wf row →
  DecodeRow (EncodeRow row ++ rest) = Ret (mkRow (row_key row) (row_columns row)).
Proof. intros H. unfold DecodeRow. by rewrite ReadRow_EncodeRow. Qed.
End row_codec.

Definition demo_row : Row :=
  mkRow "u1" {[ "id" := VInt32 (-5); "big" := VInt64 (2 ^ 40); "name" := VString "Ada";
                "raw" := VBytes [Byte.x00; Byte.xff]; "ok" := VBool true;
                "pi" := VDouble 4614256656552045848; "none" := VNull; "at" := VTime (-1) ]}.

Lemma demo_row_wf : row_wf demo_row.
Proof. apply (bool_decide_unpack _). vm_compute. exact I. Qed.

Lemma DecodeRow_EncodeRow_witness :
  DecodeRow (EncodeRow (H:=std_order) demo_row ++ [Byte.x2a])
  = Ret (mkRow "u1" (row_columns demo_row)).
Proof. apply (DecodeRow_EncodeRow (HO:=std_order) demo_row [Byte.x2a] demo_row_wf). Defined.

(** ** Truncated records *)

Lemma Need_Ret n p u rest : Need n p = Ret (u, rest) → rest = p ∧ n <= zlength p.
Proof. unfold Need. destruct (zlength p <? n) eqn:E; [done|]. intros [=]. split; [done|lia]. Qed.

(** A reader that needs [n] bytes and then looks at those bytes only. *)
Lemma extends_need {A} n (f : bytes → exc (A * bytes)) :
  (∀ p x, n <= zlength p → f (p ++ x) = match f p with
                                        | Ret (a, r) => Ret (a, r ++ x)
                                        | Throw w => Throw w end) →
  Extends (Need n;; consume f).
Proof.
  intros Hf p a rest x. rewrite !reader_bind_unfold.
  destruct (Need n p) as [[u p']|] eqn:E; [|done].
  apply Need_Ret in E as [-> Hn]. unfold consume. intros Hp.
  rewrite Need_ok by (rewrite zlength_app; pose proof (zlength_nonneg x); lia).
  by rewrite Hf, Hp.
Qed.

#[export] Instance extends_U8 : Extends U8.
Proof. apply extends_need. intros [|b p] x H; [by unfold zlength in H; simpl in H; lia|done]. Qed.

#[export] Instance extends_U32 : Extends U32.
Proof.
  apply extends_need. intros p x H. unfold zlength in H.
  do 4 (destruct p as [|? p]; [by simpl in H; lia|]). done.
Qed.

Lemma take_drop_app_le {A} (n : nat) (p x : list A) :
  (n <= length p)%nat → take n (p ++ x) = take n p ∧ drop n (p ++ x) = drop n p ++ x.
Proof. intros. by rewrite take_app_le, drop_app_le. Qed.

#[export] Instance extends_Fixed n : Extends (Fixed n).
Proof.
  apply extends_need. intros p x H. unfold zlength in H.
  destruct (take_drop_app_le n p x) as [-> ->]; [lia|done].
Qed.

#[export] Instance extends_U64 : Extends U64.
Proof.
  apply extends_need. intros p x H. unfold zlength in H.
  do 8 (destruct p as [|? p]; [by simpl in H; lia|]). done.
Qed.

#[export] Instance extends_Bytes : Extends Bytes.
Proof.
  apply extends_bind; [apply _|]. intros n. apply extends_need. intros p x H.
  unfold zlength in H. destruct (take_drop_app_le (Z.to_nat n) p x) as [-> ->]; [lia|done].
Qed.

#[export] Instance extends_Str : Extends Str.
Proof.
  apply extends_bind; [apply _|]. intros n. apply extends_need. intros p x H.
  unfold zlength in H. destruct (take_drop_app_le (Z.to_nat n) p x) as [-> ->]; [lia|done].
Qed.

#[export] Instance extends_DecodeValue : Extends DecodeValue.
Proof.
  apply extends_bind; [apply _|]. intros tag.
  destruct tag as [|p|p]; [apply _| |apply _].
  do 4 (destruct p as [p|p|]; try apply _).
Qed.

#[export] Instance extends_ReadColumn m : Extends (ReadColumn m).
Proof. unfold ReadColumn. repeat (apply extends_bind; [apply _|intros]). apply _. Qed.

#[export] Instance extends_ReadRow : Extends ReadRow.
Proof. unfold ReadRow. repeat (apply extends_bind; [apply _|intros]). apply _. Qed.

Section row_truncation.
Context `{HO : HashOrder}.

(** A truncated row record is always rejected: decoding any proper prefix
    of an encoded row throws (no read past the end, no partial row). *)
Theorem DecodeRow_truncated row p q :
  row_wf row → EncodeRow row = p ++ q → q ≠ [] → is_throw (DecodeRow p).
Proof.
  intros Hwf E Hq. unfold DecodeRow.
  destruct (extends_prefix_throws ReadRow p q _ _
              (eq_trans (f_equal ReadRow (eq_trans (eq_sym E) (eq_sym (app_nil_r _))))
                        (ReadRow_EncodeRow row [] Hwf)) Hq) as [w Hw].
  exists w. by rewrite Hw.
Qed.
End row_truncation.

Lemma DecodeRow_truncated_witness :
  is_throw (DecodeRow (take 40 (EncodeRow (H:=std_order) demo_row))).
Proof.
  apply (DecodeRow_truncated (HO:=std_order) demo_row _
           (drop 40 (EncodeRow (H:=std_order) demo_row)) demo_row_wf);
    [by rewrite take_drop | by vm_compute].
Defined.

(** ** Schemas *)

(** What the codec keeps of a column: everything but the default value. *)
Definition stored_column (c : Column) : Column :=
  {| col_name := col_name c; col_type := col_type c; nullable := nullable c;
     is_primary_key := is_primary_key c; default_value := DefNone |}.

Lemma bool_flag (b : bool) : negb ((if b then 1 else 0) =? 0) = b.
Proof. by destruct b. Qed.

#[export] Instance Schema_column_codec :
  Codec PutSchemaColumn ReadSchemaColumn
    (λ c, column_wf c ∧ stored_column c = c).
Proof.
  split.
  - intros out c. unfold PutSchemaColumn.
    rewrite (PutU8_app (PutU8 (PutU8 (PutString out _) _) _)), (PutU8_app (PutU8 (PutString out _) _)),
      (PutU8_app (PutString out _)), (PutString_app out).
    rewrite (PutU8_app (PutU8 (PutU8 (PutString [] _) _) _)), (PutU8_app (PutU8 (PutString [] _) _)),
      (PutU8_app (PutString [] _)). by rewrite <- !app_assoc.
  - intros c rest [[Hn Ht] Hs]. unfold PutSchemaColumn, ReadSchemaColumn.
    rewrite (PutU8_app (PutU8 (PutU8 (PutString [] _) _) _)), (PutU8_app (PutU8 (PutString [] _) _)),
      (PutU8_app (PutString [] _)), <- !app_assoc.
    erewrite codec_bind by (apply _ || done).
    pose proof (DataType_to_int_range _ Ht).
    assert (u8 (DataType_to_int (col_type c)) = DataType_to_int (col_type c)) as Hu
      by (unfold u8; by rewrite Z.mod_small).
    rewrite Hu. rewrite !tag_read by by (destruct (nullable c), (is_primary_key c)).
    cbn. rewrite !bool_flag, DataType_of_to_int by done.
    change (Ret (stored_column c, rest) = Ret (c, rest)). by rewrite Hs.
Qed.

Lemma PutSchemaColumn_stored out c :
  PutSchemaColumn out (stored_column c) = PutSchemaColumn out c.
Proof. done. Qed.

Lemma fold_stored l out :
  fold_left PutSchemaColumn (stored_column <$> l) out = fold_left PutSchemaColumn l out.
Proof. revert out. induction l as [|c l IH]; intros out; [done|]. simpl. by rewrite IH. Qed.

Lemma fold_snoc {A} (l acc : list A) : fold_left (λ acc a, acc ++ [a]) l acc = acc ++ l.
Proof.
  revert acc. induction l as [|a l IH]; intros acc; simpl; [by rewrite app_nil_r|].
  by rewrite IH, <- app_assoc.
Qed.

Lemma snoc_loop {A} put get wf `{!Codec put get wf} (l : list A) rest :
  Forall wf l →
  repeat_read (length l) (λ acc, a ← get; mret (acc ++ [a])) [] (fold_left put l [] ++ rest)
  = Ret (l, rest).
Proof.
  intros Hl. erewrite (codec_repeat put) with (upd := λ acc a, acc ++ [a]);
    [by rewrite fold_snoc | apply _ | | done].
  intros s a r Ha. by erewrite codec_bind by (apply _ || done).
Qed.

(** The schema codec keeps the name, the primary key and every column's
    name, type, nullability and key flag, in order; options and default values
    are not stored. *)
Theorem DecodeSchema_EncodeSchema s rest :
  schema_wf s →
  DecodeSchema (EncodeSchema s ++ rest)
  = Ret {| sch_name := sch_name s; sch_columns := stored_column <$> sch_columns s;
           primary_key := primary_key s; sch_options := ∅ |}.
Proof.
  intros (Hn & Hpl & Hp & Hcl & Hc). unfold DecodeSchema, EncodeSchema.
  erewrite (codec_fold_append PutSchemaColumn), PutU32_app, (codec_fold_append PutString),
    (PutU32_app (PutString [] _)) by apply _.
  rewrite <- !app_assoc. unfold ReadSchema.
  erewrite codec_bind by (apply _ || done).
  erewrite codec_bind by (apply _ || by apply is_u32_zlength).
  rewrite u32_small by (split; [apply zlength_nonneg|done]).
  unfold zlength at 1. rewrite Nat2Z.id, reader_bind_unfold.
  erewrite snoc_loop by (apply _ || done).
  erewrite codec_bind by (apply _ || by apply is_u32_zlength).
  rewrite u32_small by (split; [apply zlength_nonneg|done]).
  unfold zlength. rewrite Nat2Z.id, reader_bind_unfold, <- fold_stored.
  rewrite <- (length_fmap stored_column (sch_columns s)).
  erewrite (snoc_loop PutSchemaColumn); [done | apply _ |].
  apply Forall_fmap. eapply Forall_impl; [exact Hc|]. intros c Hcc. by split.
Qed.

Definition demo_schema : TableSchema :=
  {| sch_name := "users";
     sch_columns := [ {| col_name := "id"; col_type := INT64; nullable := false;
                         is_primary_key := true; default_value := DefInt 7 |};
                      {| col_name := "name"; col_type := STRING; nullable := true;
                         is_primary_key := false; default_value := DefNone |} ];
     primary_key := ["id"]; sch_options := {[ "ttl" := "60" ]} |}.

Lemma DecodeSchema_EncodeSchema_witness :
  DecodeSchema (EncodeSchema demo_schema ++ [])
  = Ret {| sch_name := "users"; sch_columns := stored_column <$> sch_columns demo_schema;
           primary_key := ["id"]; sch_options := ∅ |}.
Proof.
  apply (DecodeSchema_EncodeSchema demo_schema []).
  unfold schema_wf, column_wf, string_wf. simpl. repeat split; repeat constructor.
Defined.
