(* ===== verification/Float64.v ===== *)
(** * IEEE-754 numbers, as bit patterns

    The C++ code stores [float] and [double] values, converts between them and
    the integers, compares them and parses decimal literals with [std::stod].
    A number is its bit pattern; it is decoded to the Standard Library's
    [spec_float] for arithmetic, so everything here is executable. *)

From Stdlib Require Import Floats.SpecFloat.
From S2P Require Import Prelude.

(** [mw] mantissa bits, [ew] exponent bits. *)
Definition bits_sign (mw ew b : Z) : bool := Z.testbit b (mw + ew).
Definition bits_exp (mw ew b : Z) : Z := Z.land (Z.shiftr b mw) (2 ^ ew - 1).
Definition bits_man (mw b : Z) : Z := Z.land b (2 ^ mw - 1).

Definition sf_of_bits (mw ew b : Z) : spec_float :=
  let s := bits_sign mw ew b in
  let e := bits_exp mw ew b in
  let m := bits_man mw b in
  let bias := 2 ^ (ew - 1) - 1 in
  if e =? 0 then
    match m with
    | Zpos p => S754_finite s p (1 - bias - mw)
    | _ => S754_zero s
    end
  else if e =? 2 ^ ew - 1 then
    if m =? 0 then S754_infinity s else S754_nan
  else
    match m + 2 ^ mw with
    | Zpos p => S754_finite s p (e - bias - mw)
    | _ => S754_nan
    end.

Definition double_sf (b : Z) : spec_float := sf_of_bits 52 11 b.
Definition float_sf (b : Z) : spec_float := sf_of_bits 23 8 b.

Definition sign_bit (s : bool) : Z := if s then 2 ^ 63 else 0.

(** The bit pattern of a binary64 number in canonical form. *)
Definition double_bits (f : spec_float) : Z :=
  match f with
  | S754_zero s => sign_bit s
  | S754_infinity s => sign_bit s + 2047 * 2 ^ 52
  | S754_nan => 2047 * 2 ^ 52 + 2 ^ 51
  | S754_finite s m e =>
      if Zpos m <? 2 ^ 52 then sign_bit s + Zpos m
      else sign_bit s + (e + 1075) * 2 ^ 52 + (Zpos m - 2 ^ 52)
  end.

Definition double_normalize (m e : Z) (neg_zero : bool) : spec_float :=
  binary_normalize 53 1024 m e neg_zero.

(** [static_cast<double>] of a [float]: exact; a NaN keeps its payload and is
    made quiet. *)
Definition double_of_float (b : Z) : Z :=
  match float_sf b with
  | S754_finite s m e => double_bits (double_normalize (cond_Zopp s (Zpos m)) e s)
  | S754_nan => sign_bit (bits_sign 23 8 b) + 2047 * 2 ^ 52
                + Z.lor (2 ^ 51) (Z.shiftl (bits_man 23 b) 29)
  | f => double_bits f
  end.

(** [static_cast<double>] of an integer: rounded to nearest even. *)
Definition double_of_int (n : Z) : Z := double_bits (double_normalize n 0 false).

Definition double_finite (b : Z) : bool := negb (bits_exp 52 11 b =? 2047).

(** The comparison operators of [double]. *)
Definition double_eq (a b : Z) : bool := SFeqb (double_sf a) (double_sf b).
Definition double_lt (a b : Z) : bool := SFltb (double_sf a) (double_sf b).
Definition double_le (a b : Z) : bool := SFleb (double_sf a) (double_sf b).

(** The double nearest to the rational [± m / d] ([0 < d]); [None] when the
    result overflows, and when it is inexact and below the normal range: glibc
    sets [ERANGE] for both. *)
Definition ratio_to_double (neg : bool) (m d : Z) : option Z :=
  match m with
  | Zpos _ =>
      let '(q, e, l) := SFdiv_core_binary 53 1024 m 0 d 0 in
      match binary_round_aux 53 1024 neg q e l with
      | S754_finite s p e' =>
          if (Zpos p <? 2 ^ 52) && negb (Zpos p * d =? m * 2 ^ (- e'))
          then None else Some (double_bits (S754_finite s p e'))
      | _ => None
      end
  | _ => Some (sign_bit neg)
  end.

(** [std::stod] on a decimal literal [± m / 10^k]; throws [std::out_of_range]
    for [None]. *)
Definition decimal_to_double (neg : bool) (m : Z) (k : nat) : option Z :=
  ratio_to_double neg m (10 ^ Z.of_nat k).

Example stod_pi : decimal_to_double false 314 2 = Some 4614253070214989087.
Proof. vm_compute. reflexivity. Qed.
Example stod_tenth : decimal_to_double true 1 1 = Some (2 ^ 63 + 4591870180066957722).
Proof. vm_compute. reflexivity. Qed.
Example stod_overflow : decimal_to_double false (10 ^ 309) 0 = None.
Proof. vm_compute. reflexivity. Qed.
Example stod_underflow : decimal_to_double false 1 330 = None.
Proof. vm_compute. reflexivity. Qed.
Example int_rounds : double_of_int (2 ^ 53 + 1) = double_of_int (2 ^ 53).
Proof. vm_compute. reflexivity. Qed.
Example float_widens : double_of_float 1078530011 = 4614256656748904448.
Proof. vm_compute. reflexivity. Qed.
Example bits_roundtrip :
  Forall (λ b, double_bits (double_sf b) = b)
    [0; 2 ^ 63; 1; 2 ^ 52; 4614253070214989087; 2047 * 2 ^ 52; 2 ^ 63 + 7].
Proof. repeat constructor. Qed.

(** A NaN compares false with everything, itself included. *)
Lemma double_nan_compare a b :
  double_sf a = S754_nan → double_eq a b = false ∧ double_lt a b = false ∧ double_le a b = false.
Proof. intros H. unfold double_eq, double_lt, double_le. rewrite H. by destruct (double_sf b). Qed.
