(* ===== verification/Json.v ===== *)
(** * JSON values and the JSON library

    The sources build, print and parse JSON with the third-party library
    nlohmann::json.  Its value type is the inductive [json]; [dump] and [parse]
    are operations of the interface [JsonLib], whose only law is the round trip
    its documentation states: a valid value prints to a UTF-8 text, and the text
    parses back to what JSON can express of it ([json_text]).  Strings that are not UTF-8 make
    [dump] throw, binary values print as an object, non-finite numbers print as
    null. *)

From Stdlib Require Import Strings.Ascii.
From S2P Require Import Prelude Float64.
From coqutil Require Import Byte.

(** An object is a [std::map]: its fields are sorted by key. *)
#[warnings="-register-all"]
Inductive json :=
| JNull
| JBool (b : bool)
| JInt (n : Z)
| JFloat (bits : Z)
| JString (s : string)
| JBinary (b : bytes)
| JArray (l : list json)
| JObject (fields : list (string * json)).

(** ** Objects *)

Definition object_of (m : gmap string json) : json := JObject (map_iter m).

Fixpoint field (k : string) (fields : list (string * json)) : option json :=
  match fields with
  | [] => None
  | (k', v) :: fs => if decide (k = k') then Some v else field k fs
  end.

(** [j.find(k)] / [j.contains(k)] on any value: only an object has fields. *)
Definition json_field (k : string) (j : json) : option json :=
  match j with JObject fs => field k fs | _ => None end.

Definition is_object (j : json) : bool := match j with JObject _ => true | _ => false end.
Definition is_number (j : json) : bool :=
  match j with JInt _ | JFloat _ => true | _ => false end.
(** [get<double>()] of a number. *)
Definition json_double (j : json) : Z :=
  match j with JInt n => double_of_int n | JFloat b => b | _ => 0 end.

Lemma field_elem k fs v : NoDup fs.*1 → field k fs = Some v ↔ (k, v) ∈ fs.
Proof.
  induction fs as [|[k' v'] fs IH]; simpl; intros Hnd.
  - split; [done|by intros ?%not_elem_of_nil].
  - apply NoDup_cons in Hnd as [Hk' Hnd]. rewrite elem_of_cons. case_decide as E.
    + subst. split; [intros [= ->]; by left|].
      intros [[= ->]|Hin]; [done|]. exfalso. apply Hk'. by apply (list_elem_of_fmap_2 fst) in Hin.
    + rewrite IH by done. split; [by right|]. intros [[= ? ?]|?]; [done|done].
Qed.

Lemma json_field_object k m : json_field k (object_of m) = m !! k.
Proof.
  simpl. destruct (m !! k) as [v|] eqn:E.
  - apply field_elem; [apply map_iter_NoDup|]. by apply elem_of_map_iter.
  - destruct (field k (map_iter m)) as [v|] eqn:Ef; [|done].
    apply field_elem, elem_of_map_iter in Ef; [congruence|apply map_iter_NoDup].
Qed.

(** ** UTF-8 *)

(** The byte sequences of RFC 3629, which [dump] accepts in strings. *)
Definition in_range (lo hi : Z) (b : Byte.byte) : bool :=
  (lo <=? byte.unsigned b) && (byte.unsigned b <=? hi).
Definition tail_byte : Byte.byte → bool := in_range 128 191.

Fixpoint utf8_bytes (l : bytes) : bool :=
  match l with
  | [] => true
  | a :: l1 =>
    if in_range 0 127 a then utf8_bytes l1
    else match l1 with
    | [] => false
    | b :: l2 =>
      if in_range 194 223 a then tail_byte b && utf8_bytes l2
      else match l2 with
      | [] => false
      | c :: l3 =>
        if in_range 224 239 a then
          (if in_range 224 224 a then in_range 160 191 b
           else if in_range 237 237 a then in_range 128 159 b else tail_byte b)
          && tail_byte c && utf8_bytes l3
        else match l3 with
        | [] => false
        | d :: l4 =>
          in_range 240 244 a
          && (if in_range 240 240 a then in_range 144 191 b
              else if in_range 244 244 a then in_range 128 143 b else tail_byte b)
          && tail_byte c && tail_byte d && utf8_bytes l4
        end
      end
    end
  end.

Definition utf8 (s : string) : bool := utf8_bytes (str_bytes s).

(** ** Values the library can hold, and what their text expresses *)

Definition keys_sorted {A} (fs : list (string * A)) : bool :=
  bool_decide (Sorted String.le fs.*1) && bool_decide (NoDup fs.*1).

Fixpoint json_ok (j : json) : bool :=
  match j with
  | JNull | JBool _ | JBinary _ | JFloat _ => true
  | JInt n => bool_decide (- 2 ^ 63 <= n < 2 ^ 64)
  | JString s => utf8 s
  | JArray l => forallb json_ok l
  | JObject fs => keys_sorted fs && forallb (λ kv, utf8 kv.1 && json_ok kv.2) fs
  end.

Definition binary_text (b : bytes) : json :=
  JObject [("bytes", JArray ((λ x, JInt (byte.unsigned x)) <$> b)); ("subtype", JNull)].

Fixpoint json_text (j : json) : json :=
  match j with
  | JFloat b => if double_finite b then JFloat b else JNull
  | JBinary b => binary_text b
  | JArray l => JArray (map json_text l)
  | JObject fs => JObject (map (λ kv, (kv.1, json_text kv.2)) fs)
  | _ => j
  end.

(** ** The library *)

Class JsonLib := {
  dump : json → exc string;
  parse : string → option json;
  parse_dump : ∀ j, json_ok j = true →
    ∃ s, dump j = Ret s ∧ parse s = Some (json_text j) ∧ utf8 s = true ∧ s ≠ ""
}.

(** [json_ok] and [json_text] of the objects the sources build. *)
Lemma keys_sorted_map_iter {A} (m : gmap string A) : keys_sorted (map_iter m) = true.
Proof.
  unfold keys_sorted. apply andb_true_iff. split; apply bool_decide_eq_true.
  - apply Sorted_fmap with (R1 := key_le); [by intros ??|].
    apply StronglySorted_Sorted, map_iter_sorted.
  - apply map_iter_NoDup.
Qed.

Lemma json_ok_object m :
  map_Forall (λ k v, utf8 k = true ∧ json_ok v = true) m → json_ok (object_of m) = true.
Proof.
  intros Hm. simpl. rewrite keys_sorted_map_iter. simpl.
  apply Is_true_true, forallb_True, Forall_forall. intros [k v] Hkv%elem_of_map_iter.
  destruct (Hm _ _ Hkv) as [Hk Hv]. simpl. rewrite Hk, Hv. done.
Qed.

(** ** An instance of the library

    A concrete printer and parser satisfying the interface, used by the
    witnesses: a value's text is an injective encoding of [json_text]. *)

Definition json_leaf : Type := bool + Z + (bool * Z) + string + (string * ()).
Abbreviation leaf_bool b := (inl (inl (inl (inl b)))).
Abbreviation leaf_int n := (inl (inl (inl (inr n)))).
Abbreviation leaf_float n := (inl (inl (inr (true, n)))).
Abbreviation leaf_binary s := (inl (inr s)).
Abbreviation leaf_string s := (inr (s, ())).

Fixpoint json_tree (j : json) : gen_tree json_leaf :=
  match j with
  | JNull => GenNode 0 []
  | JBool b => GenLeaf (leaf_bool b)
  | JInt n => GenLeaf (leaf_int n)
  | JFloat b => GenLeaf (leaf_float b)
  | JString s => GenLeaf (leaf_string s)
  | JBinary b => GenLeaf (leaf_binary (bytes_str b))
  | JArray l => GenNode 1 (map json_tree l)
  | JObject fs => GenNode 2 (map (λ kv, GenNode 3 [GenLeaf (leaf_string kv.1); json_tree kv.2]) fs)
  end.

Fixpoint tree_json (t : gen_tree json_leaf) : json :=
  match t with
  | GenLeaf (leaf_bool b) => JBool b
  | GenLeaf (leaf_int n) => JInt n
  | GenLeaf (inl (inl (inr (_, n)))) => JFloat n
  | GenLeaf (leaf_binary s) => JBinary (str_bytes s)
  | GenLeaf (leaf_string s) => JString s
  | GenNode 0 _ => JNull
  | GenNode 1 l => JArray (map tree_json l)
  | GenNode _ l => JObject (map (λ t,
      match t with
      | GenNode _ [GenLeaf (leaf_string k); v] => (k, tree_json v)
      | _ => ("", JNull)
      end) l)
  end.

Fixpoint tree_json_tree (j : json) : tree_json (json_tree j) = j.
Proof.
  destruct j as [| | | | |b|l|fs]; simpl; try done.
  - by rewrite str_bytes_str.
  - f_equal. induction l as [|j l IH]; simpl; [done|]. by rewrite tree_json_tree, IH.
  - f_equal. induction fs as [|[k j] fs IH]; simpl; [done|]. by rewrite tree_json_tree, IH.
Qed.

#[export] Instance json_eq_dec : EqDecision json.
Proof.
  intros j k. destruct (decide (json_tree j = json_tree k)) as [E|E].
  - left. rewrite <- (tree_json_tree j), <- (tree_json_tree k). by rewrite E.
  - right. by intros ->.
Defined.

Fixpoint positive_text (p : positive) : string :=
  match p with
  | xH => EmptyString
  | xO p => String "0"%char (positive_text p)
  | xI p => String "1"%char (positive_text p)
  end.

Fixpoint text_positive (s : string) : positive :=
  match s with
  | EmptyString => xH
  | String c s => if decide (c = "0"%char) then xO (text_positive s) else xI (text_positive s)
  end.

Lemma text_positive_text p : text_positive (positive_text p) = p.
Proof. induction p as [p IH|p IH|]; simpl; by rewrite ?IH. Qed.

Definition std_dump (j : json) : exc string :=
  if json_ok j then Ret (String "."%char (positive_text (encode (json_tree (json_text j)))))
  else Throw "invalid UTF-8 byte".
Definition std_parse (s : string) : option json :=
  match s with
  | String "."%char s' => tree_json <$> decode (text_positive s')
  | _ => None
  end.

Lemma utf8_positive_text p : utf8 (String "."%char (positive_text p)) = true.
Proof.
  change (utf8_bytes (str_bytes (positive_text p)) = true).
  induction p as [p IH|p IH|]; [exact IH|exact IH|done].
Qed.

Lemma std_parse_dump j :
  json_ok j = true →
  ∃ s, std_dump j = Ret s ∧ std_parse s = Some (json_text j) ∧ utf8 s = true ∧ s ≠ "".
Proof.
  intros H. unfold std_dump, std_parse. rewrite H. eexists. split; [done|].
  split; [|split; [apply utf8_positive_text|done]].
  cbn [text_positive]. rewrite text_positive_text, decode_encode. simpl. by rewrite tree_json_tree.
Qed.

Definition std_json : JsonLib :=
  {| dump := std_dump; parse := std_parse; parse_dump := std_parse_dump |}.
