(* ===== verification/MemTable.v ===== *)
(** * In-memory tables (src/storage/mem_table.cpp)

    [MemTable::Impl]: an ordered map of rows, the index names, and a per-row
    cache of the row's JSON text which writes invalidate.  A scan callback is a
    function on the state its closure captures; it says whether to go on.  The
    clock is an argument of the operations that read it. *)

From S2P Require Import Prelude Table.

(** [class MemTable::Impl]: the members guarded by [mutex_] and [cache_mutex_]. *)
Record MemTable := {
  schema_ : TableSchema;
  rows_ : gmap string Row;
  indexes_ : gmap string IndexSchema;
  json_cache_ : gmap string string
}.

Definition new_MemTable (schema : TableSchema) : MemTable :=
  {| schema_ := schema; rows_ := ∅; indexes_ := ∅; json_cache_ := ∅ |}.

Definition set_rows (t : MemTable) (rows : gmap string Row) : MemTable :=
  {| schema_ := schema_ t; rows_ := rows; indexes_ := indexes_ t; json_cache_ := json_cache_ t |}.
Definition set_cache (t : MemTable) (cache : gmap string string) : MemTable :=
  {| schema_ := schema_ t; rows_ := rows_ t; indexes_ := indexes_ t; json_cache_ := cache |}.
Definition set_indexes (t : MemTable) (ix : gmap string IndexSchema) : MemTable :=
  {| schema_ := schema_ t; rows_ := rows_ t; indexes_ := ix; json_cache_ := json_cache_ t |}.

Definition InvalidateJson (t : MemTable) (key : string) : MemTable :=
  set_cache t (delete key (json_cache_ t)).

(** ** Reads *)

Definition GetRowCount (t : MemTable) : Z := Z.of_nat (size (rows_ t)).

(** [sizeof] of a [Value] alternative, or the length of its contents. *)
Definition value_size (v : Value) : Z :=
  match v with
  | VString s => str_len s
  | VBytes b => zlength b
  | VNull | VBool _ => 1
  | VInt32 _ | VFloat _ => 4
  | VInt64 _ | VDouble _ | VTime _ => 8
  end.

Definition row_size `{HashOrder} (key : string) (row : Row) : Z :=
  fold_left (λ size nv, size + str_len nv.1 + value_size nv.2)
            (hash_iter (row_columns row)) (str_len key + 8 + 8).

Definition GetSizeBytes `{HashOrder} (t : MemTable) : Z :=
  u64 (fold_left (λ size kr, size + row_size kr.1 kr.2) (map_iter (rows_ t)) 0).

Definition Get (t : MemTable) (key : string) : option Row := rows_ t !! key.

(** ** Writes *)

Definition Insert (t : MemTable) (row : Row) : MemTable * bool :=
  match rows_ t !! row_key row with
  | Some _ => (t, false)
  | None =>
      (InvalidateJson (set_rows t (<[row_key row := row]> (rows_ t))) (row_key row), true)
  end.

Definition Update (now : Z) (t : MemTable) (key : string) (row : Row) : MemTable * bool :=
  match rows_ t !! key with
  | None => (t, false)
  | Some old =>
      let updated_row := {| row_key := row_key row; row_columns := row_columns row;
                            row_version := u64 (row_version old + 1);
                            row_timestamp := now |} in
      (InvalidateJson (set_rows t (<[key := updated_row]> (rows_ t))) key, true)
  end.

Definition Delete (t : MemTable) (key : string) : MemTable * bool :=
  match rows_ t !! key with
  | None => (t, false)
  | Some _ => (InvalidateJson (set_rows t (delete key (rows_ t))) key, true)
  end.

(** ** Scans *)

Definition key_lt (a b : string) : bool := bool_decide (¬ String.le b a).

(** [rows_.lower_bound(start_key)]: the first element whose key is not less. *)
Fixpoint lower_bound {A} (start_key : string) (l : list (string * A)) : list (string * A) :=
  match l with
  | [] => []
  | kv :: l' => if key_lt kv.1 start_key then lower_bound start_key l' else l
  end.

(** The loop shared by the scans: stop past [end_key] or when [step], which may
    throw, returns [false]. *)
Fixpoint scan_loop {A S} (end_key : string) (step : S → string → A → exc (S * bool))
    (l : list (string * A)) (s : S) : exc S :=
  match l with
  | [] => Ret s
  | (k, r) :: l' =>
      if bool_decide (end_key ≠ "") && key_lt end_key k then Ret s
      else match step s k r with
           | Throw w => Throw w
           | Ret (s', true) => scan_loop end_key step l' s'
           | Ret (s', false) => Ret s'
           end
  end.

Definition scan_begin {A} (start_key : string) (m : gmap string A) : list (string * A) :=
  if bool_decide (start_key = "") then map_iter m else lower_bound start_key (map_iter m).

Definition Scan {S} (t : MemTable) (start_key end_key : string)
    (callback : S → string → Row → S * bool) (s : S) : exc S :=
  scan_loop end_key (λ s k r, Ret (callback s k r)) (scan_begin start_key (rows_ t)) s.

(** ** The JSON cache *)

Definition JsonSerializer := Row → exc string.

Definition CachedJson (t : MemTable) (key : string) (row : Row) (ser : JsonSerializer)
    : exc (MemTable * string) :=
  match json_cache_ t !! key with
  | Some j => Ret (t, j)
  | None =>
      j ← ser row;
      Ret (set_cache t (<[key := j]> (json_cache_ t)), j)
  end.

Definition GetJsonCached (t : MemTable) (key : string) (ser : JsonSerializer)
    : exc (MemTable * option string) :=
  match rows_ t !! key with
  | None => Ret (t, None)
  | Some row => '(t', j) ← CachedJson t key row ser; Ret (t', Some j)
  end.

Definition ScanJsonCached {S} (t : MemTable) (start_key end_key : string)
    (ser : JsonSerializer) (cb : S → string → string → S * bool) (s : S)
    : exc (MemTable * S) :=
  scan_loop end_key
    (λ ts k r, '(t', j) ← CachedJson ts.1 k r ser;
               let '(s', go) := cb ts.2 k j in Ret ((t', s'), go))
    (scan_begin start_key (rows_ t)) (t, s).

(** ** Indexes *)

Definition CreateIndex (t : MemTable) (schema : IndexSchema) : MemTable * bool :=
  (set_indexes t (<[ix_name schema := schema]> (indexes_ t)), true).

Definition DropIndex (t : MemTable) (index_name : string) : MemTable * bool :=
  match indexes_ t !! index_name with
  | Some _ => (set_indexes t (delete index_name (indexes_ t)), true)
  | None => (t, false)
  end.

Definition GetIndexNames `{HashOrder} (t : MemTable) : list string :=
  (hash_iter (indexes_ t)).*1.

(** ** Scans visit a sorted range *)

(** The keys a scan visits: from [start_key] on, up to [end_key] included; an
    empty bound is no bound. *)
Definition in_scan_range {A} (start_key end_key : string) (kr : string * A) : Prop :=
  (start_key = "" ∨ String.le start_key kr.1) ∧ (end_key = "" ∨ String.le kr.1 end_key).

#[export] Instance in_scan_range_dec {A} a b (kr : string * A) :
  Decision (in_scan_range a b kr).
Proof. unfold in_scan_range. apply _. Defined.

(** Feeding rows to a callback until it answers [false]. *)
Fixpoint feed {A S} (step : S → string → A → exc (S * bool)) (l : list (string * A)) (s : S) : exc S :=
  match l with
  | [] => Ret s
  | (k, r) :: l' =>
      match step s k r with
      | Throw w => Throw w
      | Ret (s', true) => feed step l' s'
      | Ret (s', false) => Ret s'
      end
  end.

Lemma key_lt_le a b : key_lt a b = false ↔ String.le b a.
Proof. unfold key_lt. rewrite bool_decide_eq_false. split; [apply dec_stable|auto]. Qed.

Lemma lower_bound_filter {A} a (l : list (string * A)) :
  StronglySorted key_le l → lower_bound a l = filter (λ kr, String.le a kr.1) l.
Proof.
  induction l as [|[k r] l IH]; intros Hs; [done|]. inversion_clear Hs as [|?? Hl Hk].
  cbn [lower_bound]. rewrite filter_cons. cbn. destruct (key_lt k a) eqn:E.
  - rewrite IH by done. rewrite decide_False; [done|].
    intros Hle. apply key_lt_le in Hle. congruence.
  - apply key_lt_le in E. rewrite decide_True by done. f_equal.
    symmetry. apply list_filter_all. eapply Forall_impl; [exact Hk|].
    intros [k' r'] Hle. unfold key_le in Hle. simpl in *. by transitivity k.
Qed.

Lemma scan_begin_filter {A} a (m : gmap string A) :
  scan_begin a m = filter (λ kr, a = "" ∨ String.le a kr.1) (map_iter m).
Proof.
  unfold scan_begin. case_bool_decide as E.
  - symmetry. apply list_filter_all, Forall_forall. by left.
  - rewrite lower_bound_filter by apply map_iter_sorted.
    apply list_filter_iff. intros kr. split; [by right|by intros [?|?]].
Qed.

Lemma scan_loop_feed {A S} b (step : S → string → A → exc (S * bool)) l s :
  StronglySorted key_le l →
  scan_loop b step l s = feed step (filter (λ kr, b = "" ∨ String.le kr.1 b) l) s.
Proof.
  revert s. induction l as [|[k r] l IH]; intros s Hs; [done|].
  inversion_clear Hs as [|?? Hl Hk]. cbn [scan_loop]. rewrite filter_cons. cbn [fst].
  destruct (bool_decide (b ≠ "") && key_lt b k) eqn:E.
  - apply andb_true_iff in E as [Hb%bool_decide_eq_true Hlt].
    assert (∀ kr, kr ∈ (k, r) :: l → ¬ (b = "" ∨ String.le kr.1 b)) as Hnone.
    { intros kr Hin [?|Hle]; [done|]. assert (String.le k b) as Hkb.
      { apply elem_of_cons in Hin as [->|Hin]; [done|].
        rewrite Forall_forall in Hk. transitivity kr.1; [|done]. apply (Hk kr Hin). }
      apply key_lt_le in Hkb. congruence. }
    rewrite decide_False by (apply (Hnone (k, r)); left).
    rewrite list_filter_none; [done|]. apply Forall_forall. intros kr Hin. apply Hnone. by right.
  - rewrite decide_True.
    + cbn [feed]. destruct (step s k r) as [[s' [|]]|]; [by apply IH|done|done].
    + apply andb_false_iff in E as [Hb|Hlt].
      * left. apply bool_decide_eq_false in Hb. by apply dec_stable.
      * right. by apply key_lt_le.
Qed.

Lemma StronglySorted_filter_key {A} (P : string * A → Prop) `{!∀ x, Decision (P x)} l :
  StronglySorted key_le l → StronglySorted key_le (filter P l).
Proof.
  induction 1 as [|x l Hl IH Hx]; [constructor|]. rewrite filter_cons. case_decide; [|done].
  constructor; [done|]. apply Forall_forall. intros y [_ Hy]%list_elem_of_filter.
  by apply (proj1 (Forall_forall _ _) Hx).
Qed.

Lemma scan_range_feed {A S} a b (step : S → string → A → exc (S * bool)) (m : gmap string A) s :
  scan_loop b step (scan_begin a m) s = feed step (filter (in_scan_range a b) (map_iter m)) s.
Proof.
  rewrite scan_loop_feed.
  - rewrite scan_begin_filter, list_filter_filter. f_equal. apply list_filter_iff.
    intros kr. unfold in_scan_range. tauto.
  - rewrite scan_begin_filter. apply StronglySorted_filter_key, map_iter_sorted.
Qed.

(** A scan hands the callback exactly the committed rows whose key lies in
    the requested range (both bounds included, an empty bound means none), once
    each, in increasing key order, and stops as soon as the callback answers
    [false]. *)
Theorem Scan_spec {S} t a b (cb : S → string → Row → S * bool) s :
  Scan t a b cb s
    = feed (λ s k r, Ret (cb s k r)) (filter (in_scan_range a b) (map_iter (rows_ t))) s
  ∧ StronglySorted key_le (filter (in_scan_range a b) (map_iter (rows_ t)))
  ∧ NoDup (filter (in_scan_range a b) (map_iter (rows_ t))).*1
  ∧ (∀ k r, (k, r) ∈ filter (in_scan_range a b) (map_iter (rows_ t))
            ↔ rows_ t !! k = Some r ∧ in_scan_range a b (k, r)).
Proof.
  split_and!.
  - apply scan_range_feed.
  - apply StronglySorted_filter_key, map_iter_sorted.
  - eapply sublist_NoDup; [apply (map_iter_NoDup (rows_ t))|].
    apply fmap_sublist, sublist_filter.
  - intros k r. rewrite list_elem_of_filter, elem_of_map_iter. tauto.
Qed.

(** ** The cache never serves stale text *)

Definition cache_ok (ser : JsonSerializer) (t : MemTable) : Prop :=
  ∀ k j, json_cache_ t !! k = Some j → ∃ row, rows_ t !! k = Some row ∧ ser row = Ret j.

Lemma CachedJson_ok ser t k row :
  cache_ok ser t → rows_ t !! k = Some row →
  match CachedJson t k row ser with
  | Ret (t', j) => ser row = Ret j ∧ cache_ok ser t' ∧ rows_ t' = rows_ t
  | Throw w => ser row = Throw w
  end.
Proof.
  intros Hc Hk. unfold CachedJson. destruct (json_cache_ t !! k) as [j|] eqn:Ej.
  - destruct (Hc _ _ Ej) as (row' & Hrow & Hser). by simplify_eq.
  - simpl. destruct (ser row) as [j|w] eqn:Es; simpl; [|done]. split_and!; [done| |done].
    intros k' j' Hk'. simpl in *. apply lookup_insert_Some in Hk' as [[<- <-]|[? ?]]; eauto.
Qed.

Lemma cache_ok_invalidate ser t k rows :
  cache_ok ser t → (∀ k', k' ≠ k → rows !! k' = rows_ t !! k') →
  cache_ok ser (InvalidateJson (set_rows t rows) k).
Proof.
  intros Hc Hrows k' j. simpl. intros [Hne Hj]%lookup_delete_Some.
  destruct (Hc _ _ Hj) as (row & Hrow & Hser). exists row. by rewrite Hrows.
Qed.

Lemma cache_ok_scan ser {S} (cb : S → string → string → S * bool) l t s :
  cache_ok ser t → (∀ k r, (k, r) ∈ l → rows_ t !! k = Some r) →
  match feed (λ ts k r, '(t', j) ← CachedJson ts.1 k r ser;
              let '(s', go) := cb ts.2 k j in Ret ((t', s'), go)) l (t, s) with
  | Ret (t', s') => feed (λ s k r, j ← ser r; Ret (cb s k j)) l s = Ret s'
                    ∧ cache_ok ser t' ∧ rows_ t' = rows_ t
  | Throw w => feed (λ s k r, j ← ser r; Ret (cb s k j)) l s = Throw w
  end.
Proof.
  revert t s. induction l as [|[k r] l IH]; intros t s Hc Hl; [done|]. cbn [feed fst snd].
  pose proof (CachedJson_ok ser t k r Hc (Hl k r (list_elem_of_here _ _))) as Hk.
  destruct (CachedJson t k r ser) as [[t' j]|w]; simpl in *; [|by rewrite Hk].
  destruct Hk as (Hser & Hc' & Hr). rewrite Hser. simpl.
  destruct (cb s k j) as [s' [|]]; [|done].
  rewrite <- Hr. apply IH; [done|]. intros. rewrite Hr. apply Hl. by right.
Qed.

(** The [Table] interface's own cached access (table.h), which the [MemTable]
    overrides must agree with: read the row and serialise it. *)
Definition Table_GetJsonCached (t : MemTable) (key : string) (ser : JsonSerializer)
    : exc (option string) :=
  match Get t key with
  | None => Ret None
  | Some r => j ← ser r; Ret (Some j)
  end.

Definition Table_ScanJsonCached {S} (t : MemTable) (start_key end_key : string)
    (ser : JsonSerializer) (cb : S → string → string → S * bool) (s : S) : exc S :=
  scan_loop end_key (λ s k row, j ← ser row; Ret (cb s k j)) (scan_begin start_key (rows_ t)) s.

Lemma Insert_cache_ok ser t row : cache_ok ser t → cache_ok ser (Insert t row).1.
Proof.
  intros Hc. unfold Insert. destruct (rows_ t !! row_key row); [done|].
  apply cache_ok_invalidate; [done|]. intros. by rewrite lookup_insert_ne.
Qed.

Lemma Update_cache_ok ser now t k row : cache_ok ser t → cache_ok ser (Update now t k row).1.
Proof.
  intros Hc. unfold Update. destruct (rows_ t !! k); [|done].
  apply cache_ok_invalidate; [done|]. intros. by rewrite lookup_insert_ne.
Qed.

Lemma Delete_cache_ok ser t k : cache_ok ser t → cache_ok ser (Delete t k).1.
Proof.
  intros Hc. unfold Delete. destruct (rows_ t !! k); [|done].
  apply cache_ok_invalidate; [done|]. intros. by rewrite lookup_delete_ne.
Qed.

#[export] Hint Resolve Insert_cache_ok Update_cache_ok Delete_cache_ok : odb.

(** The JSON cache is coherent: every table operation (reads that fill it
    included) keeps each cached text equal to the serialisation of the row
    stored now; so the cached point read and the cached scan of [MemTable]
    return, call back and throw exactly as the interface's uncached versions,
    for any serialiser that is used consistently. *)
Theorem json_cache_coherent ser t :
  cache_ok ser t →
  (∀ row, cache_ok ser (Insert t row).1) ∧
  (∀ now k row, cache_ok ser (Update now t k row).1) ∧
  (∀ k, cache_ok ser (Delete t k).1) ∧
  (∀ k, match GetJsonCached t k ser with
        | Ret (t', r) => Table_GetJsonCached t k ser = Ret r ∧ cache_ok ser t' ∧ rows_ t' = rows_ t
        | Throw w => Table_GetJsonCached t k ser = Throw w
        end) ∧
  (∀ S a b (cb : S → string → string → S * bool) s,
      match ScanJsonCached t a b ser cb s with
      | Ret (t', s') => Table_ScanJsonCached t a b ser cb s = Ret s' ∧ cache_ok ser t'
                        ∧ rows_ t' = rows_ t
      | Throw w => Table_ScanJsonCached t a b ser cb s = Throw w
      end).
Proof.
  intros Hc. split_and!; [eauto with odb..| |].
  - intros k. unfold GetJsonCached, Table_GetJsonCached, Get.
    destruct (rows_ t !! k) as [row|] eqn:E; [|done].
    pose proof (CachedJson_ok ser t k row Hc E) as Hk.
    destruct (CachedJson t k row ser) as [[t' j]|w]; simpl in *; [|by rewrite Hk].
    destruct Hk as (Hs & ? & ?). by rewrite Hs.
  - intros S a b cb s. unfold ScanJsonCached, Table_ScanJsonCached.
    rewrite !scan_range_feed. apply cache_ok_scan; [done|].
    intros k r [_ Hin]%list_elem_of_filter. by apply elem_of_map_iter.
Qed.

(** A table with a row, its text cached, and an update of that row: the next
    cached read serialises the new row. *)
Definition demo_ser : JsonSerializer := λ r,
  match row_columns r !! "name" with Some (VString s) => Ret s | _ => Throw "no name" end.

Definition demo_table : MemTable :=
  (Insert (new_MemTable {| sch_name := "users"; sch_columns := []; primary_key := [];
                           sch_options := ∅ |})
          (mkRow "u1" {[ "name" := VString "Ada" ]})).1.

Lemma json_cache_coherent_witness :
  cache_ok demo_ser (Update 5 demo_table "u1" (mkRow "u1" {[ "name" := VString "Bea" ]})).1 ∧
  match GetJsonCached demo_table "u1" demo_ser with
  | Ret (t', _) => snd <$> GetJsonCached
      (Update 5 t' "u1" (mkRow "u1" {[ "name" := VString "Bea" ]})).1 "u1" demo_ser
      = Ret (Some "Bea")
  | Throw _ => False
  end.
Proof.
  split; [|vm_compute; reflexivity].
  apply (json_cache_coherent demo_ser demo_table). intros k j Hk. vm_compute in Hk. done.
Defined.
