(* ===== verification/Txn.v ===== *)
(** * Transactions (src/storage/transaction_impl.cpp)

    A [TransactionImpl] buffers its writes; the storage engine applies them at
    commit.  Reads through a transaction see its own write set only. *)

From S2P Require Import Prelude Table.

Inductive WriteOp := WINSERT | WUPDATE | WDELETE.

#[export] Instance WriteOp_eq_dec : EqDecision WriteOp.
Proof. solve_decision. Defined.

Record WriteOperation := {
  w_op : WriteOp;
  w_table : string;
  w_row : Row
}.

Inductive IsolationLevel :=
| READ_UNCOMMITTED | READ_COMMITTED | REPEATABLE_READ | SNAPSHOT | SERIALIZABLE.

Inductive TxnState := ACTIVE | COMMITTED | ABORTED.

#[export] Instance TxnState_eq_dec : EqDecision TxnState.
Proof. solve_decision. Defined.

Record Transaction := {
  t_id : Z;
  t_timestamp : Z;
  t_level : IsolationLevel;
  t_state : TxnState;
  t_read_only : bool;
  t_write_set : list WriteOperation
}.

Definition new_Transaction (id timestamp : Z) (level : IsolationLevel) : Transaction :=
  {| t_id := id; t_timestamp := timestamp; t_level := level; t_state := ACTIVE;
     t_read_only := false; t_write_set := [] |}.

Definition GetId (t : Transaction) : string := "txn-" +:+ pretty (t_id t).

Definition set_state (s : TxnState) (t : Transaction) : Transaction :=
  {| t_id := t_id t; t_timestamp := t_timestamp t; t_level := t_level t; t_state := s;
     t_read_only := t_read_only t; t_write_set := t_write_set t |}.

Definition SetCommitted : Transaction → Transaction := set_state COMMITTED.
Definition SetAborted : Transaction → Transaction := set_state ABORTED.

Definition SetReadOnly (ro : bool) (t : Transaction) : Transaction :=
  {| t_id := t_id t; t_timestamp := t_timestamp t; t_level := t_level t; t_state := t_state t;
     t_read_only := ro; t_write_set := t_write_set t |}.

Definition IsActive (t : Transaction) : bool := bool_decide (t_state t = ACTIVE).

Definition stage (op : WriteOperation) (t : Transaction) : Transaction :=
  {| t_id := t_id t; t_timestamp := t_timestamp t; t_level := t_level t; t_state := t_state t;
     t_read_only := t_read_only t; t_write_set := t_write_set t ++ [op] |}.

Definition Insert (t : Transaction) (table : string) (row : Row) : Transaction * bool :=
  if IsActive t
  then (stage {| w_op := WINSERT; w_table := table; w_row := row |} t, true)
  else (t, false).

Definition Update (t : Transaction) (table key : string) (row : Row) : Transaction * bool :=
  if IsActive t
  then (stage {| w_op := WUPDATE; w_table := table; w_row := with_key key row |} t, true)
  else (t, false).

Definition Delete (t : Transaction) (table key : string) : Transaction * bool :=
  if IsActive t
  then (stage {| w_op := WDELETE; w_table := table; w_row := mkRow key ∅ |} t, true)
  else (t, false).

(** The loop over the write set in [Get]: the first write to the key answers. *)
Fixpoint first_write (ws : list WriteOperation) (table key : string) : option (option Row) :=
  match ws with
  | [] => None
  | w :: ws' =>
      if bool_decide (w_table w = table) && bool_decide (row_key (w_row w) = key) then
        Some (if bool_decide (w_op w = WDELETE) then None else Some (w_row w))
      else first_write ws' table key
  end.

Definition Get (t : Transaction) (table key : string) : option Row :=
  if IsActive t then default None (first_write (t_write_set t) table key) else None.

(** [Scan] calls back on no row. *)
Definition Scan {S} (t : Transaction) (table start_key end_key : string)
    (callback : S → string → Row → S * bool) (s : S) : S := s.

(** ** What a transaction reads of its own writes *)

Definition writes_to (table key : string) (w : WriteOperation) : Prop :=
  w_table w = table ∧ row_key (w_row w) = key.

#[export] Instance writes_to_dec table key w : Decision (writes_to table key w).
Proof. unfold writes_to. apply _. Defined.

Lemma first_write_head ws table key :
  first_write ws table key =
  (λ w, if decide (w_op w = WDELETE) then None else Some (w_row w))
    <$> head (filter (writes_to table key) ws).
Proof.
  induction ws as [|w ws IH]; [done|]. simpl. rewrite filter_cons. unfold writes_to at 1.
  destruct (bool_decide (w_table w = table) && bool_decide (row_key (w_row w) = key)) eqn:E.
  - apply andb_true_iff in E as [?%bool_decide_eq_true ?%bool_decide_eq_true].
    rewrite decide_True by done. simpl. by rewrite decide_bool_decide.
  - rewrite decide_False; [done|]. intros [H1 H2]. apply andb_false_iff in E as [E|E];
      by apply bool_decide_eq_false in E.
Qed.

(** Reading a key inside an active transaction answers with the OLDEST
    staged write to that key (nothing if that write is a delete), whatever was
    staged later: after insert-then-update the insert's row comes back, after
    insert-then-delete the deleted row is still visible. *)
Theorem Get_oldest_write t table key w ws :
  t_state t = ACTIVE →
  filter (writes_to table key) (t_write_set t) = w :: ws →
  Get t table key = (if decide (w_op w = WDELETE) then None else Some (w_row w)) ∧
  (∀ row, Get (Update t table key row).1 table key = Get t table key) ∧
  Get (Delete t table key).1 table key = Get t table key.
Proof.
  intros Ha Hw.
  assert (∀ l, Get {| t_id := t_id t; t_timestamp := t_timestamp t; t_level := t_level t;
                      t_state := t_state t; t_read_only := t_read_only t;
                      t_write_set := t_write_set t ++ l |} table key
               = (if decide (w_op w = WDELETE) then None else Some (w_row w))) as Hget.
  { intros l. unfold Get, IsActive. simpl. rewrite bool_decide_eq_true_2 by done.
    rewrite first_write_head, filter_app, Hw. done. }
  assert (Get t table key = (if decide (w_op w = WDELETE) then None else Some (w_row w))) as H0.
  { rewrite <- (Hget []). rewrite app_nil_r. by destruct t. }
  rewrite H0. unfold Update, Delete, IsActive. rewrite !bool_decide_eq_true_2 by done.
  split_and!; [done|intros; apply Hget|apply Hget].
Qed.

Definition demo_txn : Transaction :=
  (Insert (new_Transaction 1 1 READ_COMMITTED) "t" (mkRow "k" {[ "v" := VInt64 1 ]})).1.

Lemma Get_oldest_write_witness :
  Get (Update demo_txn "t" "k" (mkRow "k" {[ "v" := VInt64 2 ]})).1 "t" "k"
    = Some (mkRow "k" {[ "v" := VInt64 1 ]}) ∧
  Get (Delete demo_txn "t" "k").1 "t" "k" = Some (mkRow "k" {[ "v" := VInt64 1 ]}).
Proof.
  destruct (Get_oldest_write demo_txn "t" "k"
              {| w_op := WINSERT; w_table := "t"; w_row := mkRow "k" {[ "v" := VInt64 1 ]} |} [])
    as (H0 & Hu & Hd); [done | by vm_compute |].
  split; [rewrite Hu|rewrite Hd]; rewrite H0; done.
Defined.
