(* ===== verification/Wal.v ===== *)
(** * The write-ahead log's file format (src/storage/wal_impl.cpp)

    The binary records and the log file: [SerializeRecord] and
    [DeserializeRecord], the recovery scan [ReadAll] with its tolerance to a
    torn tail, the magic header and the recovered sequence number. *)

From S2P Require Import Prelude Table Codec RowCodec.
From coqutil Require Import Byte Word.LittleEndianList.

(** ** Entries *)

Inductive WALEntryType :=
| CREATE_TABLE | DROP_TABLE | INSERT | UPDATE | DELETE
| CREATE_INDEX | DROP_INDEX | BEGIN_TXN | COMMIT_TXN | ROLLBACK_TXN
| WT_other (n : Z).

#[export] Instance WALEntryType_eq_dec : EqDecision WALEntryType.
Proof. solve_decision. Defined.

Definition WALEntryType_to_int (t : WALEntryType) : Z :=
  match t with
  | CREATE_TABLE => 0 | DROP_TABLE => 1 | INSERT => 2 | UPDATE => 3 | DELETE => 4
  | CREATE_INDEX => 5 | DROP_INDEX => 6 | BEGIN_TXN => 7 | COMMIT_TXN => 8
  | ROLLBACK_TXN => 9 | WT_other n => n
  end.

Definition WALEntryType_of_int (n : Z) : WALEntryType :=
  match n with
  | 0 => CREATE_TABLE | 1 => DROP_TABLE | 2 => INSERT | 3 => UPDATE | 4 => DELETE
  | 5 => CREATE_INDEX | 6 => DROP_INDEX | 7 => BEGIN_TXN | 8 => COMMIT_TXN
  | 9 => ROLLBACK_TXN | _ => WT_other n
  end.

Record WALEntry := {
  e_type : WALEntryType;
  e_sequence : Z;
  e_txn : Z;
  e_timestamp : Z;
  e_table : string;
  e_key : string;
  e_data : bytes
}.

#[export] Instance WALEntry_eq_dec : EqDecision WALEntry.
Proof. solve_decision. Defined.

(** ** Records *)

Definition kWalMagic : bytes :=
  str_bytes "ORWAL" ++ [Byte.x01; Byte.x00; Byte.x00].

(** The file's own copies of the little-endian writers. *)
Definition WalPutU32 (out : bytes) (v : Z) : bytes :=
  out ++ [byte.of_Z v; byte.of_Z (Z.shiftr v 8); byte.of_Z (Z.shiftr v 16);
          byte.of_Z (Z.shiftr v 24)].
Definition WalPutU64 (out : bytes) (v : Z) : bytes :=
  fold_left (λ out i, out ++ [byte.of_Z (Z.shiftr v (8 * i))]) (seqZ 0 8) out.
Definition PutLenPrefixed (out : bytes) (b : bytes) : bytes :=
  WalPutU32 out (u32 (zlength b)) ++ b.

Definition record_bytes (entry : WALEntry) : bytes :=
  let rec_ := [byte.of_Z (WALEntryType_to_int (e_type entry))] in
  let rec_ := WalPutU64 rec_ (e_sequence entry) in
  let rec_ := WalPutU64 rec_ (e_txn entry) in
  let rec_ := WalPutU64 rec_ (e_timestamp entry) in
  let rec_ := PutLenPrefixed rec_ (str_bytes (e_table entry)) in
  let rec_ := PutLenPrefixed rec_ (str_bytes (e_key entry)) in
  PutLenPrefixed rec_ (e_data entry).

Definition SerializeRecord (entry : WALEntry) : bytes :=
  let rec_ := record_bytes entry in
  WalPutU32 [] (u32 (zlength rec_)) ++ rec_.

#[global] Arguments SerializeRecord : simpl never.
#[global] Arguments record_bytes : simpl never.

(** The lambdas [need], [u32], [u64], [str] and [bytes] of [DeserializeRecord]
    are the row codec's reader with their own exception message. *)
Definition ReadRecord : reader WALEntry :=
  ty ← U8;
  sequence ← U64;
  txn ← U64;
  timestamp ← U64;
  table ← Str;
  key ← Str;
  data ← Bytes;
  mret {| e_type := WALEntryType_of_int ty; e_sequence := sequence; e_txn := txn;
          e_timestamp := timestamp; e_table := table; e_key := key; e_data := data |}.

Definition DeserializeRecord (rec_ : bytes) : exc WALEntry :=
  match ReadRecord rec_ with
  | Ret (entry, _) => Ret entry
  | Throw _ => Throw "truncated WAL record"
  end.

(** ** The recovery scan *)

(** The [while (true)] loop of [ReadAll] on the bytes after the magic; every
    iteration consumes a length prefix, so the number of bytes is enough fuel. *)
Fixpoint read_records (fuel : nat) (file : bytes) : list WALEntry :=
  match fuel with
  | O => []
  | S fuel' =>
      if zlength file <? 4 then []
      else
        let rlen := le_word (take 4 file) in
        let rest := drop 4 file in
        if zlength rest <? rlen then []
        else
          let result := read_records fuel' (drop (Z.to_nat rlen) rest) in
          match DeserializeRecord (take (Z.to_nat rlen) rest) with
          | Ret entry => if 0 <? e_sequence entry then entry :: result else result
          | Throw _ => result
          end
  end.

Definition ReadAll (file : bytes) : list WALEntry :=
  if decide (take 8 file = kWalMagic)
  then read_records (length file) (drop 8 file)
  else [].

Definition WriteMagicIfEmpty (file : bytes) : bytes :=
  if decide (file = []) then kWalMagic else file.

Definition RecoverSequenceNumber (file : bytes) : Z :=
  u64 (fold_left (λ max_seq e, Z.max max_seq (e_sequence e)) (ReadAll file) 0 + 1).

(** ** Well-formed entries *)

(** The values the C++ types of [WALEntry] can hold, the lengths the record
    format can express, and a sequence number that was assigned. *)
Definition entry_wf (e : WALEntry) : Prop :=
  (WALEntryType_of_int (WALEntryType_to_int (e_type e)) = e_type e
   ∧ is_u 8 (WALEntryType_to_int (e_type e)))
  ∧ (0 < e_sequence e ∧ is_u 64 (e_sequence e) ∧ is_u 64 (e_txn e) ∧ is_u 64 (e_timestamp e))
  ∧ zlength (record_bytes e) < 2 ^ 32.

#[export] Instance entry_wf_dec e : Decision (entry_wf e).
Proof. unfold entry_wf. apply _. Defined.

Definition serialize_all (entries : list WALEntry) : bytes :=
  concat (SerializeRecord <$> entries).

(** ** Records round-trip *)

Lemma record_bytes_row_codec e :
  record_bytes e
  = PutBytes (PutString (PutString (PutU64 (PutU64 (PutU64
      (PutU8 [] (WALEntryType_to_int (e_type e))) (e_sequence e)) (e_txn e))
      (e_timestamp e)) (e_table e)) (e_key e)) (e_data e).
Proof. done. Qed.

Lemma record_bytes_app e :
  record_bytes e
  = PutU8 [] (WALEntryType_to_int (e_type e)) ++ PutU64 [] (e_sequence e)
    ++ PutU64 [] (e_txn e) ++ PutU64 [] (e_timestamp e) ++ PutString [] (e_table e)
    ++ PutString [] (e_key e) ++ PutBytes [] (e_data e).
Proof.
  rewrite record_bytes_row_codec, PutBytes_app, (PutString_app (PutString _ _)),
    (PutString_app (PutU64 _ _)), (PutU64_app (PutU64 (PutU64 _ _) _)),
    (PutU64_app (PutU64 _ _)), (PutU64_app (PutU8 _ _)).
  by rewrite <- !app_assoc.
Qed.

Lemma length_record_parts e :
  zlength (str_bytes (e_table e)) <= zlength (record_bytes e)
  ∧ zlength (str_bytes (e_key e)) <= zlength (record_bytes e)
  ∧ zlength (e_data e) <= zlength (record_bytes e).
Proof.
  rewrite record_bytes_app. unfold PutString, PutBytes.
  autorewrite with odb. unfold zlength. repeat split; lia.
Qed.

Lemma ReadRecord_record_bytes e rest :
  entry_wf e → ReadRecord (record_bytes e ++ rest) = Ret (e, rest).
Proof.
  intros ([Hty Hu8] & (_ & Hseq & Htxn & Hts) & Hlen).
  destruct (length_record_parts e) as (? & ? & ?).
  rewrite record_bytes_app, <- !app_assoc. unfold ReadRecord.
  erewrite codec_bind by (apply _ || done).
  do 3 (erewrite codec_bind by (apply _ || done)).
  do 2 (erewrite codec_bind by (apply _ || (unfold string_wf, str_len; lia))).
  erewrite codec_bind by (apply _ || (cbv beta; lia)).
  rewrite Hty. by destruct e.
Qed.

Lemma DeserializeRecord_record_bytes e :
  entry_wf e → DeserializeRecord (record_bytes e) = Ret e.
Proof.
  intros He. unfold DeserializeRecord.
  by rewrite <- (app_nil_r (record_bytes e)), ReadRecord_record_bytes.
Qed.

(** ** The scan of a log with a torn tail *)

(** What a crash can leave after the last complete record. *)
Definition torn (tail : bytes) : Prop :=
  tail = [] ∨ ∃ e more, entry_wf e ∧ more ≠ [] ∧ SerializeRecord e = tail ++ more.

Lemma SerializeRecord_le e :
  SerializeRecord e = le_bytes 4 (u32 (zlength (record_bytes e))) ++ record_bytes e.
Proof. unfold SerializeRecord. change WalPutU32 with PutU32. by rewrite PutU32_le. Qed.

Lemma length_SerializeRecord e :
  length (SerializeRecord e) = (4 + length (record_bytes e))%nat.
Proof. rewrite SerializeRecord_le, length_app, length_le_bytes. done. Qed.

Lemma record_length_prefix e :
  entry_wf e → le_word (le_bytes 4 (u32 (zlength (record_bytes e)))) = zlength (record_bytes e).
Proof.
  intros (_ & _ & Hlen). pose proof (zlength_nonneg (record_bytes e)).
  rewrite le_word_bytes, u32_small by (unfold is_u; lia). by rewrite Z.mod_small by lia.
Qed.

Lemma read_records_record fuel e rest :
  entry_wf e →
  read_records (S fuel) (SerializeRecord e ++ rest) = e :: read_records fuel rest.
Proof.
  intros He. cbn [read_records]. rewrite SerializeRecord_le, <- app_assoc.
  assert ((zlength (le_bytes 4 (u32 (zlength (record_bytes e)))
    ++ record_bytes e ++ rest) <? 4) = false) as ->.
  { unfold zlength. rewrite length_app, length_le_bytes. apply Z.ltb_ge. lia. }
  rewrite take_app_exact, drop_app_exact by apply length_le_bytes.
  rewrite record_length_prefix by done.
  assert ((zlength (record_bytes e ++ rest) <? zlength (record_bytes e)) = false) as ->.
  { apply Z.ltb_ge. rewrite zlength_app. pose proof (zlength_nonneg rest). lia. }
  unfold zlength. rewrite Nat2Z.id, take_app_exact, drop_app_exact by done.
  rewrite DeserializeRecord_record_bytes by done.
  destruct He as (_ & [Hs _] & _). by apply Z.ltb_lt in Hs as ->.
Qed.

Lemma read_records_torn fuel tail : torn tail → read_records fuel tail = [].
Proof.
  intros [->|(e & more & He & Hm & Heq)]; [by destruct fuel|].
  destruct fuel as [|fuel]; [done|]. cbn [read_records].
  destruct (zlength tail <? 4) eqn:E4; [done|].
  assert (length tail < 4 + length (record_bytes e))%nat.
  { rewrite <- length_SerializeRecord, Heq, length_app. destruct more; simpl; [done|lia]. }
  assert (take 4 tail = le_bytes 4 (u32 (zlength (record_bytes e)))) as ->.
  { apply Z.ltb_ge in E4. unfold zlength in E4. rewrite <- (take_app_le _ more 4), <- Heq, SerializeRecord_le by lia.
    by rewrite take_app_exact by apply length_le_bytes. }
  rewrite record_length_prefix by done.
  assert ((zlength (drop 4 tail) <? zlength (record_bytes e)) = true) as ->; [|done].
  apply Z.ltb_lt. apply Z.ltb_ge in E4. unfold zlength in *. rewrite length_drop. lia.
Qed.

Lemma read_records_log es : ∀ fuel tail,
  Forall entry_wf es → torn tail → (length es < fuel)%nat →
  read_records fuel (serialize_all es ++ tail) = es.
Proof.
  unfold serialize_all.
  induction es as [|e es IH]; intros [|fuel] tail Hes Ht Hf; try (simpl in Hf; lia).
  - by apply read_records_torn.
  - inversion_clear Hes. rewrite fmap_cons, concat_cons, <- app_assoc.
    rewrite read_records_record by done. simpl in Hf. rewrite IH by (done || lia). done.
Qed.

Lemma length_serialize_all es : (length es <= length (serialize_all es))%nat.
Proof.
  unfold serialize_all. induction es as [|e es IH]; [done|].
  rewrite fmap_cons, concat_cons, length_app, length_SerializeRecord. simpl. lia.
Qed.

Lemma serialize_all_app l k : serialize_all (l ++ k) = serialize_all l ++ serialize_all k.
Proof. unfold serialize_all. by rewrite fmap_app, concat_app. Qed.

Lemma serialize_all_cons e es : serialize_all (e :: es) = SerializeRecord e ++ serialize_all es.
Proof. done. Qed.

(** Recovery reads back exactly the log: scanning the magic, the records of
    [es] and whatever a crash left of one more record gives the entries [es] in
    order, and nothing of the torn tail. *)
Theorem ReadAll_log es tail :
  Forall entry_wf es → torn tail → ReadAll (kWalMagic ++ serialize_all es ++ tail) = es.
Proof.
  intros Hes Ht. unfold ReadAll. rewrite take_app_exact by done. rewrite decide_True by done.
  rewrite drop_app_exact by done. apply read_records_log; [done..|].
  pose proof (length_serialize_all es). rewrite !length_app. simpl. lia.
Qed.

Definition demo_entry (seq : Z) (key : string) : WALEntry :=
  {| e_type := INSERT; e_sequence := seq; e_txn := 7; e_timestamp := 1700000000;
     e_table := "users"; e_key := key; e_data := [Byte.x01; Byte.xff] |}.

Lemma demo_entry_wf : entry_wf (demo_entry 1 "a") ∧ entry_wf (demo_entry 2 "b").
Proof. split; apply (bool_decide_unpack _); vm_compute; exact I. Qed.

Lemma ReadAll_log_witness :
  ReadAll (kWalMagic ++ serialize_all [demo_entry 1 "a"]
           ++ take 9 (SerializeRecord (demo_entry 2 "b"))) = [demo_entry 1 "a"].
Proof.
  destruct demo_entry_wf as [H1 H2].
  apply ReadAll_log; [by repeat constructor|].
  right. exists (demo_entry 2 "b"), (drop 9 (SerializeRecord (demo_entry 2 "b"))).
  split; [done|]. split; [by vm_compute|]. by rewrite take_drop.
Defined.
