(* ===== verification/WalWriter.v ===== *)
(** * The write-ahead log's group commit (src/storage/wal_impl.cpp)

    Committers enqueue serialized batches with [AppendBatchAsync] and wait on a
    promise; one writer thread drains the queue, writes and syncs the drain in
    one go and answers every waiter.  The threads are the step relation
    [wal_step] on [WalState]: each step is one critical section of the code
    (the queue mutex, the file mutex), and the outcome of [write],
    [fdatasync] and [open], the clock and the moment of a crash are choices of
    the environment.  The fields of [Ghost] record history for the theorems
    and are read by no operation. *)

From stdpp Require Import relations.
From S2P Require Import Prelude Table Codec RowCodec Wal.
From coqutil Require Import Byte Word.LittleEndianList.

(** ** State *)

Inductive SyncMode := SyncNone | SyncFlush | SyncFsync.

#[export] Instance SyncMode_eq_dec : EqDecision SyncMode.
Proof. solve_decision. Defined.

(** The constructor of [WALImpl::Impl]: [sync_wal = false] downgrades the
    default level. *)
Definition resolve_sync_mode (sync_wal : bool) (m : SyncMode) : SyncMode :=
  if negb sync_wal && bool_decide (m = SyncFsync) then SyncFlush else m.

(** A queued batch: its bytes and the promise its committer waits on.  The
    entries it was serialized from are kept for the specification. *)
Record PendingBatch := {
  pb_bytes : bytes;
  pb_done : nat;
  pb_entries : list WALEntry
}.

(** Where the writer thread is in [WriterLoop]: waiting for work, about to
    write what it drained, about to set [fatal_], or joined. *)
Inductive WriterPc := Waiting | Writing (drained : list PendingBatch) | Failing | Exited.

(** The file's contents (page cache included), of which the first [synced]
    bytes are on the drive, and whether [fd_] is open. *)
Record LogFile := { contents : bytes; synced : nat; fd_open : bool }.

(** History: the entries in the log when it was opened, the batches discarded
    by a truncation, the batches written in full since then before any failure,
    every batch accepted, and whether a write, sync or reopen failed. *)
Record Ghost := {
  base : list WALEntry;
  dropped : list PendingBatch;
  written : list PendingBatch;
  accepted : list PendingBatch;
  failed : bool
}.

Record WalState := {
  log : LogFile;
  next_sequence_ : Z;
  queue_ : list PendingBatch;
  stop_ : bool;
  fatal_ : bool;
  writer_pc : WriterPc;
  promises : gmap nat (option bool);
  ghost : Ghost
}.

(** ** Operations *)

(** [Initialize] on the file a previous run left, [on_drive] bytes of which
    have reached the drive. *)
Definition Initialize (on_drive : nat) (file : bytes) : WalState :=
  let contents := WriteMagicIfEmpty file in
  {| log := {| contents := contents; synced := on_drive; fd_open := true |};
     next_sequence_ := RecoverSequenceNumber contents;
     queue_ := []; stop_ := false; fatal_ := false; writer_pc := Waiting;
     promises := ∅;
     ghost := {| base := ReadAll contents; dropped := []; written := []; accepted := [];
                 failed := false |} |}.

Definition GetLastSequence (w : WalState) : Z := u64 (next_sequence_ w - 1).
Definition GetSize (w : WalState) : Z := zlength (contents (log w)).

(** The loop of [AppendBatchAsync]: sequence numbers and timestamps in order. *)
Fixpoint assign_sequences (ts : Z) (next : Z) (entries : list WALEntry) : list WALEntry * Z :=
  match entries with
  | [] => ([], next)
  | e :: es =>
      let e' := {| e_type := e_type e; e_sequence := next; e_txn := e_txn e;
                   e_timestamp := ts; e_table := e_table e; e_key := e_key e;
                   e_data := e_data e |} in
      let '(es', next') := assign_sequences ts (u64 (next + 1)) es in
      (e' :: es', next')
  end.

Definition accept (b : PendingBatch) (g : Ghost) : Ghost :=
  {| base := base g; dropped := dropped g; written := written g;
     accepted := accepted g ++ [b]; failed := failed g |}.

(** Pushing a batch under the queue mutex. *)
Definition enqueue (next : Z) (b : PendingBatch) (w : WalState) : WalState :=
  {| log := log w; next_sequence_ := next; queue_ := queue_ w ++ [b];
     stop_ := stop_ w; fatal_ := fatal_ w; writer_pc := writer_pc w;
     promises := <[pb_done b := None]> (promises w); ghost := accept b (ghost w) |}.

(** The promise of a refused batch is answered at once. *)
Definition refuse (p : nat) (w : WalState) : WalState :=
  {| log := log w; next_sequence_ := next_sequence_ w; queue_ := queue_ w;
     stop_ := stop_ w; fatal_ := fatal_ w; writer_pc := writer_pc w;
     promises := <[p := Some false]> (promises w); ghost := ghost w |}.

(** [AppendBatchAsync], with the entries as the call leaves them; the promise
    [p] is a fresh identifier, [ts] the clock. *)
Definition AppendBatchAsync (ts : Z) (p : nat) (entries : list WALEntry) (w : WalState)
    : WalState * list WALEntry :=
  if fatal_ w then (refuse p w, entries)
  else
    let '(entries', next) := assign_sequences ts (next_sequence_ w) entries in
    let b := {| pb_bytes := serialize_all entries'; pb_done := p; pb_entries := entries' |} in
    (enqueue next b w, entries').

(** The request half of [Append]: a batch of one entry, whose answer the caller
    then waits for. *)
Definition Append (ts : Z) (p : nat) (entry : WALEntry) (w : WalState) : WalState :=
  (AppendBatchAsync ts p [entry] w).1.

(** The request half of [Drain] (and [Flush]): an empty barrier batch. *)
Definition Drain (p : nat) (w : WalState) : WalState :=
  if stop_ w || fatal_ w then w
  else enqueue (next_sequence_ w) {| pb_bytes := []; pb_done := p; pb_entries := [] |} w.

(** What the system does to one [WriteAndSync]: the number of bytes after which
    [write] fails, if it does, and whether the sync succeeds. *)
Record io := { write_error_at : option nat; sync_ok : bool }.

Definition WriteAndSync (m : SyncMode) (o : io) (blob : bytes) (f : LogFile) : LogFile * bool :=
  if negb (fd_open f) then (f, false)
  else
    let partial :=
      match write_error_at o with
      | Some n => if decide (n < length blob)%nat then Some n else None
      | None => None
      end in
    match partial with
    | Some n =>
        ({| contents := contents f ++ take n blob; synced := synced f; fd_open := true |}, false)
    | None =>
        let contents' := contents f ++ blob in
        match m with
        | SyncFsync =>
            if sync_ok o
            then ({| contents := contents'; synced := length contents'; fd_open := true |}, true)
            else ({| contents := contents'; synced := synced f; fd_open := true |}, false)
        | _ => ({| contents := contents'; synced := synced f; fd_open := true |}, true)
        end
    end.

(** [for (auto& p : drained) p.done->set_value(ok)]. *)
Definition answer (ok : bool) (drained : list PendingBatch)
    (ps : gmap nat (option bool)) : gmap nat (option bool) :=
  foldr (λ b, <[pb_done b := Some ok]>) ps drained.

Definition record_write (ok : bool) (drained : list PendingBatch) (g : Ghost) : Ghost :=
  {| base := base g; dropped := dropped g;
     written := if failed g || negb ok then written g else written g ++ drained;
     accepted := accepted g; failed := failed g || negb ok |}.

(** The next action of the writer thread. *)
Definition WriterLoop (m : SyncMode) (o : io) (w : WalState) : WalState :=
  match writer_pc w with
  | Waiting =>
      match queue_ w with
      | [] =>
          {| log := log w; next_sequence_ := next_sequence_ w; queue_ := [];
             stop_ := stop_ w; fatal_ := fatal_ w;
             writer_pc := if stop_ w then Exited else Waiting;
             promises := promises w; ghost := ghost w |}
      | drained =>
          {| log := log w; next_sequence_ := next_sequence_ w; queue_ := [];
             stop_ := stop_ w; fatal_ := fatal_ w; writer_pc := Writing drained;
             promises := promises w; ghost := ghost w |}
      end
  | Writing drained =>
      let '(log', ok) := WriteAndSync m o (concat (pb_bytes <$> drained)) (log w) in
      {| log := log'; next_sequence_ := next_sequence_ w; queue_ := queue_ w;
         stop_ := stop_ w; fatal_ := fatal_ w;
         writer_pc := if ok then Waiting else Failing;
         promises := answer ok drained (promises w);
         ghost := record_write ok drained (ghost w) |}
  | Failing =>
      {| log := log w; next_sequence_ := next_sequence_ w; queue_ := queue_ w;
         stop_ := stop_ w; fatal_ := true; writer_pc := Waiting;
         promises := promises w; ghost := ghost w |}
  | Exited => w
  end.

(** [StopWriter]; the join is the writer's step to [Exited]. *)
Definition StopWriter (w : WalState) : WalState :=
  {| log := log w; next_sequence_ := next_sequence_ w; queue_ := queue_ w;
     stop_ := true; fatal_ := fatal_ w; writer_pc := writer_pc w;
     promises := promises w; ghost := ghost w |}.

(** The guard of [Truncate]. *)
Definition may_truncate (sequence : Z) (w : WalState) : bool :=
  negb (sequence <? u64 (next_sequence_ w - 1)).

(** The part of [Truncate] under the file mutex, after the [Drain]: the two
    [open]s succeed or not.  The size change is taken to reach the drive with
    the [O_TRUNC] open. *)
Definition TruncateFile (trunc_ok reopen_ok : bool) (w : WalState) : WalState * bool :=
  let contents1 := if trunc_ok then [] else contents (log w) in
  let contents2 := if reopen_ok then WriteMagicIfEmpty contents1 else contents1 in
  let synced' := if trunc_ok then O else synced (log w) in
  let g := ghost w in
  ({| log := {| contents := contents2; synced := synced'; fd_open := reopen_ok |};
      next_sequence_ := next_sequence_ w; queue_ := queue_ w; stop_ := stop_ w;
      fatal_ := fatal_ w; writer_pc := writer_pc w; promises := promises w;
      ghost := {| base := if trunc_ok then [] else base g;
                  dropped := if trunc_ok && negb (failed g) then dropped g ++ written g
                             else dropped g;
                  written := if trunc_ok then [] else written g;
                  accepted := accepted g;
                  failed := failed g || negb reopen_ok |} |},
   reopen_ok).

(** Interleavings: clients append, drain, flush, truncate and stop, the writer
    thread runs.  A promise identifier is used once, and [Truncate] reaches the
    file after its barrier has been answered. *)
Inductive wal_step (m : SyncMode) : WalState → WalState → Prop :=
| step_append ts p entries w :
    stop_ w = false → promises w !! p = None →
    wal_step m w (AppendBatchAsync ts p entries w).1
| step_drain p w :
    promises w !! p = None → wal_step m w (Drain p w)
| step_truncate sequence p trunc_ok reopen_ok w :
    may_truncate sequence w = true →
    fatal_ w = true ∨ (∃ ok, promises w !! p = Some (Some ok)) →
    wal_step m w (TruncateFile trunc_ok reopen_ok w).1
| step_stop w : wal_step m w (StopWriter w)
| step_writer o w : wal_step m w (WriterLoop m o w).

(** The batches the writer is writing. *)
Definition in_flight (w : WalState) : list PendingBatch :=
  match writer_pc w with Writing drained => drained | _ => [] end.

(** What is left of the file if the machine loses power now, or in the middle
    of the write and sync the writer is about to do: any prefix of what is in
    the file and what is being written, but at least what was synced.  After a
    mere process crash it is at least the whole file. *)
Definition crash_image (w : WalState) (f : bytes) : Prop :=
  f `prefix_of` contents (log w) ++ concat (pb_bytes <$> in_flight w)
  ∧ (synced (log w) <= length f)%nat.

(** ** The invariant *)

(** Batches accepted and not answered yet, oldest first. *)
Definition unanswered (w : WalState) : list PendingBatch := in_flight w ++ queue_ w.

(** The entries in the file, as long as nothing failed. *)
Definition logged (g : Ghost) : list WALEntry := base g ++ concat (pb_entries <$> written g).

Definition serialized (b : PendingBatch) : Prop := pb_bytes b = serialize_all (pb_entries b).

Record inv (m : SyncMode) (w : WalState) : Prop := {
  inv_serialized : Forall serialized (accepted (ghost w));
  inv_distinct : NoDup (pb_done <$> accepted (ghost w));
  inv_known : ∀ b, b ∈ accepted (ghost w) → is_Some (promises w !! pb_done b);
  inv_order : ∃ answered, accepted (ghost w) = answered ++ unanswered w ∧
    (failed (ghost w) = false → answered = dropped (ghost w) ++ written (ghost w));
  inv_pending : ∀ p, promises w !! p = Some None ↔ p ∈ pb_done <$> unanswered w;
  inv_file : failed (ghost w) = false →
    contents (log w) = kWalMagic ++ serialize_all (logged (ghost w))
    ∧ fd_open (log w) = true ∧ writer_pc w ≠ Failing;
  inv_synced : failed (ghost w) = false → m = SyncFsync →
    written (ghost w) = [] ∨ synced (log w) = length (contents (log w));
  inv_exited : writer_pc w = Exited → stop_ w = true ∧ queue_ w = []
}.

Definition opens (file : bytes) (es : list WALEntry) : Prop :=
  WriteMagicIfEmpty file = kWalMagic ++ serialize_all es ∧ Forall entry_wf es.

Lemma inv_Initialize m on_drive file es : opens file es → inv m (Initialize on_drive file).
Proof.
  intros [Hf Hes]. split; simpl; try done.
  - constructor.
  - by intros b ?%not_elem_of_nil.
  - exists []. done.
  - intros p. rewrite lookup_empty, elem_of_nil. done.
  - intros _. unfold logged. simpl. rewrite app_nil_r, Hf.
    rewrite <- (app_nil_r (serialize_all es)), ReadAll_log by (done || by left).
    by rewrite app_nil_r.
  - by left.
Qed.

Lemma inv_enqueue m next b w :
  stop_ w = false → promises w !! pb_done b = None → serialized b →
  inv m w → inv m (enqueue next b w).
Proof.
  intros Hstop Hfresh Hb [Hser Hdist Hknown Hord Hpend Hfile Hsync Hexit].
  assert (writer_pc w ≠ Exited) by (intros [? ?]%Hexit; congruence).
  assert (unanswered (enqueue next b w) = unanswered w ++ [b]) as Hun
    by (unfold unanswered; simpl; by rewrite app_assoc).
  split; rewrite ?Hun; simpl; try done.
  - apply Forall_app. by split; [|constructor].
  - rewrite fmap_app. apply NoDup_app. split; [done|]. split; [|apply NoDup_singleton].
    intros p (b' & -> & Hin)%list_elem_of_fmap Hp.
    apply list_elem_of_singleton in Hp. destruct (Hknown _ Hin) as [? Hk].
    by rewrite Hp, Hfresh in Hk.
  - intros b' [Hin|Hin]%elem_of_app;
      [|apply list_elem_of_singleton in Hin as ->; by rewrite lookup_insert_eq].
    apply lookup_insert_is_Some'. right. by apply Hknown.
  - destruct Hord as (l & -> & Hl). exists l. by rewrite app_assoc.
  - intros p. rewrite fmap_app, elem_of_app. simpl. rewrite list_elem_of_singleton.
    destruct (decide (p = pb_done b)) as [->|Hne].
    + rewrite lookup_insert_eq. naive_solver.
    + rewrite lookup_insert_ne by done. rewrite Hpend. naive_solver.
Qed.

Lemma inv_refuse m p w : promises w !! p = None → inv m w → inv m (refuse p w).
Proof.
  intros Hfresh [Hser Hdist Hknown Hord Hpend Hfile Hsync Hexit]. split; simpl; try done.
  - intros b Hb. apply lookup_insert_is_Some'. right. by apply Hknown.
  - intros q. change (unanswered (refuse p w)) with (unanswered w). rewrite <- Hpend.
    destruct (decide (q = p)) as [->|Hne].
    + rewrite lookup_insert_eq, Hfresh. done.
    + by rewrite lookup_insert_ne.
Qed.

Lemma serialized_concat drained :
  Forall serialized drained →
  concat (pb_bytes <$> drained) = serialize_all (concat (pb_entries <$> drained)).
Proof.
  induction 1 as [|b bs Hb _ IH]; [done|].
  rewrite !fmap_cons, !concat_cons, serialize_all_app, IH. by rewrite Hb.
Qed.

(** The three outcomes of a write: failed before or at the sync, complete. *)
Lemma WriteAndSync_spec m o blob f f' ok :
  WriteAndSync m o blob f = (f', ok) →
  contents f `prefix_of` contents f'
  ∧ (ok = true → contents f' = contents f ++ blob ∧ fd_open f' = true ∧
                 (m = SyncFsync → synced f' = length (contents f'))).
Proof.
  unfold WriteAndSync. intros H. repeat case_match; simplify_eq/=;
    (split; [by eexists|done]) || (split; [|done]); exists []; by rewrite app_nil_r.
Qed.

Lemma lookup_answer ok drained ps p :
  answer ok drained ps !! p
  = if decide (p ∈ pb_done <$> drained) then Some (Some ok) else ps !! p.
Proof.
  induction drained as [|b bs IH]; [done|]. simpl.
  destruct (decide (p = pb_done b)) as [->|Hne].
  - rewrite lookup_insert_eq, decide_True by set_solver. done.
  - rewrite lookup_insert_ne, IH by done.
    apply decide_ext. set_solver.
Qed.

Lemma NoDup_app_disjoint {A} (l k : list A) x : NoDup (l ++ k) → x ∈ l → x ∈ k → False.
Proof. intros (_ & H & _)%NoDup_app. apply H. Qed.

Lemma inv_unanswered_distinct m w : inv m w → NoDup (pb_done <$> unanswered w).
Proof.
  intros [_ Hd _ (l & Hl & _) _ _ _ _]. rewrite Hl, fmap_app in Hd.
  by apply NoDup_app in Hd as (_ & _ & ?).
Qed.

Lemma inv_write m o w drained : writer_pc w = Writing drained → inv m w → inv m (WriterLoop m o w).
Proof.
  intros Hpc Hinv. pose proof (inv_unanswered_distinct _ _ Hinv) as Hnd.
  destruct Hinv as [Hser Hdist Hknown Hord Hpend Hfile Hsync Hexit].
  unfold WriterLoop. rewrite Hpc.
  destruct (WriteAndSync _ _ _ _) as [f' ok] eqn:Hw.
  apply WriteAndSync_spec in Hw as [Hpre Hok].
  assert (unanswered w = drained ++ queue_ w) as Hun
    by (unfold unanswered, in_flight; by rewrite Hpc).
  rewrite Hun in *. rewrite fmap_app in Hnd.
  assert (∀ f nx st ft (b : bool) ps g,
    unanswered {| log := f; next_sequence_ := nx; queue_ := queue_ w; stop_ := st;
      fatal_ := ft; writer_pc := if b then Waiting else Failing; promises := ps; ghost := g |}
    = queue_ w) as Hun' by by intros ? ? ? ? [].
  destruct Hord as (l & Hacc & Hl).
  assert (Forall serialized drained) as Hdser.
  { rewrite Hacc, !Forall_app in Hser. apply Hser. }
  split; rewrite ?Hun'; simpl; try done.
  - intros b Hb. rewrite lookup_answer. case_decide; [by eexists|by apply Hknown].
  - exists (l ++ drained). rewrite Hacc, <- app_assoc. split; [done|].
    intros [Hf Hb]%orb_false_iff. rewrite Hf, Hb, Hl by done. simpl. by rewrite app_assoc.
  - intros p. rewrite lookup_answer. case_decide as Hp.
    + split; [by intros [=]|]. intros Hq. by destruct (NoDup_app_disjoint _ _ _ Hnd Hp Hq).
    + rewrite Hpend, fmap_app, elem_of_app. naive_solver.
  - intros [Hf Hb%negb_false_iff]%orb_false_iff. subst ok.
    destruct Hok as (Hc & Ho & _); [done|]. destruct (Hfile Hf) as (Hc0 & _ & _).
    split; [|done]. rewrite Hc, Hc0, serialized_concat by done.
    unfold logged. simpl. rewrite Hf. simpl. rewrite fmap_app, concat_app, !serialize_all_app.
    by rewrite <- !app_assoc.
  - intros [Hf Hb%negb_false_iff]%orb_false_iff Hm. right. by apply Hok.
  - by destruct ok.
Qed.

Lemma inv_same_shape m w w' :
  log w' = log w → unanswered w' = unanswered w → promises w' = promises w →
  ghost w' = ghost w → (writer_pc w' = Failing → writer_pc w = Failing) →
  (writer_pc w' = Exited → stop_ w' = true ∧ queue_ w' = []) →
  inv m w → inv m w'.
Proof.
  intros Hlog Hun Hps Hg Hf He [Hser Hdist Hknown Hord Hpend Hfile Hsync Hexit].
  split; rewrite ?Hlog, ?Hun, ?Hps, ?Hg; try done.
  intros Hnf. destruct (Hfile Hnf) as (? & ? & ?). naive_solver.
Qed.

Lemma inv_WriterLoop m o w : inv m w → inv m (WriterLoop m o w).
Proof.
  intros Hinv. destruct (writer_pc w) as [|drained| |] eqn:Hpc.
  - assert (unanswered w = queue_ w) as Hq by (unfold unanswered, in_flight; by rewrite Hpc).
    apply (inv_same_shape m w); unfold WriterLoop; rewrite ?Hpc; try done;
      destruct (queue_ w) as [|b q] eqn:Hqw; try done;
      rewrite ?Hq; unfold unanswered, in_flight; simpl; rewrite ?app_nil_r;
      destruct (stop_ w); try done; by rewrite ?Hqw.
  - by apply (inv_write m o w drained).
  - unfold WriterLoop. rewrite Hpc.
    apply (inv_same_shape m w); try done; unfold unanswered, in_flight; by rewrite Hpc.
  - unfold WriterLoop. by rewrite Hpc.
Qed.

Lemma inv_TruncateFile m t r w : inv m w → inv m (TruncateFile t r w).1.
Proof.
  intros [Hser Hdist Hknown Hord Hpend Hfile Hsync Hexit]. split; simpl; try done.
  - destruct Hord as (l & Hacc & Hl). exists l. split; [done|].
    intros [Hf Hr%negb_false_iff]%orb_false_iff. rewrite Hf, andb_true_r.
    destruct t; [rewrite app_nil_r|]; by apply Hl.
  - intros [Hf Hr%negb_false_iff]%orb_false_iff. rewrite Hr.
    destruct (Hfile Hf) as (Hc & _ & Hp). unfold logged. destruct t; [done|]. simpl.
    split; [|done]. rewrite Hc. unfold WriteMagicIfEmpty. by rewrite decide_False by done.
  - intros [Hf Hr%negb_false_iff]%orb_false_iff Hm. rewrite Hr. destruct t; [by left|].
    destruct (Hsync Hf Hm) as [?|Hs]; [by left|right]. rewrite Hs.
    destruct (Hfile Hf) as (Hc & _ & _). unfold WriteMagicIfEmpty.
    rewrite decide_False; [done|]. by rewrite Hc.
Qed.

Lemma inv_step m w w' : wal_step m w w' → inv m w → inv m w'.
Proof.
  intros [] Hinv.
  - unfold AppendBatchAsync. destruct (fatal_ w0); [by apply inv_refuse|].
    destruct (assign_sequences _ _ _). by apply inv_enqueue.
  - unfold Drain. destruct (stop_ w0) eqn:?, (fatal_ w0); simpl; try done. by apply inv_enqueue.
  - by apply inv_TruncateFile.
  - apply (inv_same_shape m w0); try done. intros He. split; [done|]. by apply (inv_exited m w0).
  - by apply inv_WriterLoop.
Qed.

Lemma inv_reachable m on_drive file es w :
  opens file es → rtc (wal_step m) (Initialize on_drive file) w → inv m w.
Proof.
  intros Ho Hr. apply (inv_Initialize m on_drive) in Ho.
  induction Hr as [|x y z Hxy _ IH]; [done|]. by apply IH, (inv_step m x).
Qed.

(** ** Durability *)

(** A prefix of a log is some of its records and a torn one. *)
Lemma prefix_torn f es :
  Forall entry_wf es → f `prefix_of` serialize_all es →
  ∃ k tail, f = serialize_all (take k es) ++ tail ∧ torn tail.
Proof.
  intros Hes. revert f. induction Hes as [|e es He Hes IH]; intros f [x Hx].
  - exists O, []. split; [by destruct f|by left].
  - rewrite serialize_all_cons in Hx.
    destruct (app_eq_inv _ _ _ _ Hx) as [(y & Hf & Hy)|(y & Hf & Hy)].
    + destruct (decide (y = [])) as [->|Hne].
      * exists 1%nat, []. split; [|by left].
        change (take 1 (e :: es)) with [e].
        by rewrite serialize_all_cons, Hf, !app_nil_r.
      * exists O, f. split; [done|]. right. by exists e, y.
    + destruct (IH y) as (k & tail & -> & Ht); [by exists x|].
      exists (S k), tail. split; [|done]. subst f.
      by rewrite firstn_cons, serialize_all_cons, app_assoc.
Qed.

Lemma ReadAll_prefix f es :
  Forall entry_wf es → f `prefix_of` kWalMagic ++ serialize_all es →
  ∃ k, ReadAll f = take k es.
Proof.
  intros Hes [x Hx]. destruct (app_eq_inv _ _ _ _ Hx) as [(y & Hf & Hy)|(y & Hf & Hy)].
  - destruct (decide (y = [])) as [->|Hne].
    + exists O. rewrite app_nil_r in Hf. subst f.
      rewrite <- (app_nil_r kWalMagic).
      by apply (ReadAll_log [] []); [|left].
    + exists O. unfold ReadAll. rewrite decide_False; [done|].
      intros Ht. apply (f_equal length) in Hf as Hl. rewrite <- Ht, !length_app, length_take in Hl.
      destruct y; [done|]. rewrite length_cons in Hl. lia.
  - destruct (prefix_torn y es) as (k & tail & -> & Ht); [done|by exists x|].
    exists k. subst f. apply ReadAll_log; [by apply Forall_take|done].
Qed.

(** Batches answered true are in the part of the history that was written. *)
Lemma acked_written m w b :
  inv m w → failed (ghost w) = false → b ∈ accepted (ghost w) →
  promises w !! pb_done b = Some (Some true) →
  b ∈ dropped (ghost w) ∨ b ∈ written (ghost w).
Proof.
  intros [_ _ _ (l & Hacc & Hl) Hpend _ _ _] Hf Hb Hp. rewrite Hacc, (Hl Hf) in Hb.
  apply elem_of_app in Hb as [Hb|Hb]; [by apply elem_of_app|].
  assert (promises w !! pb_done b = Some None) as Hn
    by by apply Hpend, list_elem_of_fmap_2.
  by rewrite Hn in Hp.
Qed.

Lemma logged_batch g b :
  b ∈ written g → ∃ pre post, logged g = pre ++ pb_entries b ++ post.
Proof.
  intros (l & k & Hw)%list_elem_of_split. unfold logged. rewrite Hw.
  exists (base g ++ concat (pb_entries <$> l)), (concat (pb_entries <$> k)).
  rewrite fmap_app, fmap_cons, concat_app, concat_cons. by rewrite <- !app_assoc.
Qed.

(** What a crash may leave in the file: its entries, then those being written. *)
Definition at_risk (w : WalState) : list WALEntry :=
  logged (ghost w) ++ concat (pb_entries <$> in_flight w).

(** Without failures a crash leaves a prefix of these, and once a batch was
    written everything in the file. *)
Lemma crash_reads w f :
  inv SyncFsync w → failed (ghost w) = false → Forall entry_wf (at_risk w) → crash_image w f →
  ∃ j, ReadAll f = take j (at_risk w)
       ∧ (written (ghost w) ≠ [] → (length (logged (ghost w)) <= j)%nat).
Proof.
  intros Hinv Hf Hwf [Hpre Hsync]. destruct (inv_file _ _ Hinv Hf) as (Hc & _ & _).
  destruct (inv_order _ _ Hinv) as (l & Hacc & _).
  assert (Forall serialized (in_flight w)) as Hser.
  { pose proof (inv_serialized _ _ Hinv) as Hs. rewrite Hacc in Hs. unfold unanswered in Hs.
    rewrite !Forall_app in Hs. apply Hs. }
  rewrite serialized_concat, Hc in Hpre by done.
  destruct (inv_synced _ _ Hinv Hf eq_refl) as [Hn|Hs].
  - destruct (ReadAll_prefix f (at_risk w)) as [j Hj]; [done| |by exists j].
    unfold at_risk. by rewrite serialize_all_app, app_assoc.
  - destruct Hpre as [x Hx]. rewrite Hs, Hc in Hsync.
    destruct (app_eq_inv _ _ _ _ Hx) as [(y & Hy & Hx')|(y & Hfy & Hy)].
    + assert (y = []) as ->.
      { rewrite Hy, length_app in Hsync. destruct y; [done|simpl in Hsync; lia]. }
      rewrite app_nil_r in Hy. exists (length (logged (ghost w))). split; [|done].
      unfold at_risk. rewrite take_app_length, <- Hy.
      rewrite <- (app_nil_r (serialize_all _)). apply ReadAll_log; [|by left].
      unfold at_risk in Hwf. by apply Forall_app in Hwf as [? _].
    + unfold at_risk in Hwf. apply Forall_app in Hwf as [Hw1 Hw2].
      destruct (prefix_torn y (concat (pb_entries <$> in_flight w))) as (k & tail & -> & Ht); [done|by exists x|].
      exists (length (logged (ghost w)) + k)%nat. split; [|lia].
      unfold at_risk. rewrite take_app_add, Hfy, <- app_assoc, (app_assoc (serialize_all _)), <- serialize_all_app.
      apply ReadAll_log; [|done]. apply Forall_app. split; [done|by apply Forall_take].
Qed.

(** C5. Durability of the group commit in [Fsync] mode, on a log that opened
    whole (no torn record at its end, see [torn_tail_hides_acked_record]), with
    entries within the bounds of the format: in every reachable state without a
    failed write, whatever prefix of the file a power loss
    leaves (at least what was synced, at most what is being written), recovery
    reads a prefix of the history in order, and every batch whose future
    resolved true is in it, contiguous and complete, unless a truncation
    discarded it on purpose. *)
Theorem acked_batch_survives on_drive file es w f :
  opens file es →
  rtc (wal_step SyncFsync) (Initialize on_drive file) w →
  failed (ghost w) = false →
  Forall entry_wf (at_risk w) →
  crash_image w f →
  (∃ k, ReadAll f = take k (at_risk w)) ∧
  ∀ b, b ∈ accepted (ghost w) → promises w !! pb_done b = Some (Some true) →
    b ∈ dropped (ghost w) ∨ ∃ pre post, ReadAll f = pre ++ pb_entries b ++ post.
Proof.
  intros Ho Hr Hf Hwf Hcrash. pose proof (inv_reachable _ _ _ _ _ Ho Hr) as Hinv.
  destruct (crash_reads w f Hinv Hf Hwf Hcrash) as (j & Hj & Hall). split; [by exists j|].
  intros b Hb Hp. destruct (acked_written _ _ _ Hinv Hf Hb Hp) as [?|Hw]; [by left|right].
  destruct (logged_batch _ _ Hw) as (pre & post & Hl).
  assert (length (logged (ghost w)) <= j)%nat as Hlj by (apply Hall; intros E; by rewrite E in Hw; apply not_elem_of_nil in Hw).
  exists pre, (post ++ take (j - length (logged (ghost w))) (concat (pb_entries <$> in_flight w))).
  rewrite Hj. unfold at_risk. rewrite take_app_ge, Hl by done. by rewrite <- !app_assoc.
Qed.

(** ** Order *)

Definition history (g : Ghost) : list WALEntry := concat (pb_entries <$> accepted g).

Definition consecutive (start : Z) (es : list WALEntry) : Prop :=
  e_sequence <$> es = (λ i, u64 (start + i)) <$> seqZ 0 (zlength es).

Lemma assign_sequences_spec ts es : ∀ next,
  is_u 64 next →
  consecutive next (assign_sequences ts next es).1
  ∧ (assign_sequences ts next es).2 = u64 (next + zlength es)
  ∧ length (assign_sequences ts next es).1 = length es.
Proof.
  induction es as [|e es IH]; intros next Hn.
  - split; [done|]. split; [|done]. simpl. rewrite Z.add_0_r. by rewrite u64_small.
  - simpl. destruct (IH (u64 (next + 1))) as (IH1 & IH2 & IH3).
    { unfold is_u, u64. apply Z.mod_pos_bound. lia. }
    destruct (assign_sequences ts (u64 (next + 1)) es) as [es' next'] eqn:E. simpl in *.
    split; [|split; [|by rewrite IH3]].
    + unfold consecutive in *. rewrite fmap_cons, IH1. simpl. unfold zlength. simpl.
      rewrite (seqZ_cons 0 (Z.of_nat (S _))) by lia. rewrite fmap_cons, Z.add_0_r, (u64_small next) by done.
      f_equal. rewrite <- (fmap_add_seqZ 1 0), <- list_fmap_compose.
      replace (Z.pred (Z.of_nat (S (length es')))) with (Z.of_nat (length es')) by lia.
      apply list_fmap_ext. intros i z _. simpl. unfold u64. rewrite Zplus_mod_idemp_l.
      f_equal. lia.
    + rewrite IH2. unfold u64, zlength. rewrite Zplus_mod_idemp_l. f_equal. simpl. lia.
Qed.

Definition inv_seq (start : Z) (w : WalState) : Prop :=
  consecutive start (history (ghost w))
  ∧ next_sequence_ w = u64 (start + zlength (history (ghost w))).

Lemma consecutive_app start es1 es2 :
  consecutive start es1 → consecutive (u64 (start + zlength es1)) es2 →
  consecutive start (es1 ++ es2).
Proof.
  unfold consecutive. intros H1 H2. rewrite fmap_app, H1, H2, zlength_app.
  rewrite seqZ_app by apply zlength_nonneg. rewrite fmap_app. f_equal.
  rewrite Z.add_0_l, <- (Z.add_0_r (zlength es1)) at 1. rewrite <- (fmap_add_seqZ (zlength es1) 0), <- list_fmap_compose.
  apply list_fmap_ext. intros i z _. simpl. unfold u64. rewrite Zplus_mod_idemp_l.
  f_equal. lia.
Qed.

Lemma u64_range z : is_u 64 (u64 z).
Proof. unfold is_u, u64. apply Z.mod_pos_bound. lia. Qed.

Lemma inv_seq_accept start b w w' :
  inv_seq start w → accepted (ghost w') = accepted (ghost w) ++ [b] →
  consecutive (next_sequence_ w) (pb_entries b) →
  next_sequence_ w' = u64 (next_sequence_ w + zlength (pb_entries b)) →
  inv_seq start w'.
Proof.
  intros [Hc Hs] Ha Hb Hn. unfold inv_seq, history in *.
  rewrite Ha, Hn, fmap_app, concat_app. simpl. rewrite app_nil_r. split.
  - apply consecutive_app; [done|]. by rewrite <- Hs.
  - rewrite Hs, zlength_app. unfold u64. rewrite Zplus_mod_idemp_l. f_equal. lia.
Qed.

Lemma inv_seq_keep start w w' :
  accepted (ghost w') = accepted (ghost w) → next_sequence_ w' = next_sequence_ w →
  inv_seq start w → inv_seq start w'.
Proof. intros Ha Hn. unfold inv_seq, history. by rewrite Ha, Hn. Qed.

Lemma inv_seq_step start m w w' : wal_step m w w' → inv_seq start w → inv_seq start w'.
Proof.
  intros [] Hinv; try by apply (inv_seq_keep start w0).
  - unfold AppendBatchAsync. destruct (fatal_ w0); [by apply (inv_seq_keep start w0)|].
    destruct (assign_sequences_spec ts entries (next_sequence_ w0)) as (Hc & Hn & Hl).
    { destruct Hinv as [_ ->]. apply u64_range. }
    destruct (assign_sequences _ _ _) as [es next] eqn:E. simpl in *.
    eapply inv_seq_accept; [exact Hinv|done|exact Hc|].
    unfold zlength in *. simpl. by rewrite Hn, <- Hl.
  - unfold Drain. destruct (stop_ w0 || fatal_ w0); [done|].
    eapply inv_seq_accept; [exact Hinv|done|done|].
    simpl. rewrite Z.add_0_r, u64_small; [done|]. destruct Hinv as [_ ->]. apply u64_range.
  - unfold WriterLoop. destruct (writer_pc w0); [destruct (queue_ w0)| | |];
      try (destruct (WriteAndSync _ _ _ _)); by apply (inv_seq_keep start w0).
Qed.

Lemma inv_seq_reachable m on_drive file w :
  rtc (wal_step m) (Initialize on_drive file) w →
  inv_seq (RecoverSequenceNumber (WriteMagicIfEmpty file)) w.
Proof.
  intros Hr. assert (inv_seq (RecoverSequenceNumber (WriteMagicIfEmpty file))
    (Initialize on_drive file)) as H0.
  { split; [done|]. unfold history, zlength. simpl. rewrite Z.add_0_r.
    rewrite u64_small; [done|]. apply u64_range. }
  revert H0. generalize (RecoverSequenceNumber (WriteMagicIfEmpty file)). intros start H0.
  induction Hr as [|x y z Hxy _ IH]; [done|]. by apply IH, (inv_seq_step start m x).
Qed.

(** Order: in every mode and every interleaving of clients, writer and
    truncation, as long as nothing failed the file holds, after the entries
    found at start-up or the last truncation, the batches in the order they were
    accepted, minus a suffix not written yet; and the sequence numbers of the
    accepted entries are consecutive (modulo 2^64) from the recovered one. *)
Theorem file_order_is_sequence_order m on_drive file es w :
  opens file es →
  rtc (wal_step m) (Initialize on_drive file) w →
  failed (ghost w) = false →
  Forall entry_wf (logged (ghost w)) →
  ReadAll (contents (log w)) = base (ghost w) ++ concat (pb_entries <$> written (ghost w))
  ∧ accepted (ghost w) = dropped (ghost w) ++ written (ghost w) ++ unanswered w
  ∧ consecutive (RecoverSequenceNumber (WriteMagicIfEmpty file)) (history (ghost w)).
Proof.
  intros Ho Hr Hf Hwf. pose proof (inv_reachable _ _ _ _ _ Ho Hr) as Hinv.
  destruct (inv_file _ _ Hinv Hf) as (Hc & _ & _).
  destruct (inv_order _ _ Hinv) as (l & Ha & Hl). rewrite Hl in Ha by done.
  split; [|split].
  - rewrite Hc, <- (app_nil_r (serialize_all _)). by apply ReadAll_log; [|left].
  - by rewrite Ha, <- app_assoc.
  - by apply (inv_seq_reachable _ _ _ _ Hr).
Qed.

(** ** Every waiter is answered *)

Definition pending (p : nat) (w : WalState) : Prop := promises w !! p = Some None.

#[export] Instance pending_dec p w : Decision (pending p w).
Proof. unfold pending. apply _. Defined.

Lemma answer_keeps ok p ds ps r :
  ps !! p = Some (Some r) → ∃ r', answer ok ds ps !! p = Some (Some r').
Proof. intros H. rewrite lookup_answer. case_decide; by eexists. Qed.

Lemma WriterLoop_keeps m o p w r :
  promises w !! p = Some (Some r) → ∃ r', promises (WriterLoop m o w) !! p = Some (Some r').
Proof.
  intros H. unfold WriterLoop.
  destruct (writer_pc w); [destruct (queue_ w)| | |]; try (by exists r).
  destruct (WriteAndSync _ _ _ _). by apply answer_keeps with r.
Qed.

Lemma WriterLoop_answers m o p w :
  pending p w → ¬ pending p (WriterLoop m o w) →
  ∃ r, promises (WriterLoop m o w) !! p = Some (Some r).
Proof.
  unfold pending. intros H Hn.
  assert (is_Some (promises (WriterLoop m o w) !! p)) as [[r|] Hr]; [|by exists r|done].
  unfold WriterLoop. destruct (writer_pc w); [destruct (queue_ w)| | |]; try by eexists.
  destruct (WriteAndSync _ _ _ _). simpl. rewrite lookup_answer. case_decide; by eexists.
Qed.

(** [n] consecutive actions of the writer thread. *)
Fixpoint writer_run (m : SyncMode) (os : list io) (w : WalState) : WalState :=
  match os with [] => w | o :: os => writer_run m os (WriterLoop m o w) end.

Lemma writer_run_keeps m os p : ∀ w r,
  promises w !! p = Some (Some r) → ∃ r', promises (writer_run m os w) !! p = Some (Some r').
Proof.
  induction os as [|o os IH]; intros w r H; [by exists r|].
  destruct (WriterLoop_keeps m o p w r H) as [r' H']. by apply IH with r'.
Qed.

(** A measure of how far the answer to [p] is. *)
Definition distance (p : nat) (w : WalState) : nat :=
  match writer_pc w with
  | Writing drained => if decide (p ∈ pb_done <$> drained) then 1 else 4
  | Failing => 3
  | Waiting => 2
  | Exited => 0
  end.

Lemma writer_progress m o p w :
  inv m w → pending p w →
  ¬ pending p (WriterLoop m o w) ∨ (distance p (WriterLoop m o w) < distance p w)%nat.
Proof.
  intros Hinv Hp. pose proof (inv_pending _ _ Hinv p) as Hq. unfold pending in *.
  pose proof (inv_exited _ _ Hinv) as Hex.
  unfold unanswered, in_flight in Hq. unfold WriterLoop, distance.
  destruct (writer_pc w) as [|drained| |] eqn:Hpc; simpl.
  - apply Hq in Hp. destruct (queue_ w) as [|b q]; [by apply not_elem_of_nil in Hp|].
    right. simpl. rewrite decide_True by done. lia.
  - destruct (WriteAndSync _ _ _ _) as [f ok]. simpl. rewrite lookup_answer.
    case_decide; [by left|]. right. destruct ok; lia.
  - right. lia.
  - destruct Hex as [_ Hnil]; [done|]. apply Hq in Hp. rewrite Hnil in Hp.
    by apply not_elem_of_nil in Hp.
Qed.

(** C39. No waiter is left behind: in every reachable state, whatever failed so
    far and whatever the next writes do, four more actions of the writer thread
    answer every promise pending now (with true or false). *)
Theorem writer_answers m on_drive file es w p o1 o2 o3 o4 :
  opens file es →
  rtc (wal_step m) (Initialize on_drive file) w →
  promises w !! p = Some None →
  ∃ ok, promises (writer_run m [o1; o2; o3; o4] w) !! p = Some (Some ok).
Proof.
  intros Ho Hr Hp. pose proof (inv_reachable _ _ _ _ _ Ho Hr) as Hinv. clear Ho Hr.
  assert (∀ os w, inv m w → pending p w → (distance p w <= length os)%nat →
    ∃ ok, promises (writer_run m os w) !! p = Some (Some ok)) as H; [|apply H; try done].
  2: { unfold distance. destruct (writer_pc w); try case_decide; simpl; lia. }
  clear. induction os as [|o os IH]; intros w Hinv Hp Hd; simpl in *.
  - destruct (writer_progress m {| write_error_at := None; sync_ok := true |} p w Hinv Hp)
      as [Hn|]; [|lia].
    assert (writer_pc w = Exited) as He.
    { unfold distance in Hd. destruct (writer_pc w); try case_decide; lia || done. }
    unfold WriterLoop in Hn. by rewrite He in Hn.
  - destruct (writer_progress m o p w Hinv Hp) as [Hn|Hlt].
    + destruct (WriterLoop_answers m o p w Hp Hn) as [r Hr]. by apply writer_run_keeps with r.
    + destruct (decide (pending p (WriterLoop m o w))) as [Hp'|Hp'].
      * apply IH; [by apply inv_WriterLoop|done|lia].
      * destruct (WriterLoop_answers m o p w Hp Hp') as [r Hr]. by apply writer_run_keeps with r.
Qed.

(** ** Concrete runs *)

Definition demo_write (key : string) : WALEntry :=
  {| e_type := INSERT; e_sequence := 0; e_txn := 7; e_timestamp := 0;
     e_table := "users"; e_key := key; e_data := [Byte.x01; Byte.xff] |}.

Definition ok_io : io := {| write_error_at := None; sync_ok := true |}.

(** Two batches accepted, the first one written, synced and answered. *)
Definition demo_w1 : WalState := (AppendBatchAsync 100 0 [demo_write "a"] (Initialize 0 [])).1.
Definition demo_w3 : WalState := WriterLoop SyncFsync ok_io (WriterLoop SyncFsync ok_io demo_w1).
Definition demo_w4 : WalState := (AppendBatchAsync 101 1 [demo_write "b"; demo_write "c"] demo_w3).1.

Lemma demo_opens : opens [] [].
Proof. split; [done|constructor]. Qed.

Lemma demo_reachable : rtc (wal_step SyncFsync) (Initialize 0 []) demo_w4.
Proof.
  eapply rtc_l; [by apply (step_append _ 100 0 [demo_write "a"])|].
  eapply rtc_l; [apply (step_writer _ ok_io)|].
  eapply rtc_l; [apply (step_writer _ ok_io)|].
  apply rtc_once. by apply (step_append _ 101 1 [demo_write "b"; demo_write "c"]).
Qed.

Lemma demo_logged_wf : Forall entry_wf (logged (ghost demo_w4)).
Proof. apply (bool_decide_unpack _). vm_compute. exact I. Qed.
Lemma demo_at_risk_wf : Forall entry_wf (at_risk demo_w4).
Proof. apply (bool_decide_unpack _). vm_compute. exact I. Qed.

Lemma acked_batch_survives_witness :
  (∃ k, ReadAll (contents (log demo_w4)) = take k (at_risk demo_w4)) ∧
  ∀ b, b ∈ accepted (ghost demo_w4) → promises demo_w4 !! pb_done b = Some (Some true) →
    b ∈ dropped (ghost demo_w4) ∨
    ∃ pre post, ReadAll (contents (log demo_w4)) = pre ++ pb_entries b ++ post.
Proof.
  apply (acked_batch_survives 0 [] [] demo_w4); [apply demo_opens|apply demo_reachable
    |reflexivity|apply demo_at_risk_wf|]. split; [by apply prefix_app_r|]. vm_compute. lia.
Defined.

Lemma file_order_is_sequence_order_witness :
  ReadAll (contents (log demo_w4))
    = base (ghost demo_w4) ++ concat (pb_entries <$> written (ghost demo_w4))
  ∧ accepted (ghost demo_w4)
    = dropped (ghost demo_w4) ++ written (ghost demo_w4) ++ unanswered demo_w4
  ∧ consecutive 1 (history (ghost demo_w4)).
Proof.
  apply (file_order_is_sequence_order SyncFsync 0 [] [] demo_w4);
    [apply demo_opens|apply demo_reachable|reflexivity|apply demo_logged_wf].
Defined.

Lemma writer_answers_witness :
  ∃ ok, promises (writer_run SyncFsync [ok_io; ok_io; ok_io; ok_io] demo_w4) !! 1%nat
        = Some (Some ok).
Proof.
  apply (writer_answers SyncFsync 0 [] [] demo_w4);
    [apply demo_opens|apply demo_reachable|reflexivity].
Defined.

(** ** What the invariant's hypotheses exclude *)

(** [Initialize] opens a log with a torn tail for appending without cutting the
    tail off: a record appended and answered true afterwards lies behind the
    torn bytes, which the next recovery takes for the start of a record. *)
Theorem torn_tail_hides_acked_record :
  let torn_file := kWalMagic ++ take 9 (SerializeRecord (demo_entry 1 "a")) in
  let w := (AppendBatchAsync 100 0 [demo_write "b"] (Initialize (length torn_file) torn_file)).1 in
  let w' := writer_run SyncFsync [ok_io; ok_io] w in
  promises w' !! 0%nat = Some (Some true)
  ∧ synced (log w') = length (contents (log w'))
  ∧ Forall (λ e, e_key e ≠ "b") (ReadAll (contents (log w'))).
Proof. split; [|split]; [reflexivity..|]. apply (bool_decide_unpack _). vm_compute. exact I. Qed.

(** [WriterLoop] does not look at [fatal_] before it writes: a batch queued
    while another one's write fails half-way is written behind the torn bytes
    and answered true. *)
Theorem late_batch_acked_after_failed_write :
  let bad_io := {| write_error_at := Some 9%nat; sync_ok := true |} in
  let w1 := WriterLoop SyncFsync ok_io
    (AppendBatchAsync 100 0 [demo_write "a"] (Initialize 0 [])).1 in
  let w2 := (AppendBatchAsync 101 1 [demo_write "b"] w1).1 in
  let w' := writer_run SyncFsync [bad_io; ok_io; ok_io; ok_io] w2 in
  promises w' !! 0%nat = Some (Some false)
  ∧ promises w' !! 1%nat = Some (Some true)
  ∧ Forall (λ e, e_key e ≠ "b") (ReadAll (contents (log w'))).
Proof. split; [|split]; [reflexivity..|]. apply (bool_decide_unpack _). vm_compute. exact I. Qed.
