(* ===== verification/WalStore.v ===== *)
(** * The log as the storage engine sees it

    The storage engine calls the write-ahead log through the interface
    [WalApi]: submit a batch and wait for its answer, read everything back,
    truncate.  [WalSpec] is what the log promises: a batch answered true is in
    the log, after everything before it, with its payload intact.  The instance
    runs the group commit of WalWriter.v: the caller's request, then the writer
    thread until it has answered. *)

From S2P Require Import Prelude Codec RowCodec Wal WalWriter.
From coqutil Require Import Byte.

(** ** The interface *)

Class WalApi (W : Type) := {
  wal_append : list WALEntry → W → W * bool;
  wal_ReadAll : W → list WALEntry;
  wal_GetLastSequence : W → Z;
  wal_GetSize : W → Z;
  wal_Truncate : Z → W → W * bool
}.

(** The log assigns the sequence number and the timestamp, nothing else. *)
Definition same_write (e e' : WALEntry) : Prop :=
  e_type e' = e_type e ∧ e_txn e' = e_txn e ∧ e_table e' = e_table e
  ∧ e_key e' = e_key e ∧ e_data e' = e_data e.

(** What the record format can hold. *)
Definition payload_wf (e : WALEntry) : Prop :=
  (WALEntryType_of_int (WALEntryType_to_int (e_type e)) = e_type e
   ∧ is_u 8 (WALEntryType_to_int (e_type e)))
  ∧ is_u 64 (e_txn e) ∧ zlength (record_bytes e) < 2 ^ 32.

#[export] Instance payload_wf_dec e : Decision (payload_wf e).
Proof. unfold payload_wf. apply _. Defined.

Class WalSpec (W : Type) `{WalApi W} := {
  wal_good : W → Prop;
  wal_append_good : ∀ es w,
    wal_good w → Forall payload_wf es →
    0 <= wal_GetLastSequence w + zlength es < 2 ^ 64 - 1 →
    (wal_append es w).2 = true → wal_good (wal_append es w).1;
  wal_append_log : ∀ es w,
    wal_good w → wal_good (wal_append es w).1 →
    (wal_append es w).2 = true ∧
    ∃ es', Forall2 same_write es es' ∧ wal_ReadAll (wal_append es w).1 = wal_ReadAll w ++ es';
  wal_truncate_log : ∀ w,
    wal_good w → wal_good (wal_Truncate (wal_GetLastSequence w) w).1 →
    wal_ReadAll (wal_Truncate (wal_GetLastSequence w) w).1 = []
}.

(** ** The instance *)

(** The log, the outcomes of its next writes (all is well once they run out)
    and the clock. *)
Record WalHost := { host : WalState; outcomes : list io; clock : Z }.

Section wal_host.
Variable m : SyncMode.

Definition next_io (w : WalHost) : io := default ok_io (head (outcomes w)).
Definition fresh_promise (s : WalState) : nat := fresh (dom (promises s)).

(** Let the writer take the queue, write it, and notice a failure. *)
Definition run_writer (w : WalHost) (s : WalState) : WalHost :=
  {| host := writer_run m [ok_io; next_io w; ok_io] s; outcomes := tail (outcomes w);
     clock := u64 (clock w + 1) |}.

Definition host_append (es : list WALEntry) (w : WalHost) : WalHost * bool :=
  let p := fresh_promise (host w) in
  let w' := run_writer w (AppendBatchAsync (clock w) p es (host w)).1 in
  (w', bool_decide (promises (host w') !! p = Some (Some true))).

Definition host_truncate (sequence : Z) (w : WalHost) : WalHost * bool :=
  if may_truncate sequence (host w) then
    let w' := run_writer w (Drain (fresh_promise (host w)) (host w)) in
    let '(s, ok) := TruncateFile true true (host w') in
    ({| host := s; outcomes := outcomes w'; clock := clock w' |}, ok)
  else (w, false).

#[export] Instance host_api : WalApi WalHost := {|
    wal_append := host_append;
    wal_ReadAll := λ w, ReadAll (contents (log (host w)));
    wal_GetLastSequence := λ w, GetLastSequence (host w);
    wal_GetSize := λ w, GetSize (host w);
    wal_Truncate := host_truncate
  |}.

(** ** The instance keeps the promise *)

(** A log at rest, nothing of which has failed. *)
Record host_good (w : WalHost) : Prop := {
  hg_inv : inv m (host w);
  hg_failed : failed (ghost (host w)) = false;
  hg_waiting : writer_pc (host w) = Waiting;
  hg_queue : queue_ (host w) = [];
  hg_stop : stop_ (host w) = false;
  hg_fatal : fatal_ (host w) = false;
  hg_next : 0 < next_sequence_ (host w) ∧ is_u 64 (next_sequence_ (host w));
  hg_clock : is_u 64 (clock w);
  hg_logged : Forall entry_wf (logged (ghost (host w)))
}.

Lemma zlength_record_bytes e :
  zlength (record_bytes e)
  = 37 + zlength (str_bytes (e_table e)) + zlength (str_bytes (e_key e)) + zlength (e_data e).
Proof.
  rewrite record_bytes_app. unfold PutString, PutBytes.
  rewrite !PutU64_le, !PutU32_le. unfold PutU8.
  rewrite !zlength_app. unfold zlength. rewrite !length_le_bytes. simpl. lia.
Qed.

Lemma assign_sequences_same ts next es : Forall2 same_write es (assign_sequences ts next es).1.
Proof.
  revert next. induction es as [|e es IH]; intros next; simpl; [constructor|].
  specialize (IH (u64 (next + 1))). destruct (assign_sequences ts (u64 (next + 1)) es).
  by constructor.
Qed.

Lemma assign_sequences_wf ts es : ∀ next,
  is_u 64 ts → 0 < next → next + zlength es < 2 ^ 64 → Forall payload_wf es →
  Forall entry_wf (assign_sequences ts next es).1
  ∧ (assign_sequences ts next es).2 = next + zlength es.
Proof.
  induction es as [|e es IH]; intros next Hts Hn Hlt Hes; unfold zlength in *; simpl in *.
  - split; [constructor|lia].
  - inversion_clear Hes as [|?? (Ht & Htx & Hlen) Hes'].
    rewrite u64_small by (unfold is_u; lia).
    destruct (IH (next + 1)) as [IH1 IH2]; [done|lia|lia|done|].
    destruct (assign_sequences ts (next + 1) es) as [es' next']. simpl in *. split; [|lia].
    constructor; [|done]. split; [done|]. simpl. split.
    + split_and!; try done; unfold is_u; lia.
    + rewrite zlength_record_bytes in *. done.
Qed.

Definition append_result (w : WalHost) (es : list WALEntry) : WalState :=
  let '(es', next) := assign_sequences (clock w) (next_sequence_ (host w)) es in
  let b := {| pb_bytes := serialize_all es'; pb_done := fresh_promise (host w);
              pb_entries := es' |} in
  let '(f', ok) := WriteAndSync m (next_io w) (serialize_all es') (log (host w)) in
  {| log := f'; next_sequence_ := next; queue_ := []; stop_ := false; fatal_ := negb ok;
     writer_pc := Waiting; promises := answer ok [b] (<[pb_done b := None]> (promises (host w)));
     ghost := record_write ok [b] (accept b (ghost (host w))) |}.

Lemma host_append_eq w es : host_good w → host (host_append es w).1 = append_result w es.
Proof.
  intros [_ _ Hpc Hq Hst Hft _ _ _].
  unfold host_append, run_writer, append_result, AppendBatchAsync. rewrite Hft. cbn [fst host].
  destruct (assign_sequences _ _ _) as [es' next]. cbn [fst writer_run].
  unfold WriterLoop at 3. cbn [writer_pc enqueue queue_]. rewrite Hpc, Hq. cbn [app].
  unfold WriterLoop at 2. cbn [writer_pc log next_sequence_ queue_ stop_ fatal_ promises ghost].
  cbn [fmap list_fmap concat pb_bytes]. rewrite app_nil_r.
  destruct (WriteAndSync _ _ _ _) as [f' ok]. cbn [enqueue stop_ fatal_]. rewrite Hst, Hft.
  by destruct ok.
Qed.

Lemma host_append_answer w es :
  (host_append es w).2
  = bool_decide (promises (host (host_append es w).1) !! fresh_promise (host w)
                 = Some (Some true)).
Proof. done. Qed.

Lemma append_ok w es :
  host_good w → failed (ghost (host (host_append es w).1)) = false →
  (host_append es w).2 = true
  ∧ ∃ es', es' = (assign_sequences (clock w) (next_sequence_ (host w)) es).1
    ∧ logged (ghost (host (host_append es w).1)) = logged (ghost (host w)) ++ es'.
Proof.
  intros Hg Hf. pose proof (host_append_eq w es Hg) as Heq. destruct Hg as [_ Hf0 _ _ _ _ _ _ _].
  rewrite host_append_answer. rewrite Heq in *. unfold append_result in *.
  destruct (assign_sequences _ _ _) as [es' next].
  destruct (WriteAndSync _ _ _ _) as [f' ok]. cbn in Hf. rewrite Hf0 in Hf.
  destruct ok; [|done]. split.
  - apply bool_decide_eq_true. cbn. by rewrite lookup_insert_eq.
  - exists es'. split; [done|]. unfold logged, record_write, accept. cbn. rewrite Hf0. cbn.
    rewrite fmap_app, concat_app. cbn. by rewrite app_nil_r, app_assoc.
Qed.

Lemma host_inv_append es w : host_good w → inv m (host (host_append es w).1).
Proof.
  intros [Hi _ _ _ Hst _ _ _ _]. unfold host_append, run_writer. cbn [fst host writer_run].
  do 3 apply inv_WriterLoop. eapply inv_step; [|exact Hi]. apply step_append; [done|].
  unfold fresh_promise. apply not_elem_of_dom, is_fresh.
Qed.

Lemma read_logged w :
  host_good w → ReadAll (contents (log (host w))) = logged (ghost (host w)).
Proof.
  intros [Hi Hf _ _ _ _ _ _ Hl]. destruct (inv_file _ _ Hi Hf) as (-> & _ & _).
  rewrite <- (app_nil_r (serialize_all _)). apply ReadAll_log; [done|by left].
Qed.

Lemma host_append_good es w :
  host_good w → Forall payload_wf es →
  0 <= GetLastSequence (host w) + zlength es < 2 ^ 64 - 1 →
  (host_append es w).2 = true → host_good (host_append es w).1.
Proof.
  intros Hg Hes Hroom Hok. pose proof (host_append_eq w es Hg) as Heq.
  pose proof (host_inv_append es w Hg) as Hinv.
  assert (GetLastSequence (host w) = next_sequence_ (host w) - 1) as Hlast.
  { apply u64_small. destruct (hg_next _ Hg). unfold is_u in *. lia. }
  pose proof (zlength_nonneg es).
  destruct (assign_sequences_wf (clock w) es (next_sequence_ (host w))) as [Hwf Hnext];
    [apply Hg|apply Hg|lia|done|].
  assert (failed (ghost (host (host_append es w).1)) = false) as Hf.
  { rewrite host_append_answer in Hok. apply bool_decide_eq_true in Hok. rewrite Heq in *.
    unfold append_result in *. destruct (assign_sequences _ _ _) as [es' next].
    destruct (WriteAndSync _ _ _ _) as [f' ok]. cbn in *. rewrite lookup_insert_eq in Hok.
    simplify_eq. by rewrite (hg_failed _ Hg). }
  destruct (append_ok w es Hg Hf) as (_ & es' & -> & Hlog).
  split; try done.
  - by rewrite Heq; unfold append_result; repeat case_match.
  - by rewrite Heq; unfold append_result; repeat case_match.
  - by rewrite Heq; unfold append_result; repeat case_match.
  - rewrite Heq in Hf |- *. unfold append_result in *. repeat case_match. cbn in *.
    rewrite (hg_failed _ Hg) in Hf. by destruct b.
  - rewrite Heq. unfold append_result. destruct (assign_sequences _ _ _) as [es' next].
    destruct (WriteAndSync _ _ _ _). cbn in *. destruct (hg_next _ Hg). unfold is_u. lia.
  - apply u64_range.
  - rewrite Hlog. apply Forall_app. split; [apply Hg|done].
Qed.

Lemma host_append_log es w :
  host_good w → host_good (host_append es w).1 →
  (host_append es w).2 = true ∧
  ∃ es', Forall2 same_write es es'
    ∧ ReadAll (contents (log (host (host_append es w).1)))
      = ReadAll (contents (log (host w))) ++ es'.
Proof.
  intros Hg Hg'. destruct (append_ok w es Hg (hg_failed _ Hg')) as (Hok & es' & -> & Hlog).
  split; [done|]. eexists. split; [apply assign_sequences_same|].
  by rewrite !read_logged, Hlog.
Qed.

Lemma host_truncate_log w :
  ReadAll (contents (log (host (host_truncate (GetLastSequence (host w)) w).1))) = [].
Proof.
  unfold host_truncate, may_truncate, GetLastSequence. by rewrite Z.ltb_irrefl.
Qed.

Lemma host_inv_truncate seq w : host_good w → inv m (host (host_truncate seq w).1).
Proof.
  intros Hg. unfold host_truncate. destruct (may_truncate seq (host w)); [|apply Hg].
  unfold run_writer. cbn [host writer_run].
  match goal with |- context [TruncateFile true true ?x] =>
    change (inv m (TruncateFile true true x).1) end.
  apply inv_TruncateFile. do 3 apply inv_WriterLoop.
  eapply inv_step; [|apply (hg_inv _ Hg)]. apply step_drain.
  unfold fresh_promise. apply not_elem_of_dom, is_fresh.
Qed.

#[export] Instance host_spec : WalSpec WalHost := {|
    wal_good := host_good;
    wal_append_good := host_append_good;
    wal_append_log := host_append_log;
    wal_truncate_log := λ w _ _, host_truncate_log w
  |}.

(** A fresh log is good. *)
Definition new_host (ios : list io) (now : Z) : WalHost :=
  {| host := Initialize 0 []; outcomes := ios; clock := u64 now |}.

Lemma new_host_good ios now : host_good (new_host ios now).
Proof.
  split; try done.
  - apply inv_Initialize with []. split; [done|constructor].
  - apply u64_range.
Qed.
End wal_host.
