(* ===== verification/Changefeed.v ===== *)
(** * The changefeed engine (src/changefeed/changefeed_engine.cpp)

    [ChangefeedEngine::Impl]: the retained history and the delivery queue,
    offsets, subscriptions and their callbacks, and the delivery thread with its
    worker pool.  Client calls and the delivery thread interleave in the step
    relation [cf_step]; a callback is an identifier, and whether it throws is a
    choice of the environment.  [cf_log] records the callbacks made, in order,
    and [cf_published] every event ever published; no operation reads them. *)

From stdpp Require Import relations.
From S2P Require Import Prelude.

(** ** Data *)

Inductive DeliveryMode := AT_LEAST_ONCE | EXACTLY_ONCE.

Record ChangefeedEvent := {
  ev_offset : Z;
  ev_transaction_id : string;
  ev_table : string;
  ev_operation : string;
  ev_key : bytes;
  ev_old_value : bytes;
  ev_new_value : bytes;
  ev_timestamp : Z
}.

Record SubscriptionFilter := {
  table_pattern : string;
  sql_where_clause : string;
  f_columns : list string
}.

Record Subscription := {
  s_id : string;
  s_filter : SubscriptionFilter;
  current_offset : Z;
  ack_offset : Z;
  delivery_mode : DeliveryMode;
  is_active : bool;
  created_at : Z;
  last_activity : Z
}.

Record ChangefeedConfig := {
  buffer_size : Z;
  max_lag_entries : Z;
  delivery_threads : Z
}.

(** Where the delivery thread is: not running, about to test the condition of
    [delivery_cv_.wait], about to block after the test was false, blocked, in
    the inner loop, with an event taken from the queue, or with targets of that
    event still to call. *)
Inductive DeliveryPc :=
| Stopped
| Testing
| ToBlock
| Blocked
| Draining
| Popped (event : ChangefeedEvent)
| Delivering (event : ChangefeedEvent) (targets : list (string * nat)).

Record Changefeed := {
  cf_config : ChangefeedConfig;
  running_ : bool;
  pool_ : bool;
  events_ : list ChangefeedEvent;
  all_events_ : list ChangefeedEvent;
  next_offset_ : Z;
  subscriptions_ : gmap string Subscription;
  next_subscription_id_ : Z;
  callbacks_ : gmap string nat;
  delivered_ : Z;
  delivery_pc : DeliveryPc;
  cf_log : list (string * nat * ChangefeedEvent);
  cf_published : list ChangefeedEvent
}.

Definition new_Changefeed (config : ChangefeedConfig) : Changefeed :=
  {| cf_config := config; running_ := false; pool_ := false; events_ := [];
     all_events_ := []; next_offset_ := 1; subscriptions_ := ∅;
     next_subscription_id_ := 1; callbacks_ := ∅; delivered_ := 0;
     delivery_pc := Stopped; cf_log := []; cf_published := [] |}.

(** The members a call changes together. *)
Definition set_subs (subs : gmap string Subscription) (c : Changefeed) : Changefeed :=
  {| cf_config := cf_config c; running_ := running_ c; pool_ := pool_ c; events_ := events_ c;
     all_events_ := all_events_ c; next_offset_ := next_offset_ c; subscriptions_ := subs;
     next_subscription_id_ := next_subscription_id_ c; callbacks_ := callbacks_ c;
     delivered_ := delivered_ c; delivery_pc := delivery_pc c; cf_log := cf_log c;
     cf_published := cf_published c |}.
Definition set_callbacks (cbs : gmap string nat) (c : Changefeed) : Changefeed :=
  {| cf_config := cf_config c; running_ := running_ c; pool_ := pool_ c; events_ := events_ c;
     all_events_ := all_events_ c; next_offset_ := next_offset_ c;
     subscriptions_ := subscriptions_ c; next_subscription_id_ := next_subscription_id_ c;
     callbacks_ := cbs; delivered_ := delivered_ c; delivery_pc := delivery_pc c;
     cf_log := cf_log c; cf_published := cf_published c |}.
Definition set_pc (pc : DeliveryPc) (c : Changefeed) : Changefeed :=
  {| cf_config := cf_config c; running_ := running_ c; pool_ := pool_ c; events_ := events_ c;
     all_events_ := all_events_ c; next_offset_ := next_offset_ c;
     subscriptions_ := subscriptions_ c; next_subscription_id_ := next_subscription_id_ c;
     callbacks_ := callbacks_ c; delivered_ := delivered_ c; delivery_pc := pc;
     cf_log := cf_log c; cf_published := cf_published c |}.
Definition set_history (es : list ChangefeedEvent) (c : Changefeed) : Changefeed :=
  {| cf_config := cf_config c; running_ := running_ c; pool_ := pool_ c; events_ := events_ c;
     all_events_ := es; next_offset_ := next_offset_ c;
     subscriptions_ := subscriptions_ c; next_subscription_id_ := next_subscription_id_ c;
     callbacks_ := callbacks_ c; delivered_ := delivered_ c; delivery_pc := delivery_pc c;
     cf_log := cf_log c; cf_published := cf_published c |}.
Definition set_running (run pool : bool) (pc : DeliveryPc) (c : Changefeed) : Changefeed :=
  {| cf_config := cf_config c; running_ := run; pool_ := pool; events_ := events_ c;
     all_events_ := all_events_ c; next_offset_ := next_offset_ c;
     subscriptions_ := subscriptions_ c; next_subscription_id_ := next_subscription_id_ c;
     callbacks_ := callbacks_ c; delivered_ := delivered_ c; delivery_pc := pc;
     cf_log := cf_log c; cf_published := cf_published c |}.

(** [delivery_cv_.notify_one()]: wakes the delivery thread if it is blocked. *)
Definition notify (c : Changefeed) : Changefeed :=
  match delivery_pc c with Blocked => set_pc Testing c | _ => c end.

(** ** Lifecycle *)

(** The size of the worker pool; [hw] is [hardware_concurrency()]. *)
Definition pool_threads (hw : Z) (config : ChangefeedConfig) : Z :=
  if delivery_threads config =? 0
  then (if 2 <? hw then Z.min (hw - 1) 8 else 1)
  else delivery_threads config.

Definition Start (hw : Z) (c : Changefeed) : Changefeed * bool :=
  if running_ c then (c, true)
  else (set_running true (1 <? pool_threads hw (cf_config c)) Testing c, true).

(** The two halves of [Stop]: the flag and the notification; and, once the
    delivery thread has been joined, the end of the pool. *)
Definition Stop (c : Changefeed) : Changefeed :=
  if running_ c then notify (set_running false (pool_ c) (delivery_pc c) c) else c.
Definition StopPool (c : Changefeed) : Changefeed :=
  set_running (running_ c) false (delivery_pc c) c.

(** ** Publishing *)

Definition stamp (now offset : Z) (e : ChangefeedEvent) : ChangefeedEvent :=
  {| ev_offset := offset; ev_transaction_id := ev_transaction_id e; ev_table := ev_table e;
     ev_operation := ev_operation e; ev_key := ev_key e; ev_old_value := ev_old_value e;
     ev_new_value := ev_new_value e; ev_timestamp := now |}.

(** The bound on the retained history. *)
Definition trim (max_lag : Z) (es : list ChangefeedEvent) : list ChangefeedEvent :=
  if (0 <? max_lag) && (max_lag <? zlength es)
  then drop (Z.to_nat (u64 (zlength es - u64 (max_lag * 3) / 4))) es
  else es.

Definition PublishEvent (now : Z) (event : ChangefeedEvent) (c : Changefeed) : Changefeed :=
  let e := stamp now (next_offset_ c) event in
  notify
    {| cf_config := cf_config c; running_ := running_ c; pool_ := pool_ c;
       events_ := events_ c ++ [e];
       all_events_ := trim (max_lag_entries (cf_config c)) (all_events_ c ++ [e]);
       next_offset_ := u64 (next_offset_ c + 1); subscriptions_ := subscriptions_ c;
       next_subscription_id_ := next_subscription_id_ c; callbacks_ := callbacks_ c;
       delivered_ := delivered_ c; delivery_pc := delivery_pc c; cf_log := cf_log c;
       cf_published := cf_published c ++ [e] |}.

(** [PublishBatch], with the clock read for each event. *)
Definition PublishBatch (events : list (Z * ChangefeedEvent)) (c : Changefeed) : Changefeed :=
  fold_left (λ c ne, PublishEvent ne.1 ne.2 c) events c.

(** ** Subscriptions *)

Definition CreateSubscription (now : Z) (filter : SubscriptionFilter) (start_offset : Z)
    (mode : DeliveryMode) (c : Changefeed) : Changefeed * string :=
  let sub_id := "sub-" +:+ pretty (next_subscription_id_ c) in
  let subscription :=
    {| s_id := sub_id; s_filter := filter; current_offset := start_offset;
       ack_offset := if 0 <? start_offset then start_offset - 1 else 0;
       delivery_mode := mode; is_active := true; created_at := now; last_activity := now |} in
  ({| cf_config := cf_config c; running_ := running_ c; pool_ := pool_ c; events_ := events_ c;
      all_events_ := all_events_ c; next_offset_ := next_offset_ c;
      subscriptions_ := <[sub_id := subscription]> (subscriptions_ c);
      next_subscription_id_ := u64 (next_subscription_id_ c + 1);
      callbacks_ := callbacks_ c; delivered_ := delivered_ c; delivery_pc := delivery_pc c;
      cf_log := cf_log c; cf_published := cf_published c |}, sub_id).

Definition DeleteSubscription (subscription_id : string) (c : Changefeed) : Changefeed * bool :=
  match subscriptions_ c !! subscription_id with
  | Some _ =>
      (set_subs (delete subscription_id (subscriptions_ c))
         (set_callbacks (delete subscription_id (callbacks_ c)) c), true)
  | None => (c, false)
  end.

Definition GetSubscription (c : Changefeed) (subscription_id : string) : option Subscription :=
  subscriptions_ c !! subscription_id.

Definition ListSubscriptions `{HashOrder} (c : Changefeed) (include_inactive : bool)
    : list Subscription :=
  filter (λ sub, include_inactive || is_active sub) (hash_iter (subscriptions_ c)).*2.

Definition Subscribe (subscription_id : string) (callback : nat) (c : Changefeed) : Changefeed :=
  notify (set_callbacks (<[subscription_id := callback]> (callbacks_ c)) c).

Definition Unsubscribe (subscription_id : string) (c : Changefeed) : Changefeed :=
  set_callbacks (delete subscription_id (callbacks_ c)) c.

Definition AcknowledgeEvent (now : Z) (subscription_id : string) (offset : Z) (c : Changefeed)
    : Changefeed * bool :=
  match subscriptions_ c !! subscription_id with
  | Some sub =>
      if ack_offset sub <? offset then
        (set_subs (<[subscription_id :=
           {| s_id := s_id sub; s_filter := s_filter sub; current_offset := current_offset sub;
              ack_offset := offset; delivery_mode := delivery_mode sub;
              is_active := is_active sub; created_at := created_at sub;
              last_activity := now |}]> (subscriptions_ c)) c, true)
      else (c, false)
  | None => (c, false)
  end.

(** [GrantCredits] has no effect. *)
Definition GrantCredits (subscription_id : string) (credits : Z) (c : Changefeed) : Changefeed := c.

(** ** Reading the history *)

Definition MatchesFilter (c : Changefeed) (subscription_id : string) (event : ChangefeedEvent)
    : bool :=
  match subscriptions_ c !! subscription_id with
  | None => false
  | Some sub =>
      let p := table_pattern (s_filter sub) in
      if bool_decide (p ≠ "") && bool_decide (p ≠ "*")
      then bool_decide (ev_table event = p)
      else true
  end.

(** The loop of [GetEvents]; [n] is the size of the result so far. *)
Fixpoint get_events_loop (c : Changefeed) (subscription_id : string) (start_offset limit n : Z)
    (es : list ChangefeedEvent) : list ChangefeedEvent :=
  match es with
  | [] => []
  | event :: es' =>
      if (start_offset <=? ev_offset event) && MatchesFilter c subscription_id event then
        if limit <=? n + 1 then [event]
        else event :: get_events_loop c subscription_id start_offset limit (n + 1) es'
      else get_events_loop c subscription_id start_offset limit n es'
  end.

Definition GetEvents (c : Changefeed) (subscription_id : string) (start_offset limit : Z)
    : list ChangefeedEvent :=
  get_events_loop c subscription_id start_offset limit 0 (all_events_ c).

Definition GetLatestOffset (c : Changefeed) : Z := u64 (next_offset_ c - 1).

Record Metrics := {
  total_events_published : Z;
  total_events_delivered : Z;
  active_subscriptions : Z;
  max_lag_ms : Z;
  m_buffer_size : Z;
  buffer_used : Z
}.

Definition GetMetrics `{HashOrder} (c : Changefeed) : Metrics :=
  let '(active, lag) :=
    fold_left (λ al sub,
      let '(active, max_lag) := al in
      if is_active sub
      then (u64 (active + 1), Z.max max_lag (u64 (GetLatestOffset c - current_offset sub)))
      else al) (hash_iter (subscriptions_ c)).*2 (0, 0) in
  {| total_events_published := zlength (all_events_ c);
     total_events_delivered := delivered_ c;
     active_subscriptions := active; max_lag_ms := lag;
     m_buffer_size := buffer_size (cf_config c); buffer_used := zlength (events_ c) |}.

Definition CompactEvents (now retention_period : Z) (c : Changefeed) : Changefeed :=
  let cutoff := now - retention_period in
  set_history (filter (λ e, ¬ (ev_timestamp e < cutoff)) (all_events_ c)) c.

Definition GetOldestRetainedOffset (c : Changefeed) : Z :=
  match all_events_ c with [] => 0 | e :: _ => ev_offset e end.

(** ** Delivery *)

(** Phase 1 of [DeliverEvent]: the matching subscribers and their callbacks. *)
Definition delivery_targets `{HashOrder} (c : Changefeed) (event : ChangefeedEvent)
    : list (string * nat) :=
  omap (λ ids : string * Subscription,
    if is_active ids.2 && MatchesFilter c ids.1 event
    then (λ cb, (ids.1, cb)) <$> callbacks_ c !! ids.1
    else None) (hash_iter (subscriptions_ c)).

(** Taking the front of the queue. *)
Definition pop_event (c : Changefeed) : Changefeed :=
  match events_ c with
  | [] => set_pc Draining c
  | e :: es =>
      {| cf_config := cf_config c; running_ := running_ c; pool_ := pool_ c; events_ := es;
         all_events_ := all_events_ c; next_offset_ := next_offset_ c;
         subscriptions_ := subscriptions_ c; next_subscription_id_ := next_subscription_id_ c;
         callbacks_ := callbacks_ c; delivered_ := delivered_ c; delivery_pc := Popped e;
         cf_log := cf_log c; cf_published := cf_published c |}
  end.

(** One step of [DeliveryLoop], up to the calls of an event's targets. *)
Definition loop_step `{HashOrder} (c : Changefeed) : Changefeed :=
  match delivery_pc c with
  | Testing =>
      if negb (running_ c) then set_pc Stopped c
      else match events_ c with [] => set_pc ToBlock c | _ => set_pc Draining c end
  | ToBlock => set_pc Blocked c
  | Draining =>
      match events_ c with
      | [] => set_pc (if running_ c then Testing else Stopped) c
      | _ => if running_ c then pop_event c else set_pc Stopped c
      end
  | Popped event =>
      match delivery_targets c event with
      | [] => set_pc Draining c
      | targets => set_pc (Delivering event targets) c
      end
  | Stopped | Blocked | Delivering _ _ => c
  end.

(** [deliver_one]: the callback, then the subscription's offset unless the
    callback threw; the batch is over when no target is left. *)
Definition deliver_one (now : Z) (throws : bool) (i : nat) (c : Changefeed) : Changefeed :=
  match delivery_pc c with
  | Delivering event targets =>
      match targets !! i with
      | None => c
      | Some (id, callback) =>
          let rest := delete i targets in
          let subs := subscriptions_ c in
          let subs' :=
            if throws then subs
            else match subs !! id with
                 | Some sub =>
                     <[id := {| s_id := s_id sub; s_filter := s_filter sub;
                                current_offset := ev_offset event; ack_offset := ack_offset sub;
                                delivery_mode := delivery_mode sub; is_active := is_active sub;
                                created_at := created_at sub; last_activity := now |}]> subs
                 | None => subs
                 end in
          {| cf_config := cf_config c; running_ := running_ c; pool_ := pool_ c;
             events_ := events_ c; all_events_ := all_events_ c; next_offset_ := next_offset_ c;
             subscriptions_ := subs'; next_subscription_id_ := next_subscription_id_ c;
             callbacks_ := callbacks_ c; delivered_ := u64 (delivered_ c + 1);
             delivery_pc := match rest with [] => Draining | _ => Delivering event rest end;
             cf_log := cf_log c ++ [(id, callback, event)]; cf_published := cf_published c |}
      end
  | _ => c
  end.

(** The calls clients make, from any thread. *)
Inductive client_step : Changefeed → Changefeed → Prop :=
| step_publish now e c : client_step c (PublishEvent now e c)
| step_create now f start mode c : client_step c (CreateSubscription now f start mode c).1
| step_delete id c : client_step c (DeleteSubscription id c).1
| step_subscribe id cb c : client_step c (Subscribe id cb c)
| step_unsubscribe id c : client_step c (Unsubscribe id c)
| step_ack now id offset c : client_step c (AcknowledgeEvent now id offset c).1
| step_compact now retention c : client_step c (CompactEvents now retention c)
| step_start hw c : delivery_pc c = Stopped → client_step c (Start hw c).1
| step_stop c : client_step c (Stop c)
| step_stop_pool c : running_ c = false → delivery_pc c = Stopped → client_step c (StopPool c).

(** A call of one target: any of them with the worker pool, else the first. *)
Inductive target_step : Changefeed → Changefeed → Prop :=
| step_deliver now throws i c :
    pool_ c = true ∨ i = O → target_step c (deliver_one now throws i c).

Inductive cf_step `{HashOrder} : Changefeed → Changefeed → Prop :=
| step_client c c' : client_step c c' → cf_step c c'
| step_loop c : cf_step c (loop_step c)
| step_target c c' : target_step c c' → cf_step c c'
| step_spurious_wakeup c : delivery_pc c = Blocked → cf_step c (set_pc Testing c).

(** ** The invariant *)

Definition in_delivery (c : Changefeed) : list ChangefeedEvent :=
  match delivery_pc c with Popped e | Delivering e _ => [e] | _ => [] end.

(** The events passed to the callbacks of subscription [s], in order. *)
Definition calls_to (s : string) (l : list (string * nat * ChangefeedEvent))
    : list ChangefeedEvent :=
  (filter (λ x, x.1.1 = s) l).*2.

Definition consecutive_offsets (es : list ChangefeedEvent) : Prop :=
  ev_offset <$> es = (λ i, u64 (1 + i)) <$> seqZ 0 (zlength es).

(** Targets still to be called for the event in delivery. *)
Definition todo (c : Changefeed) : list string :=
  match delivery_pc c with Delivering _ ts => ts.*1 | _ => [] end.

Record cf_inv (c : Changefeed) : Prop := {
  inv_offsets : consecutive_offsets (cf_published c);
  inv_next : next_offset_ c = u64 (1 + zlength (cf_published c));
  inv_history : all_events_ c `sublist_of` cf_published c;
  inv_bounded : 0 < max_lag_entries (cf_config c) → is_u 64 (max_lag_entries (cf_config c) * 3) →
    zlength (all_events_ c) <= max_lag_entries (cf_config c);
  inv_todo : NoDup (todo c);
  inv_queue : ∃ done, cf_published c = done ++ in_delivery c ++ events_ c ∧
    ∀ s, calls_to s (cf_log c) `sublist_of` done ++ in_delivery c ∧
         (s ∈ todo c ∨ (∃ e, delivery_pc c = Popped e) → calls_to s (cf_log c) `sublist_of` done)
}.

Lemma cf_inv_new config : cf_inv (new_Changefeed config).
Proof.
  split; simpl; try done.
  - intros. unfold zlength. simpl. lia.
  - constructor.
  - exists []. split; [done|]. intros s. split; [done|intros [?%not_elem_of_nil|[e [=]]]; done].
Qed.

(** A step that leaves the queue, the history's origin and the event in
    delivery alone. *)
Lemma cf_inv_frame c c' :
  cf_inv c →
  cf_published c' = cf_published c → next_offset_ c' = next_offset_ c →
  events_ c' = events_ c → cf_log c' = cf_log c → cf_config c' = cf_config c →
  all_events_ c' `sublist_of` all_events_ c →
  in_delivery c' = in_delivery c → NoDup (todo c') →
  (∀ s, s ∈ todo c' ∨ (∃ e, delivery_pc c' = Popped e) →
        s ∈ todo c ∨ ∃ e, delivery_pc c = Popped e) →
  cf_inv c'.
Proof.
  intros [Ho Hn Hh Hb Ht Hq] Hpub Hnext Hev Hlog Hcfg Hall Hin Hnd Hsub.
  split; rewrite ?Hpub, ?Hnext, ?Hev, ?Hlog, ?Hcfg, ?Hin; try done.
  - by transitivity (all_events_ c).
  - intros H1 H2. specialize (Hb H1 H2). apply sublist_length in Hall. unfold zlength in *. lia.
  - destruct Hq as (d & Hd & Hs). exists d. split; [done|].
    intros s. destruct (Hs s) as [Hs1 Hs2]. auto.
Qed.

(** Steps that change none of these fields and at most wake the thread up. *)
Definition idle_pc (pc : DeliveryPc) : Prop :=
  match pc with Popped _ | Delivering _ _ => False | _ => True end.

Lemma cf_inv_same_pc c c' :
  cf_inv c →
  cf_published c' = cf_published c → next_offset_ c' = next_offset_ c →
  events_ c' = events_ c → cf_log c' = cf_log c → cf_config c' = cf_config c →
  all_events_ c' `sublist_of` all_events_ c →
  delivery_pc c' = delivery_pc c ∨ (idle_pc (delivery_pc c) ∧ idle_pc (delivery_pc c')) →
  cf_inv c'.
Proof.
  intros Hinv H1 H2 H3 H4 H5 H6 Hpc. apply (cf_inv_frame c); try done.
  - unfold in_delivery. destruct Hpc as [->|[Ha Hb]]; [done|].
    by destruct (delivery_pc c), (delivery_pc c').
  - pose proof (inv_todo c Hinv) as Ht. unfold todo in *.
    destruct Hpc as [->|[Ha Hb]]; [done|]. destruct (delivery_pc c'); try done; constructor.
  - intros s. unfold todo. destruct Hpc as [->|[Ha Hb]]; [done|].
    destruct (delivery_pc c'); try done; by intros [?%not_elem_of_nil|[? [=]]].
Qed.

Lemma notify_pc c :
  delivery_pc (notify c) = delivery_pc c
  ∨ (idle_pc (delivery_pc c) ∧ idle_pc (delivery_pc (notify c))).
Proof. unfold notify. destruct (delivery_pc c) eqn:E; rewrite ?E; auto. by right. Qed.

Lemma notify_fields c :
  cf_published (notify c) = cf_published c ∧ next_offset_ (notify c) = next_offset_ c ∧
  events_ (notify c) = events_ c ∧ cf_log (notify c) = cf_log c ∧
  cf_config (notify c) = cf_config c ∧ all_events_ (notify c) = all_events_ c.
Proof. unfold notify. by destruct (delivery_pc c). Qed.

Lemma cf_inv_notify c : cf_inv c → cf_inv (notify c).
Proof.
  intros Hinv. destruct (notify_fields c) as (? & ? & ? & ? & ? & Ha).
  apply (cf_inv_same_pc c); try done; [by rewrite Ha|apply notify_pc].
Qed.

Lemma consecutive_offsets_snoc es e :
  consecutive_offsets es → ev_offset e = u64 (1 + zlength es) → consecutive_offsets (es ++ [e]).
Proof.
  unfold consecutive_offsets. intros He Ho. rewrite fmap_app, He. simpl. rewrite Ho.
  rewrite zlength_app, seqZ_app by (apply zlength_nonneg || done). rewrite fmap_app.
  by rewrite Z.add_0_l.
Qed.

Lemma trim_sublist m es : trim m es `sublist_of` es.
Proof. unfold trim. case_match; [apply sublist_drop|done]. Qed.

Lemma trim_bounded m es :
  0 < m → is_u 64 (m * 3) → zlength es <= m + 1 → zlength (trim m es) <= m.
Proof.
  intros Hm H3 Hes. unfold trim. destruct ((0 <? m) && (m <? zlength es)) eqn:E.
  - apply andb_true_iff in E as [_ E%Z.ltb_lt]. rewrite (u64_small (m * 3)) by done.
    assert (0 <= m * 3 / 4 <= m).
    { split; [apply Z.div_pos; lia|]. apply Z.div_le_upper_bound; lia. }
    rewrite u64_small by (unfold is_u in *; lia).
    unfold zlength in *. rewrite length_drop. lia.
  - apply andb_false_iff in E as [E%Z.ltb_ge|E%Z.ltb_ge]; lia.
Qed.

Lemma cf_inv_publish now e c : cf_inv c → cf_inv (PublishEvent now e c).
Proof.
  intros [Ho Hn Hh Hb Ht Hq]. unfold PublishEvent. apply cf_inv_notify.
  split; simpl; try done.
  - by apply consecutive_offsets_snoc.
  - rewrite Hn, zlength_app. unfold u64. rewrite Zplus_mod_idemp_l. f_equal.
    unfold zlength. simpl. lia.
  - etransitivity; [apply trim_sublist|]. by apply sublist_app.
  - intros H1 H2. apply trim_bounded; [done..|]. specialize (Hb H1 H2).
    rewrite zlength_app. unfold zlength in *. simpl. lia.
  - destruct Hq as (d & -> & Hs). exists d. split; [|done].
    unfold in_delivery. simpl. by rewrite <- !app_assoc.
Qed.

Lemma cf_inv_client c c' : client_step c c' → cf_inv c → cf_inv c'.
Proof.
  intros [] Hinv.
  - by apply cf_inv_publish.
  - by apply (cf_inv_same_pc c0); [..|left].
  - unfold DeleteSubscription. destruct (subscriptions_ c0 !! id); [|done].
    by apply (cf_inv_same_pc c0); [..|left].
  - apply cf_inv_notify. by apply (cf_inv_same_pc c0); [..|left].
  - by apply (cf_inv_same_pc c0); [..|left].
  - unfold AcknowledgeEvent. destruct (subscriptions_ c0 !! id) as [sub|]; [|done].
    destruct (ack_offset sub <? offset); [|done]. by apply (cf_inv_same_pc c0); [..|left].
  - apply (cf_inv_same_pc c0); try done; [|by left]. apply sublist_filter.
  - unfold Start. destruct (running_ c0); [done|].
    apply (cf_inv_same_pc c0); try done. right. by rewrite H.
  - unfold Stop. destruct (running_ c0); [|done]. apply cf_inv_notify.
    by apply (cf_inv_same_pc c0); [..|left].
  - by apply (cf_inv_same_pc c0); [..|left].
Qed.

Lemma calls_to_snoc s l id cb e :
  calls_to s (l ++ [(id, cb, e)]) = calls_to s l ++ (if decide (id = s) then [e] else []).
Proof.
  unfold calls_to. rewrite filter_app, fmap_app. f_equal. rewrite filter_cons. simpl.
  by repeat case_decide.
Qed.

Section delivery.
Context `{HO : HashOrder}.

Lemma delivery_targets_NoDup c e : NoDup (delivery_targets c e).*1.
Proof.
  unfold delivery_targets. eapply sublist_NoDup; [apply (hash_iter_NoDup (subscriptions_ c))|].
  induction (hash_iter (subscriptions_ c)) as [|[id sub] l IH]; [done|]. simpl.
  destruct (is_active sub && MatchesFilter c id e); simpl; [|by constructor].
  destruct (callbacks_ c !! id); simpl; by constructor.
Qed.

(** The subscribers called are the active, matching ones with a callback. *)
Lemma elem_of_delivery_targets c e id cb :
  (id, cb) ∈ delivery_targets c e ↔
  ∃ sub, subscriptions_ c !! id = Some sub ∧ is_active sub = true
         ∧ MatchesFilter c id e = true ∧ callbacks_ c !! id = Some cb.
Proof.
  unfold delivery_targets. rewrite list_elem_of_omap. split.
  - intros ([id' sub] & Hin & Hf). apply elem_of_hash_iter in Hin. simpl in Hf.
    destruct (is_active sub) eqn:Ha, (MatchesFilter c id' e) eqn:Hm; simpl in Hf; try done.
    apply fmap_Some in Hf as (cb' & Hcb & [= -> ->]). by exists sub.
  - intros (sub & Hs & Ha & Hm & Hcb). exists (id, sub). split; [by apply elem_of_hash_iter|].
    simpl. rewrite Ha, Hm, Hcb. done.
Qed.

Lemma cf_inv_loop c : cf_inv c → cf_inv (loop_step c).
Proof.
  intros Hinv. unfold loop_step. destruct (delivery_pc c) as [| | | | |e|e ts] eqn:Hpc; try done.
  - destruct (negb (running_ c)); [|destruct (events_ c)];
      (apply (cf_inv_same_pc c); try done; right; by rewrite Hpc).
  - apply (cf_inv_same_pc c); try done. right. by rewrite Hpc.
  - destruct (events_ c) as [|e es] eqn:He.
    { apply (cf_inv_same_pc c); try done. right. rewrite Hpc. simpl. by destruct (running_ c). }
    destruct (running_ c); [|apply (cf_inv_same_pc c); try done; right; by rewrite Hpc].
    unfold pop_event. rewrite He. destruct Hinv as [Ho Hn Hh Hb Ht (d & Hd & Hs)].
    split; simpl; try done; [constructor|].
    unfold in_delivery in *. rewrite Hpc, He in Hd. rewrite Hpc in Hs. simpl in *.
    exists d. split; [done|]. intros s. destruct (Hs s) as [Hs1 _]. rewrite app_nil_r in Hs1.
    split; [by apply sublist_inserts_r|done].
  - destruct (delivery_targets c e) as [|t ts] eqn:Hts.
    + destruct Hinv as [Ho Hn Hh Hb Ht (d & Hd & Hs)]. split; simpl; try done; [constructor|].
      unfold in_delivery in *. rewrite Hpc in Hd, Hs. simpl in *. exists (d ++ [e]).
      split; [by rewrite <- app_assoc|]. intros s. destruct (Hs s) as [Hs1 _].
      rewrite app_nil_r. done.
    + apply (cf_inv_frame c); try done.
      * unfold in_delivery. simpl. by rewrite Hpc.
      * pose proof (delivery_targets_NoDup c e) as Hnd. by rewrite Hts in Hnd.
      * intros s _. right. by exists e.
Qed.

Lemma cf_inv_deliver now throws i c : cf_inv c → cf_inv (deliver_one now throws i c).
Proof.
  intros Hinv. unfold deliver_one. destruct (delivery_pc c) as [| | | | |e|e ts] eqn:Hpc; try done.
  destruct (ts !! i) as [[id cb]|] eqn:Hi; [|done].
  destruct Hinv as [Ho Hn Hh Hb Ht (d & Hd & Hs)].
  unfold in_delivery in Hd, Hs. unfold todo in Ht, Hs. rewrite Hpc in Hd, Hs, Ht. simpl in *.
  pose proof (delete_Permutation _ _ _ Hi) as Hperm.
  assert (NoDup (id :: (delete i ts).*1)) as [Hnin Hnd]%NoDup_cons
    by by rewrite <- (fmap_Permutation fst _ _ Hperm : ts.*1 ≡ₚ id :: _).
  assert (id ∈ ts.*1) as Hid.
  { apply list_elem_of_fmap. exists (id, cb). split; [done|]. by eapply list_elem_of_lookup_2. }
  assert (∀ s, calls_to s (cf_log c ++ [(id, cb, e)]) `sublist_of` d ++ [e]) as Hcalls.
  { intros s. destruct (Hs s) as [Hs1 Hs2]. rewrite calls_to_snoc. case_decide as Heq.
    - subst s. apply sublist_app; [|done]. apply Hs2. by left.
    - by rewrite app_nil_r. }
  split; simpl; try done.
  - unfold todo. simpl. destruct (delete i ts); [constructor|done].
  - unfold in_delivery, todo. simpl. destruct (delete i ts) as [|t ts'] eqn:Hdel; simpl.
    + exists (d ++ [e]). split; [by rewrite <- app_assoc|]. intros s. by rewrite app_nil_r.
    + exists d. split; [done|]. intros s. split; [done|].
      intros [Hin|[? [=]]]. destruct (Hs s) as [_ Hs2]. rewrite calls_to_snoc.
      rewrite decide_False by (intros ->; by apply Hnin).
      rewrite app_nil_r. apply Hs2. left. rewrite Hperm. by right.
Qed.

Lemma cf_inv_step c c' : cf_step c c' → cf_inv c → cf_inv c'.
Proof.
  intros [c0 c1 Hc|c0|c0 c1 [now throws i c2 _]|c0 Hpc] Hinv.
  - by apply (cf_inv_client c0).
  - by apply cf_inv_loop.
  - by apply cf_inv_deliver.
  - apply (cf_inv_same_pc c0); try done. right. by rewrite Hpc.
Qed.

Lemma cf_inv_reachable config c : rtc cf_step (new_Changefeed config) c → cf_inv c.
Proof.
  intros Hr. pose proof (cf_inv_new config) as H0. revert H0.
  induction Hr as [|x y z Hxy _ IH]; [done|]. intros Hx. by apply IH, (cf_inv_step x).
Qed.

(** ** Offsets *)

Definition offset_lt (a b : ChangefeedEvent) : Prop := ev_offset a < ev_offset b.

Lemma StronglySorted_sublist {A} (R : relation A) l k :
  l `sublist_of` k → StronglySorted R k → StronglySorted R l.
Proof.
  induction 1 as [|x l k Hs IH|x l k Hs IH]; intros Hk; [done|..]; inversion_clear Hk as [|?? H1 H2].
  - constructor; [by apply IH|]. apply Forall_forall. intros y Hy.
    apply (proj1 (Forall_forall _ _) H2). by eapply elem_of_sublist.
  - by apply IH.
Qed.

Lemma consecutive_offsets_sorted es :
  consecutive_offsets es → zlength es < 2 ^ 64 - 1 → StronglySorted offset_lt es.
Proof.
  intros Hc Hlen.
  assert (∀ n l, ev_offset <$> l = seqZ n (zlength l) → StronglySorted offset_lt l) as Hgen.
  { intros n l. revert n. induction l as [|a l IH]; intros n Hl; [constructor|].
    unfold zlength in Hl. rewrite fmap_cons, length_cons, seqZ_cons in Hl by lia.
    injection Hl as Ha H1.
    replace (Z.pred (Z.of_nat (S (length l)))) with (zlength l) in H1
      by (unfold zlength; lia). subst n.
    constructor; [by apply (IH (Z.succ (ev_offset a)))|].
    apply Forall_forall. intros b Hb.
    assert (ev_offset b ∈ ev_offset <$> l) as Hin by by apply list_elem_of_fmap_2.
    rewrite H1 in Hin. apply elem_of_seqZ in Hin. unfold offset_lt. lia. }
  apply (Hgen 1). rewrite Hc, <- (fmap_add_seqZ 1 0). apply list_fmap_ext. intros i z Hz.
  apply list_elem_of_lookup_2, elem_of_seqZ in Hz. apply u64_small. unfold is_u. lia.
Qed.

(** Offsets and retention: whatever the interleaving, published events
    carry the consecutive offsets 1, 2, 3, ...; the retained history is a
    subsequence of them with strictly increasing offsets, and it never exceeds
    [max_lag_entries]. *)
Theorem history_well_formed config c :
  rtc cf_step (new_Changefeed config) c →
  zlength (cf_published c) < 2 ^ 64 - 1 →
  ev_offset <$> cf_published c = seqZ 1 (zlength (cf_published c))
  ∧ all_events_ c `sublist_of` cf_published c
  ∧ StronglySorted offset_lt (all_events_ c)
  ∧ (0 < max_lag_entries (cf_config c) → is_u 64 (max_lag_entries (cf_config c) * 3) →
     zlength (all_events_ c) <= max_lag_entries (cf_config c)).
Proof.
  intros Hr Hlen. pose proof (cf_inv_reachable _ _ Hr) as [Ho Hn Hh Hb _ _].
  split_and!; try done.
  - rewrite Ho, <- (fmap_add_seqZ 1 0). apply list_fmap_ext. intros i z Hz.
    apply list_elem_of_lookup_2, elem_of_seqZ in Hz. apply u64_small. unfold is_u. lia.
  - eapply StronglySorted_sublist; [done|]. by apply consecutive_offsets_sorted.
Qed.

(** C6. In-order delivery: whatever the interleaving of publishers,
    subscribers and the worker pool, the events passed to one subscription's
    callbacks form a subsequence of the published events, so their offsets
    strictly increase: no event is delivered twice and none overtakes another. *)
Theorem delivery_in_order config c s :
  rtc cf_step (new_Changefeed config) c →
  zlength (cf_published c) < 2 ^ 64 - 1 →
  calls_to s (cf_log c) `sublist_of` cf_published c
  ∧ StronglySorted offset_lt (calls_to s (cf_log c)).
Proof.
  intros Hr Hlen. pose proof (cf_inv_reachable _ _ Hr) as [Ho _ _ _ _ (d & Hd & Hs)].
  destruct (Hs s) as [Hs1 _].
  assert (calls_to s (cf_log c) `sublist_of` cf_published c) as Hsub.
  { rewrite Hd, app_assoc. by apply sublist_inserts_r. }
  split; [done|]. eapply StronglySorted_sublist; [done|]. by apply consecutive_offsets_sorted.
Qed.
End delivery.

(** ** One event's fan-out *)

Definition call_of (e : ChangefeedEvent) (t : string * nat) : string * nat * ChangefeedEvent :=
  (t.1, t.2, e).

(** While an event is delivered, clients and the workers interleave. *)
Definition batch_step (c c' : Changefeed) : Prop :=
  (∃ e ts, delivery_pc c = Delivering e ts) ∧ (client_step c c' ∨ target_step c c').

Lemma client_step_delivering c c' e ts :
  client_step c c' → delivery_pc c = Delivering e ts →
  delivery_pc c' = Delivering e ts ∧ cf_log c' = cf_log c.
Proof.
  intros [] Hpc; try (by rewrite Hpc in *); try done.
  - unfold PublishEvent, notify. simpl. by rewrite Hpc.
  - unfold DeleteSubscription. by destruct (subscriptions_ c0 !! id).
  - unfold Subscribe, notify. simpl. by rewrite Hpc.
  - unfold AcknowledgeEvent. destruct (subscriptions_ c0 !! id) as [sub|]; [|done].
    by destruct (ack_offset sub <? offset).
  - unfold Stop, notify. destruct (running_ c0); [|done]. simpl. by rewrite Hpc.
Qed.

Lemma deliver_one_batch now throws i c e ts :
  delivery_pc c = Delivering e ts → ts ≠ [] →
  ∃ called rest, ts ≡ₚ called ++ rest
    ∧ cf_log (deliver_one now throws i c) = cf_log c ++ (call_of e <$> called)
    ∧ delivery_pc (deliver_one now throws i c)
      = match rest with [] => Draining | _ => Delivering e rest end.
Proof.
  intros Hpc Hne. unfold deliver_one. rewrite Hpc. destruct (ts !! i) as [[id cb]|] eqn:Hi.
  - exists [(id, cb)], (delete i ts). split; [by apply delete_Permutation|done].
  - exists [], ts. rewrite app_nil_r, Hpc. destruct ts; done.
Qed.

Lemma batch_run c c' :
  rtc batch_step c c' → ∀ e ts, delivery_pc c = Delivering e ts → ts ≠ [] →
  ∃ called rest, ts ≡ₚ called ++ rest
    ∧ cf_log c' = cf_log c ++ (call_of e <$> called)
    ∧ delivery_pc c' = match rest with [] => Draining | _ => Delivering e rest end.
Proof.
  induction 1 as [c|c c1 c' [_ Hstep] Hrun IH]; intros e ts Hpc Hne.
  - exists [], ts. rewrite app_nil_r, Hpc. by destruct ts.
  - destruct Hstep as [Hc|Hc].
    + destruct (client_step_delivering _ _ _ _ Hc Hpc) as [Hpc1 Hlog1].
      rewrite <- Hlog1. by apply IH.
    + inversion Hc as [now throws i c0 _ E1 E2]; subst c0 c1.
      destruct (deliver_one_batch now throws i c e ts Hpc Hne)
        as (called & rest & Hp & Hlog & Hpc1).
      destruct rest as [|t rest].
      * inversion Hrun as [|? c2 ? [(e' & ts' & Hpc2) _]]; subst; [|by rewrite Hpc1 in Hpc2].
        by exists called, [].
      * destruct (IH e (t :: rest) Hpc1) as (called' & rest' & Hp' & Hlog' & Hpc'); [done|].
        exists (called ++ called'), rest'. rewrite Hp, Hp', Hlog', Hlog, fmap_app.
        by rewrite !app_assoc.
Qed.

Section fan_out.
Context `{HO : HashOrder}.

(** Complete fan-out: once the delivery thread has taken an event and
    snapshotted its targets, then however clients and workers interleave and
    whichever callbacks throw, by the time the thread goes back to the queue
    every active, matching subscription that had a callback was called for
    that event exactly once, and nobody else was. *)
Theorem fan_out_exactly_once c e c' :
  delivery_pc c = Popped e →
  rtc batch_step (loop_step c) c' →
  delivery_pc c' = Draining →
  ∃ called, cf_log c' = cf_log c ++ (call_of e <$> called) ∧ NoDup called.*1 ∧
    ∀ id cb, (id, cb) ∈ called ↔
      ∃ sub, subscriptions_ c !! id = Some sub ∧ is_active sub = true
             ∧ MatchesFilter c id e = true ∧ callbacks_ c !! id = Some cb.
Proof.
  intros Hpc Hrun Hend.
  assert (∃ called, cf_log c' = cf_log c ++ (call_of e <$> called)
            ∧ delivery_targets c e ≡ₚ called) as (called & Hlog & Hp).
  { unfold loop_step in Hrun. rewrite Hpc in Hrun.
    destruct (delivery_targets c e) as [|t ts] eqn:Hts.
    - inversion Hrun as [|? c2 ? [(e' & ts' & Hpc2) _]]; subst; [|done].
      exists []. by rewrite app_nil_r.
    - destruct (batch_run _ _ Hrun e (t :: ts)) as (called & rest & Hp & Hlog & Hpc');
        [done..|]. rewrite Hend in Hpc'. destruct rest; [|done].
      exists called. by rewrite app_nil_r in Hp. }
  exists called. split; [done|]. split.
  - rewrite <- Hp. apply delivery_targets_NoDup.
  - intros id cb. rewrite <- Hp. apply elem_of_delivery_targets.
Qed.
End fan_out.

(** ** Reading the history back *)

Definition wanted (c : Changefeed) (id : string) (start : Z) (e : ChangefeedEvent) : Prop :=
  start <= ev_offset e ∧ MatchesFilter c id e = true.

#[export] Instance wanted_dec c id start e : Decision (wanted c id start e).
Proof. unfold wanted. apply _. Defined.

Lemma get_events_loop_spec c id start limit es : ∀ n,
  get_events_loop c id start limit n es
  = take (Z.to_nat (Z.max 1 (limit - n))) (filter (wanted c id start) es).
Proof.
  induction es as [|e es IH]; intros n; [by destruct (Z.to_nat _)|]. cbn [get_events_loop].
  rewrite filter_cons.
  destruct ((start <=? ev_offset e) && MatchesFilter c id e) eqn:E.
  - apply andb_true_iff in E as [E1%Z.leb_le E2]. rewrite decide_True by done.
    destruct (limit <=? n + 1) eqn:El.
    + apply Z.leb_le in El. by replace (Z.max 1 (limit - n)) with 1 by lia.
    + apply Z.leb_gt in El.
      replace (Z.to_nat (Z.max 1 (limit - n))) with (S (Z.to_nat (Z.max 1 (limit - (n + 1)))))
        by lia. by rewrite IH.
  - rewrite decide_False; [by apply IH|]. intros [H1 H2].
    apply andb_false_iff in E as [E%Z.leb_gt|E]; [lia|congruence].
Qed.

Lemma GetEvents_eq c id start limit :
  GetEvents c id start limit
  = take (Z.to_nat (Z.max 1 limit)) (filter (wanted c id start) (all_events_ c)).
Proof. unfold GetEvents. rewrite get_events_loop_spec. by rewrite Z.sub_0_r. Qed.

(** Filtering a sorted history from just past one of its events. *)
Lemma filter_after c id start l1 e l2 :
  StronglySorted offset_lt (l1 ++ e :: l2) → wanted c id start e →
  filter (wanted c id (ev_offset e + 1)) (l1 ++ e :: l2) = filter (wanted c id start) l2.
Proof.
  intros Hs [He _]. rewrite filter_app, filter_cons.
  assert (Forall (λ x, ¬ wanted c id (ev_offset e + 1) x) l1) as H1.
  { apply Forall_forall. intros x Hx [Hle _].
    pose proof (StronglySorted_app_1_elem_of _ _ _ x e Hs Hx (list_elem_of_here _ _)) as Hlt.
    unfold offset_lt in Hlt. lia. }
  rewrite list_filter_none by done. rewrite decide_False by (intros [? _]; lia).
  apply StronglySorted_app_1_r in Hs. inversion_clear Hs as [|?? _ Hf].
  clear H1. induction l2 as [|x l2 IH]; [done|]. inversion_clear Hf as [|?? Hx Hf'].
  unfold offset_lt in Hx. simpl. rewrite !filter_cons.
  rewrite (decide_ext (wanted c id (ev_offset e + 1) x) (wanted c id start x))
    by (unfold wanted; split; intros [? ?]; (split; [lia|done])).
  simpl in IH. by rewrite IH.
Qed.

Lemma take_add_drop {A} k j (l : list A) : take (k + j) l = take k l ++ take j (drop k l).
Proof.
  revert l. induction k as [|k IH]; intros [|x l]; simpl; try done; [by destruct j|].
  by rewrite IH.
Qed.

Lemma app_middle_unique {A} (p q p' q' : list A) x :
  NoDup (p ++ x :: q) → p ++ x :: q = p' ++ x :: q' → q = q'.
Proof.
  revert p'. induction p as [|a p IH]; intros [|a' p'] Hnd Heq; simplify_eq/=; try done.
  - apply NoDup_cons in Hnd as [Hn _]. exfalso. apply Hn. apply elem_of_app. right. left.
  - apply NoDup_cons in Hnd as [Hn _]. exfalso. apply Hn. apply elem_of_app. right. left.
  - apply NoDup_cons in Hnd as [_ Hnd]. by apply (IH p').
Qed.

Lemma offset_sorted_NoDup l : StronglySorted offset_lt l → NoDup l.
Proof.
  induction 1 as [|x l Hl IH Hx]; constructor; [|done].
  intros Hin. apply (proj1 (Forall_forall _ _) Hx) in Hin. unfold offset_lt in Hin. lia.
Qed.

Section history_reads.
Context `{HO : HashOrder}.

(** Reading in pages loses nothing and repeats nothing: in any reachable
    state a page is the oldest matching retained events from the requested
    offset on, in offset order, and asking again from just past the last event
    of a page continues exactly where the page stopped. *)
Theorem GetEvents_paging config c id start n m page e :
  rtc cf_step (new_Changefeed config) c →
  zlength (cf_published c) < 2 ^ 64 - 1 →
  1 <= n → 1 <= m →
  GetEvents c id start n = page →
  last page = Some e →
  page = take (Z.to_nat n) (filter (wanted c id start) (all_events_ c))
  ∧ page ++ GetEvents c id (ev_offset e + 1) m = GetEvents c id start (n + m).
Proof.
  intros Hr Hlen Hn Hm Hpage Hlast.
  destruct (history_well_formed config c Hr Hlen) as (_ & _ & Hs & _).
  rewrite !GetEvents_eq in *. replace (Z.max 1 n) with n in Hpage by lia.
  split; [done|]. apply last_Some in Hlast as [p Hp].
  replace (Z.to_nat (Z.max 1 (n + m))) with (Z.to_nat n + Z.to_nat m)%nat by lia.
  replace (Z.max 1 m) with m by lia.
  set (F := filter (wanted c id start) (all_events_ c)) in *.
  assert (F = p ++ e :: drop (Z.to_nat n) F) as HF.
  { rewrite <- (take_drop (Z.to_nat n) F) at 1. by rewrite Hpage, Hp, <- app_assoc. }
  assert (e ∈ F) as He by (rewrite HF; set_solver).
  assert (wanted c id start e) as Hw by (apply list_elem_of_filter in He; tauto).
  apply list_elem_of_filter in He as [_ (l1 & l2 & Hl)%list_elem_of_split].
  assert (drop (Z.to_nat n) F = filter (wanted c id (ev_offset e + 1)) (all_events_ c)) as Hd.
  { rewrite Hl in Hs |- *. rewrite (filter_after c id start) by done.
    assert (NoDup F) as Hnd.
    { unfold F. apply NoDup_filter, offset_sorted_NoDup. by rewrite Hl. }
    rewrite HF in Hnd. eapply app_middle_unique; [exact Hnd|]. rewrite <- HF.
    unfold F. rewrite Hl, filter_app, filter_cons, decide_True by done. done. }
  by rewrite <- Hd, <- Hpage, take_add_drop.
Qed.
End history_reads.

(** ** Acknowledgements *)

(** Acknowledgement is monotone and idempotent: an accepted offset becomes
    the subscription's position and only moves it forward; repeating it, or
    acknowledging an older offset or an unknown subscription, is refused and
    changes nothing. *)
Theorem AcknowledgeEvent_monotone c now id offset :
  let '(c', ok) := AcknowledgeEvent now id offset c in
  (ok = true ↔ ∃ sub, subscriptions_ c !! id = Some sub ∧ ack_offset sub < offset)
  ∧ (ok = false → c' = c)
  ∧ (∀ s sub, subscriptions_ c !! s = Some sub →
       ∃ sub', subscriptions_ c' !! s = Some sub' ∧ ack_offset sub <= ack_offset sub'
               ∧ (s ≠ id ∨ ok = false → sub' = sub) ∧ (s = id → ok = true → ack_offset sub' = offset))
  ∧ (∀ now', AcknowledgeEvent now' id offset c' = (c', false)).
Proof.
  unfold AcknowledgeEvent. destruct (subscriptions_ c !! id) as [sub|] eqn:Hs.
  - destruct (ack_offset sub <? offset) eqn:El.
    + apply Z.ltb_lt in El. simpl. split; [split; [by exists sub|done]|]. split; [done|]. split.
      * intros s sub0 H0. destruct (decide (s = id)) as [->|Hne].
        -- rewrite lookup_insert_eq. simplify_eq. eexists. split; [done|]. simpl.
           split; [lia|]. split; [by intros [?|?]|done].
        -- rewrite lookup_insert_ne by done. by exists sub0.
      * intros now'. rewrite lookup_insert_eq. simpl. by rewrite Z.ltb_irrefl.
    + rewrite Hs, El. split; [|split; [done|split; [|done]]].
      * split; [done|]. intros (sub' & [= ->] & Hlt). apply Z.ltb_ge in El. lia.
      * intros s sub0 H0. by exists sub0.
  - rewrite Hs. split; [|split; [done|split; [|done]]].
    + split; [done|]. by intros (? & ? & ?).
    + intros s sub0 H0. by exists sub0.
Qed.

(** ** Concrete runs *)

Definition demo_config : ChangefeedConfig :=
  {| buffer_size := 10; max_lag_entries := 4; delivery_threads := 1 |}.
Definition demo_event (table : string) : ChangefeedEvent :=
  {| ev_offset := 0; ev_transaction_id := "7"; ev_table := table; ev_operation := "INSERT";
     ev_key := []; ev_old_value := []; ev_new_value := []; ev_timestamp := 0 |}.
Definition demo_filter : SubscriptionFilter :=
  {| table_pattern := "users"; sql_where_clause := ""; f_columns := [] |}.

(** A subscriber of "users", three events, and the delivery thread with the
    first of them in hand. *)
Definition demo_cf1 : Changefeed :=
  (Start 1 (Subscribe "sub-1" 0
     (CreateSubscription 5 demo_filter 0 AT_LEAST_ONCE (new_Changefeed demo_config)).1)).1.
Definition demo_cf2 : Changefeed :=
  PublishEvent 8 (demo_event "users")
    (PublishEvent 7 (demo_event "other") (PublishEvent 6 (demo_event "users") demo_cf1)).
Definition demo_cf3 : Changefeed :=
  loop_step (H:=std_order) (loop_step (H:=std_order) demo_cf2).
Definition demo_cf4 : Changefeed :=
  deliver_one 9 false 0 (loop_step (H:=std_order) demo_cf3).

Lemma demo_cf2_reachable : rtc (cf_step (H:=std_order)) (new_Changefeed demo_config) demo_cf2.
Proof.
  eapply rtc_l; [apply step_client; apply (step_create 5 demo_filter 0 AT_LEAST_ONCE)|].
  eapply rtc_l; [apply step_client; apply (step_subscribe "sub-1" 0)|].
  eapply rtc_l; [apply step_client; by apply (step_start 1)|].
  eapply rtc_l; [apply step_client; apply (step_publish 6 (demo_event "users"))|].
  eapply rtc_l; [apply step_client; apply (step_publish 7 (demo_event "other"))|].
  apply rtc_once, step_client, step_publish.
Qed.

Lemma demo_cf4_reachable : rtc (cf_step (H:=std_order)) (new_Changefeed demo_config) demo_cf4.
Proof.
  etransitivity; [apply demo_cf2_reachable|].
  eapply rtc_l; [apply step_loop|]. eapply rtc_l; [apply step_loop|].
  eapply rtc_l; [apply step_loop|]. apply rtc_once, step_target, step_deliver. by right.
Qed.

Lemma history_well_formed_witness :
  ev_offset <$> cf_published demo_cf4 = seqZ 1 3
  ∧ StronglySorted offset_lt (all_events_ demo_cf4).
Proof.
  destruct (history_well_formed (HO:=std_order) demo_config demo_cf4) as (H1 & _ & H3 & _);
    [apply demo_cf4_reachable|vm_compute; reflexivity|]. split; [exact H1|exact H3].
Defined.

Lemma delivery_in_order_witness :
  calls_to "sub-1" (cf_log demo_cf4) = [stamp 6 1 (demo_event "users")]
  ∧ StronglySorted offset_lt (calls_to "sub-1" (cf_log demo_cf4)).
Proof.
  split; [vm_compute; reflexivity|].
  apply (delivery_in_order (HO:=std_order) demo_config demo_cf4 "sub-1");
    [apply demo_cf4_reachable|vm_compute; reflexivity].
Defined.

Lemma fan_out_exactly_once_witness :
  ∃ called, cf_log demo_cf4 = cf_log demo_cf3 ++ (call_of (stamp 6 1 (demo_event "users")) <$> called)
    ∧ NoDup called.*1.
Proof.
  destruct (fan_out_exactly_once (HO:=std_order) demo_cf3 (stamp 6 1 (demo_event "users")) demo_cf4)
    as (called & H1 & H2 & _); [vm_compute; reflexivity| |vm_compute; reflexivity|].
  - apply rtc_once. split; [|right; apply step_deliver; by right].
    exists (stamp 6 1 (demo_event "users")), [("sub-1", 0%nat)]. vm_compute. reflexivity.
  - exists called. split; [exact H1|exact H2].
Defined.

Lemma GetEvents_paging_witness :
  GetEvents demo_cf2 "sub-1" 0 1 ++ GetEvents demo_cf2 "sub-1" 2 5 = GetEvents demo_cf2 "sub-1" 0 6.
Proof.
  apply (GetEvents_paging (HO:=std_order) demo_config demo_cf2 "sub-1" 0 1 5
           [stamp 6 1 (demo_event "users")] (stamp 6 1 (demo_event "users")));
    [apply demo_cf2_reachable|vm_compute; reflexivity|lia|lia|vm_compute; reflexivity|reflexivity].
Defined.

(** ** Lost wake-ups *)

(** [PublishEvent] notifies without holding [delivery_mutex_]: if the
    notification falls between the delivery thread's test of the condition and
    its block, it is lost, and the event stays in the queue of a running engine
    whose delivery thread sleeps (until the next event is published). *)
Theorem publish_can_lose_wakeup :
  ∃ c, rtc (cf_step (H:=std_order)) (new_Changefeed demo_config) c
    ∧ running_ c = true ∧ delivery_pc c = Blocked ∧ length (events_ c) = 1%nat
    ∧ loop_step (H:=std_order) c = c.
Proof.
  exists (loop_step (H:=std_order) (PublishEvent 6 (demo_event "users")
            (loop_step (H:=std_order) demo_cf1))).
  split; [|vm_compute; done].
  eapply rtc_l; [apply step_client; apply (step_create 5 demo_filter 0 AT_LEAST_ONCE)|].
  eapply rtc_l; [apply step_client; apply (step_subscribe "sub-1" 0)|].
  eapply rtc_l; [apply step_client; by apply (step_start 1)|].
  eapply rtc_l; [apply step_loop|].
  eapply rtc_l; [apply step_client; apply (step_publish 6 (demo_event "users"))|].
  apply rtc_once, step_loop.
Qed.

(** A limit of 0 still returns an event, and a subscription created ahead of the
    log makes the reported lag wrap around. *)
Theorem limit_zero_and_lag_wrap :
  length (GetEvents demo_cf2 "sub-1" 0 0) = 1%nat
  ∧ max_lag_ms (GetMetrics (H:=std_order)
      (CreateSubscription 5 demo_filter 10 AT_LEAST_ONCE (new_Changefeed demo_config)).1)
    = 2 ^ 64 - 10.
Proof. split; vm_compute; reflexivity. Qed.
