(* ===== verification/StorageJson.v ===== *)
(** * JSON rows and schemas (src/storage/storage_engine.cpp)

    [SerializeRow]/[DeserializeRow] and [SerializeSchema]/[DeserializeSchema]:
    the JSON texts of the snapshot file, of changefeed events and of the schema
    in a CREATE TABLE log entry.  JSON cannot express every [Value]; the
    round-trip theorems say exactly what comes back. *)

From Stdlib Require Import Floats.SpecFloat.
From S2P Require Import Prelude Table Float64 Json.

(** ** Conversions between [Value] and JSON *)

(** The visitor of [SerializeRow]. *)
Definition value_json (v : Value) : json :=
  match v with
  | VNull => JNull
  | VString s => JString s
  | VInt32 n => JInt n
  | VInt64 n => JInt n
  | VFloat b => JFloat (double_of_float b)
  | VDouble b => JFloat b
  | VBool b => JBool b
  | VBytes b => JBinary b
  | VTime _ => JNull
  end.

(** The chain of type tests in [DeserializeRow]; other types leave no column. *)
Definition json_value (j : json) : option Value :=
  match j with
  | JNull => Some VNull
  | JString s => Some (VString s)
  | JInt n => Some (VInt64 (i64 n))
  | JFloat b => Some (VDouble b)
  | JBool b => Some (VBool b)
  | JBinary b => Some (VBytes b)
  | JArray _ | JObject _ => None
  end.

(** [j.items()]: the keys of an object, the indices of an array, nothing for
    null, and an empty key for any other value. *)
Definition json_items (j : json) : list (string * json) :=
  match j with
  | JObject fs => fs
  | JArray l => imap (λ i v, (pretty (Z.of_nat i), v)) l
  | JNull => []
  | _ => [("", j)]
  end.

(** [for (const auto& x : j)]. *)
Definition json_elements (j : json) : list json := (json_items j).*2.

(** [j[name]] for a value that is then converted to a string, a flag, ...;
    a missing member, another JSON type or a value that is no object throws. *)
Definition member (name : string) (j : json) : exc json :=
  match json_field name j with Some v => Ret v | None => Throw "json: no such member" end.
Definition as_string (j : json) : exc string :=
  match j with JString s => Ret s | _ => Throw "json: type must be string" end.
Definition as_bool (j : json) : exc bool :=
  match j with JBool b => Ret b | _ => Throw "json: type must be boolean" end.

(** [get<int>()] of an enumeration's underlying value: truncation towards zero. *)
Definition double_trunc (bits : Z) : Z :=
  match double_sf bits with
  | S754_finite s m e => cond_Zopp s (Z.shiftl (Zpos m) e)
  | _ => 0
  end.
Definition as_int (j : json) : exc Z :=
  match j with
  | JInt n => Ret (i32 n)
  | JFloat b => Ret (double_trunc b)
  | _ => Throw "json: type must be number"
  end.

Section storage_json.
Context `{JL : JsonLib}.

(** ** Rows *)

Definition row_json (row : Row) : json :=
  object_of {[ "key" := JString (row_key row);
               "columns" := object_of (value_json <$> row_columns row) ]}.

Definition SerializeRow (row : Row) : exc bytes := str_bytes <$> dump (row_json row).

Definition add_column (cols : gmap string Value) (kv : string * json) : gmap string Value :=
  match json_value kv.2 with Some v => <[kv.1 := v]> cols | None => cols end.

Definition DeserializeRow (data : bytes) : exc Row :=
  if decide (data = []) then Throw "Cannot deserialize empty row data"
  else match parse (bytes_str data) with
  | None => Throw "Failed to parse JSON"
  | Some j =>
      key ← (member "key" j ≫= as_string);
      let columns := default JNull (json_field "columns" j) in
      Ret (mkRow key (fold_left add_column (json_items columns) ∅))
  end.

(** ** Schemas *)

Definition column_json (col : Column) : json :=
  object_of {[ "name" := JString (col_name col);
               "type" := JInt (DataType_to_int (col_type col));
               "nullable" := JBool (nullable col);
               "is_primary_key" := JBool (is_primary_key col) ]}.

Definition schema_json (schema : TableSchema) : json :=
  object_of {[ "name" := JString (sch_name schema);
               "columns" := JArray (map column_json (sch_columns schema));
               "primary_key" := JArray (map JString (primary_key schema)) ]}.

Definition SerializeSchema (schema : TableSchema) : exc bytes :=
  str_bytes <$> dump (schema_json schema).

Definition json_column (col_json : json) : exc Column :=
  name ← (member "name" col_json ≫= as_string);
  type ← (member "type" col_json ≫= as_int);
  nullable ← (member "nullable" col_json ≫= as_bool);
  is_primary_key ← (member "is_primary_key" col_json ≫= as_bool);
  Ret {| col_name := name; col_type := DataType_of_int type; nullable := nullable;
         is_primary_key := is_primary_key; default_value := DefNone |}.

(** A loop that may throw, collecting its results. *)
Fixpoint exc_map {A B} (f : A → exc B) (l : list A) : exc (list B) :=
  match l with
  | [] => Ret []
  | a :: l => b ← f a; bs ← exc_map f l; Ret (b :: bs)
  end.

Definition as_strings (j : json) : exc (list string) :=
  match j with JArray l => exc_map as_string l | _ => Throw "json: type must be array" end.

Definition DeserializeSchema (data : bytes) : exc TableSchema :=
  if decide (data = []) then Throw "Cannot deserialize empty schema data"
  else match parse (bytes_str data) with
  | None => Throw "Failed to parse schema JSON"
  | Some j =>
      name ← (member "name" j ≫= as_string);
      primary_key ← (member "primary_key" j ≫= as_strings);
      columns ← exc_map json_column (json_elements (default JNull (json_field "columns" j)));
      Ret {| sch_name := name; sch_columns := columns; primary_key := primary_key;
             sch_options := ∅ |}
  end.
End storage_json.

(** ** Round trips *)

(** What a column becomes after a round trip through JSON: the integer and
    floating-point widths are forgotten, a timestamp or a non-finite number
    becomes null, and a binary column disappears. *)
Definition restored_float (b : Z) : Value := if double_finite b then VDouble b else VNull.
Definition restored_value (v : Value) : option Value :=
  match v with
  | VInt32 n => Some (VInt64 n)
  | VFloat b => Some (restored_float (double_of_float b))
  | VDouble b => Some (restored_float b)
  | VTime _ => Some VNull
  | VBytes _ => None
  | v => Some v
  end.
Definition restored_row (row : Row) : Row :=
  mkRow (row_key row) (omap restored_value (row_columns row)).

(** Strings JSON can hold. *)
Definition value_utf8 (v : Value) : Prop :=
  match v with VString s => utf8 s = true | _ => True end.
Definition row_utf8 (row : Row) : Prop :=
  utf8 (row_key row) = true ∧
  map_Forall (λ name v, utf8 name = true ∧ value_utf8 v ∧ value_wf v) (row_columns row).

#[export] Instance value_utf8_dec v : Decision (value_utf8 v).
Proof. destruct v; simpl; apply _. Defined.
#[export] Instance row_utf8_dec row : Decision (row_utf8 row).
Proof. unfold row_utf8. apply _. Defined.

Lemma is_i64_bounds n : is_i 64 n ↔ - 2 ^ 63 <= n < 2 ^ 63.
Proof. reflexivity. Qed.

Lemma i64_small n : is_i 64 n → i64 n = n.
Proof.
  intros H. rewrite <- (signed_mod 64 n) at 2 by done. unfold i64, signed.
  by rewrite Zplus_mod_idemp_l.
Qed.

Lemma is_i_32_64 n : is_i 32 n → is_i 64 n.
Proof. rewrite is_i64_bounds. unfold is_i. change (32 - 1) with 31. lia. Qed.

#[local] Opaque double_of_float double_finite i64.

Lemma json_value_restored v : value_wf v → json_value (json_text (value_json v)) = restored_value v.
Proof.
  destruct v as [|n|n|b|b|s|b|b|n]; simpl; intros H; try done.
  - rewrite i64_small; [done|by apply is_i_32_64].
  - by rewrite i64_small.
  - unfold restored_float. by destruct (double_finite _).
  - unfold restored_float. by destruct (double_finite _).
Qed.

Lemma value_json_ok v : value_wf v → value_utf8 v → json_ok (value_json v) = true.
Proof.
  destruct v; intros H1 H2; try done; apply bool_decide_eq_true; unfold value_wf in H1.
  - apply is_i_32_64 in H1. rewrite is_i64_bounds in H1. lia.
  - rewrite is_i64_bounds in H1. lia.
Qed.


Lemma field_text k fs :
  field k (map (λ kv, (kv.1, json_text kv.2)) fs) = json_text <$> field k fs.
Proof. induction fs as [|[k' v] fs IH]; [done|]. simpl. by case_decide. Qed.

Lemma json_field_text_object k m :
  json_field k (json_text (object_of m)) = json_text <$> m !! k.
Proof. rewrite <- json_field_object. simpl. apply field_text. Qed.

Lemma member_text_object k m v :
  m !! k = Some v → member k (json_text (object_of m)) = Ret (json_text v).
Proof. intros H. unfold member. by rewrite json_field_text_object, H. Qed.

Lemma fold_add_column (l : list (string * Value)) (cols : gmap string Value) :
  Forall (λ kv, value_wf kv.2) l → NoDup l.*1 →
  (∀ k, k ∈ l.*1 → cols !! k = None) →
  fold_left add_column (map (λ kv, (kv.1, json_text (value_json kv.2))) l) cols
  = omap restored_value (list_to_map l) ∪ cols.
Proof.
  revert cols. induction l as [|[k v] l IH]; intros cols Hwf Hnd Hfresh.
  - simpl. by rewrite omap_empty, (left_id_L ∅ (∪)).
  - inversion_clear Hwf as [|?? Hv Hwf']. apply NoDup_cons in Hnd as [Hk Hnd].
    simpl in Hv, Hk. cbn [map fold_left]. unfold add_column at 2. cbn [fst snd].
    rewrite json_value_restored by done. cbn [list_to_map].
    assert ((list_to_map l : gmap string Value) !! k = None) as Hl
      by by apply not_elem_of_list_to_map.
    simpl. destruct (restored_value v) as [v'|] eqn:Ev.
    + rewrite (omap_insert_Some _ _ _ _ v') by done. rewrite IH; [|done|done|].
      * rewrite <- insert_union_l, <- insert_union_r; [done|]. by rewrite lookup_omap, Hl.
      * intros k' Hk'. rewrite lookup_insert_ne by (intros ->; done).
        apply Hfresh. by right.
    + rewrite omap_insert_None by done. rewrite delete_id by (by rewrite lookup_omap, Hl).
      apply IH; [done..|]. intros k' Hk'. apply Hfresh. by right.
Qed.

Lemma map_iter_fmap_fold (cols : gmap string Value) :
  map_Forall (λ _ v, value_wf v) cols →
  fold_left add_column
    (map (λ kv, (kv.1, json_text kv.2)) (map_iter (value_json <$> cols))) ∅
  = omap restored_value cols.
Proof.
  intros Hwf.
  set (l := (λ kv, (kv.1, default VNull (cols !! kv.1))) <$> map_iter (value_json <$> cols)).
  assert (l.*1 = (map_iter (value_json <$> cols)).*1) as Hfst.
  { unfold l. rewrite <- list_fmap_compose. done. }
  assert (∀ k v, (k, v) ∈ l ↔ cols !! k = Some v) as Hl.
  { intros k v. unfold l. rewrite list_elem_of_fmap. split.
    - intros ([k' j] & [= -> ->] & Hin). apply elem_of_map_iter in Hin.
      rewrite lookup_fmap in Hin. simpl. by destruct (cols !! k').
    - intros Hk. exists (k, value_json v). simpl. rewrite Hk. split; [done|].
      apply elem_of_map_iter. by rewrite lookup_fmap, Hk. }
  assert (NoDup l.*1) as Hnd by (rewrite Hfst; apply map_iter_NoDup).
  assert (list_to_map l = cols) as Hmap.
  { apply map_eq. intros k. apply option_eq. intros v.
    by rewrite <- elem_of_list_to_map, Hl. }
  assert (map (λ kv, (kv.1, json_text kv.2)) (map_iter (value_json <$> cols))
          = map (λ kv, (kv.1, json_text (value_json kv.2))) l) as ->.
  { unfold l. rewrite map_map. apply map_ext_in. intros [k j] Hin%list_elem_of_In.
    apply elem_of_map_iter in Hin. rewrite lookup_fmap in Hin. simpl.
    destruct (cols !! k) as [v|]; simpl in *; [|done]. by simplify_eq. }
  rewrite fold_add_column, Hmap; [by rewrite (right_id_L ∅ (∪))| |done|done].
  apply Forall_forall. intros [k v] Hin%Hl. by apply (Hwf k v).
Qed.

Section roundtrip.
Context `{JL : JsonLib}.

Lemma dump_text j : json_ok j = true →
  ∃ s, dump j = Ret s ∧ parse s = Some (json_text j) ∧ utf8 s = true ∧ str_bytes s ≠ [].
Proof.
  intros H. destruct (parse_dump j H) as (s & H1 & H2 & H3 & H4). exists s.
  split_and!; try done. by destruct s.
Qed.

Lemma row_json_ok row : row_utf8 row → json_ok (row_json row) = true.
Proof.
  intros [Hk Hc]. apply json_ok_object, map_Forall_insert; [done|]. split; [done|].
  apply map_Forall_singleton. split; [done|].
  apply json_ok_object. intros k j. rewrite lookup_fmap, fmap_Some.
  intros (v & Hv & ->). destruct (Hc k v Hv) as (? & ? & ?). split; [done|].
  by apply value_json_ok.
Qed.

Lemma row_roundtrip row :
  row_utf8 row →
  ∃ data, SerializeRow row = Ret data ∧ DeserializeRow data = Ret (restored_row row)
          ∧ utf8 (bytes_str data) = true.
Proof.
  intros Hrow. destruct (dump_text _ (row_json_ok _ Hrow)) as (s & Hd & Hp & Hu & Hne).
  exists (str_bytes s). unfold SerializeRow. rewrite Hd. split; [done|].
  rewrite bytes_str_bytes. split; [|done].
  unfold DeserializeRow. rewrite decide_False by done. rewrite bytes_str_bytes, Hp.
  unfold row_json.
  rewrite (member_text_object "key" _ (JString (row_key row))) by done.
  rewrite json_field_text_object, lookup_insert_ne, lookup_singleton_eq by done. simpl.
  rewrite map_iter_fmap_fold; [done|].
  eapply map_Forall_impl; [apply Hrow|]. by intros ? ? (_ & _ & ?).
Qed.

(** ** Schemas *)

Definition restored_column (c : Column) : Column :=
  {| col_name := col_name c; col_type := col_type c; nullable := nullable c;
     is_primary_key := is_primary_key c; default_value := DefNone |}.
Definition restored_schema (s : TableSchema) : TableSchema :=
  {| sch_name := sch_name s; sch_columns := restored_column <$> sch_columns s;
     primary_key := primary_key s; sch_options := ∅ |}.

Definition schema_utf8 (s : TableSchema) : Prop :=
  utf8 (sch_name s) = true ∧ Forall (λ k, utf8 k = true) (primary_key s) ∧
  Forall (λ c, utf8 (col_name c) = true ∧ DataType_wf (col_type c)) (sch_columns s).

Lemma i32_small n : is_i 32 n → i32 n = n.
Proof.
  intros H. rewrite <- (signed_mod 32 n) at 2 by done. unfold i32, signed.
  by rewrite Zplus_mod_idemp_l.
Qed.

Lemma DataType_int_small t : DataType_wf t → i32 (DataType_to_int t) = DataType_to_int t.
Proof.
  intros H%DataType_to_int_range. apply i32_small. unfold is_i. change (32 - 1) with 31. lia.
Qed.

Lemma json_column_text c :
  DataType_wf (col_type c) →
  json_column (json_text (column_json c)) = Ret (restored_column c).
Proof.
  intros Ht. unfold json_column, column_json.
  rewrite (member_text_object "name" _ (JString (col_name c))) by done.
  rewrite (member_text_object "type" _ (JInt (DataType_to_int (col_type c)))) by done.
  rewrite (member_text_object "nullable" _ (JBool (nullable c))) by done.
  rewrite (member_text_object "is_primary_key" _ (JBool (is_primary_key c))) by done.
  simpl. rewrite DataType_int_small, DataType_of_to_int by done. done.
Qed.

Lemma json_elements_array l : json_elements (JArray l) = l.
Proof.
  unfold json_elements. simpl. rewrite fmap_imap.
  transitivity (imap (const id) l); [by apply imap_ext|]. by rewrite imap_const, list_fmap_id.
Qed.

Lemma exc_map_ret {A B C} (f : A → exc B) (g : C → A) (h : C → B) l :
  Forall (λ c, f (g c) = Ret (h c)) l → exc_map f (map g l) = Ret (h <$> l).
Proof. induction 1 as [|c l Hc Hl IH]; [done|]. simpl. by rewrite Hc, IH. Qed.

Lemma schema_json_ok s : schema_utf8 s → json_ok (schema_json s) = true.
Proof.
  intros (Hn & Hpk & Hc). apply json_ok_object.
  apply map_Forall_insert; [done|]. split; [done|].
  apply map_Forall_insert; [done|]. split; [split; [done|]|].
  - simpl. apply forallb_forall. intros j (c & <- & Hin)%in_map_iff.
    apply list_elem_of_In in Hin. rewrite Forall_forall in Hc.
    destruct (Hc c Hin) as [Hu Ht]. apply json_ok_object.
    repeat (apply map_Forall_insert; [done|]; split; [split; [done|]|]); try done.
    apply bool_decide_eq_true. apply DataType_to_int_range in Ht. lia.
  - apply map_Forall_singleton. split; [done|]. simpl.
    apply forallb_forall. intros j (k & <- & Hin)%in_map_iff.
    apply list_elem_of_In in Hin. rewrite Forall_forall in Hpk. by apply (Hpk k).
Qed.

Lemma DeserializeSchema_SerializeSchema s :
  schema_utf8 s →
  ∃ data, SerializeSchema s = Ret data ∧ DeserializeSchema data = Ret (restored_schema s)
          ∧ utf8 (bytes_str data) = true.
Proof.
  intros Hs. destruct (dump_text _ (schema_json_ok _ Hs)) as (t & Hd & Hp & Hu & Hne).
  exists (str_bytes t). unfold SerializeSchema. rewrite Hd. split; [done|].
  rewrite bytes_str_bytes. split; [|done].
  unfold DeserializeSchema. rewrite decide_False by done. rewrite bytes_str_bytes, Hp.
  unfold schema_json.
  rewrite (member_text_object "name" _ (JString (sch_name s))) by done.
  rewrite (member_text_object "primary_key" _ (JArray (map JString (primary_key s)))) by done.
  rewrite json_field_text_object, lookup_insert_ne, lookup_insert_eq by done.
  change (json_text (JString (sch_name s))) with (JString (sch_name s)).
  cbn [json_text default fmap option_fmap option_map]. rewrite !map_map.
  cbn [as_string as_strings mbind exc_bind].
  rewrite (exc_map_ret as_string (λ x, json_text (JString x)) id) by by apply Forall_true.
  cbn [mbind exc_bind id].
  rewrite json_elements_array, (exc_map_ret json_column _ restored_column).
  - by rewrite list_fmap_id.
  - eapply Forall_impl; [apply Hs|]. intros c [_ Ht]. by apply json_column_text.
Qed.

(** The JSON formats round-trip: a row whose strings are UTF-8 is
    serialised without an exception and deserialised to the same key with every
    column restored up to what JSON can express ([restored_value]: the widths of
    integers and floats are lost, timestamps and non-finite numbers become
    null, binary columns are dropped); a schema comes back with its name,
    columns and primary key (default values and options are not stored). *)
Theorem json_formats_roundtrip row s :
  row_utf8 row → schema_utf8 s →
  (∃ data, SerializeRow row = Ret data ∧ DeserializeRow data = Ret (restored_row row)) ∧
  (∃ data, SerializeSchema s = Ret data ∧ DeserializeSchema data = Ret (restored_schema s)).
Proof.
  intros Hr Hs. destruct (row_roundtrip row Hr) as (d1 & ? & ? & _).
  destruct (DeserializeSchema_SerializeSchema s Hs) as (d2 & ? & ? & _).
  split; by eexists.
Qed.
End roundtrip.

Lemma json_formats_roundtrip_witness :
  let row := mkRow "u1" {[ "id" := VInt32 (-5); "name" := VString "Ada"; "raw" := VBytes [Byte.x00];
                           "at" := VTime 7 ]} in
  ∃ data, SerializeRow (JL:=std_json) row = Ret data
    ∧ DeserializeRow (JL:=std_json) data
      = Ret (mkRow "u1" {[ "id" := VInt64 (-5); "name" := VString "Ada"; "at" := VNull ]}).
Proof.
  intros row.
  destruct (json_formats_roundtrip (JL:=std_json) row
    {| sch_name := "t"; sch_columns := []; primary_key := ["id"]; sch_options := ∅ |})
    as ((data & H1 & H2) & _).
  - apply (bool_decide_unpack _). vm_compute. exact I.
  - split_and!; [by vm_compute|by repeat constructor|constructor].
  - exists data. split; [exact H1|]. rewrite H2. vm_compute. reflexivity.
Defined.
