(* ===== verification/Storage.v ===== *)
(** * The storage engine (src/storage/storage_engine.cpp)

    [StorageEngine::Impl]: tables, transactions, the commit path through the
    write-ahead log to the changefeed, recovery, snapshots and statistics.  The
    log is any implementation of [WalApi] (WalStore.v has the group commit);
    the JSON library is [JsonLib]; the iteration order of the unordered maps is
    [HashOrder].  An operation that throws leaves the state it had reached.
    All the clock reads of one call are one argument [now]; they only reach row
    and event timestamps. *)

From stdpp Require Import relations.
From S2P Require Import Prelude Table Codec RowCodec Json MemTable Txn Wal WalStore Changefeed StorageJson.
From coqutil Require Import Byte.

(** ** State *)

Record Stats := {
  total_tables : Z;
  total_rows : Z;
  total_bytes : Z;
  wal_size : Z;
  transactions_committed : Z;
  transactions_aborted : Z
}.

Definition new_Stats : Stats :=
  {| total_tables := 0; total_rows := 0; total_bytes := 0; wal_size := 0;
     transactions_committed := 0; transactions_aborted := 0 |}.

Definition add_tables (n : Z) (s : Stats) : Stats :=
  {| total_tables := u64 (total_tables s + n); total_rows := total_rows s;
     total_bytes := total_bytes s; wal_size := wal_size s;
     transactions_committed := transactions_committed s;
     transactions_aborted := transactions_aborted s |}.
Definition add_rows (n : Z) (s : Stats) : Stats :=
  {| total_tables := total_tables s; total_rows := u64 (total_rows s + n);
     total_bytes := total_bytes s; wal_size := wal_size s;
     transactions_committed := transactions_committed s;
     transactions_aborted := transactions_aborted s |}.
Definition add_bytes (n : Z) (s : Stats) : Stats :=
  {| total_tables := total_tables s; total_rows := total_rows s;
     total_bytes := u64 (total_bytes s + n); wal_size := wal_size s;
     transactions_committed := transactions_committed s;
     transactions_aborted := transactions_aborted s |}.
Definition count_commit (s : Stats) : Stats :=
  {| total_tables := total_tables s; total_rows := total_rows s;
     total_bytes := total_bytes s; wal_size := wal_size s;
     transactions_committed := u64 (transactions_committed s + 1);
     transactions_aborted := transactions_aborted s |}.
Definition count_abort (s : Stats) : Stats :=
  {| total_tables := total_tables s; total_rows := total_rows s;
     total_bytes := total_bytes s; wal_size := wal_size s;
     transactions_committed := transactions_committed s;
     transactions_aborted := u64 (transactions_aborted s + 1) |}.

(** [active_transactions_] maps timestamps to transactions; its values are
    never read, so it is the set of its keys.  [snapshot_] is the contents of
    snapshots/snapshot.json. *)
Record StorageEngine (W : Type) := {
  tables_ : gmap string MemTable;
  active_transactions_ : gset Z;
  wal_ : W;
  snapshot_ : option string;
  next_txn_id_ : Z;
  next_timestamp_ : Z;
  stats_ : Stats;
  changefeed_engine_ : option Changefeed;
  shutdown_done_ : bool
}.
Arguments tables_ {W} _.
Arguments active_transactions_ {W} _.
Arguments wal_ {W} _.
Arguments snapshot_ {W} _.
Arguments next_txn_id_ {W} _.
Arguments next_timestamp_ {W} _.
Arguments stats_ {W} _.
Arguments changefeed_engine_ {W} _.
Arguments shutdown_done_ {W} _.

(** The engine as its constructor leaves it, over the log and the snapshot file
    found on disk. *)
Definition new_StorageEngine {W} (wal : W) (snapshot : option string) : StorageEngine W :=
  {| tables_ := ∅; active_transactions_ := ∅; wal_ := wal; snapshot_ := snapshot;
     next_txn_id_ := 1; next_timestamp_ := 1; stats_ := new_Stats;
     changefeed_engine_ := None; shutdown_done_ := false |}.

Section storage.
Context {W : Type} `{WA : WalApi W} `{JL : JsonLib} `{HO : HashOrder}.
Abbreviation engine := (StorageEngine W).

Definition set_tables (ts : gmap string MemTable) (e : engine) : engine :=
  {| tables_ := ts; active_transactions_ := active_transactions_ e; wal_ := wal_ e;
     snapshot_ := snapshot_ e; next_txn_id_ := next_txn_id_ e;
     next_timestamp_ := next_timestamp_ e; stats_ := stats_ e;
     changefeed_engine_ := changefeed_engine_ e;
     shutdown_done_ := shutdown_done_ e |}.
Definition set_stats (f : Stats → Stats) (e : engine) : engine :=
  {| tables_ := tables_ e; active_transactions_ := active_transactions_ e; wal_ := wal_ e;
     snapshot_ := snapshot_ e; next_txn_id_ := next_txn_id_ e;
     next_timestamp_ := next_timestamp_ e; stats_ := f (stats_ e);
     changefeed_engine_ := changefeed_engine_ e;
     shutdown_done_ := shutdown_done_ e |}.
Definition set_wal (w : W) (e : engine) : engine :=
  {| tables_ := tables_ e; active_transactions_ := active_transactions_ e; wal_ := w;
     snapshot_ := snapshot_ e; next_txn_id_ := next_txn_id_ e;
     next_timestamp_ := next_timestamp_ e; stats_ := stats_ e;
     changefeed_engine_ := changefeed_engine_ e;
     shutdown_done_ := shutdown_done_ e |}.
Definition set_active (a : gset Z) (e : engine) : engine :=
  {| tables_ := tables_ e; active_transactions_ := a; wal_ := wal_ e;
     snapshot_ := snapshot_ e; next_txn_id_ := next_txn_id_ e;
     next_timestamp_ := next_timestamp_ e; stats_ := stats_ e;
     changefeed_engine_ := changefeed_engine_ e;
     shutdown_done_ := shutdown_done_ e |}.
Definition set_snapshot (s : option string) (e : engine) : engine :=
  {| tables_ := tables_ e; active_transactions_ := active_transactions_ e; wal_ := wal_ e;
     snapshot_ := s; next_txn_id_ := next_txn_id_ e;
     next_timestamp_ := next_timestamp_ e; stats_ := stats_ e;
     changefeed_engine_ := changefeed_engine_ e;
     shutdown_done_ := shutdown_done_ e |}.
Definition SetChangefeedEngine (c : option Changefeed) (e : engine) : engine :=
  {| tables_ := tables_ e; active_transactions_ := active_transactions_ e; wal_ := wal_ e;
     snapshot_ := snapshot_ e; next_txn_id_ := next_txn_id_ e;
     next_timestamp_ := next_timestamp_ e; stats_ := stats_ e;
     changefeed_engine_ := c; shutdown_done_ := shutdown_done_ e |}.

(** [WAL::Append] of one entry, whose answer the table operations ignore. *)
Definition mk_entry (t : WALEntryType) (table key : string) (data : bytes) (txn : Z) : WALEntry :=
  {| e_type := t; e_sequence := 0; e_txn := txn; e_timestamp := 0; e_table := table;
     e_key := key; e_data := data |}.
Definition log_entry (entry : WALEntry) (e : engine) : engine :=
  set_wal (wal_append [entry] (wal_ e)).1 e.

(** ** Tables *)

Definition CreateTable (schema : TableSchema) (e : engine) : engine * exc bool :=
  match tables_ e !! sch_name schema with
  | Some _ => (e, Ret false)
  | None =>
      let e1 := set_tables (<[sch_name schema := new_MemTable schema]> (tables_ e)) e in
      match SerializeSchema schema with
      | Throw what => (e1, Throw what)
      | Ret data =>
          let e2 := log_entry (mk_entry CREATE_TABLE (sch_name schema) "" data 0) e1 in
          (set_stats (add_tables 1) e2, Ret true)
      end
  end.

Definition DropTable (table_name : string) (e : engine) : engine * bool :=
  match tables_ e !! table_name with
  | None => (e, false)
  | Some table =>
      let e1 := set_stats (add_rows (- GetRowCount table)) e in
      let e2 := set_stats (add_bytes (- GetSizeBytes table)) e1 in
      let e3 := set_tables (delete table_name (tables_ e2)) e2 in
      let e4 := log_entry (mk_entry DROP_TABLE table_name "" [] 0) e3 in
      (set_stats (add_tables (-1)) e4, true)
  end.

Definition GetTable (table_name : string) (e : engine) : option MemTable :=
  tables_ e !! table_name.
Definition ListTables (e : engine) : list string := (hash_iter (tables_ e)).*1.

(** ** Transactions *)

Definition BeginTransaction (level : IsolationLevel) (e : engine) : engine * Transaction :=
  let txn := new_Transaction (next_txn_id_ e) (next_timestamp_ e) level in
  ({| tables_ := tables_ e;
      active_transactions_ := {[ next_timestamp_ e ]} ∪ active_transactions_ e;
      wal_ := wal_ e; snapshot_ := snapshot_ e;
      next_txn_id_ := u64 (next_txn_id_ e + 1); next_timestamp_ := u64 (next_timestamp_ e + 1);
      stats_ := stats_ e; changefeed_engine_ := changefeed_engine_ e;
     shutdown_done_ := shutdown_done_ e |}, txn).

Definition op_type (op : WriteOp) : WALEntryType :=
  match op with WINSERT => INSERT | WUPDATE => UPDATE | WDELETE => DELETE end.
Definition op_name (op : WriteOp) : string :=
  match op with WINSERT => "INSERT" | WUPDATE => "UPDATE" | WDELETE => "DELETE" end.

(** The effect of one write on its table: the new table, the row it replaced
    as the changefeed reports it, the change of [total_rows], and success.
    An INSERT whose key exists is resolved as an UPDATE. *)
Definition apply_op (now : Z) (w : WriteOperation) (t : MemTable)
    : MemTable * option Row * Z * bool :=
  let key := row_key (w_row w) in
  match w_op w with
  | WINSERT =>
      let '(t1, ok) := MemTable.Insert t (w_row w) in
      if ok then (t1, None, 1, true)
      else match MemTable.Get t1 key with
           | Some old => let '(t2, ok2) := MemTable.Update now t1 key (w_row w) in
                         (t2, Some old, 0, ok2)
           | None => (t1, None, 0, false)
           end
  | WUPDATE =>
      let old := MemTable.Get t key in
      let '(t1, ok) := MemTable.Update now t key (w_row w) in (t1, old, 0, ok)
  | WDELETE =>
      let old := MemTable.Get t key in
      let '(t1, ok) := MemTable.Delete t key in (t1, old, if ok then -1 else 0, ok)
  end.

Definition write_entry (txn : Transaction) (w : WriteOperation) : WALEntry :=
  mk_entry (op_type (w_op w)) (w_table w) (row_key (w_row w)) (EncodeRow (w_row w))
           (t_timestamp txn).

Definition write_event (now : Z) (txn : Transaction) (w : WriteOperation) (old_row : option Row)
    : exc ChangefeedEvent :=
  new_value ← (if decide (w_op w = WDELETE) then Ret [] else SerializeRow (w_row w));
  old_value ← (match old_row with Some r => SerializeRow r | None => Ret [] end);
  Ret {| ev_offset := 0; ev_transaction_id := pretty (t_timestamp txn);
         ev_table := w_table w; ev_operation := op_name (w_op w);
         ev_key := str_bytes (row_key (w_row w)); ev_old_value := old_value;
         ev_new_value := new_value; ev_timestamp := now |}.

(** One iteration of the loop over the write set: [Ret None] is the early
    [return false]. *)
Definition apply_write (now : Z) (txn : Transaction) (w : WriteOperation) (e : engine)
    : engine * exc (option (WALEntry * option ChangefeedEvent)) :=
  match tables_ e !! w_table w with
  | None => (e, Ret None)
  | Some t =>
      let '(t', old_row, rows, success) := apply_op now w t in
      let e1 := set_stats (add_rows rows) (set_tables (<[w_table w := t']> (tables_ e)) e) in
      if negb success then (e1, Ret None)
      else match changefeed_engine_ e with
           | None => (e1, Ret (Some (write_entry txn w, None)))
           | Some _ =>
               (e1, ev ← write_event now txn w old_row;
                    Ret (Some (write_entry txn w, Some ev)))
           end
  end.

Fixpoint apply_writes (now : Z) (txn : Transaction) (ws : list WriteOperation)
    (entries : list WALEntry) (events : list ChangefeedEvent) (e : engine)
    : engine * exc (option (list WALEntry * list ChangefeedEvent)) :=
  match ws with
  | [] => (e, Ret (Some (entries, events)))
  | w :: ws =>
      match apply_write now txn w e with
      | (e1, Throw what) => (e1, Throw what)
      | (e1, Ret None) => (e1, Ret None)
      | (e1, Ret (Some (entry, ev))) =>
          apply_writes now txn ws (entries ++ [entry]) (events ++ option_list ev) e1
      end
  end.

(** What [Commit] does under [tables_mutex_]: apply the write set and submit
    the log batch; the answer is waited for after the lock is released. *)
Definition commit_locked (now : Z) (txn : Transaction) (e : engine)
    : engine * exc (option (list ChangefeedEvent * bool)) :=
  match apply_writes now txn (t_write_set txn) [] [] e with
  | (e1, Throw what) => (e1, Throw what)
  | (e1, Ret None) => (e1, Ret None)
  | (e1, Ret (Some (entries, events))) =>
      let '(w', durable) := wal_append entries (wal_ e1) in
      (set_wal w' e1, Ret (Some (events, durable)))
  end.

Definition publish_all (now : Z) (events : list ChangefeedEvent) (e : engine) : engine :=
  SetChangefeedEngine
    ((λ c, fold_left (λ c ev, PublishEvent now ev c) events c) <$> changefeed_engine_ e) e.

(** The rest of [Commit], once the batch is durable. *)
Definition commit_finish (now : Z) (txn : Transaction) (events : list ChangefeedEvent)
    (e : engine) : engine * Transaction :=
  let e1 := publish_all now events e in
  let e2 := set_active (active_transactions_ e1 ∖ {[ t_timestamp txn ]}) e1 in
  (set_stats count_commit e2, SetCommitted txn).

Definition Commit (now : Z) (txn : Transaction) (e : engine) : engine * Transaction * exc bool :=
  if negb (IsActive txn) then (e, txn, Ret false)
  else if decide (t_write_set txn = []) then
    let '(e1, txn1) := commit_finish now txn [] e in (e1, txn1, Ret true)
  else
    match commit_locked now txn e with
    | (e1, Throw what) => (e1, txn, Throw what)
    | (e1, Ret None) => (e1, txn, Ret false)
    | (e1, Ret (Some (events, durable))) =>
        if durable then let '(e2, txn2) := commit_finish now txn events e1 in (e2, txn2, Ret true)
        else (e1, txn, Ret false)
    end.

Definition Rollback (txn : Transaction) (e : engine) : engine * Transaction * bool :=
  if negb (IsActive txn) then (e, txn, false)
  else (set_stats count_abort (set_active (active_transactions_ e ∖ {[ t_timestamp txn ]}) e),
        SetAborted txn, true).

(** ** Recovery *)

(** One iteration of [RecoverFromWAL]; exceptions are caught and logged. *)
Definition recover_entry (now : Z) (e : engine) (entry : WALEntry) : engine :=
  match e_type entry with
  | CREATE_TABLE =>
      match DeserializeSchema (e_data entry) with
      | Throw _ => e
      | Ret schema =>
          match tables_ e !! sch_name schema with
          | Some _ => e
          | None =>
              set_stats (add_tables 1)
                (set_tables (<[sch_name schema := new_MemTable schema]> (tables_ e)) e)
          end
      end
  | DROP_TABLE => (DropTable (e_table entry) e).1
  | INSERT =>
      match GetTable (e_table entry) e with
      | None => e
      | Some t =>
          match DecodeRow (e_data entry) with
          | Throw _ => e
          | Ret row =>
              set_stats (add_rows 1)
                (set_tables (<[e_table entry := (MemTable.Insert t row).1]> (tables_ e)) e)
          end
      end
  | UPDATE =>
      match GetTable (e_table entry) e with
      | None => e
      | Some t =>
          match DecodeRow (e_data entry) with
          | Throw _ => e
          | Ret row =>
              set_tables (<[e_table entry := (MemTable.Update now t (e_key entry) row).1]>
                            (tables_ e)) e
          end
      end
  | DELETE =>
      match GetTable (e_table entry) e with
      | None => e
      | Some t =>
          set_stats (add_rows (-1))
            (set_tables (<[e_table entry := (MemTable.Delete t (e_key entry)).1]> (tables_ e)) e)
      end
  | _ => e
  end.

Definition RecoverFromWAL (now : Z) (e : engine) : engine :=
  fold_left (recover_entry now) (wal_ReadAll (wal_ e)) e.

(** ** Snapshots *)

Definition table_json (t : MemTable) : exc json :=
  schema_bytes ← SerializeSchema (schema_ t);
  rows ← exc_map (λ kr : string * Row, b ← SerializeRow kr.2; Ret (JString (bytes_str b)))
                 (map_iter (rows_ t));
  Ret (object_of {[ "schema" := JString (bytes_str schema_bytes); "rows" := JArray rows ]}).

(** [WriteSnapshot]; opening the temporary file, writing to its stream and
    renaming it succeed or not.  The stream buffers: [kept] is the length of what
    is in the file once it is closed, where that is not all; nobody looks. *)
Record snapshot_io := { open_ok : bool; write_ok : bool; kept : option nat; rename_ok : bool }.

Definition file_text (o : snapshot_io) (text : string) : string :=
  match kept o with None => text | Some n => String.substring 0 n text end.

(** From the tables to the file in its place: its text, or [None] where the
    method returns false. *)
Definition write_snapshot_file (o : snapshot_io) (last_sequence : Z) (ts : gmap string MemTable)
    : exc (option string) :=
  tables_json ← exc_map (λ nt : string * MemTable, table_json nt.2) (hash_iter ts);
  if negb (open_ok o) then Ret None
  else
    text ← dump (object_of {[ "last_sequence" := JInt last_sequence; "tables" := JArray tables_json ]});
    Ret (if write_ok o && rename_ok o then Some (file_text o text) else None).

Definition WriteSnapshot (o : snapshot_io) (e : engine) : engine * exc bool :=
  if decide (tables_ e = ∅) then (e, Ret true)
  else
    match write_snapshot_file o (wal_GetLastSequence (wal_ e)) (tables_ e) with
    | Throw what => (e, Throw what)
    | Ret None => (e, Ret false)
    | Ret (Some text) =>
        let e1 := set_snapshot (Some text) e in
        (set_wal (wal_Truncate (wal_GetLastSequence (wal_ e1)) (wal_ e1)).1 e1, Ret true)
    end.

(** [t.value("schema", "")]. *)
Definition schema_member (t : json) : exc string :=
  match t with
  | JObject fs => match field "schema" fs with Some v => as_string v | None => Ret "" end
  | _ => Throw "json: cannot use value() with this type"
  end.

Fixpoint load_rows (rows : list json) (t : MemTable) : exc MemTable :=
  match rows with
  | [] => Ret t
  | row_json :: rows =>
      row_str ← as_string row_json;
      row ← DeserializeRow (str_bytes row_str);
      load_rows rows (MemTable.Insert t row).1
  end.

Definition load_table (t : json) : exc (MemTable * Z) :=
  schema_str ← schema_member t;
  schema ← DeserializeSchema (str_bytes schema_str);
  rows ← member "rows" t;
  table ← load_rows (json_elements rows) (new_MemTable schema);
  Ret (table, zlength (json_elements rows)).

Fixpoint load_tables (ts : list json) (restored_rows : Z) (e : engine) : engine * exc Z :=
  match ts with
  | [] => (e, Ret restored_rows)
  | t :: ts =>
      match load_table t with
      | Throw what => (e, Throw what)
      | Ret (table, n) =>
          load_tables ts (u64 (restored_rows + n))
            (set_stats (add_tables 1)
               (set_tables (<[sch_name (schema_ table) := table]> (tables_ e)) e))
      end
  end.

Definition LoadSnapshotIfPresent (e : engine) : engine * exc bool :=
  match snapshot_ e with
  | None => (e, Ret true)
  | Some text =>
      match parse text with
      | None => (e, Ret true)
      | Some doc =>
          match json_field "tables" doc with
          | None => (e, Ret true)
          | Some tables =>
              match load_tables (json_elements tables) 0 e with
              | (e1, Throw what) => (e1, Throw what)
              | (e1, Ret n) => (set_stats (add_rows n) e1, Ret true)
              end
          end
      end
  end.

(** [Initialize] once the log is open. *)
Definition Initialize (now : Z) (e : engine) : engine * exc bool :=
  match LoadSnapshotIfPresent e with
  | (e1, Ret true) => (RecoverFromWAL now e1, Ret true)
  | r => r
  end.

Definition set_shutdown (e : engine) : engine :=
  {| tables_ := tables_ e; active_transactions_ := active_transactions_ e; wal_ := wal_ e;
     snapshot_ := snapshot_ e; next_txn_id_ := next_txn_id_ e;
     next_timestamp_ := next_timestamp_ e; stats_ := stats_ e;
     changefeed_engine_ := changefeed_engine_ e; shutdown_done_ := true |}.

(** [Shutdown], the checkpoint thread joined; the flush of the drained log
    changes nothing. *)
Definition Shutdown (o : snapshot_io) (e : engine) : engine * exc () :=
  if shutdown_done_ e then (e, Ret ())
  else match WriteSnapshot o (set_shutdown e) with
       | (e1, Throw what) => (e1, Throw what)
       | (e1, Ret _) => (set_tables ∅ e1, Ret ())
       end.

(** ** The checkpointer *)

Record CheckpointConfig := { checkpoint_wal_bytes : Z; checkpoint_interval_sec : Z }.

(** When the poll decides to write a snapshot; times in seconds. *)
Definition checkpoint_due (config : CheckpointConfig) (now last_checkpoint size last_size : Z)
    : bool :=
  (checkpoint_wal_bytes config <=? size)
  || ((0 <? checkpoint_interval_sec config)
      && (checkpoint_interval_sec config <=? now - last_checkpoint) && (last_size <? size)).

(** One wake-up of [CheckpointLoop]: the new [last_checkpoint], [last_size]. *)
Definition CheckpointLoop (config : CheckpointConfig) (o : snapshot_io) (now : Z)
    (last : Z * Z) (e : engine) : engine * exc (Z * Z) :=
  if checkpoint_due config now last.1 (wal_GetSize (wal_ e)) last.2 then
    match WriteSnapshot o e with
    | (e1, Throw what) => (e1, Throw what)
    | (e1, Ret true) => (e1, Ret (now, wal_GetSize (wal_ e1)))
    | (e1, Ret false) => (e1, Ret last)
    end
  else (e, Ret last).

(** ** Statistics and direct operations *)

Definition GetStats (e : engine) : Stats :=
  let s := stats_ e in
  {| total_tables := total_tables s; total_rows := total_rows s;
     total_bytes := u64 (fold_left (λ n nt, n + GetSizeBytes nt.2) (hash_iter (tables_ e)) 0);
     wal_size := wal_GetSize (wal_ e);
     transactions_committed := transactions_committed s;
     transactions_aborted := transactions_aborted s |}.

(** The pattern shared by the direct writes: begin, stage, commit. *)
Definition direct (now : Z) (stage : Transaction → Transaction * bool) (e : engine)
    : engine * exc bool :=
  let '(e1, txn) := BeginTransaction READ_COMMITTED e in
  let '(txn1, ok) := stage txn in
  if ok then let '(e2, _, r) := Commit now txn1 e1 in (e2, r)
  else let '(e2, _, _) := Rollback txn1 e1 in (e2, Ret false).

Definition Insert (now : Z) (table : string) (row : Row) (e : engine) : engine * exc bool :=
  direct now (λ txn, Txn.Insert txn table row) e.
Definition Update (now : Z) (table key : string) (row : Row) (e : engine) : engine * exc bool :=
  direct now (λ txn, Txn.Update txn table key row) e.
Definition Delete (now : Z) (table key : string) (e : engine) : engine * exc bool :=
  direct now (λ txn, Txn.Delete txn table key) e.

Definition Get (table key : string) (e : engine) : option Row :=
  t ← GetTable table e; MemTable.Get t key.

Definition Scan {S} (table start_key end_key : string)
    (callback : S → string → Row → S * bool) (s : S) (e : engine) : exc S :=
  match GetTable table e with
  | None => Ret s
  | Some t => MemTable.Scan t start_key end_key callback s
  end.
End storage.
