(* ===== verification/StorageCommit.v ===== *)
(** * What a commit does

    The commit path of the storage engine against an abstract store: a table is
    a map from keys to columns, a write either succeeds on it or does not, and a
    write set stops at its first failure.  [Commit] refines that specification;
    its events, its log entries and its statistics follow the writes. *)

From S2P Require Import Prelude Table Codec RowCodec Json MemTable Txn Wal WalWriter WalStore Changefeed StorageJson Storage.

(** ** The abstract store *)

Abbreviation columns := (gmap string Value).
Abbreviation store := (gmap string (gmap string columns)).

Definition view (t : MemTable) : gmap string columns := row_columns <$> rows_ t.
Definition views (ts : gmap string MemTable) : store := view <$> ts.

(** One write on one table; INSERT overwrites, UPDATE and DELETE need the key. *)
Definition spec_op (w : WriteOperation) (m : gmap string columns) : option (gmap string columns) :=
  let key := row_key (w_row w) in
  match w_op w with
  | WINSERT => Some (<[key := row_columns (w_row w)]> m)
  | WUPDATE => if decide (is_Some (m !! key)) then Some (<[key := row_columns (w_row w)]> m) else None
  | WDELETE => if decide (is_Some (m !! key)) then Some (delete key m) else None
  end.

Definition spec_write (w : WriteOperation) (st : store) : option store :=
  m ← st !! w_table w;
  m' ← spec_op w m;
  Some (<[w_table w := m']> st).

(** A write set: the store after the writes that succeeded, and whether all did. *)
Fixpoint spec_writes (ws : list WriteOperation) (st : store) : store * bool :=
  match ws with
  | [] => (st, true)
  | w :: ws =>
      match spec_write w st with
      | Some st' => spec_writes ws st'
      | None => (st, false)
      end
  end.

(** ** Tables refine the abstract tables *)

Lemma view_lookup t k : view t !! k = row_columns <$> rows_ t !! k.
Proof. unfold view. by rewrite lookup_fmap. Qed.

Lemma Insert_view t row :
  match rows_ t !! row_key row with
  | Some _ => MemTable.Insert t row = (t, false)
  | None => (MemTable.Insert t row).2 = true
            ∧ view (MemTable.Insert t row).1 = <[row_key row := row_columns row]> (view t)
  end.
Proof.
  unfold MemTable.Insert. destruct (rows_ t !! row_key row); [done|]. split; [done|].
  unfold view. simpl. by rewrite fmap_insert.
Qed.

Lemma Update_view now t k row :
  match rows_ t !! k with
  | None => MemTable.Update now t k row = (t, false)
  | Some _ => (MemTable.Update now t k row).2 = true
              ∧ view (MemTable.Update now t k row).1 = <[k := row_columns row]> (view t)
  end.
Proof.
  unfold MemTable.Update. destruct (rows_ t !! k); [|done]. split; [done|].
  unfold view. simpl. by rewrite fmap_insert.
Qed.

Lemma Delete_view t k :
  match rows_ t !! k with
  | None => MemTable.Delete t k = (t, false)
  | Some _ => (MemTable.Delete t k).2 = true ∧ view (MemTable.Delete t k).1 = delete k (view t)
  end.
Proof.
  unfold MemTable.Delete. destruct (rows_ t !! k); [|done]. split; [done|].
  unfold view. simpl. by rewrite fmap_delete.
Qed.

(** The number of rows a successful write adds. *)
Definition rows_added (w : WriteOperation) (m : gmap string columns) : Z :=
  match w_op w with
  | WINSERT => if decide (is_Some (m !! row_key (w_row w))) then 0 else 1
  | WUPDATE => 0
  | WDELETE => -1
  end.

Lemma apply_op_spec now w t :
  let '(t', old, n, ok) := apply_op now w t in
  match spec_op w (view t) with
  | Some m => ok = true ∧ view t' = m ∧ old = rows_ t !! row_key (w_row w)
              ∧ n = rows_added w (view t)
  | None => ok = false ∧ t' = t ∧ n = 0
  end.
Proof.
  unfold apply_op, spec_op, rows_added. set (k := row_key (w_row w)).
  destruct (w_op w).
  - pose proof (Insert_view t (w_row w)) as Hi. fold k in Hi. rewrite view_lookup.
    destruct (rows_ t !! k) as [old|] eqn:Hk.
    + rewrite Hi. unfold MemTable.Get. rewrite Hk.
      pose proof (Update_view now t k (w_row w)) as Hu. rewrite Hk in Hu.
      destruct (MemTable.Update now t k (w_row w)) as [t2 ok2]. simpl in *.
      by destruct Hu as [-> ->].
    + destruct (MemTable.Insert t (w_row w)) as [t1 ok]. simpl in *.
      by destruct Hi as [-> ->].
  - pose proof (Update_view now t k (w_row w)) as Hu. unfold MemTable.Get. rewrite view_lookup.
    destruct (rows_ t !! k) as [old|] eqn:Hk.
    + rewrite decide_True by by eexists.
      destruct (MemTable.Update now t k (w_row w)) as [t2 ok2]. simpl in *. by destruct Hu.
    + rewrite decide_False by by intros [? ?]. by rewrite Hu.
  - pose proof (Delete_view t k) as Hd. unfold MemTable.Get. rewrite view_lookup.
    destruct (rows_ t !! k) as [old|] eqn:Hk.
    + rewrite decide_True by by eexists.
      destruct (MemTable.Delete t k) as [t2 ok2]. simpl in *. by destruct Hd as [-> ->].
    + rewrite decide_False by by intros [? ?]. by rewrite Hd.
Qed.

Section commit.
Context {W : Type} `{WA : WalApi W} `{JL : JsonLib} `{HO : HashOrder}.
Abbreviation engine := (StorageEngine W).

(** What a write leaves alone. *)
Definition same_outside (e e' : engine) : Prop :=
  active_transactions_ e' = active_transactions_ e ∧ wal_ e' = wal_ e
  ∧ snapshot_ e' = snapshot_ e ∧ changefeed_engine_ e' = changefeed_engine_ e
  ∧ next_txn_id_ e' = next_txn_id_ e ∧ next_timestamp_ e' = next_timestamp_ e.

Lemma same_outside_refl e : same_outside e e.
Proof. done. Qed.
Lemma same_outside_trans e1 e2 e3 :
  same_outside e1 e2 → same_outside e2 e3 → same_outside e1 e3.
Proof. unfold same_outside. intuition congruence. Qed.

(** The event a write is reported with. *)
Definition event_of (txn : Transaction) (w : WriteOperation) (ev : ChangefeedEvent) : Prop :=
  ev_table ev = w_table w ∧ ev_operation ev = op_name (w_op w)
  ∧ ev_key ev = str_bytes (row_key (w_row w))
  ∧ ev_transaction_id ev = pretty (t_timestamp txn)
  ∧ (if decide (w_op w = WDELETE) then ev_new_value ev = []
     else SerializeRow (w_row w) = Ret (ev_new_value ev)).

Lemma write_event_of now txn w old ev :
  write_event now txn w old = Ret ev → event_of txn w ev.
Proof.
  unfold write_event, event_of. destruct (decide (w_op w = WDELETE)); simpl.
  - destruct old as [r|]; [destruct (SerializeRow r)|]; intros; by simplify_eq/=.
  - destruct (SerializeRow (w_row w)) as [b|]; simpl; [|done].
    destruct old as [r|]; [destruct (SerializeRow r)|]; intros; by simplify_eq/=.
Qed.

Definition reported (c : option Changefeed) (txn : Transaction) (w : WriteOperation)
    (ev : option ChangefeedEvent) : Prop :=
  match c, ev with
  | None, None => True
  | Some _, Some ev => event_of txn w ev
  | _, _ => False
  end.

Lemma apply_write_spec now txn w e e' r :
  apply_write now txn w e = (e', Ret r) →
  same_outside e e' ∧
  match spec_write w (views (tables_ e)) with
  | Some st => ∃ ev, r = Some (write_entry txn w, ev) ∧ views (tables_ e') = st
                     ∧ reported (changefeed_engine_ e) txn w ev
  | None => r = None ∧ views (tables_ e') = views (tables_ e)
  end.
Proof.
  unfold apply_write, spec_write, views. rewrite lookup_fmap.
  destruct (tables_ e !! w_table w) as [t|] eqn:Ht; simpl; [|by intros [= <- <-]].
  pose proof (apply_op_spec now w t) as Hop.
  destruct (apply_op now w t) as [[[t' old] n] ok].
  destruct (spec_op w (view t)) as [m|]; simpl.
  - destruct Hop as (-> & Hm & Hold & _). simpl.
    destruct (changefeed_engine_ e) as [c|] eqn:Hc.
    + destruct (write_event now txn w old) as [ev|] eqn:Hev; simpl; [|done].
      intros [= <- <-]. split; [done|]. exists (Some ev). simpl.
      rewrite fmap_insert, Hm. split_and!; try done. by eapply write_event_of.
    + intros [= <- <-]. split; [done|]. exists None. simpl. by rewrite fmap_insert, Hm.
  - destruct Hop as (-> & -> & _). simpl. intros [= <- <-]. split; [done|]. split; [done|].
    simpl. by rewrite insert_id.
Qed.

Lemma apply_writes_spec now txn ws : ∀ entries events e e' r,
  apply_writes now txn ws entries events e = (e', Ret r) →
  same_outside e e' ∧
  views (tables_ e') = (spec_writes ws (views (tables_ e))).1 ∧
  if (spec_writes ws (views (tables_ e))).2
  then ∃ evs, r = Some (entries ++ (write_entry txn <$> ws), events ++ evs) ∧
         match changefeed_engine_ e with
         | None => evs = []
         | Some _ => Forall2 (event_of txn) ws evs
         end
  else r = None.
Proof.
  induction ws as [|w ws IH]; intros entries events e e' r; simpl.
  - intros [= <- <-]. split_and!; try done. exists []. rewrite !app_nil_r.
    split; [done|]. destruct (changefeed_engine_ e); [constructor|done].
  - destruct (apply_write now txn w e) as [e1 [r1|what]] eqn:Hw; [|done].
    destruct (apply_write_spec _ _ _ _ _ _ Hw) as [Hout Hspec].
    destruct (spec_write w (views (tables_ e))) as [st|].
    + destruct Hspec as (ev & -> & Hst & Hrep). intros Happ.
      apply IH in Happ as (Hout' & Hv & Hr). rewrite Hst in Hv, Hr.
      split; [by eapply same_outside_trans|]. split; [done|].
      destruct (spec_writes ws st).2; [|done]. destruct Hr as (evs & -> & Hevs).
      exists (option_list ev ++ evs). rewrite <- !app_assoc. split; [done|].
      destruct Hout as (_ & _ & _ & Hc & _). rewrite Hc in Hevs.
      destruct (changefeed_engine_ e), ev; try done; simpl; try by constructor.
    + destruct Hspec as [-> Hv]. intros [= <- <-]. split_and!; try done.
Qed.

(** C2. [Commit] refines the abstract store. For an active transaction and
    whatever the call returns: the tables hold exactly the effect of the writes
    up to the first one that fails; it returns true only if every write
    succeeded, and then the transaction is committed and no longer active; if
    one failed it returns false with log, changefeed, transaction and the set
    of active transactions untouched; if none failed the log got the whole
    write set as one batch, in order, and its answer is the result. *)
Theorem Commit_refines now txn e e' txn' b :
  t_state txn = ACTIVE →
  Commit now txn e = (e', txn', Ret b) →
  let '(st, all_ok) := spec_writes (t_write_set txn) (views (tables_ e)) in
  views (tables_ e') = st
  ∧ (b = true → all_ok = true ∧ t_state txn' = COMMITTED
                ∧ t_timestamp txn ∉ active_transactions_ e')
  ∧ (all_ok = false → b = false ∧ txn' = txn ∧ same_outside e e')
  ∧ (all_ok = true → t_write_set txn ≠ [] →
       (wal_ e', b) = wal_append (write_entry txn <$> t_write_set txn) (wal_ e)).
Proof.
  intros Ha. unfold Commit, IsActive. rewrite bool_decide_eq_true_2 by done. simpl.
  case_decide as Hws.
  { rewrite Hws. simpl. intros [= <- <- <-]. simpl. split_and!; try done.
    intros _. split_and!; [done|done|set_solver]. }
  destruct (commit_locked now txn e) as [e1 [r|what]] eqn:Hl; [|done].
  unfold commit_locked in Hl.
  destruct (apply_writes now txn (t_write_set txn) [] [] e) as [e2 [r2|what]] eqn:Hw;
    [|done].
  apply apply_writes_spec in Hw as (Hout & Hv & Hr).
  destruct (spec_writes (t_write_set txn) (views (tables_ e))) as [st ok]. simpl in Hv, Hr.
  destruct ok.
  - destruct Hr as (evs & -> & _). simpl in Hl.
    assert (wal_ e2 = wal_ e) as Hwal by apply Hout. rewrite Hwal in Hl.
    destruct (wal_append _ (wal_ e)) as [w' durable] eqn:Hwa. simplify_eq.
    destruct durable; intros [= <- <- <-]; simpl; split_and!; try done.
    intros _. split_and!; [done|done|set_solver].
  - subst r2. simplify_eq. intros [= <- <- <-]. by split_and!.
Qed.

(** ** Events *)

Lemma PublishEvent_published now ev c :
  ∃ o, cf_published (PublishEvent now ev c) = cf_published c ++ [stamp now o ev].
Proof.
  unfold PublishEvent. destruct (notify_fields {|
    cf_config := cf_config c; running_ := running_ c; pool_ := pool_ c;
     events_ := events_ c ++ [stamp now (Changefeed.next_offset_ c) ev];
     all_events_ := trim (max_lag_entries (cf_config c))
       (all_events_ c ++ [stamp now (Changefeed.next_offset_ c) ev]);
     next_offset_ := u64 (Changefeed.next_offset_ c + 1); subscriptions_ := subscriptions_ c;
     next_subscription_id_ := next_subscription_id_ c; callbacks_ := callbacks_ c;
     delivered_ := delivered_ c; delivery_pc := delivery_pc c; cf_log := cf_log c;
     cf_published := cf_published c ++ [stamp now (Changefeed.next_offset_ c) ev] |})
    as [-> _]. by eexists.
Qed.

(** Publishing several events appends them, stamped, in order. *)
Lemma publish_fold now evs c :
  ∃ evs', cf_published (fold_left (λ c ev, PublishEvent now ev c) evs c) = cf_published c ++ evs'
          ∧ Forall2 (λ ev ev', ∃ o, ev' = stamp now o ev) evs evs'.
Proof.
  revert c. induction evs as [|ev evs IH]; intros c; simpl.
  - exists []. by rewrite app_nil_r.
  - destruct (PublishEvent_published now ev c) as [o Ho].
    destruct (IH (PublishEvent now ev c)) as (evs' & -> & Hevs').
    exists (stamp now o ev :: evs'). rewrite Ho, <- app_assoc. split; [done|].
    constructor; [by eexists|done].
Qed.

Lemma stamped_event_of now txn ws evs evs' :
  Forall2 (event_of txn) ws evs → Forall2 (λ ev ev', ∃ o, ev' = stamp now o ev) evs evs' →
  Forall2 (event_of txn) ws evs'.
Proof.
  intros H. revert evs'. induction H as [|w ev ws evs Hev _ IH]; intros evs'.
  - intros ->%Forall2_nil_inv_l. constructor.
  - intros (ev' & evs1 & [o ->] & Hs & ->)%Forall2_cons_inv_l. constructor; [done|by apply IH].
Qed.

(** Tables and changefeed after a commit that returned. *)
Lemma Commit_outcome now txn e e' txn' b :
  t_state txn = ACTIVE → Commit now txn e = (e', txn', Ret b) →
  views (tables_ e') = (spec_writes (t_write_set txn) (views (tables_ e))).1 ∧
  (b = true → (spec_writes (t_write_set txn) (views (tables_ e))).2 = true) ∧
  match changefeed_engine_ e with
  | None => changefeed_engine_ e' = None
  | Some c => ∃ c' evs, changefeed_engine_ e' = Some c' ∧ cf_published c' = cf_published c ++ evs
                        ∧ if b then Forall2 (event_of txn) (t_write_set txn) evs else c' = c
  end.
Proof.
  intros Ha Hcommit. unfold Commit, IsActive in Hcommit. rewrite bool_decide_eq_true_2 in Hcommit by done.
  simpl in Hcommit. case_decide as Hws.
  { simpl in Hcommit. simplify_eq. simpl. rewrite Hws. split_and!; [done..|].
    destruct (changefeed_engine_ e) as [c|]; [|done]. simpl. exists c, [].
    rewrite app_nil_r. split_and!; [done|done|constructor]. }
  destruct (commit_locked now txn e) as [e1 [r|what]] eqn:Hl; [|done].
  unfold commit_locked in Hl.
  destruct (apply_writes now txn (t_write_set txn) [] [] e) as [e2 [r2|what]] eqn:Hw; [|done].
  apply apply_writes_spec in Hw as (Hout & Hv & Hr).
  assert (changefeed_engine_ e2 = changefeed_engine_ e) as Hc by apply Hout.
  assert (Hsame : ∀ c, changefeed_engine_ e = Some c →
    ∃ c' evs, changefeed_engine_ e2 = Some c' ∧ cf_published c' = cf_published c ++ evs ∧ c' = c).
  { intros c Hce. exists c, []. rewrite Hc, app_nil_r. done. }
  destruct (spec_writes (t_write_set txn) (views (tables_ e))) as [st ok]. simpl in Hv, Hr. destruct ok.
  - destruct Hr as (evs & -> & Hevs). simpl in Hl.
    destruct (wal_append _ (wal_ e2)) as [w' durable]. simplify_eq.
    destruct durable; unfold commit_finish in Hcommit; simplify_eq; cbn.
    + split_and!; [done..|]. rewrite Hc. destruct (changefeed_engine_ e) as [c|]; [|done]. cbn.
      destruct (publish_fold now evs c) as (evs' & Hp & Hs).
      eexists _, evs'. split_and!; [done|exact Hp|by eapply stamped_event_of].
    + split_and!; [done..|]. destruct (changefeed_engine_ e) as [c|]; [by apply Hsame|done].
  - subst r2. simplify_eq. split_and!; [done..|].
    destruct (changefeed_engine_ e') as [c|] eqn:E; rewrite <- Hc; [|done]. by apply Hsame.
Qed.

(** One event per committed write: a commit that returns true publishes
    exactly one changefeed event per staged write, in the order of the writes,
    each with its table, operation, key and serialised new row; a commit that
    returns false publishes nothing. *)
Theorem Commit_events now txn e e' txn' b c :
  Commit now txn e = (e', txn', Ret b) →
  changefeed_engine_ e = Some c →
  if b then
    ∃ c' evs, changefeed_engine_ e' = Some c' ∧ cf_published c' = cf_published c ++ evs
              ∧ Forall2 (event_of txn) (t_write_set txn) evs
  else changefeed_engine_ e' = Some c.
Proof.
  intros Hcommit Hc. destruct (decide (t_state txn = ACTIVE)) as [Ha|Ha].
  - destruct (Commit_outcome _ _ _ _ _ _ Ha Hcommit) as (_ & _ & H). rewrite Hc in H.
    destruct H as (c' & evs & He' & Hp & H). destruct b; [by exists c', evs|by subst].
  - unfold Commit, IsActive in Hcommit. rewrite bool_decide_eq_false_2 in Hcommit by done.
    simpl in Hcommit. by simplify_eq.
Qed.
End commit.

(** ** The row counter *)

Definition row_total (ts : gmap string MemTable) : Z := map_fold (λ _ t n, GetRowCount t + n) 0 ts.

Lemma row_total_insert ts k t :
  ts !! k = None → row_total (<[k := t]> ts) = GetRowCount t + row_total ts.
Proof. intros H. unfold row_total. rewrite map_fold_insert_L; [done|intros; lia|done]. Qed.

Lemma row_total_delete ts k t :
  ts !! k = Some t → row_total (delete k ts) = row_total ts - GetRowCount t.
Proof.
  intros H. unfold row_total at 2. rewrite (map_fold_delete_L _ _ k t ts); [|intros; lia|done].
  fold (row_total (delete k ts)). lia.
Qed.

Lemma row_total_update ts k t t' :
  ts !! k = Some t →
  row_total (<[k := t']> ts) = row_total ts + (GetRowCount t' - GetRowCount t).
Proof.
  intros H. rewrite <- insert_delete_eq, row_total_insert by apply lookup_delete_eq.
  rewrite (row_total_delete ts k t) by done. lia.
Qed.

Lemma GetRowCount_view t : GetRowCount t = Z.of_nat (size (view t)).
Proof. unfold GetRowCount, view. by rewrite map_size_fmap. Qed.

Lemma spec_op_size w m m' :
  spec_op w m = Some m' → Z.of_nat (size m') = Z.of_nat (size m) + rows_added w m.
Proof.
  unfold spec_op, rows_added. destruct (w_op w); repeat case_decide; intros; simplify_eq.
  - destruct H as [x Hx]. rewrite map_size_insert_Some by by eexists. lia.
  - rewrite map_size_insert_None by by apply eq_None_not_Some. lia.
  - rewrite map_size_insert_Some by done. lia.
  - rewrite map_size_delete_Some by done. destruct H as [x Hx].
    assert (size m ≠ 0%nat) by (intros ->%map_size_empty_inv; by rewrite lookup_empty in Hx). lia.
Qed.

Lemma apply_op_rows now w t :
  let '(t', _, n, _) := apply_op now w t in GetRowCount t' = GetRowCount t + n.
Proof.
  pose proof (apply_op_spec now w t) as H. destruct (apply_op now w t) as [[[t' old] n] ok].
  destruct (spec_op w (view t)) as [m|] eqn:Hm.
  - destruct H as (_ & Hv & _ & ->). rewrite !GetRowCount_view, Hv. by apply spec_op_size.
  - destruct H as (_ & -> & ->). lia.
Qed.

Section row_counter.
Context {W : Type} `{WA : WalApi W} `{JL : JsonLib} `{HO : HashOrder}.
Abbreviation engine := (StorageEngine W).

Definition rows_exact (e : engine) : Prop := total_rows (stats_ e) = u64 (row_total (tables_ e)).

Lemma rows_exact_step e e' n :
  rows_exact e → total_rows (stats_ e') = u64 (total_rows (stats_ e) + n) →
  row_total (tables_ e') = row_total (tables_ e) + n → rows_exact e'.
Proof. unfold rows_exact. intros H -> ->. by rewrite H, u64_add_l. Qed.

Lemma rows_exact_same e e' :
  rows_exact e → total_rows (stats_ e') = total_rows (stats_ e) →
  tables_ e' = tables_ e → rows_exact e'.
Proof. unfold rows_exact. by intros H -> ->. Qed.

Lemma rows_exact_write now txn w e : rows_exact e → rows_exact (apply_write now txn w e).1.
Proof.
  intros He. unfold apply_write. destruct (tables_ e !! w_table w) as [t|] eqn:Ht; [|done].
  pose proof (apply_op_rows now w t) as Hn. destruct (apply_op now w t) as [[[t' old] n] ok].
  assert (rows_exact (set_stats (add_rows n) (set_tables (<[w_table w:=t']> (tables_ e)) e))).
  { apply (rows_exact_step e _ n); [done|done|]. simpl.
    rewrite (row_total_update _ _ t) by done. lia. }
  destruct (negb ok); [done|]. by destruct (changefeed_engine_ e).
Qed.

Lemma rows_exact_writes now txn ws : ∀ entries events e,
  rows_exact e → rows_exact (apply_writes now txn ws entries events e).1.
Proof.
  induction ws as [|w ws IH]; intros entries events e He; simpl; [done|].
  pose proof (rows_exact_write now txn w e He) as H1.
  destruct (apply_write now txn w e) as [e1 [[[entry ev]|]|what]]; simpl in *; auto.
Qed.

(** The row counter is exact: [total_rows] equals the number of rows in
    all tables (modulo 2^64) initially, and every operation keeps it so on every
    branch: creating and dropping tables, beginning, rolling back, and a commit
    that succeeds, fails half-way or throws. *)
Theorem total_rows_exact e :
  (∀ wal snap, rows_exact (new_StorageEngine wal snap)) ∧
  (rows_exact e →
   (∀ schema, rows_exact (CreateTable schema e).1) ∧
   (∀ name, rows_exact (DropTable name e).1) ∧
   (∀ level, rows_exact (BeginTransaction level e).1) ∧
   (∀ txn, rows_exact (Rollback txn e).1.1) ∧
   (∀ now txn, rows_exact (Commit now txn e).1.1)).
Proof.
  split; [done|]. intros He. split_and!.
  - intros schema. unfold CreateTable.
    destruct (tables_ e !! sch_name schema) eqn:Hn; [done|].
    assert (row_total (<[sch_name schema := new_MemTable schema]> (tables_ e))
            = row_total (tables_ e)) as Ht by by rewrite row_total_insert.
    destruct (SerializeSchema schema); unfold rows_exact; simpl; by rewrite Ht.
  - intros name. unfold DropTable. destruct (tables_ e !! name) as [t|] eqn:Hn; [|done].
    apply (rows_exact_step e _ (- GetRowCount t)); [done|done|]. simpl.
    rewrite (row_total_delete _ _ t) by done. lia.
  - done.
  - intros txn. unfold Rollback. by destruct (negb (IsActive txn)).
  - intros now txn. unfold Commit. destruct (negb (IsActive txn)); [done|].
    case_decide; [by apply (rows_exact_same e)|].
    unfold commit_locked.
    pose proof (rows_exact_writes now txn (t_write_set txn) [] [] e He) as H1.
    destruct (apply_writes now txn (t_write_set txn) [] [] e) as [e1 [[[es evs]|]|what]];
      simpl in *; [|done|done].
    destruct (wal_append es (wal_ e1)) as [w' []]; simpl; by apply (rows_exact_same e1).
Qed.
End row_counter.

(** ** Concrete commits *)

#[local] Existing Instance std_json.
#[local] Existing Instance std_order.

Module Demo.
#[export] Instance wal : WalApi WalHost := host_api SyncFsync.

Definition schema : TableSchema :=
  {| sch_name := "users";
     sch_columns := [{| col_name := "id"; col_type := STRING; nullable := false;
                        is_primary_key := true; default_value := DefNone |}];
     primary_key := ["id"]; sch_options := ∅ |}.
Definition row (key : string) (n : Z) : Row := mkRow key {[ "n" := VInt64 n ]}.
Definition write (op : WriteOp) (key : string) (n : Z) : WriteOperation :=
  {| w_op := op; w_table := "users"; w_row := row key n |}.

(** The table "users", empty, with a changefeed. *)
Definition engine0 : StorageEngine WalHost :=
  SetChangefeedEngine (Some (new_Changefeed demo_config))
    (CreateTable schema (new_StorageEngine (new_host [] 100) None)).1.

Definition txn (ws : list WriteOperation) : Transaction :=
  {| t_id := 1; t_timestamp := 1; t_level := READ_COMMITTED; t_state := ACTIVE;
     t_read_only := false; t_write_set := ws |}.

(** Two rows committed. *)
Definition writes1 : list WriteOperation := [write WINSERT "a" 1; write WINSERT "b" 2].
Definition engine1 : StorageEngine WalHost := (Commit 7 (txn writes1) engine0).1.1.

(** A write set whose second write has no row to update. *)
Definition writes2 : list WriteOperation := [write WUPDATE "a" 5; write WUPDATE "zzz" 6].
Definition engine2 : StorageEngine WalHost := (Commit 8 (txn writes2) engine1).1.1.
End Demo.
Import Demo.

Lemma Commit_refines_witness :
  let '(st, all_ok) := spec_writes writes1 (views (tables_ engine0)) in
  views (tables_ engine1) = st ∧ all_ok = true ∧ 1 ∉ active_transactions_ engine1.
Proof.
  assert (Commit 7 (txn writes1) engine0 = (engine1, SetCommitted (txn writes1), Ret true)) as Hc
    by (vm_compute; reflexivity).
  pose proof (Commit_refines 7 (txn writes1) engine0 engine1 (SetCommitted (txn writes1)) true
                eq_refl Hc) as H.
  change (t_write_set (txn writes1)) with writes1 in H.
  destruct (spec_writes writes1 (views (tables_ engine0))) as [st ok].
  destruct H as (H1 & H2 & _). destruct (H2 eq_refl) as (H3 & _ & H4).
  split; [exact H1|]. split; [exact H3|exact H4].
Defined.

Lemma Commit_events_witness :
  ∃ c' evs, changefeed_engine_ engine1 = Some c' ∧ cf_published c' = [] ++ evs
            ∧ Forall2 (event_of (txn writes1)) writes1 evs.
Proof.
  apply (Commit_events 7 (txn writes1) engine0 engine1 (SetCommitted (txn writes1)) true
           (new_Changefeed demo_config)); vm_compute; reflexivity.
Defined.

Lemma total_rows_exact_witness : rows_exact (Commit 7 (txn writes1) engine0).1.1.
Proof. by apply (total_rows_exact engine0). Defined.

(** A commit that fails at its second write leaves the first one's effect in the
    table, though nothing reaches the log or the changefeed and the call returns
    false; the transaction stays active. *)
Theorem failed_commit_applies_prefix :
  let '(e', txn', r) := Commit 8 (txn writes2) engine1 in
  r = Ret false ∧ t_state txn' = ACTIVE
  ∧ Get "users" "a" engine1 = Some (row "a" 1)
  ∧ row_columns <$> Get "users" "a" e' = Some {[ "n" := VInt64 5 ]}
  ∧ wal_ReadAll (wal_ e') = wal_ReadAll (wal_ engine1)
  ∧ changefeed_engine_ e' = changefeed_engine_ engine1.
Proof. vm_compute. repeat split. Qed.

(** Two commits to one key whose locked parts run in one order and whose
    publications run in the other: the changefeed offsets contradict the order of
    the log. *)
Theorem events_can_contradict_log_order :
  let ta := txn [write WUPDATE "a" 10] in
  let tb := txn [write WUPDATE "a" 20] in
  let '(e1, ra) := commit_locked 8 ta engine1 in
  let '(e2, rb) := commit_locked 9 tb e1 in
  match ra, rb with
  | Ret (Some (evs_a, true)), Ret (Some (evs_b, true)) =>
      let e3 := (commit_finish 10 tb evs_b e2).1 in
      let e4 := (commit_finish 11 ta evs_a e3).1 in
      row_columns <$> Get "users" "a" e4 = Some {[ "n" := VInt64 20 ]}
      ∧ (ev_new_value <$> last (cf_published (default (new_Changefeed demo_config)
                                                (changefeed_engine_ e4))))
        = match SerializeRow (row "a" 10) with Ret b => Some b | Throw _ => None end
  | _, _ => False
  end.
Proof. vm_compute. split; reflexivity. Qed.
