(* ===== verification/StorageRecovery.v ===== *)
(** * Recovery and snapshots

    What [RecoverFromWAL] rebuilds, as a function on the abstract store of
    StorageCommit.v; that a run of the engine can be recovered from its log; and
    what a snapshot preserves. *)

From stdpp Require Import relations.
From S2P Require Import Prelude Table Codec RowCodec Json MemTable Txn Wal WalWriter WalStore Changefeed StorageJson Storage StorageCommit.

(** ** Replaying the log on the abstract store *)

Section recovery.
Context {W : Type} `{WA : WalApi W} `{JL : JsonLib} `{HO : HashOrder}.
Abbreviation engine := (StorageEngine W).

Definition spec_entry (st : store) (entry : WALEntry) : store :=
  match e_type entry with
  | CREATE_TABLE =>
      match DeserializeSchema (e_data entry) with
      | Throw _ => st
      | Ret schema =>
          match st !! sch_name schema with
          | Some _ => st
          | None => <[sch_name schema := ∅]> st
          end
      end
  | DROP_TABLE => delete (e_table entry) st
  | INSERT =>
      match st !! e_table entry, DecodeRow (e_data entry) with
      | Some m, Ret row =>
          if decide (is_Some (m !! row_key row)) then st
          else <[e_table entry := <[row_key row := row_columns row]> m]> st
      | _, _ => st
      end
  | UPDATE =>
      match st !! e_table entry, DecodeRow (e_data entry) with
      | Some m, Ret row =>
          if decide (is_Some (m !! e_key entry))
          then <[e_table entry := <[e_key entry := row_columns row]> m]> st
          else st
      | _, _ => st
      end
  | DELETE =>
      match st !! e_table entry with
      | Some m => <[e_table entry := delete (e_key entry) m]> st
      | None => st
      end
  | _ => st
  end.

Lemma views_lookup ts k : views ts !! k = view <$> ts !! k.
Proof. unfold views. by rewrite lookup_fmap. Qed.

Lemma views_insert ts k t : views (<[k := t]> ts) = <[k := view t]> (views ts).
Proof. unfold views. by rewrite fmap_insert. Qed.

Lemma DropTable_tables name (e : engine) : tables_ (DropTable name e).1 = delete name (tables_ e).
Proof.
  unfold DropTable. destruct (tables_ e !! name) eqn:H; [done|]. simpl. by rewrite delete_id.
Qed.

Lemma recover_entry_spec now (e : engine) entry :
  views (tables_ (recover_entry now e entry)) = spec_entry (views (tables_ e)) entry.
Proof.
  unfold recover_entry, spec_entry, GetTable.
  destruct (e_type entry); rewrite ?views_lookup; try done.
  - destruct (DeserializeSchema (e_data entry)) as [schema|]; [|done].
    rewrite views_lookup. destruct (tables_ e !! sch_name schema); [done|]. simpl.
    rewrite views_insert. unfold view. simpl. by rewrite fmap_empty.
  - rewrite DropTable_tables. unfold views. by rewrite fmap_delete.
  - destruct (tables_ e !! e_table entry) as [t|] eqn:Ht; [|done]. simpl.
    destruct (DecodeRow (e_data entry)) as [row|]; [|done]. simpl.
    rewrite views_insert. pose proof (Insert_view t row) as Hi. rewrite view_lookup.
    destruct (rows_ t !! row_key row) eqn:Hk; simpl.
    + rewrite Hi. simpl. rewrite insert_id; [done|]. by rewrite views_lookup, Ht.
    + by destruct Hi as [_ ->].
  - destruct (tables_ e !! e_table entry) as [t|] eqn:Ht; [|done]. simpl.
    destruct (DecodeRow (e_data entry)) as [row|]; [|done]. simpl.
    rewrite views_insert. pose proof (Update_view now t (e_key entry) row) as Hu.
    rewrite view_lookup. destruct (rows_ t !! e_key entry) eqn:Hk; simpl.
    + by destruct Hu as [_ ->].
    + rewrite Hu. simpl. rewrite insert_id; [done|]. by rewrite views_lookup, Ht.
  - destruct (tables_ e !! e_table entry) as [t|] eqn:Ht; [|done]. simpl.
    rewrite views_insert. pose proof (Delete_view t (e_key entry)) as Hd.
    destruct (rows_ t !! e_key entry) eqn:Hk.
    + by destruct Hd as [_ ->].
    + rewrite Hd. simpl. rewrite delete_id; [done|]. by rewrite view_lookup, Hk.
Qed.

Lemma recover_fold now entries : ∀ e : engine,
  views (tables_ (fold_left (recover_entry now) entries e))
  = fold_left spec_entry entries (views (tables_ e)).
Proof.
  induction entries as [|en entries IH]; intros e; [done|]. simpl.
  by rewrite IH, recover_entry_spec.
Qed.

(** [RecoverFromWAL] computes exactly the replay of the log on the
    abstract store, whatever the log contains: malformed payloads, unknown
    tables and entry types, inserts of present keys and updates of absent ones
    are skipped, everything else takes effect in log order. *)
Theorem RecoverFromWAL_refines now (e : engine) :
  views (tables_ (RecoverFromWAL now e))
  = fold_left spec_entry (wal_ReadAll (wal_ e)) (views (tables_ e)).
Proof. apply recover_fold. Qed.

(** ** A run can be recovered *)

Lemma spec_entry_same st en en' : same_write en en' → spec_entry st en' = spec_entry st en.
Proof. unfold same_write, spec_entry. intros (-> & _ & -> & -> & ->). done. Qed.

Lemma fold_same entries entries' st :
  Forall2 same_write entries entries' →
  fold_left spec_entry entries' st = fold_left spec_entry entries st.
Proof.
  intros H. revert st. induction H as [|en en' l l' He _ IH]; intros st; [done|]. simpl.
  by rewrite (spec_entry_same _ _ _ He).
Qed.

Lemma DecodeRow_EncodeRow_nil row :
  row_wf row → DecodeRow (EncodeRow row) = Ret (mkRow (row_key row) (row_columns row)).
Proof.
  intros H. unfold DecodeRow. rewrite <- (app_nil_r (EncodeRow row)).
  by rewrite ReadRow_EncodeRow.
Qed.

(** A staged insert whose key is absent when its turn comes. *)
Definition fresh_insert (w : WriteOperation) (st : store) : Prop :=
  match w_op w, st !! w_table w with
  | WINSERT, Some m => m !! row_key (w_row w) = None
  | _, _ => True
  end.

Fixpoint fresh_inserts (ws : list WriteOperation) (st : store) : Prop :=
  match ws with
  | [] => True
  | w :: ws =>
      fresh_insert w st ∧
      match spec_write w st with Some st' => fresh_inserts ws st' | None => True end
  end.

#[export] Instance fresh_inserts_dec ws st : Decision (fresh_inserts ws st).
Proof.
  revert st. induction ws as [|w ws IH]; intros st; simpl; [apply _|].
  apply and_dec; [unfold fresh_insert; destruct (w_op w), (st !! w_table w); apply _|].
  destruct (spec_write w st); [apply IH|apply _].
Defined.

Lemma spec_entry_write txn w st st' :
  spec_write w st = Some st' → fresh_insert w st → row_wf (w_row w) →
  spec_entry st (write_entry txn w) = st'.
Proof.
  unfold spec_write, spec_entry, write_entry, mk_entry, fresh_insert, spec_op.
  destruct (st !! w_table w) as [m|] eqn:Hm; simpl; [|done].
  intros Hs Hf Hwf. rewrite DecodeRow_EncodeRow_nil by done.
  destruct (w_op w); simpl; rewrite Hm; simpl in *.
  - rewrite decide_False; [by simplify_eq|]. rewrite Hf. by intros [? ?].
  - case_decide; by simplify_eq/=.
  - case_decide; by simplify_eq/=.
Qed.

Lemma spec_entry_writes txn ws : ∀ st,
  (spec_writes ws st).2 = true → fresh_inserts ws st → Forall row_wf (w_row <$> ws) →
  fold_left spec_entry (write_entry txn <$> ws) st = (spec_writes ws st).1.
Proof.
  induction ws as [|w ws IH]; intros st Hok Hf Hwf; [done|]. simpl in *.
  inversion_clear Hwf. destruct Hf as [Hf1 Hf2].
  destruct (spec_write w st) as [st'|] eqn:Hw; [|done].
  rewrite (spec_entry_write txn w st st') by done. by apply IH.
Qed.
End recovery.

Section durable_run.
Context {W : Type} `{WA : WalApi W} `{WS : !WalSpec W} `{JL : JsonLib} `{HO : HashOrder}.
Abbreviation engine := (StorageEngine W).

Lemma Commit_true now txn (e e' : engine) txn' :
  Commit now txn e = (e', txn', Ret true) →
  (spec_writes (t_write_set txn) (views (tables_ e))).2 = true
  ∧ views (tables_ e') = (spec_writes (t_write_set txn) (views (tables_ e))).1
  ∧ (wal_ e' = wal_ e ∧ t_write_set txn = []
     ∨ wal_ e' = (wal_append (write_entry txn <$> t_write_set txn) (wal_ e)).1).
Proof.
  unfold Commit. destruct (negb (IsActive txn)); [done|]. case_decide as Hws.
  { rewrite Hws. intros [= <- <-]. split_and!; [done..|]. by left. }
  destruct (commit_locked now txn e) as [e1 [r|what]] eqn:Hl; [|done].
  unfold commit_locked in Hl.
  destruct (apply_writes now txn (t_write_set txn) [] [] e) as [e2 [r2|what]] eqn:Hw; [|done].
  apply apply_writes_spec in Hw as (Hout & Hv & Hr).
  assert (wal_ e2 = wal_ e) as Hwal by apply Hout.
  destruct (spec_writes (t_write_set txn) (views (tables_ e))) as [st ok]. simpl in Hv, Hr.
  destruct ok; [|by simplify_eq].
  destruct Hr as (evs & -> & _). simpl in Hl. rewrite Hwal in Hl.
  destruct (wal_append _ (wal_ e)) as [w' durable]. simplify_eq.
  destruct durable; intros [= <- <-]. simpl. split_and!; [done|done|]. by right.
Qed.

(** The operations of a run whose log stays intact: tables created and
    dropped, transactions begun, rolled back and committed, a changefeed
    attached.  The side conditions: the log is good after the operation, a
    schema's strings are UTF-8, a committed row is in the codec's range, and a
    staged insert does not meet its key. *)
Inductive good_step : engine → engine → Prop :=
| good_create schema e :
    schema_utf8 schema → wal_good (wal_ (CreateTable schema e).1) →
    good_step e (CreateTable schema e).1
| good_drop name e :
    wal_good (wal_ (DropTable name e).1) → good_step e (DropTable name e).1
| good_begin level e : good_step e (BeginTransaction level e).1
| good_rollback txn e : good_step e (Rollback txn e).1.1
| good_commit now txn e e' txn' :
    Commit now txn e = (e', txn', Ret true) →
    fresh_inserts (t_write_set txn) (views (tables_ e)) →
    Forall row_wf (w_row <$> t_write_set txn) →
    wal_good (wal_ e') → good_step e e'
| good_changefeed c e : good_step e (SetChangefeedEngine c e).

Definition replayable (e : engine) : Prop :=
  wal_good (wal_ e) ∧
  fold_left spec_entry (wal_ReadAll (wal_ e)) ∅ = views (tables_ e).

(** The effect of a logged batch on a replayable log. *)
Lemma replayable_append (e e' : engine) es :
  replayable e → wal_ e' = (wal_append es (wal_ e)).1 → wal_good (wal_ e') →
  fold_left spec_entry es (views (tables_ e)) = views (tables_ e') → replayable e'.
Proof.
  intros [Hg Hr] Hw Hg' Hv. split; [done|]. rewrite Hw in Hg' |- *.
  destruct (wal_append_log es (wal_ e) Hg Hg') as (_ & es' & Hsame & ->).
  by rewrite fold_left_app, Hr, (fold_same _ _ _ Hsame).
Qed.

Lemma replayable_step e e' : good_step e e' → replayable e → replayable e'.
Proof.
  intros [schema e0 Hu Hg|name e0 Hg|level e0|txn e0|now txn e0 e1 txn' Hc Hf Hwf Hg|c e0] Hr;
    try done.
  - unfold CreateTable in *. destruct (tables_ e0 !! sch_name schema) eqn:Hn; [done|].
    destruct (DeserializeSchema_SerializeSchema schema Hu) as (data & Hs & Hd & _).
    rewrite Hs in *. simpl in *.
    eapply (replayable_append e0 _ [_]); [done|done|done|]. simpl.
    unfold spec_entry. simpl. rewrite Hd. simpl. rewrite views_lookup, Hn. simpl.
    rewrite views_insert. unfold view. simpl. by rewrite fmap_empty.
  - unfold DropTable in *. destruct (tables_ e0 !! name) eqn:Hn; [|done]. simpl in *.
    eapply (replayable_append e0 _ [_]); [done|done|done|]. simpl.
    unfold spec_entry, views. simpl. by rewrite fmap_delete.
  - unfold Rollback. by destruct (negb (IsActive txn)).
  - destruct (Commit_true _ _ _ _ _ Hc) as (Hok & Hv & [[Hw Hws]|Hw]).
    + rewrite Hws in Hv. simpl in Hv. destruct Hr as [_ Hr]. split; [done|]. by rewrite Hw, Hv.
    + eapply replayable_append; [done|done|done|]. rewrite Hv. by apply spec_entry_writes.
Qed.

(** Crash recovery: take any run of table operations and successful
    commits from an empty engine over an empty log; if the process stops there
    and a new engine recovers from that log, it holds exactly the same tables,
    keys and column values (row versions and timestamps are not kept). *)
Theorem recovery_restores_run now w0 (e : engine) :
  wal_good w0 → wal_ReadAll w0 = [] →
  rtc good_step (new_StorageEngine w0 None) e →
  views (tables_ (RecoverFromWAL now (new_StorageEngine (wal_ e) None)))
  = views (tables_ e).
Proof.
  intros Hg H0 Hrun.
  assert (replayable (new_StorageEngine w0 None)) as Hr0.
  { split; [done|]. simpl. rewrite H0. unfold views. simpl. by rewrite fmap_empty. }
  assert (replayable e) as [_ Hr].
  { clear Hg H0. revert Hr0. induction Hrun as [|x y z Hxy _ IH]; [done|].
    intros Hx. by apply IH, (replayable_step x). }
  unfold RecoverFromWAL. rewrite recover_fold. simpl. unfold views at 1.
  by rewrite fmap_empty.
Qed.
End durable_run.

(** ** A concrete run *)

#[local] Existing Instance std_json.
#[local] Existing Instance std_order.
Import StorageCommit.Demo.
#[local] Instance demo_spec : @WalSpec WalHost wal := host_spec SyncFsync.

Definition host0 : WalHost := new_host [] 100.
Definition table0 : StorageEngine WalHost := (CreateTable schema (new_StorageEngine host0 None)).1.

Lemma append_good es w :
  wal_good w → forallb (λ e, bool_decide (payload_wf e)) es = true →
  (0 <=? wal_GetLastSequence w + zlength es) && (wal_GetLastSequence w + zlength es <? 2 ^ 64 - 1)
    = true →
  (wal_append es w).2 = true → wal_good (wal_append es w).1.
Proof.
  intros Hg Hp [H1%Z.leb_le H2%Z.ltb_lt]%andb_true_iff Hok.
  apply wal_append_good; [done| |lia|done].
  apply Forall_forall. intros e He%list_elem_of_In. rewrite forallb_forall in Hp.
  by apply Hp, bool_decide_eq_true in He.
Qed.

Lemma host0_good : wal_good host0.
Proof. apply new_host_good. Qed.

Definition create_entry : WALEntry :=
  mk_entry CREATE_TABLE "users" ""
    (match SerializeSchema schema with Ret b => b | Throw _ => [] end) 0.

Lemma wal0_good : wal_good (wal_ engine0).
Proof.
  change (wal_ engine0) with (wal_append [create_entry] host0).1.
  apply append_good; [apply host0_good|vm_compute; reflexivity..].
Qed.

Lemma wal1_eq : wal_ engine1 = (wal_append (write_entry (txn writes1) <$> writes1) (wal_ engine0)).1.
Proof. vm_compute. reflexivity. Qed.

Lemma wal1_good : wal_good (wal_ engine1).
Proof.
  rewrite wal1_eq. apply append_good; [apply wal0_good|vm_compute; reflexivity..].
Qed.

Lemma demo_run : rtc good_step (new_StorageEngine host0 None) engine1.
Proof.
  eapply rtc_l; [apply (good_create schema)|].
  - split_and!; [by vm_compute|by repeat constructor|]. repeat constructor.
  - apply wal0_good.
  - eapply rtc_l; [apply (good_changefeed (Some (new_Changefeed demo_config)))|].
    apply rtc_once. apply (good_commit 7 (txn writes1) _ _ (SetCommitted (txn writes1))).
    + vm_compute. reflexivity.
    + apply (bool_decide_unpack (fresh_inserts writes1 (views (tables_ engine0)))).
      vm_compute. exact I.
    + apply (bool_decide_unpack (Forall row_wf (w_row <$> writes1))). vm_compute. exact I.
    + apply wal1_good.
Qed.

Lemma recovery_restores_run_witness :
  views (tables_ (RecoverFromWAL 9 (new_StorageEngine (wal_ engine1) None)))
  = views (tables_ engine1)
  ∧ Get "users" "b" engine1 = Some (row "b" 2).
Proof.
  split; [|vm_compute; reflexivity].
  apply (recovery_restores_run 9 host0 engine1);
    [apply host0_good|vm_compute; reflexivity|apply demo_run].
Defined.

(** A new engine recovers from the log the old one left. *)
Definition restart (e : StorageEngine WalHost) : StorageEngine WalHost :=
  RecoverFromWAL 9 (new_StorageEngine (wal_ e) None).

(** An INSERT that meets its key is applied as an update but logged as an
    INSERT, which recovery skips: the committed value is lost. *)
Theorem resolved_insert_is_lost_on_recovery :
  let '(e2, _, r) := Commit 8 (txn [write WINSERT "a" 99]) engine1 in
  r = Ret true
  ∧ row_columns <$> Get "users" "a" e2 = Some {[ "n" := VInt64 99 ]}
  ∧ row_columns <$> Get "users" "a" (restart e2)
    = Some {[ "n" := VInt64 1 ]}.
Proof. vm_compute. repeat split. Qed.

(** Replaying a DROP TABLE entry appends it to the log again: after drop,
    re-create and insert, the first recovery is right, and the second one drops
    the re-created table with its committed row. *)
Theorem second_recovery_drops_recreated_table :
  let e1 := (DropTable "users" engine1).1 in
  let e2 := (CreateTable schema e1).1 in
  let '(e3, _, r) := Commit 8 (txn [write WINSERT "a" 99]) e2 in
  let first := restart e3 in
  let second := restart first in
  r = Ret true
  ∧ row_columns <$> Get "users" "a" first = Some {[ "n" := VInt64 99 ]}
  ∧ tables_ second = ∅.
Proof. vm_compute. repeat split. Qed.

(** A key deleted from a table without rows, or a row inserted twice in the log,
    is still counted: after recovery [total_rows] can differ from the number of
    rows. *)
Theorem recovery_miscounts_rows :
  let '(e2, _, _) := Commit 8 (txn [write WINSERT "a" 99]) engine1 in
  let r := restart e2 in
  total_rows (stats_ r) = 3 ∧ row_total (tables_ r) = 2.
Proof. vm_compute. split; reflexivity. Qed.
