(* ===== verification/StorageSnapshot.v ===== *)
(** * Snapshots preserve the tables

    Writing a snapshot and loading it into a new engine: every table, key and
    column comes back, columns up to what JSON can express. *)

From S2P Require Import Prelude Table Codec RowCodec Json MemTable Txn Wal WalWriter WalStore Changefeed StorageJson Storage StorageCommit StorageRecovery.

(** What the load hands back for a table. *)
Definition restored_columns (cols : columns) : columns := omap restored_value cols.
Definition restored_view (t : MemTable) : gmap string columns := restored_columns <$> view t.

(** Names match, strings are UTF-8, rows are stored under their own key. *)
Definition table_ok (name : string) (t : MemTable) : Prop :=
  sch_name (schema_ t) = name ∧ schema_utf8 (schema_ t)
  ∧ map_Forall (λ k r, row_key r = k ∧ row_utf8 r) (rows_ t).

#[export] Instance table_ok_dec name t : Decision (table_ok name t).
Proof. unfold table_ok, schema_utf8. apply and_dec; [apply _|]. apply and_dec; [|apply _].
  apply and_dec; [apply _|]. apply and_dec; [apply _|]. apply Forall_dec. intros c.
  unfold DataType_wf. destruct (col_type c); apply _. Defined.

Lemma exc_map_Forall2 {A B} (f : A → exc B) (P : A → B → Prop) l :
  Forall (λ a, ∃ b, f a = Ret b ∧ P a b) l → ∃ bs, exc_map f l = Ret bs ∧ Forall2 P l bs.
Proof.
  induction 1 as [|a l (b & Hb & HP) _ (bs & Hbs & HF)].
  - exists []. split; [done|constructor].
  - exists (b :: bs). simpl. rewrite Hb. simpl. rewrite Hbs. split; [done|by constructor].
Qed.

Section snapshot.
Context {W : Type} `{WA : WalApi W} `{JL : JsonLib} `{HO : HashOrder}.
Abbreviation engine := (StorageEngine W).

(** ** Rows *)

Definition row_rel (kr : string * Row) (j : json) : Prop :=
  ∃ s, j = JString s ∧ utf8 s = true
       ∧ DeserializeRow (str_bytes s) = Ret (restored_row kr.2) ∧ row_key kr.2 = kr.1.

Lemma load_rows_spec l js : Forall2 row_rel l js → ∀ t0,
  NoDup l.*1 → (∀ k, k ∈ l.*1 → rows_ t0 !! k = None) →
  ∃ t, load_rows js t0 = Ret t ∧ schema_ t = schema_ t0 ∧
    view t = list_to_map ((λ kr, (kr.1, restored_columns (row_columns kr.2))) <$> l) ∪ view t0.
Proof.
  induction 1 as [|[k r] j l js (s & -> & _ & Hd & Hk) _ IH]; intros t0 Hnd Hfresh.
  - exists t0. split_and!; [done..|]. simpl. by rewrite (left_id_L ∅ (∪)).
  - apply NoDup_cons in Hnd as [Hn Hnd]. simpl in *. rewrite Hd. simpl.
    pose proof (Insert_view t0 (restored_row r)) as Hi. simpl in Hi. rewrite Hk in Hi.
    rewrite Hfresh in Hi by left. destruct Hi as [_ Hv].
    assert (row_key (restored_row r) = k) as Hk' by done.
    destruct (IH (MemTable.Insert t0 (restored_row r)).1) as (t & Ht & Hs & Hview); [done| |].
    { intros k' Hin. unfold MemTable.Insert. rewrite Hk', Hfresh by left. simpl.
      rewrite lookup_insert_ne by (intros ->; done). apply Hfresh. by right. }
    exists t. split; [done|]. split.
    { rewrite Hs. unfold MemTable.Insert. by destruct (rows_ t0 !! _). }
    rewrite Hview, Hv. rewrite <- insert_union_l, <- insert_union_r; [done|].
    apply not_elem_of_list_to_map. rewrite <- list_fmap_compose. done.
Qed.

(** ** Tables *)

Definition table_rel (nt : string * MemTable) (j : json) : Prop :=
  json_ok j = true ∧
  ∃ t n, load_table (json_text j) = Ret (t, n) ∧ sch_name (schema_ t) = nt.1
         ∧ view t = restored_view nt.2.

Lemma list_to_map_view (t : MemTable) :
  list_to_map ((λ kr : string * Row, (kr.1, restored_columns (row_columns kr.2)))
                 <$> map_iter (rows_ t)) = restored_view t.
Proof.
  unfold restored_view, view. rewrite <- map_fmap_compose.
  rewrite <- (list_to_map_iter (rows_ t)) at 2. by rewrite <- list_to_map_fmap.
Qed.

Lemma table_json_spec name t :
  table_ok name t → ∃ j, table_json t = Ret j ∧ table_rel (name, t) j.
Proof.
  intros (Hname & Hschema & Hrows).
  destruct (DeserializeSchema_SerializeSchema _ Hschema) as (sd & Hss & Hsd & Hsu).
  destruct (exc_map_Forall2 (λ kr : string * Row, b ← SerializeRow kr.2; Ret (JString (bytes_str b)))
              row_rel (map_iter (rows_ t))) as (js & Hjs & HF).
  { apply Forall_forall. intros [k r] Hin%elem_of_map_iter.
    destruct (Hrows k r Hin) as [Hk Hr].
    destruct (row_roundtrip r Hr) as (data & H1 & H2 & H3).
    exists (JString (bytes_str data)). simpl. rewrite H1. split; [done|].
    exists (bytes_str data). by rewrite str_bytes_str. }
  unfold table_json. rewrite Hss. simpl. rewrite Hjs. simpl. eexists. split; [done|].
  assert (map json_text js = js) as Htext.
  { clear -HF. induction HF as [|? ? ? ? (s & -> & _) _ IH]; [done|]. simpl. by rewrite IH. }
  split.
  - apply json_ok_object. apply map_Forall_insert; [done|]. split; [done|].
    apply map_Forall_singleton. split; [done|]. simpl. apply forallb_forall.
    intros j Hj%list_elem_of_In. apply list_elem_of_lookup in Hj as [i Hi].
    destruct (Forall2_lookup_r _ _ _ _ _ HF Hi) as (kr & _ & s & -> & Hu & _). done.
  - destruct (load_rows_spec _ _ HF (new_MemTable (restored_schema (schema_ t))))
      as (t' & Hload & Hsch & Hview); [apply map_iter_NoDup|done|].
    exists t', (zlength js). unfold load_table.
    assert (schema_member (json_text (object_of
      {["schema" := JString (bytes_str sd); "rows" := JArray js]})) = Ret (bytes_str sd)) as ->.
    { change (schema_member (json_text (object_of ?m))) with
        (match json_field "schema" (json_text (object_of m)) with
         | Some v => as_string v | None => Ret "" end).
      by rewrite json_field_text_object, lookup_insert_eq. }
    cbn [mbind exc_bind]. rewrite str_bytes_str, Hsd. cbn [mbind exc_bind].
    rewrite (member_text_object "rows" _ (JArray js)) by done. cbn [mbind exc_bind json_text].
    rewrite Htext, json_elements_array, Hload. simpl. split_and!; [done| |].
    + by rewrite Hsch.
    + rewrite Hview. unfold view at 1. simpl. rewrite fmap_empty, (right_id_L ∅ (∪)).
      apply list_to_map_view.
Qed.

Lemma load_tables_spec l js : Forall2 table_rel l js → ∀ n (e : engine),
  NoDup l.*1 →
  ∃ e' n', load_tables (map json_text js) n e = (e', Ret n') ∧
    views (tables_ e') = list_to_map ((λ nt, (nt.1, restored_view nt.2)) <$> l)
                         ∪ views (tables_ e).
Proof.
  induction 1 as [|[name t] j l js (Hok & t' & m & Hload & Hname & Hview) _ IH];
    intros n e Hnd; simpl.
  - exists e, n. by rewrite (left_id_L ∅ (∪)).
  - apply NoDup_cons in Hnd as [Hn Hnd]. simpl in *. rewrite Hload.
    destruct (IH (u64 (n + m)) (set_stats (add_tables 1)
      (set_tables (<[sch_name (schema_ t'):=t']> (tables_ e)) e))) as (e' & n' & He & Hv); [done|].
    exists e', n'. split; [done|]. rewrite Hv. simpl. rewrite views_insert, Hname, Hview.
    rewrite <- insert_union_l, <- insert_union_r; [done|].
    apply not_elem_of_list_to_map. rewrite <- list_fmap_compose. done.
Qed.

(** Loading does not touch the log. *)
Lemma load_tables_wal ts : ∀ n (e : engine), wal_ (load_tables ts n e).1 = wal_ e.
Proof.
  induction ts as [|t ts IH]; intros n e; simpl; [done|].
  destruct (load_table t) as [[table m]|]; [|done]. by rewrite IH.
Qed.

Lemma load_wal (e : engine) : wal_ (LoadSnapshotIfPresent e).1 = wal_ e.
Proof.
  unfold LoadSnapshotIfPresent. destruct (snapshot_ e) as [text|]; [|done].
  destruct (parse text) as [doc|]; [|done]. destruct (json_field "tables" doc) as [ts|]; [|done].
  pose proof (load_tables_wal (json_elements ts) 0 e) as H.
  by destruct (load_tables (json_elements ts) 0 e) as [e1 []].
Qed.
End snapshot.

Definition snapshot_ok : snapshot_io := {| open_ok := true; write_ok := true; kept := None; rename_ok := true |}.

Section checkpoint.
Context {W : Type} `{WA : WalApi W} `{WS : !WalSpec W} `{JL : JsonLib} `{HO : HashOrder}.
Abbreviation engine := (StorageEngine W).

Lemma snapshot_document seq ts :
  map_Forall table_ok ts → is_u 64 seq →
  ∃ js, exc_map (λ nt : string * MemTable, table_json nt.2) (hash_iter ts) = Ret js
    ∧ Forall2 table_rel (hash_iter ts) js
    ∧ json_ok (object_of {[ "last_sequence" := JInt seq; "tables" := JArray js ]}) = true.
Proof.
  intros Hok Hseq.
  destruct (exc_map_Forall2 (λ nt : string * MemTable, table_json nt.2) table_rel
              (hash_iter ts)) as (js & Hjs & HF).
  { apply Forall_forall. intros [name t] Hin%elem_of_hash_iter.
    by apply table_json_spec, (Hok name t). }
  exists js. split_and!; [done..|].
  apply json_ok_object. apply map_Forall_insert; [done|]. split; [split; [done|]|].
  - apply bool_decide_eq_true. unfold is_u in Hseq. lia.
  - apply map_Forall_singleton. split; [done|]. simpl. apply forallb_forall.
    intros j Hj%list_elem_of_In. apply list_elem_of_lookup in Hj as [i Hi].
    by destruct (Forall2_lookup_r _ _ _ _ _ HF Hi) as (nt & _ & ? & _).
Qed.

Lemma load_document (js : list json) (e0 : engine) ts text seq :
  Forall2 table_rel (hash_iter ts) js → tables_ e0 = ∅ → snapshot_ e0 = Some text →
  parse text = Some (json_text (object_of {[ "last_sequence" := JInt seq;
                                             "tables" := JArray js ]})) →
  ∃ e1, LoadSnapshotIfPresent e0 = (e1, Ret true) ∧ views (tables_ e1) = restored_view <$> ts.
Proof.
  intros HF Hemp Hsnap Hparse. unfold LoadSnapshotIfPresent. rewrite Hsnap, Hparse.
  rewrite json_field_text_object, lookup_insert_ne, lookup_singleton_eq by done.
  cbn [fmap option_fmap option_map json_text]. rewrite json_elements_array.
  destruct (load_tables_spec _ _ HF 0 e0 (hash_iter_NoDup ts)) as (e1 & n & -> & Hv).
  exists (set_stats (add_rows n) e1). split; [done|]. simpl. rewrite Hv, Hemp.
  unfold views. rewrite fmap_empty, (right_id_L ∅ (∪)).
  rewrite <- (list_to_hash_iter ts) at 2. by rewrite <- list_to_map_fmap.
Qed.

(** The text of a snapshot loads back, if closing the file kept all of it. *)
Lemma snapshot_file o seq ts :
  kept o = None → map_Forall table_ok ts → is_u 64 seq →
  ∃ text, write_snapshot_file o seq ts
          = Ret (if open_ok o && (write_ok o && rename_ok o) then Some text else None) ∧
    ∀ e0 : engine, tables_ e0 = ∅ → snapshot_ e0 = Some text →
    ∃ e1, LoadSnapshotIfPresent e0 = (e1, Ret true) ∧ views (tables_ e1) = restored_view <$> ts.
Proof.
  intros Hkept Hok Hseq. destruct (snapshot_document seq ts Hok Hseq) as (js & Hjs & HF & Hdoc).
  destruct (parse_dump _ Hdoc) as (text & Hdump & Hparse & _). exists text. split.
  - unfold write_snapshot_file. rewrite Hjs. cbn [mbind exc_bind].
    destruct (open_ok o); cbn [negb]; [|done]. rewrite Hdump. unfold file_text. by rewrite Hkept.
  - intros e0 He0 Hs0. by apply (load_document js e0 ts text seq).
Qed.

(** A checkpoint loses nothing JSON can express: for an engine whose
    tables have UTF-8 strings, [WriteSnapshot] succeeds, empties the log and
    leaves the tables alone; and a new engine that initialises from the
    snapshot and the truncated log holds the same tables, keys and columns,
    each column restored up to [restored_value]. *)
Theorem checkpoint_restart now (e : engine) :
  tables_ e ≠ ∅ → map_Forall table_ok (tables_ e) →
  is_u 64 (wal_GetLastSequence (wal_ e)) →
  wal_good (wal_ e) → wal_good (wal_ (WriteSnapshot snapshot_ok e).1) →
  ∃ e1 e2, WriteSnapshot snapshot_ok e = (e1, Ret true)
    ∧ tables_ e1 = tables_ e ∧ wal_ReadAll (wal_ e1) = []
    ∧ Initialize now (new_StorageEngine (wal_ e1) (snapshot_ e1)) = (e2, Ret true)
    ∧ views (tables_ e2) = restored_view <$> tables_ e.
Proof.
  intros Hne Hok Hseq Hg Hg1.
  destruct (snapshot_file snapshot_ok _ _ eq_refl Hok Hseq) as (text & Htext & Hload).
  assert (WriteSnapshot snapshot_ok e =
    (set_wal (wal_Truncate (wal_GetLastSequence (wal_ e)) (wal_ e)).1
       (set_snapshot (Some text) e), Ret true)) as Hsnap.
  { unfold WriteSnapshot. by rewrite decide_False, Htext by done. }
  rewrite Hsnap in Hg1 |- *. simpl in Hg1.
  pose proof (wal_truncate_log _ Hg Hg1) as Hlog.
  destruct (Hload (new_StorageEngine
      (wal_Truncate (wal_GetLastSequence (wal_ e)) (wal_ e)).1 (Some text)) eq_refl eq_refl)
    as (e1 & Hl & Hviews).
  assert (wal_ e1 = (wal_Truncate (wal_GetLastSequence (wal_ e)) (wal_ e)).1) as Hwal.
  { pose proof (load_wal (new_StorageEngine
      (wal_Truncate (wal_GetLastSequence (wal_ e)) (wal_ e)).1 (Some text))) as Hw.
    by rewrite Hl in Hw. }
  eexists _, (RecoverFromWAL now e1). split; [done|]. split_and!; [done|done| |].
  - unfold Initialize. simpl. by rewrite Hl.
  - unfold RecoverFromWAL. by rewrite Hwal, Hlog.
Qed.
End checkpoint.

(** ** A concrete checkpoint *)

#[local] Existing Instance std_json.
#[local] Existing Instance std_order.
Import StorageCommit.Demo.
#[local] Instance demo_spec : @WalSpec WalHost wal := host_spec SyncFsync.

Definition host1 : WalHost := wal_ engine1.
Definition host2 : WalHost := wal_ (WriteSnapshot snapshot_ok engine1).1.

Lemma host2_eq : host2 = (host_truncate SyncFsync (GetLastSequence (host host1)) host1).1.
Proof. vm_compute. reflexivity. Qed.

Lemma host2_good : wal_good host2.
Proof.
  split; [rewrite host2_eq; apply host_inv_truncate, wal1_good|vm_compute; reflexivity..| | |].
  - split; [vm_compute; reflexivity|]. apply (bool_decide_unpack _). vm_compute. exact I.
  - apply (bool_decide_unpack _). vm_compute. exact I.
  - apply (bool_decide_unpack _). vm_compute. exact I.
Qed.

Lemma checkpoint_restart_witness :
  ∃ e1 e2, WriteSnapshot snapshot_ok engine1 = (e1, Ret true)
    ∧ tables_ e1 = tables_ engine1 ∧ wal_ReadAll (wal_ e1) = []
    ∧ Initialize 9 (new_StorageEngine (wal_ e1) (snapshot_ e1)) = (e2, Ret true)
    ∧ views (tables_ e2) = restored_view <$> tables_ engine1.
Proof.
  apply (checkpoint_restart 9 engine1).
  - intros H. apply (f_equal size) in H. vm_compute in H. discriminate H.
  - apply (bool_decide_unpack (map_Forall table_ok (tables_ engine1))). vm_compute. exact I.
  - apply (bool_decide_unpack _). vm_compute. exact I.
  - apply wal1_good.
  - apply host2_good.
Defined.
