(* ===== verification/StorageThreads.v ===== *)
(** * Commits on several threads (src/storage/storage_engine.cpp)

    Storage.v runs one call at a time.  Here every call of [Commit],
    [CreateTable] and [DropTable] is a thread that stops where the code can be
    preempted or blocks: at [tables_mutex_], between two writes, at the log's
    promise, between two published events.  The checkpointer is a thread with
    three steps (the snapshot file, the drain, the truncation) and the log's
    writer is the one of WalWriter.v.  [perform] is one action of one of them;
    the reachable states are all the interleavings.

    Under [tables_mutex_] the threads write the tables and submit to the log, so
    the tables are always the replay of the log's history in the order of the
    lock, and an event is published only when its batch is durable. *)

From stdpp Require Import relations.
From S2P Require Import Prelude Table Codec RowCodec Json MemTable Txn Wal WalWriter WalStore Changefeed StorageJson Storage StorageCommit StorageRecovery StorageSnapshot.

(** ** State *)

(** A call: where it is and the locals it still needs.  [Applying] and
    [Logging] are inside the critical section of [tables_mutex_]; [Waiting] is
    at [durable.get()]. *)
Inductive thread :=
| Locking (txn : Transaction)
| Applying (txn : Transaction) (todo : list WriteOperation) (wal_entries : list WALEntry)
    (pending_events : list ChangefeedEvent)
| Waiting (txn : Transaction) (pending_events : list ChangefeedEvent) (durable : nat)
| Publishing (txn : Transaction) (pending_events : list ChangefeedEvent)
| Returned (txn : Transaction) (r : exc bool)
| Creating (schema : TableSchema)
| Dropping (table_name : string)
| Logging (appended : nat) (tables_change : Z)
| Done (r : exc bool).

(** [WriteSnapshot], which holds [tables_mutex_] as a reader throughout: before
    it, with the file renamed into place, and in the [Drain] of [Truncate]. *)
Inductive checkpoint_pc := Idle | Renamed | Draining (p : nat).

#[export] Instance checkpoint_pc_eq_dec : EqDecision checkpoint_pc.
Proof. solve_decision. Defined.

(** [tables_mutex_] is the thread that holds it as a writer.  [faithful] is
    history: no call changed a table without logging the change, no staged
    insert met its key, and every row and schema was in the range of the codec
    and of JSON, every snapshot file kept what was written to it; no action reads
    it. *)
Record Threads := {
  engine_ : StorageEngine WalState;
  tables_mutex_ : option nat;
  threads_ : gmap nat thread;
  checkpoint_ : checkpoint_pc;
  faithful : bool
}.

(** ** Actions *)

(** The log's [sync_mode_], set from the configuration when it is opened. *)
Class SyncSetting := sync_mode_ : SyncMode.

Section actions.
Context `{JL : JsonLib} `{HO : HashOrder} {SM : SyncSetting}.

(** Thread [i] moves on to [t], leaving engine and lock as given. *)
Definition enter (i : nat) (t : thread) (e : StorageEngine WalState) (lock : option nat)
    (ok : bool) (s : Threads) : Threads :=
  {| engine_ := e; tables_mutex_ := lock; threads_ := <[i := t]> (threads_ s);
     checkpoint_ := checkpoint_ s; faithful := faithful s && ok |}.

(** Whether a writer can take [tables_mutex_]. *)
Definition free (s : Threads) : bool :=
  bool_decide (tables_mutex_ s = None) && bool_decide (checkpoint_ s = Idle).

Definition fresh_id (p : nat) (w : WalState) : bool := bool_decide (promises w !! p = None).

(** One iteration of the loop over the write set, under the lock. *)
Definition run_apply (now : Z) (i : nat) (txn : Transaction) (w : WriteOperation)
    (todo : list WriteOperation) (es : list WALEntry) (evs : list ChangefeedEvent)
    (s : Threads) : Threads :=
  match apply_write now txn w (engine_ s) with
  | (e, Throw what) => enter i (Returned txn (Throw what)) e None false s
  | (e, Ret None) => enter i (Returned txn (Ret false)) e None (bool_decide (es = [])) s
  | (e, Ret (Some (entry, ev))) =>
      enter i (Applying txn todo (es ++ [entry]) (evs ++ option_list ev)) e (Some i)
        (bool_decide (fresh_inserts [w] (views (tables_ (engine_ s))) ∧ row_wf (w_row w))) s
  end.

(** The submission, with which the lock is released. *)
Definition run_submit (ts : Z) (p i : nat) (txn : Transaction) (es : list WALEntry)
    (evs : list ChangefeedEvent) (s : Threads) : option Threads :=
  let e := engine_ s in
  if fresh_id p (wal_ e) then
    Some (enter i (Waiting txn evs p) (set_wal (AppendBatchAsync ts p es (wal_ e)).1 e) None true s)
  else None.

(** [CreateTable] and [DropTable] up to the answer of [wal_->Append], for which
    they wait under the lock. *)
Definition run_create (ts : Z) (p i : nat) (schema : TableSchema) (s : Threads) : option Threads :=
  let e := engine_ s in
  if free s && fresh_id p (wal_ e) then
    Some (match tables_ e !! sch_name schema with
          | Some _ => enter i (Done (Ret false)) e None true s
          | None =>
              let e1 := set_tables (<[sch_name schema := new_MemTable schema]> (tables_ e)) e in
              match SerializeSchema schema with
              | Throw what => enter i (Done (Throw what)) e1 None false s
              | Ret data =>
                  enter i (Logging p 1)
                    (set_wal (Append ts p (mk_entry CREATE_TABLE (sch_name schema) "" data 0) (wal_ e1)) e1)
                    (Some i) (bool_decide (table_ok (sch_name schema) (new_MemTable schema))) s
              end
          end)
  else None.

Definition run_drop (ts : Z) (p i : nat) (table_name : string) (s : Threads) : option Threads :=
  let e := engine_ s in
  if free s && fresh_id p (wal_ e) then
    Some (match tables_ e !! table_name with
          | None => enter i (Done (Ret false)) e None true s
          | Some table =>
              let e1 := set_stats (add_rows (- GetRowCount table)) e in
              let e2 := set_stats (add_bytes (- GetSizeBytes table)) e1 in
              let e3 := set_tables (delete table_name (tables_ e2)) e2 in
              enter i (Logging p (-1))
                (set_wal (Append ts p (mk_entry DROP_TABLE table_name "" [] 0) (wal_ e3)) e3)
                (Some i) true s
          end)
  else None.

(** The next action of thread [i]; [None] while it is blocked.  [p] is the
    promise it creates, if it does. *)
Definition run_thread (now ts : Z) (p i : nat) (s : Threads) : option Threads :=
  let e := engine_ s in
  let lock := tables_mutex_ s in
  match threads_ s !! i with
  | Some (Locking txn) =>
      if free s then Some (enter i (Applying txn (t_write_set txn) [] []) e (Some i) true s)
      else None
  | Some (Applying txn (w :: todo) es evs) => Some (run_apply now i txn w todo es evs s)
  | Some (Applying txn [] es evs) => run_submit ts p i txn es evs s
  | Some (Waiting txn evs durable) =>
      match promises (wal_ e) !! durable with
      | Some (Some true) => Some (enter i (Publishing txn evs) e lock true s)
      | Some (Some false) => Some (enter i (Returned txn (Ret false)) e lock true s)
      | _ => None
      end
  | Some (Publishing txn (ev :: evs)) =>
      Some (enter i (Publishing txn evs) (publish_all now [ev] e) lock true s)
  | Some (Publishing txn []) =>
      let '(e1, txn1) := commit_finish now txn [] e in
      Some (enter i (Returned txn1 (Ret true)) e1 lock true s)
  | Some (Creating schema) => run_create ts p i schema s
  | Some (Dropping table_name) => run_drop ts p i table_name s
  | Some (Logging appended n) =>
      match promises (wal_ e) !! appended with
      | Some (Some _) => Some (enter i (Done (Ret true)) (set_stats (add_tables n) e) None true s)
      | _ => None
      end
  | Some (Returned _ _ | Done _) | None => None
  end.

Definition set_checkpoint (pc : checkpoint_pc) (e : StorageEngine WalState) (ok : bool)
    (s : Threads) : Threads :=
  {| engine_ := e; tables_mutex_ := tables_mutex_ s; threads_ := threads_ s;
     checkpoint_ := pc; faithful := faithful s && ok |}.

(** The next action of [WriteSnapshot]: the file, then [Truncate], whose guard
    holds because nobody submits under the reader's lock.  A snapshot that throws
    ends the process. *)
Definition run_checkpoint (o : snapshot_io) (p : nat) (trunc_ok reopen_ok : bool) (s : Threads)
    : option Threads :=
  let e := engine_ s in
  let truncated := set_checkpoint Idle (set_wal (TruncateFile trunc_ok reopen_ok (wal_ e)).1 e) true s in
  match checkpoint_ s with
  | Idle =>
      if decide (tables_mutex_ s ≠ None) then None
      else if decide (tables_ e = ∅) then Some s
      else match write_snapshot_file o (GetLastSequence (wal_ e)) (tables_ e) with
           | Throw _ => None
           | Ret None => Some s
           | Ret (Some text) =>
               Some (set_checkpoint Renamed (set_snapshot (Some text) e)
                       (bool_decide (map_Forall table_ok (tables_ e) ∧ kept o = None)) s)
           end
  | Renamed =>
      if negb (may_truncate (GetLastSequence (wal_ e)) (wal_ e)) then Some (set_checkpoint Idle e true s)
      else if stop_ (wal_ e) || fatal_ (wal_ e) then Some truncated
      else if fresh_id p (wal_ e) then
        Some (set_checkpoint (Draining p) (set_wal (Drain p (wal_ e)) e) true s)
      else None
  | Draining p =>
      match promises (wal_ e) !! p with
      | Some (Some _) => Some truncated
      | _ => None
      end
  end.

Inductive action :=
| CallCommit (i : nat) (txn : Transaction)
| CallCreateTable (i : nat) (schema : TableSchema)
| CallDropTable (i : nat) (table_name : string)
| CallBegin (level : IsolationLevel)
| CallRollback (txn : Transaction)
| RunThread (now ts : Z) (p i : nat)
| RunCheckpoint (o : snapshot_io) (p : nat) (trunc_ok reopen_ok : bool)
| RunWriter (o : io).

Definition set_engine (e : StorageEngine WalState) (s : Threads) : Threads :=
  {| engine_ := e; tables_mutex_ := tables_mutex_ s; threads_ := threads_ s;
     checkpoint_ := checkpoint_ s; faithful := faithful s |}.

(** A new call; a thread identifier is used once. *)
Definition call (i : nat) (t : thread) (s : Threads) : option Threads :=
  if decide (threads_ s !! i = None) then Some (enter i t (engine_ s) (tables_mutex_ s) true s)
  else None.

(** The part of [Commit] before the lock. *)
Definition start_commit (txn : Transaction) : thread :=
  if negb (IsActive txn) then Returned txn (Ret false)
  else if decide (t_write_set txn = []) then Publishing txn []
  else Locking txn.

Definition perform (a : action) (s : Threads) : option Threads :=
  match a with
  | CallCommit i txn => call i (start_commit txn) s
  | CallCreateTable i schema => call i (Creating schema) s
  | CallDropTable i table_name => call i (Dropping table_name) s
  | CallBegin level => Some (set_engine (BeginTransaction level (engine_ s)).1 s)
  | CallRollback txn => Some (set_engine (Rollback txn (engine_ s)).1.1 s)
  | RunThread now ts p i => run_thread now ts p i s
  | RunCheckpoint o p trunc_ok reopen_ok => run_checkpoint o p trunc_ok reopen_ok s
  | RunWriter o => Some (set_engine (set_wal (WriterLoop sync_mode_ o (wal_ (engine_ s))) (engine_ s)) s)
  end.

Inductive thread_step : Threads → Threads → Prop :=
| step_perform a s s' : perform a s = Some s' → thread_step s s'.

(** A schedule, while every action of it is enabled. *)
Fixpoint run_schedule (acts : list action) (s : Threads) : option Threads :=
  match acts with
  | [] => Some s
  | a :: acts => s' ← perform a s; run_schedule acts s'
  end.

Lemma run_schedule_reaches acts : ∀ s s',
  run_schedule acts s = Some s' → rtc thread_step s s'.
Proof.
  induction acts as [|a acts IH]; intros s s'; simpl; [intros [= ->]; apply rtc_refl|].
  destruct (perform a s) as [s1|] eqn:Ha; [|done]. intros Hr.
  eapply rtc_l; [by eapply step_perform|by apply IH].
Qed.

(** A new database, over an empty log, with a changefeed or without one. *)
Definition fresh_threads (feed : option ChangefeedConfig) : Threads :=
  {| engine_ := SetChangefeedEngine (new_Changefeed <$> feed)
       (new_StorageEngine (WalWriter.Initialize 0 []) None);
     tables_mutex_ := None; threads_ := ∅; checkpoint_ := Idle; faithful := true |}.
End actions.

(** ** The log under many threads *)

(** How the log evolves: accepted batches stay, answers are final. *)
Record grows (w w' : WalState) : Prop := {
  grows_accepted : accepted (ghost w) `prefix_of` accepted (ghost w');
  grows_answers : ∀ p r, promises w !! p = Some (Some r) → promises w' !! p = Some (Some r)
}.

#[export] Instance grows_preorder : PreOrder grows.
Proof.
  split.
  - intros w. split; [done|auto].
  - intros w1 w2 w3 [H1 H2] [H3 H4]. split; [by etrans|auto].
Qed.

(** The conditions on the log that hold in every state; [stop_] is only set at
    shutdown, when no call is left. *)
Definition log_inv {SM : SyncSetting} (w : WalState) : Prop := inv sync_mode_ w ∧ stop_ w = false.

Lemma append_grows {SM : SyncSetting} ts p es w :
  promises w !! p = None → log_inv w →
  log_inv (AppendBatchAsync ts p es w).1 ∧ grows w (AppendBatchAsync ts p es w).1.
Proof.
  intros Hp [Hi Hs]. split; [split|].
  - eapply inv_step; [|exact Hi]. by apply step_append.
  - unfold AppendBatchAsync. destruct (fatal_ w); [done|]. by destruct (assign_sequences _ _ _).
  - assert (∀ q (r : bool) x, promises w !! q = Some (Some r) →
      <[p := x]> (promises w) !! q = Some (Some r)) as Hq.
    { intros q r x Hq. rewrite lookup_insert_ne; [done|]. intros ->. by rewrite Hp in Hq. }
    unfold AppendBatchAsync. destruct (fatal_ w); [split; [done|intros; by apply Hq]|].
    destruct (assign_sequences _ _ _). split; [by apply prefix_app_r|intros; by apply Hq].
Qed.

(** What a successful submission adds. *)
Lemma append_accepted ts p es w :
  fatal_ w = false → ∃ b,
    accepted (ghost (AppendBatchAsync ts p es w).1) = accepted (ghost w) ++ [b]
    ∧ pb_done b = p ∧ Forall2 same_write es (pb_entries b).
Proof.
  intros Hf. unfold AppendBatchAsync. rewrite Hf.
  pose proof (assign_sequences_same ts (next_sequence_ w) es) as Hs.
  destruct (assign_sequences _ _ _) as [es' next]. by eexists.
Qed.

Lemma drain_grows {SM : SyncSetting} p w :
  promises w !! p = None → log_inv w → log_inv (Drain p w) ∧ grows w (Drain p w).
Proof.
  intros Hp [Hi Hs]. unfold Drain. rewrite Hs. simpl.
  destruct (fatal_ w) eqn:Hf; [done|]. split; [split; [by apply inv_enqueue|done]|].
  split; [by apply prefix_app_r|]. intros q r Hq. simpl. rewrite lookup_insert_ne; [done|].
  intros ->. by rewrite Hp in Hq.
Qed.

Lemma truncate_grows {SM : SyncSetting} t r w :
  log_inv w → log_inv (TruncateFile t r w).1 ∧ grows w (TruncateFile t r w).1.
Proof. intros [Hi Hs]. split; [split; [by apply inv_TruncateFile|done]|split; [done|auto]]. Qed.

Lemma writer_keeps_answer m o w p r :
  inv m w → promises w !! p = Some (Some r) → promises (WriterLoop m o w) !! p = Some (Some r).
Proof.
  intros Hi Hp. unfold WriterLoop.
  destruct (writer_pc w) as [|drained| |] eqn:Hpc; [by destruct (queue_ w)| |done|done].
  destruct (WriteAndSync _ _ _ _). simpl. rewrite lookup_answer, decide_False; [done|].
  intros Hin. assert (promises w !! p = Some None) as Hn.
  { apply (inv_pending _ _ Hi). unfold unanswered, in_flight. rewrite Hpc, fmap_app.
    apply elem_of_app. by left. }
  by rewrite Hn in Hp.
Qed.

Lemma writer_accepted m o w : accepted (ghost (WriterLoop m o w)) = accepted (ghost w).
Proof.
  unfold WriterLoop. destruct (writer_pc w); [by destruct (queue_ w)| |done|done].
  by destruct (WriteAndSync _ _ _ _).
Qed.

Lemma writer_grows {SM : SyncSetting} o w :
  log_inv w → log_inv (WriterLoop sync_mode_ o w) ∧ grows w (WriterLoop sync_mode_ o w).
Proof.
  intros [Hi Hs]. split; [split; [by apply inv_WriterLoop|]|split].
  - unfold WriterLoop. destruct (writer_pc w); [by destruct (queue_ w)| |done|done].
    by destruct (WriteAndSync _ _ _ _).
  - by rewrite writer_accepted.
  - intros p r. by apply writer_keeps_answer.
Qed.

(** ** What is durable *)

(** A batch the log has answered true. *)
Definition durable (w : WalState) (b : PendingBatch) : Prop :=
  b ∈ accepted (ghost w) ∧ promises w !! pb_done b = Some (Some true).

Lemma durable_grows w w' b : grows w w' → durable w b → durable w' b.
Proof. intros [Ha Hp] [Hb Hd]. split; [by eapply elem_of_prefix|auto]. Qed.

Section threads.
Context `{JL : JsonLib} `{HO : HashOrder} {SM : SyncSetting}.

(** The batch of a transaction; the transactions whose batch is durable. *)
Definition batch_of (txn : Transaction) (b : PendingBatch) : Prop :=
  Forall2 same_write (write_entry txn <$> t_write_set txn) (pb_entries b).

Definition durable_txn (w : WalState) (txn : Transaction) : Prop :=
  t_write_set txn = [] ∨ ∃ b, durable w b ∧ batch_of txn b.

Lemma durable_txn_grows w w' txn : grows w w' → durable_txn w txn → durable_txn w' txn.
Proof. intros Hg [?|(b & Hb & ?)]; [by left|right]. exists b. by split; [eapply durable_grows|]. Qed.

(** The log entry and the event of the same write. *)
Definition describes (entry : WALEntry) (ev : ChangefeedEvent) : Prop :=
  ∃ txn w, event_of txn w ev ∧ same_write (write_entry txn w) entry.

Definition durable_event (w : WalState) (ev : ChangefeedEvent) : Prop :=
  ∃ b entry, durable w b ∧ entry ∈ pb_entries b ∧ describes entry ev.

Definition described_in (es : list WALEntry) (ev : ChangefeedEvent) : Prop :=
  ∃ entry, entry ∈ es ∧ describes entry ev.

Lemma durable_event_grows w w' ev : grows w w' → durable_event w ev → durable_event w' ev.
Proof. intros Hg (b & en & Hb & Hen). exists b, en. by split; [eapply durable_grows|]. Qed.

Lemma described_same es es' ev :
  Forall2 same_write es es' → described_in es ev → described_in es' ev.
Proof.
  intros HF (en & Hin & txn & w & Hev & Hs).
  apply list_elem_of_lookup in Hin as [k Hk].
  destruct (Forall2_lookup_l _ _ _ _ _ HF Hk) as (en' & Hk' & Hs').
  exists en'. split; [by eapply list_elem_of_lookup_2|]. exists txn, w. split; [done|].
  unfold same_write in *. intuition congruence.
Qed.

(** A batch in the log, answered or not, for the transaction and its events. *)
Definition submitted (w : WalState) (txn : Transaction) (evs : list ChangefeedEvent) (p : nat) : Prop :=
  ∃ b, b ∈ accepted (ghost w) ∧ pb_done b = p ∧ batch_of txn b
       ∧ Forall (described_in (pb_entries b)) evs.

(** What each thread knows. *)
Definition thread_ok (w : WalState) (t : thread) : Prop :=
  match t with
  | Applying txn todo es evs =>
      es ++ (write_entry txn <$> todo) = write_entry txn <$> t_write_set txn
      ∧ Forall (described_in es) evs
  | Waiting txn evs p => promises w !! p = Some (Some false) ∨ submitted w txn evs p
  | Publishing txn evs => durable_txn w txn ∧ Forall (durable_event w) evs
  | Returned txn (Ret true) => durable_txn w txn
  | _ => True
  end.

Definition holds (t : thread) : bool :=
  match t with Applying _ _ _ _ | Logging _ _ => true | _ => false end.

Lemma thread_ok_grows w w' t : grows w w' → thread_ok w t → thread_ok w' t.
Proof.
  intros Hg. destruct t as [| |txn evs p|txn evs|txn [[]|]| | | |]; simpl; try done.
  - intros [Hf|(b & Hb & Hrest)]; [left|right].
    + by apply Hg.
    + exists b. split; [|done]. by eapply elem_of_prefix; [|apply Hg].
  - intros [Ht He]. split; [by eapply durable_txn_grows|].
    eapply Forall_impl; [exact He|]. intros ev. by apply durable_event_grows.
  - by apply durable_txn_grows.
Qed.

(** ** The invariant of all runs *)

Definition published_ok (e : StorageEngine WalState) : Prop :=
  ∀ c, changefeed_engine_ e = Some c → Forall (durable_event (wal_ e)) (cf_published c).

(** Mutual exclusion, what each thread knows, and that nothing is published
    before it is durable. *)
Record sound (s : Threads) : Prop := {
  sound_log : log_inv (wal_ (engine_ s));
  sound_threads : map_Forall (λ _ t, thread_ok (wal_ (engine_ s)) t) (threads_ s);
  sound_holder : ∀ i t, threads_ s !! i = Some t → holds t = true → tables_mutex_ s = Some i;
  sound_lock : ∀ i, tables_mutex_ s = Some i → ∃ t, threads_ s !! i = Some t ∧ holds t = true;
  sound_checkpoint : checkpoint_ s ≠ Idle → tables_mutex_ s = None;
  sound_published : published_ok (engine_ s)
}.

Lemma sound_fresh feed : sound (fresh_threads feed).
Proof.
  split; try done.
  - split; [|done]. by apply (inv_Initialize _ 0 [] []).
  - intros c. unfold fresh_threads. cbn. destruct feed; intros [= <-]. constructor.
Qed.

Lemma published_grows (e e' : StorageEngine WalState) :
  changefeed_engine_ e' = changefeed_engine_ e → grows (wal_ e) (wal_ e') →
  published_ok e → published_ok e'.
Proof.
  intros Hc Hg Hp c. rewrite Hc. intros Hc'. eapply Forall_impl; [by apply Hp|].
  intros ev. by apply durable_event_grows.
Qed.

Lemma free_spec s : free s = true ↔ tables_mutex_ s = None ∧ checkpoint_ s = Idle.
Proof. unfold free. by rewrite andb_true_iff, !bool_decide_eq_true. Qed.

(** The lock after thread [i] has moved on to [t]. *)
Definition lock_after (i : nat) (t : thread) (s : Threads) : option nat :=
  if holds t then Some i
  else if from_option holds false (threads_ s !! i) then None else tables_mutex_ s.

Lemma sound_enter i t e lock ok s :
  sound s → lock = lock_after i t s → log_inv (wal_ e) → grows (wal_ (engine_ s)) (wal_ e) → published_ok e →
  thread_ok (wal_ e) t →
  (holds t = true → from_option holds false (threads_ s !! i) = true ∨ free s = true) →
  sound (enter i t e lock ok s).
Proof.
  intros [Hlog Hth Hho Hlo Hcp Hpub] -> Hlog' Hg Hp' Ht Hfree.
  assert (from_option holds false (threads_ s !! i) = true → tables_mutex_ s = Some i) as Hheld.
  { destruct (threads_ s !! i) as [u|] eqn:Hu; [|done]. simpl. by apply Hho. }
  rewrite free_spec in Hfree. unfold lock_after. split; simpl; try done.
  - apply map_Forall_insert_2; [done|]. intros j u Hu. eapply thread_ok_grows; [done|by apply (Hth j)].
  - intros j u. destruct (decide (j = i)) as [->|Hne].
    { rewrite lookup_insert_eq. intros [= ->] Hh. by rewrite Hh. }
    rewrite lookup_insert_ne by done. intros Hu Hh. specialize (Hho _ _ Hu Hh).
    destruct (holds t); [destruct Hfree as [?%Hheld|[]]; congruence|].
    destruct (from_option holds false (threads_ s !! i)); [|done].
    rewrite Hheld in Hho by done. congruence.
  - intros j. destruct (holds t) eqn:Hh.
    { intros [= <-]. exists t. by rewrite lookup_insert_eq. }
    destruct (from_option holds false (threads_ s !! i)) eqn:Hold; [done|].
    intros Hj. destruct (Hlo _ Hj) as (u & Hu & Hhu). exists u.
    rewrite lookup_insert_ne; [done|]. intros ->. rewrite Hu in Hold. simpl in Hold. congruence.
  - intros Hne. specialize (Hcp Hne).
    destruct (holds t); [destruct Hfree as [?%Hheld|[]]; congruence|]. by case_match.
Qed.

(** A thread that does not touch log or changefeed. *)
Lemma sound_enter_same i t e lock ok s :
  lock = lock_after i t s →
  wal_ e = wal_ (engine_ s) → changefeed_engine_ e = changefeed_engine_ (engine_ s) →
  thread_ok (wal_ (engine_ s)) t →
  (holds t = true → from_option holds false (threads_ s !! i) = true ∨ free s = true) →
  sound s → sound (enter i t e lock ok s).
Proof.
  intros -> Hw Hc Ht Hfree Hs. apply sound_enter; rewrite ?Hw; try done; [apply Hs|].
  eapply published_grows; [exact Hc|by rewrite Hw|apply Hs].
Qed.

(** An action of no thread that leaves the lock alone. *)
Lemma sound_engine pc e ok s :
  log_inv (wal_ e) → grows (wal_ (engine_ s)) (wal_ e) →
  changefeed_engine_ e = changefeed_engine_ (engine_ s) →
  (pc ≠ Idle → tables_mutex_ s = None) →
  sound s → sound (set_checkpoint pc e ok s).
Proof.
  intros Hlog Hg Hc Hpc [Hl Hth Hho Hlo Hcp Hpub]. split; simpl; try done.
  - intros i t Ht. eapply thread_ok_grows; [done|by apply (Hth i)].
  - by eapply published_grows.
Qed.

Lemma apply_write_outside now txn w (e : StorageEngine WalState) :
  same_outside e (apply_write now txn w e).1.
Proof.
  unfold apply_write. destruct (tables_ e !! w_table w) as [t|]; [|done].
  destruct (apply_op now w t) as [[[t' old] n] []]; simpl; [|done].
  by destruct (changefeed_engine_ e).
Qed.

Lemma sound_apply now i txn w todo es evs s :
  threads_ s !! i = Some (Applying txn (w :: todo) es evs) →
  sound s → sound (run_apply now i txn w todo es evs s).
Proof.
  intros Hi Hs. pose proof (sound_threads _ Hs _ _ Hi) as [Hes Hevs]. unfold run_apply.
  pose proof (apply_write_outside now txn w (engine_ s)) as Hout.
  destruct (apply_write now txn w (engine_ s)) as [e' [[[en ev]|]|what]] eqn:Happ; simpl in Hout;
    destruct Hout as (_ & Hw & _ & Hc & _);
    apply sound_enter_same; unfold lock_after; rewrite ?Hi; try done; [|by left].
  apply apply_write_spec in Happ as [_ Hspec].
  destruct (spec_write w _); [|by destruct Hspec as [? _]].
  destruct Hspec as (ev' & [= -> ->] & _ & Hrep). split.
  - by rewrite <- app_assoc.
  - apply Forall_app. split.
    + eapply Forall_impl; [exact Hevs|]. intros ev1 (en1 & Hin & Hd). exists en1.
      split; [|done]. apply elem_of_app. by left.
    + destruct ev' as [ev'|]; [|constructor]. apply Forall_singleton.
      destruct (changefeed_engine_ (engine_ s)); [|done].
      exists (write_entry txn w). split; [apply elem_of_app; right; by left|]. by exists txn, w.
Qed.

Lemma sound_submit ts p i txn es evs s s' :
  threads_ s !! i = Some (Applying txn [] es evs) →
  run_submit ts p i txn es evs s = Some s' → sound s → sound s'.
Proof.
  intros Hi. unfold run_submit, fresh_id. case_bool_decide as Hp; [|done]. intros [= <-] Hs.
  pose proof (sound_threads _ Hs _ _ Hi) as [Hes Hevs]. simpl in Hes. rewrite app_nil_r in Hes.
  destruct (append_grows ts p es _ Hp (sound_log _ Hs)) as [Hlog Hg].
  apply sound_enter; try done.
  - unfold lock_after. by rewrite Hi.
  - by eapply published_grows; [..|apply Hs].
  - simpl. destruct (fatal_ (wal_ (engine_ s))) eqn:Hf.
    + left. unfold AppendBatchAsync. rewrite Hf. simpl. by rewrite lookup_insert_eq.
    + right. destruct (append_accepted ts p es _ Hf) as (b & Ha & Hb & Hsame). exists b.
      split; [rewrite Ha; apply elem_of_app; right; by left|]. split; [done|]. split.
      * unfold batch_of. by rewrite <- Hes.
      * eapply Forall_impl; [exact Hevs|]. intros ev. by apply described_same.
Qed.

(** Publishing an event, and finishing the commit. *)
Lemma published_publish now ev (e : StorageEngine WalState) :
  durable_event (wal_ e) ev → published_ok e → published_ok (publish_all now [ev] e).
Proof.
  intros Hev Hp c'. unfold publish_all. cbn.
  destruct (changefeed_engine_ e) as [c|] eqn:Hc; intros [= <-].
  destruct (PublishEvent_published now ev c) as [o ->].
  apply Forall_app. split; [by apply Hp|]. by apply Forall_singleton.
Qed.

Lemma published_finish now txn (e : StorageEngine WalState) :
  published_ok e → published_ok (commit_finish now txn [] e).1.
Proof.
  intros Hp c'. unfold commit_finish, publish_all. cbn.
  destruct (changefeed_engine_ e) as [c|] eqn:Hc; intros [= <-]. by apply Hp.
Qed.

Lemma sound_publish now i txn ev evs lock s :
  threads_ s !! i = Some (Publishing txn (ev :: evs)) → lock = tables_mutex_ s → sound s →
  sound (enter i (Publishing txn evs) (publish_all now [ev] (engine_ s)) lock true s).
Proof.
  intros Hi -> Hs. pose proof (sound_threads _ Hs _ _ Hi) as [Ht [Hev Hevs]%Forall_cons].
  apply sound_enter; try done; [unfold lock_after; by rewrite Hi|apply Hs|by apply published_publish, Hs].
Qed.

Lemma sound_finish now i txn s :
  threads_ s !! i = Some (Publishing txn []) → sound s →
  sound (enter i (Returned (commit_finish now txn [] (engine_ s)).2 (Ret true))
           (commit_finish now txn [] (engine_ s)).1 (tables_mutex_ s) true s).
Proof.
  intros Hi Hs. pose proof (sound_threads _ Hs _ _ Hi) as [Ht _].
  apply sound_enter; try done; [unfold lock_after; by rewrite Hi|apply Hs|by apply published_finish, Hs].
Qed.

Lemma sound_create ts p i schema s s' :
  threads_ s !! i = Some (Creating schema) → run_create ts p i schema s = Some s' →
  sound s → sound s'.
Proof.
  intros Hi. unfold run_create, fresh_id. destruct (free s) eqn:Hfree; [|done].
  case_bool_decide as Hp; [|done]. intros [= <-] Hs.
  assert (tables_mutex_ s = None) as Hn by by apply free_spec in Hfree as [? _].
  destruct (tables_ (engine_ s) !! sch_name schema); [|destruct (SerializeSchema schema) as [data|what]].
  - apply sound_enter_same; unfold lock_after; rewrite ?Hi; done.
  - destruct (append_grows ts p [mk_entry CREATE_TABLE (sch_name schema) "" data 0] _ Hp
      (sound_log _ Hs)) as [Hlog Hg].
    apply sound_enter; try done; [by eapply published_grows; [..|apply Hs]|by right].
  - apply sound_enter_same; unfold lock_after; rewrite ?Hi; done.
Qed.

Lemma sound_drop ts p i name s s' :
  threads_ s !! i = Some (Dropping name) → run_drop ts p i name s = Some s' → sound s → sound s'.
Proof.
  intros Hi. unfold run_drop, fresh_id. destruct (free s) eqn:Hfree; [|done].
  case_bool_decide as Hp; [|done]. intros [= <-] Hs.
  assert (tables_mutex_ s = None) as Hn by by apply free_spec in Hfree as [? _].
  destruct (tables_ (engine_ s) !! name) as [t|].
  - destruct (append_grows ts p [mk_entry DROP_TABLE name "" [] 0] _ Hp (sound_log _ Hs))
      as [Hlog Hg].
    apply sound_enter; try done; [by eapply published_grows; [..|apply Hs]|by right].
  - apply sound_enter_same; unfold lock_after; rewrite ?Hi; done.
Qed.

Lemma sound_thread now ts p i s s' : run_thread now ts p i s = Some s' → sound s → sound s'.
Proof.
  unfold run_thread. destruct (threads_ s !! i) as [t|] eqn:Hi; [|done]. intros Hr Hs.
  pose proof (sound_threads _ Hs _ _ Hi) as Ht.
  destruct t as [txn|txn [|w todo] es evs|txn evs d|txn [|ev evs]|txn r|schema|name|q n|r]; try done.
  - destruct (free s) eqn:Hfree; simplify_eq. apply sound_enter_same; try done. by right.
  - by eapply sound_submit.
  - simplify_eq. by apply sound_apply.
  - destruct (promises _ !! d) as [[[]|]|] eqn:Hd; simplify_eq;
      apply sound_enter_same; unfold lock_after; rewrite ?Hi; try done.
    destruct Ht as [Hf|(b & Hb & <- & Hbt & Hevs)]; [congruence|].
    split; [right; by exists b|]. eapply Forall_impl; [exact Hevs|].
    intros ev (en & Hen & Hdes). by exists b, en.
  - injection Hr as <-. by apply (sound_finish now).
  - simplify_eq. by apply sound_publish.
  - by eapply sound_create.
  - by eapply sound_drop.
  - destruct (promises _ !! q) as [[b|]|]; simplify_eq.
    apply sound_enter_same; unfold lock_after; rewrite ?Hi; done.
Qed.

Lemma sound_checkpoint_step o p t r s s' :
  run_checkpoint o p t r s = Some s' → sound s → sound s'.
Proof.
  unfold run_checkpoint. intros Hr Hs.
  pose proof (truncate_grows t r _ (sound_log _ Hs)) as [Hlog Hg].
  destruct (checkpoint_ s) as [| |q] eqn:Hpc.
  - case_decide as Hm; [done|]. case_decide; [by simplify_eq|].
    destruct (write_snapshot_file _ _ _) as [[text|]|]; simplify_eq; [|done].
    apply sound_engine; try done. apply Hs.
  - assert (tables_mutex_ s = None) as Hn by (apply Hs; by rewrite Hpc).
    destruct (negb _); [simplify_eq; by apply sound_engine; try done; apply Hs|].
    destruct (stop_ _ || fatal_ _); [simplify_eq; by apply sound_engine|].
    unfold fresh_id in Hr. case_bool_decide as Hp; simplify_eq.
    destruct (drain_grows p _ Hp (sound_log _ Hs)). by apply sound_engine.
  - destruct (promises _ !! q) as [[b|]|]; simplify_eq. by apply sound_engine.
Qed.

Lemma set_engine_checkpoint e s : set_engine e s = set_checkpoint (checkpoint_ s) e true s.
Proof. unfold set_engine, set_checkpoint. by rewrite andb_true_r. Qed.

Lemma sound_set_engine e s :
  log_inv (wal_ e) → grows (wal_ (engine_ s)) (wal_ e) →
  changefeed_engine_ e = changefeed_engine_ (engine_ s) → sound s → sound (set_engine e s).
Proof.
  intros Hlog Hg Hc Hs. rewrite set_engine_checkpoint. apply sound_engine; try done. apply Hs.
Qed.

Lemma sound_call i t s s' :
  call i t s = Some s' → holds t = false → thread_ok (wal_ (engine_ s)) t → sound s → sound s'.
Proof.
  unfold call. case_decide as Hi; [|done]. intros [= <-] Hh Ht Hs.
  apply sound_enter_same; try done; [|by rewrite Hh]. unfold lock_after. by rewrite Hh, Hi.
Qed.

Lemma sound_step s s' : thread_step s s' → sound s → sound s'.
Proof.
  intros [a s0 s0' Ha] Hs. destruct a; simpl in Ha; simplify_eq.
  - eapply sound_call; [exact Ha|..|done]; unfold start_commit;
      destruct (negb _); try done; case_decide; try done. by split; [left|].
  - by eapply sound_call.
  - by eapply sound_call.
  - apply sound_set_engine; try done; apply Hs.
  - apply sound_set_engine; unfold Rollback; destruct (negb (IsActive txn)); try done; apply Hs.
  - by eapply sound_thread.
  - by eapply sound_checkpoint_step.
  - destruct (writer_grows o _ (sound_log _ Hs)). by apply sound_set_engine.
Qed.

Lemma sound_reachable feed s : rtc thread_step (fresh_threads feed) s → sound s.
Proof.
  intros Hr. pose proof (sound_fresh feed) as H0. revert H0.
  induction Hr as [|x y z Hxy _ IH]; [done|]. intros Hx. by apply IH, (sound_step x).
Qed.

(** C4. Durable before visible: in every interleaving of commits, table
    operations, checkpoints and the log's writer, whatever fails, every event the
    changefeed has been given describes a log entry of a batch the log has
    answered true, and every call of [Commit] that returned true has its whole
    write set in such a batch. *)
Theorem published_is_durable feed s :
  rtc thread_step (fresh_threads feed) s →
  (∀ c, changefeed_engine_ (engine_ s) = Some c →
        Forall (durable_event (wal_ (engine_ s))) (cf_published c))
  ∧ (∀ i txn, threads_ s !! i = Some (Returned txn (Ret true)) →
              durable_txn (wal_ (engine_ s)) txn).
Proof.
  intros Hs%sound_reachable. split; [apply Hs|]. intros i txn Hi. apply (sound_threads _ Hs _ _ Hi).
Qed.
End threads.

(** ** A concrete run *)

#[local] Existing Instance std_json.
#[local] Existing Instance std_order.

Module ThreadsDemo.
#[export] Instance mode : SyncSetting := SyncFsync.
Import StorageCommit.Demo.

Definition txn_at (ts : Z) (ws : list WriteOperation) : Transaction :=
  {| t_id := ts; t_timestamp := ts; t_level := READ_COMMITTED; t_state := ACTIVE;
     t_read_only := false; t_write_set := ws |}.

Definition run (p i : nat) : action := RunThread 7 100 p i.
Definition writes : list action := [RunWriter ok_io; RunWriter ok_io].

(** The table "users" is created; two commits go through the lock one after the
    other, share a write of the log, and publish in the other order: the second
    has returned and the first has published one of its two events. *)
Definition create : list action := [CallCreateTable 0 schema; run 0 0] ++ writes ++ [run 0 0].
Definition two_commits : list action :=
  [CallCommit 1 (txn_at 1 [write WINSERT "a" 1; write WINSERT "b" 2]);
   CallCommit 2 (txn_at 2 [write WINSERT "c" 3]);
   run 0 1; run 0 1; run 0 1; run 1 1;
   run 0 2; run 0 2; run 2 2] ++ writes ++
  [run 0 2; run 0 2; run 0 2; run 0 1; run 0 1].

Definition start : Threads := fresh_threads (Some demo_config).
Definition demo_state (acts : list action) : Threads := default start (run_schedule acts start).
Definition two : Threads := demo_state (create ++ two_commits).
End ThreadsDemo.
Import ThreadsDemo.

Lemma two_runs : run_schedule (create ++ two_commits) start = Some two.
Proof. vm_compute. reflexivity. Qed.

Lemma published_is_durable_witness :
  durable_txn (wal_ (engine_ two)) (SetCommitted (txn_at 2 [StorageCommit.Demo.write WINSERT "c" 3]))
  ∧ length (cf_published (default (new_Changefeed demo_config) (changefeed_engine_ (engine_ two)))) = 2%nat.
Proof.
  split; [|vm_compute; reflexivity].
  apply (published_is_durable (Some demo_config) two) with 2%nat.
  - apply (run_schedule_reaches _ _ _ two_runs).
  - vm_compute. reflexivity.
Defined.
