(* ===== verification/StorageSerial.v ===== *)
(** * Concurrent commits are serial (src/storage/storage_engine.cpp)

    The tables of StorageThreads.v are, in every interleaving, the replay of the
    log's history in submission order: the invariant, its preservation by every
    action, and the theorem. *)

From stdpp Require Import relations.
From S2P Require Import Prelude Table Codec RowCodec Json MemTable Txn Wal WalWriter WalStore Changefeed StorageJson Storage StorageCommit StorageRecovery StorageSnapshot StorageThreads.

Section serial.
Context `{JL : JsonLib} `{HO : HashOrder} {SM : SyncSetting}.

(** ** Serial replay *)

Definition replay (es : list WALEntry) : store := fold_left spec_entry es ∅.

(** The entries of the write set being applied, not submitted yet. *)
Definition in_lock (s : Threads) : list WALEntry :=
  match tables_mutex_ s with
  | Some i => match threads_ s !! i with Some (Applying _ _ es _) => es | _ => [] end
  | None => []
  end.

(** An entry that was logged for a change the tables took: an inserted key is
    absent, an updated one present, a created table new. *)
Definition effective (st : store) (en : WALEntry) : Prop :=
  match e_type en with
  | CREATE_TABLE =>
      match DeserializeSchema (e_data en) with
      | Ret schema => st !! sch_name schema = None
      | Throw _ => True
      end
  | INSERT =>
      match DecodeRow (e_data en) with
      | Ret row => ∃ m, st !! e_table en = Some m ∧ m !! row_key row = None
      | Throw _ => True
      end
  | UPDATE =>
      match DecodeRow (e_data en) with
      | Ret row => ∃ m, st !! e_table en = Some m ∧ is_Some (m !! e_key en)
      | Throw _ => True
      end
  | _ => True
  end.

Fixpoint all_effective (st : store) (es : list WALEntry) : Prop :=
  match es with
  | [] => True
  | en :: es => effective st en ∧ all_effective (spec_entry st en) es
  end.

Lemma all_effective_app st es1 es2 :
  all_effective st (es1 ++ es2)
  ↔ all_effective st es1 ∧ all_effective (fold_left spec_entry es1 st) es2.
Proof.
  revert st. induction es1 as [|en es1 IH]; intros st; simpl; [naive_solver|].
  rewrite IH. naive_solver.
Qed.

Lemma effective_same st en en' : same_write en en' → effective st en → effective st en'.
Proof. unfold same_write, effective. intros (-> & _ & -> & -> & ->). done. Qed.

Lemma all_effective_same es es' : Forall2 same_write es es' → ∀ st,
  all_effective st es → all_effective st es'.
Proof.
  induction 1 as [|en en' es es' Hs _ IH]; intros st; [done|]. intros [He Hall]. split.
  - by eapply effective_same.
  - rewrite (spec_entry_same _ _ _ Hs). by apply IH.
Qed.

Lemma effective_write txn w st st' :
  spec_write w st = Some st' → fresh_insert w st → row_wf (w_row w) →
  effective st (write_entry txn w).
Proof.
  unfold spec_write, effective, write_entry, mk_entry, fresh_insert, spec_op.
  destruct (st !! w_table w) as [m|] eqn:Hm; simpl; [|done].
  intros Hs Hf Hwf. rewrite DecodeRow_EncodeRow_nil by done.
  destruct (w_op w); simpl; [by exists m| |done]. case_decide; [by exists m|done].
Qed.

(** The tables against the log's history. *)
Record in_step (s : Threads) : Prop := {
  is_tables : views (tables_ (engine_ s)) = replay (history (ghost (wal_ (engine_ s))) ++ in_lock s);
  is_effective : all_effective ∅ (history (ghost (wal_ (engine_ s))) ++ in_lock s);
  is_fatal : fatal_ (wal_ (engine_ s)) = false
}.

(** While no call was unfaithful and no write failed. *)
Definition well (s : Threads) : Prop :=
  faithful s = true ∧ failed (ghost (wal_ (engine_ s))) = false.

Lemma in_lock_enter i t e ok s :
  sound s → from_option holds false (threads_ s !! i) = false →
  in_lock (enter i t e (tables_mutex_ s) ok s) = in_lock s.
Proof.
  intros Hs Hh. unfold in_lock. simpl. destruct (tables_mutex_ s) as [j|] eqn:Hj; [|done].
  destruct (sound_lock _ Hs _ Hj) as (u & Hu & Hhu).
  rewrite lookup_insert_ne; [done|]. intros ->. rewrite Hu in Hh. simpl in Hh. congruence.
Qed.

Lemma in_lock_holder i txn todo es evs s :
  sound s → threads_ s !! i = Some (Applying txn todo es evs) → in_lock s = es.
Proof. intros Hs Hi. unfold in_lock. by rewrite (sound_holder _ Hs _ _ Hi eq_refl), Hi. Qed.

Lemma in_step_same s s' :
  views (tables_ (engine_ s')) = views (tables_ (engine_ s)) →
  history (ghost (wal_ (engine_ s'))) = history (ghost (wal_ (engine_ s))) →
  fatal_ (wal_ (engine_ s')) = fatal_ (wal_ (engine_ s)) →
  in_lock s' = in_lock s → in_step s → in_step s'.
Proof. intros Ht Hh Hf Hl [H1 H2 H3]. split; by rewrite ?Ht, ?Hh, ?Hf, ?Hl. Qed.

(** A submission extends the history by the batch's entries. *)
Lemma append_history ts p es w :
  fatal_ w = false → ∃ es',
    history (ghost (AppendBatchAsync ts p es w).1) = history (ghost w) ++ es'
    ∧ Forall2 same_write es es'.
Proof.
  intros Hf. destruct (append_accepted ts p es w Hf) as (b & Ha & _ & Hs). exists (pb_entries b).
  split; [|done]. unfold history. rewrite Ha, fmap_app, concat_app. simpl. by rewrite app_nil_r.
Qed.

Lemma append_fatal ts p es w : fatal_ (AppendBatchAsync ts p es w).1 = fatal_ w.
Proof.
  unfold AppendBatchAsync. destruct (fatal_ w) eqn:E; [done|]. by destruct (assign_sequences _ _ _).
Qed.

Lemma append_failed ts p es w : failed (ghost (AppendBatchAsync ts p es w).1) = failed (ghost w).
Proof.
  unfold AppendBatchAsync. destruct (fatal_ w) eqn:E; [done|]. by destruct (assign_sequences _ _ _).
Qed.

Lemma in_step_append ts p es s s' :
  in_step s → wal_ (engine_ s') = (AppendBatchAsync ts p es (wal_ (engine_ s))).1 →
  in_lock s' = [] →
  views (tables_ (engine_ s')) = replay (history (ghost (wal_ (engine_ s))) ++ es) →
  all_effective ∅ (history (ghost (wal_ (engine_ s))) ++ es) → in_step s'.
Proof.
  intros [_ _ Hf] Hw Hl Hv He. destruct (append_history ts p es _ Hf) as (es' & Hh & Hsame).
  split; rewrite Hw, ?Hl, ?app_nil_r, ?Hh, ?append_fatal; try done.
  - rewrite Hv. unfold replay. rewrite !fold_left_app. by rewrite (fold_same _ _ _ Hsame).
  - apply all_effective_app in He as [He1 He2]. apply all_effective_app. split; [done|].
    by eapply all_effective_same.
Qed.

Definition consistent (s : Threads) : Prop := well s → in_step s.

Lemma well_enter i t e lock ok s :
  failed (ghost (wal_ e)) = failed (ghost (wal_ (engine_ s))) →
  well (enter i t e lock ok s) → well s ∧ ok = true.
Proof. unfold well. simpl. intros Hf [[H1 H2]%andb_true_iff H3]. by rewrite <- Hf. Qed.

(** A thread that changes neither tables nor log, inside or outside the lock. *)
Lemma consistent_enter_same i t e lock ok s :
  sound s → wal_ e = wal_ (engine_ s) →
  (ok = true → views (tables_ e) = views (tables_ (engine_ s))) →
  (ok = true → in_lock (enter i t e lock ok s) = in_lock s) →
  consistent s → consistent (enter i t e lock ok s).
Proof.
  intros Hs Hw Hv Hl Hc Hwell. apply well_enter in Hwell as [Hwell Hok]; [|by rewrite Hw].
  eapply in_step_same; [..|by apply Hc]; simpl; rewrite ?Hw; auto.
Qed.

Lemma in_lock_free s : free s = true → in_lock s = [].
Proof. intros [Hm _]%free_spec. unfold in_lock. by rewrite Hm. Qed.

Lemma consistent_apply now i txn w todo es evs s :
  threads_ s !! i = Some (Applying txn (w :: todo) es evs) → sound s →
  consistent s → consistent (run_apply now i txn w todo es evs s).
Proof.
  intros Hi Hs Hc. unfold run_apply.
  pose proof (apply_write_outside now txn w (engine_ s)) as Hout.
  pose proof (in_lock_holder _ _ _ _ _ _ Hs Hi) as Hl.
  destruct (apply_write now txn w (engine_ s)) as [e' [[[en ev]|]|what]] eqn:Happ; simpl in Hout;
    destruct Hout as (_ & Hw & _);
    [apply apply_write_spec in Happ as [_ Hspec]..|].
  - intros [Hwell [[Hf _] Hwf]%bool_decide_eq_true]%well_enter; [|by rewrite Hw].
    destruct (spec_write w (views (tables_ (engine_ s)))) as [st|] eqn:Hst; [|by destruct Hspec].
    destruct Hspec as (ev' & [= -> ->] & Hv & _). destruct (Hc Hwell) as [H1 H2 H3].
    assert (in_lock (enter i (Applying txn todo (es ++ [write_entry txn w]) (evs ++ option_list ev'))
      e' (Some i) (bool_decide (fresh_inserts [w] (views (tables_ (engine_ s))) ∧ row_wf (w_row w))) s)
      = in_lock s ++ [write_entry txn w]) as Hl'.
    { rewrite Hl. unfold in_lock. simpl. by rewrite lookup_insert_eq. }
    split; rewrite ?Hl'; simpl; rewrite ?Hw; try done; rewrite app_assoc.
    + unfold replay. rewrite fold_left_app. fold (replay (history (ghost (wal_ (engine_ s))) ++ in_lock s)).
      rewrite <- H1. simpl. by rewrite (spec_entry_write txn w _ st).
    + apply all_effective_app. split; [done|].
      fold (replay (history (ghost (wal_ (engine_ s))) ++ in_lock s)). rewrite <- H1. split; [|done].
      by eapply effective_write.
  - apply consistent_enter_same; try done.
    + intros _. destruct (spec_write w _); [by destruct Hspec as (? & ? & _)|by destruct Hspec].
    + intros He%bool_decide_eq_true. by rewrite Hl, He.
  - by apply consistent_enter_same.
Qed.

Lemma consistent_submit ts p i txn es evs s s' :
  threads_ s !! i = Some (Applying txn [] es evs) → sound s →
  run_submit ts p i txn es evs s = Some s' → consistent s → consistent s'.
Proof.
  intros Hi Hs. unfold run_submit. destruct (fresh_id p _); [|done]. intros [= <-] Hc.
  pose proof (in_lock_holder _ _ _ _ _ _ Hs Hi) as Hl.
  intros [Hwell _]%well_enter; [|apply append_failed]. pose proof (Hc Hwell) as Hin.
  destruct (Hin) as [H1 H2 _]. rewrite Hl in H1, H2.
  by apply (in_step_append ts p es s).
Qed.

Lemma consistent_create ts p i schema s s' :
  threads_ s !! i = Some (Creating schema) → sound s →
  run_create ts p i schema s = Some s' → consistent s → consistent s'.
Proof.
  intros Hi Hs. unfold run_create. destruct (free s) eqn:Hfree; [|done].
  destruct (fresh_id p _); [|done]. intros [= <-] Hc. apply in_lock_free in Hfree as Hl.
  destruct (tables_ (engine_ s) !! sch_name schema) eqn:Hn; [by apply consistent_enter_same|].
  destruct (SerializeSchema schema) as [data|] eqn:Hser; [|by apply consistent_enter_same].
  intros [Hwell (_ & Hutf & _)%bool_decide_eq_true]%well_enter; [|apply append_failed].
  pose proof (Hc Hwell) as Hin. destruct (Hin) as [H1 H2 _]. rewrite Hl, app_nil_r in H1, H2.
  destruct (DeserializeSchema_SerializeSchema schema Hutf) as (data' & Hs' & Hd & _).
  rewrite Hser in Hs'. injection Hs' as <-.
  eapply (in_step_append ts p [_] s); [done|done| | |].
  - unfold in_lock. simpl. by rewrite lookup_insert_eq.
  - unfold replay. rewrite fold_left_app. fold (replay (history (ghost (wal_ (engine_ s))))).
    rewrite <- H1. simpl. unfold spec_entry. simpl. rewrite Hd. simpl.
    rewrite views_lookup, Hn. simpl. rewrite views_insert. unfold view. simpl. by rewrite fmap_empty.
  - apply all_effective_app. split; [done|]. fold (replay (history (ghost (wal_ (engine_ s))))).
    rewrite <- H1. split; [|done]. unfold effective. simpl. rewrite Hd. simpl. by rewrite views_lookup, Hn.
Qed.

Lemma consistent_drop ts p i name s s' :
  threads_ s !! i = Some (Dropping name) → sound s →
  run_drop ts p i name s = Some s' → consistent s → consistent s'.
Proof.
  intros Hi Hs. unfold run_drop. destruct (free s) eqn:Hfree; [|done].
  destruct (fresh_id p _); [|done]. intros [= <-] Hc. apply in_lock_free in Hfree as Hl.
  destruct (tables_ (engine_ s) !! name) as [t|] eqn:Hn; [|by apply consistent_enter_same].
  intros [Hwell _]%well_enter; [|apply append_failed].
  pose proof (Hc Hwell) as Hin. destruct (Hin) as [H1 H2 _]. rewrite Hl, app_nil_r in H1, H2.
  eapply (in_step_append ts p [_] s); [done|done| | |].
  - unfold in_lock. simpl. by rewrite lookup_insert_eq.
  - unfold replay. rewrite fold_left_app. fold (replay (history (ghost (wal_ (engine_ s))))).
    rewrite <- H1. unfold spec_entry, views. simpl. by rewrite fmap_delete.
  - apply all_effective_app. split; [done|]. by split.
Qed.

Lemma consistent_thread now ts p i s s' :
  run_thread now ts p i s = Some s' → sound s → consistent s → consistent s'.
Proof.
  unfold run_thread. destruct (threads_ s !! i) as [t|] eqn:Hi; [|done]. intros Hr Hs Hc.
  destruct t as [txn|txn [|w todo] es evs|txn evs d|txn [|ev evs]|txn r|schema|name|q n|r]; try done.
  - destruct (free s) eqn:Hfree; simplify_eq. apply consistent_enter_same; try done. intros _.
    rewrite (in_lock_free s) by done. unfold in_lock. simpl. by rewrite lookup_insert_eq.
  - by eapply consistent_submit.
  - simplify_eq. by apply consistent_apply.
  - destruct (promises _ !! d) as [[[]|]|]; simplify_eq;
      (apply consistent_enter_same; try done; intros _; apply in_lock_enter; [done|by rewrite Hi]).
  - injection Hr as <-.
    apply consistent_enter_same; try done. intros _. apply in_lock_enter; [done|by rewrite Hi].
  - injection Hr as <-.
    apply consistent_enter_same; try done. intros _. apply in_lock_enter; [done|by rewrite Hi].
  - by eapply consistent_create.
  - by eapply consistent_drop.
  - destruct (promises _ !! q) as [[b|]|]; simplify_eq.
    apply consistent_enter_same; try done. intros _. unfold in_lock. simpl.
    by rewrite (sound_holder _ Hs _ _ Hi eq_refl), Hi.
Qed.

(** An action outside the threads: the history of the log does not move. *)
Lemma consistent_engine pc e ok s :
  tables_ e = tables_ (engine_ s) →
  history (ghost (wal_ e)) = history (ghost (wal_ (engine_ s))) →
  (failed (ghost (wal_ e)) = false → failed (ghost (wal_ (engine_ s))) = false
                                     ∧ fatal_ (wal_ e) = fatal_ (wal_ (engine_ s))) →
  consistent s → consistent (set_checkpoint pc e ok s).
Proof.
  intros Ht Hh Hf Hc [[H1 H2]%andb_true_iff H3]. simpl in *. destruct (Hf H3) as [Hf1 Hf2].
  eapply in_step_same; [..|by apply Hc]; simpl; by rewrite ?Ht.
Qed.

Lemma drain_history p w : history (ghost (Drain p w)) = history (ghost w).
Proof.
  unfold Drain. destruct (stop_ w || fatal_ w); [done|]. unfold history. simpl.
  by rewrite fmap_app, concat_app, app_nil_r.
Qed.

Lemma truncate_failed t r w :
  failed (ghost (TruncateFile t r w).1) = false → failed (ghost w) = false.
Proof. simpl. by intros [? _]%orb_false_iff. Qed.

Lemma drain_failed p w :
  failed (ghost (Drain p w)) = failed (ghost w) ∧ fatal_ (Drain p w) = fatal_ w.
Proof. unfold Drain. by destruct (stop_ w || fatal_ w). Qed.

Lemma writer_failed m o w :
  inv m w → failed (ghost (WriterLoop m o w)) = false →
  failed (ghost w) = false ∧ fatal_ (WriterLoop m o w) = fatal_ w.
Proof.
  intros Hi. unfold WriterLoop. destruct (writer_pc w) eqn:Hpc; [by destruct (queue_ w)| | |done].
  - destruct (WriteAndSync _ _ _ _) as [f ok]. simpl. by intros [? _]%orb_false_iff.
  - simpl. intros Hf. destruct (inv_file _ _ Hi Hf) as (_ & _ & Hne). by rewrite Hpc in Hne.
Qed.

Lemma consistent_checkpoint o p t r s s' :
  run_checkpoint o p t r s = Some s' → sound s → consistent s → consistent s'.
Proof.
  unfold run_checkpoint. intros Hr Hs Hc.
  assert (consistent (set_checkpoint Idle
    (set_wal (TruncateFile t r (wal_ (engine_ s))).1 (engine_ s)) true s)) as Ht.
  { apply consistent_engine; try done. intros Hf. split; [apply (truncate_failed t r _ Hf)|done]. }
  destruct (checkpoint_ s) as [| |q] eqn:Hpc.
  - case_decide as Hm; [done|]. case_decide; [by simplify_eq|].
    destruct (write_snapshot_file _ _ _) as [[text|]|]; simplify_eq; [|done].
    by apply consistent_engine.
  - destruct (negb _); [simplify_eq; by apply consistent_engine|].
    destruct (stop_ _ || fatal_ _); [by simplify_eq|].
    destruct (fresh_id p _); simplify_eq. destruct (drain_failed p (wal_ (engine_ s))) as [H1 H2].
    apply consistent_engine; try done; [apply drain_history|]. simpl. by rewrite H1, H2.
  - destruct (promises _ !! q) as [[b|]|]; by simplify_eq.
Qed.

Lemma consistent_step s s' : thread_step s s' → sound s → consistent s → consistent s'.
Proof.
  intros [a s0 s0' Ha] Hs Hc.
  assert (∀ i t, call i t s0 = Some s0' → holds t = false → consistent s0') as Hcall.
  { unfold call. intros i t. case_decide as Hi; [|done]. intros [= <-] Hh.
    apply consistent_enter_same; try done. intros _. apply in_lock_enter; [done|by rewrite Hi]. }
  destruct a; simpl in Ha.
  - apply (Hcall _ _ Ha). unfold start_commit. destruct (negb _); [done|]. by case_decide.
  - by apply (Hcall _ _ Ha).
  - by apply (Hcall _ _ Ha).
  - simplify_eq. rewrite set_engine_checkpoint. by apply consistent_engine.
  - simplify_eq. rewrite set_engine_checkpoint.
    apply consistent_engine; unfold Rollback; by destruct (negb (IsActive txn)).
  - by eapply consistent_thread.
  - by eapply consistent_checkpoint.
  - simplify_eq. rewrite set_engine_checkpoint. apply consistent_engine; try done; simpl.
    + unfold history. by rewrite writer_accepted.
    + apply writer_failed, Hs.
Qed.

Lemma consistent_reachable feed s : rtc thread_step (fresh_threads feed) s → consistent s.
Proof.
  intros Hr. assert (consistent (fresh_threads feed)) as H0.
  { intros _. split; try done. }
  pose proof (sound_fresh feed) as Hs0. revert Hs0 H0.
  induction Hr as [|x y z Hxy _ IH]; [done|]. intros Hsx Hx.
  apply IH; [by eapply sound_step|by eapply consistent_step].
Qed.

(** C3. Concurrent calls are serialised by the log, in every sync mode: in every
    interleaving of commits, table operations, checkpoints and the log's writer
    in which no write of the log failed and no call was unfaithful (no INSERT
    wrote onto a key that had a row, no commit or table creation stopped half-way
    or threw, every row and schema is in the range of the codecs, every snapshot
    file was closed with all its text), the tables are the replay from an
    empty store, in the order the batches were submitted, of every batch
    submitted so far, followed by the part of its write set that the one call
    inside the lock has applied; and no other call is inside the lock. *)
Theorem commits_serialize feed s :
  rtc thread_step (fresh_threads feed) s →
  faithful s = true → failed (ghost (wal_ (engine_ s))) = false →
  views (tables_ (engine_ s))
  = fold_left spec_entry
      (concat (pb_entries <$> accepted (ghost (wal_ (engine_ s)))) ++ in_lock s) ∅
  ∧ (∀ i j t u, threads_ s !! i = Some t → threads_ s !! j = Some u →
                holds t = true → holds u = true → i = j).
Proof.
  intros Hr Hf Hnf. pose proof (sound_reachable _ _ Hr) as Hs.
  split; [by apply (consistent_reachable _ _ Hr)|].
  intros i j t u Hi Hj Ht Hu. pose proof (sound_holder _ Hs _ _ Hi Ht) as H1.
  rewrite (sound_holder _ Hs _ _ Hj Hu) in H1. congruence.
Qed.
End serial.

(** ** A concrete run *)

#[local] Existing Instance std_json.
#[local] Existing Instance std_order.
Import StorageThreads.ThreadsDemo.

Lemma commits_serialize_witness :
  views (tables_ (engine_ two))
  = fold_left spec_entry
      (concat (pb_entries <$> accepted (ghost (wal_ (engine_ two)))) ++ in_lock two) ∅
  ∧ row_columns <$> Get "users" "c" (engine_ two) = Some {[ "n" := VInt64 3 ]}.
Proof.
  split; [|vm_compute; reflexivity].
  apply (commits_serialize (Some demo_config) two);
    [exact (run_schedule_reaches _ _ _ two_runs)|vm_compute; reflexivity..].
Defined.
