(* ===== verification/StorageCrash.v ===== *)
(** * Crashes under concurrency (src/storage/storage_engine.cpp)

    What a new engine finds after a crash at any point of any interleaving of
    StorageThreads.v: a prefix of the history that contains every commit that
    returned true.  While a checkpoint is under way the snapshot in place may be
    ahead of the log file, and the result is a mixture of two such states. *)

From stdpp Require Import relations.
From S2P Require Import Prelude Table Codec RowCodec Json MemTable Txn Wal WalWriter WalStore Changefeed Float64 StorageJson Storage StorageCommit StorageRecovery StorageSnapshot StorageThreads StorageSerial.
From coqutil Require Import Byte.

(** ** Stores up to what JSON can express *)

Definition jsonly (st : store) : store := fmap (M := gmap string) restored_columns <$> st.

(** Two stores a snapshot does not tell apart. *)
Definition alike (st st' : store) : Prop := jsonly st = jsonly st'.

#[export] Instance alike_equivalence : Equivalence alike.
Proof. split; red; unfold alike; congruence. Qed.

Lemma restored_value_idemp v v' : restored_value v = Some v' → restored_value v' = Some v'.
Proof.
  assert (∀ b, restored_value (restored_float b) = Some (restored_float b)) as Hf.
  { intros b. unfold restored_float. destruct (double_finite b) eqn:E; [|done].
    simpl. unfold restored_float. by rewrite E. }
  destruct v; simpl; intros; simplify_eq; auto.
Qed.

Lemma restored_columns_idemp cols : restored_columns (restored_columns cols) = restored_columns cols.
Proof.
  apply map_eq. intros name. unfold restored_columns. rewrite !lookup_omap.
  destruct (cols !! name) as [v|]; [|done]. simpl.
  destruct (restored_value v) as [v'|] eqn:E; [|done]. simpl. by apply restored_value_idemp with v.
Qed.

Lemma jsonly_idemp st : jsonly (jsonly st) = jsonly st.
Proof.
  unfold jsonly. rewrite <- map_fmap_compose. apply map_fmap_ext. intros t m _. simpl.
  rewrite <- map_fmap_compose. apply map_fmap_ext. intros k c _. apply restored_columns_idemp.
Qed.

Lemma jsonly_lookup st t : jsonly st !! t = fmap restored_columns <$> st !! t.
Proof. apply lookup_fmap. Qed.

Lemma jsonly_insert st t m : jsonly (<[t := m]> st) = <[t := restored_columns <$> m]> (jsonly st).
Proof. apply fmap_insert. Qed.

Lemma is_Some_fmap_cols (m : gmap string columns) k :
  is_Some ((restored_columns <$> m) !! k) ↔ is_Some (m !! k).
Proof. by rewrite lookup_fmap, fmap_is_Some. Qed.

(** The default mode, in which a batch is synced before it is answered. *)
#[local] Instance fsync : SyncSetting := SyncFsync.

Section crash.
Context `{JL : JsonLib} `{HO : HashOrder}.

(** The replay of an entry does not depend on what JSON cannot express. *)
Lemma jsonly_entry st en : jsonly (spec_entry st en) = jsonly (spec_entry (jsonly st) en).
Proof.
  unfold spec_entry. destruct (e_type en); rewrite ?jsonly_lookup, ?jsonly_idemp; try done.
  - destruct (DeserializeSchema (e_data en)) as [schema|]; [|by rewrite jsonly_idemp].
    rewrite jsonly_lookup. destruct (st !! sch_name schema); simpl; [by rewrite jsonly_idemp|].
    by rewrite !jsonly_insert, jsonly_idemp.
  - unfold jsonly. rewrite !fmap_delete. fold (jsonly st). fold (jsonly (jsonly st)).
    by rewrite jsonly_idemp.
  - destruct (st !! e_table en) as [m|]; simpl; [|by rewrite jsonly_idemp].
    destruct (DecodeRow (e_data en)) as [row|]; [|by rewrite jsonly_idemp].
    destruct (decide (is_Some (m !! row_key row))) as [Hm|Hm].
    + rewrite decide_True by by rewrite is_Some_fmap_cols. by rewrite jsonly_idemp.
    + rewrite decide_False by by rewrite is_Some_fmap_cols.
      rewrite !jsonly_insert, jsonly_idemp, !fmap_insert. do 2 f_equal.
      rewrite <- map_fmap_compose. apply map_fmap_ext. intros ? c _. symmetry. apply restored_columns_idemp.
  - destruct (st !! e_table en) as [m|]; simpl; [|by rewrite jsonly_idemp].
    destruct (DecodeRow (e_data en)) as [row|]; [|by rewrite jsonly_idemp].
    destruct (decide (is_Some (m !! e_key en))) as [Hm|Hm].
    + rewrite decide_True by by rewrite is_Some_fmap_cols.
      rewrite !jsonly_insert, jsonly_idemp, !fmap_insert. do 2 f_equal.
      rewrite <- map_fmap_compose. apply map_fmap_ext. intros ? c _. symmetry. apply restored_columns_idemp.
    + rewrite decide_False by by rewrite is_Some_fmap_cols. by rewrite jsonly_idemp.
  - destruct (st !! e_table en) as [m|]; simpl; [|by rewrite jsonly_idemp].
    rewrite !jsonly_insert, jsonly_idemp, !fmap_delete. do 2 f_equal.
    rewrite <- map_fmap_compose. apply map_fmap_ext. intros ? c _. symmetry. apply restored_columns_idemp.
Qed.

#[export] Instance spec_entry_proper : Proper (alike ==> eq ==> alike) spec_entry.
Proof. unfold alike. intros st st' H en _ <-. by rewrite jsonly_entry, H, <- jsonly_entry. Qed.

#[export] Instance fold_entry_proper es : Proper (alike ==> alike) (fold_left spec_entry es).
Proof.
  induction es as [|en es IH]; intros st st' H; simpl; [done|]. apply IH. by rewrite H.
Qed.

(** ** Replaying entries a snapshot already has *)

Definition cell (st : store) (t k : string) : option columns := st !! t ≫= lookup k.
Definition present (st : store) (t : string) : bool := bool_decide (is_Some (st !! t)).

(** Every table is there or not, and every key holds what it holds, as in [A] or
    as in [N]. *)
Definition mix (A N X : store) : Prop :=
  (∀ t, present X t = present A t ∨ present X t = present N t)
  ∧ ∀ t k, cell X t k = cell A t k ∨ cell X t k = cell N t k.

Lemma mix_refl A N : mix A N N.
Proof. split; auto. Qed.

Lemma store_eq st st' :
  (∀ t, present st t = present st' t) → (∀ t k, cell st t k = cell st' t k) → st = st'.
Proof.
  intros Hp Hc. apply map_eq. intros t. specialize (Hp t). unfold present in Hp.
  destruct (st !! t) as [m|] eqn:E, (st' !! t) as [m'|] eqn:E'; try done.
  f_equal. apply map_eq. intros k. specialize (Hc t k). unfold cell in Hc.
  by rewrite E, E' in Hc.
Qed.

Lemma mix_same N X : mix N N X → X = N.
Proof. intros [H1 H2]. apply store_eq; [intros t; by destruct (H1 t)|intros t k; by destruct (H2 t k)]. Qed.

Lemma present_insert st t m u : present (<[t := m]> st) u = bool_decide (t = u) || present st u.
Proof.
  unfold present. destruct (decide (t = u)) as [->|Hne].
  - by rewrite lookup_insert_eq, (bool_decide_eq_true_2 (u = u)).
  - by rewrite lookup_insert_ne, (bool_decide_eq_false_2 (t = u)) by done.
Qed.

Lemma cell_after_insert st t m u k :
  cell (<[t := m]> st) u k = if decide (t = u) then m !! k else cell st u k.
Proof.
  unfold cell. case_decide as H; [subst; by rewrite lookup_insert_eq|by rewrite lookup_insert_ne].
Qed.

Lemma present_Some st t m : st !! t = Some m → present st t = true.
Proof. intros H. unfold present. by rewrite H. Qed.
Lemma present_None st t : st !! t = None → present st t = false.
Proof. intros H. unfold present. by rewrite H. Qed.
Lemma cell_Some st t m k : st !! t = Some m → cell st t k = m !! k.
Proof. intros H. unfold cell. by rewrite H. Qed.
Lemma cell_None st t k : st !! t = None → cell st t k = None.
Proof. intros H. unfold cell. by rewrite H. Qed.

(** Two stores that differ at most in one key of one table. *)
Definition differ_at (t k : string) (st st' : store) : Prop :=
  (∀ u, present st' u = present st u)
  ∧ ∀ u j, ¬ (u = t ∧ j = k) → cell st' u j = cell st u j.

Lemma differ_refl t k st : differ_at t k st st.
Proof. by split. Qed.

Lemma differ_table t k (m m' : gmap string columns) st :
  st !! t = Some m → (∀ j, j ≠ k → m' !! j = m !! j) → differ_at t k st (<[t := m']> st).
Proof.
  intros Ht Hm. split.
  - intros u. rewrite present_insert. case_bool_decide as H; [|done]. subst u.
    by rewrite (present_Some _ _ _ Ht).
  - intros u j Hne. rewrite cell_after_insert. case_decide as H; [|done]. subst u.
    rewrite (cell_Some _ _ _ _ Ht). apply Hm. intros ->. by apply Hne.
Qed.

Lemma mix_differ t k A A' N X X' :
  mix A N X → differ_at t k A A' → differ_at t k X X' →
  cell X' t k = cell A' t k ∨ cell X' t k = cell N t k → mix A' N X'.
Proof.
  intros [Hp Hc] [HpA HcA] [HpX HcX] H. split; [intros u; by rewrite HpA, HpX|].
  intros u j. destruct (decide (u = t ∧ j = k)) as [[-> ->]|Hne]; [done|].
  by rewrite HcA, HcX.
Qed.

(** An entry that writes [c] to a key of a table the tables had. *)
Lemma mix_put t k (c : option columns) a A N X :
  mix A N X → A !! t = Some a →
  let put m := partial_alter (λ _, c) k m in
  mix (<[t := put a]> A) N (match X !! t with Some x => <[t := put x]> X | None => X end).
Proof.
  intros Hmix Ha put. pose proof Hmix as [Hp Hc].
  assert (∀ m j, j ≠ k → put m !! j = m !! j) as Hput.
  { intros m j Hj. unfold put. by rewrite lookup_partial_alter_ne. }
  assert (∀ m, put m !! k = c) as Hk by (intros m; unfold put; by rewrite lookup_partial_alter_eq).
  eapply (mix_differ t k A); [done|by apply differ_table with a; auto| |].
  - destruct (X !! t) as [x|] eqn:Hx; [by apply differ_table with x; auto|apply differ_refl].
  - rewrite cell_after_insert, decide_True by done. destruct (X !! t) as [x|] eqn:Hx.
    + left. by rewrite cell_after_insert, decide_True, !Hk.
    + right. destruct (Hp t) as [E|E]; rewrite (present_None _ _ Hx) in E.
      { by rewrite (present_Some _ _ _ Ha) in E. }
      rewrite (cell_None _ _ _ Hx). symmetry. unfold cell, present in *.
      destruct (N !! t); [done|done].
Qed.

(** ... and whose replay leaves the key of the snapshot alone. *)
Lemma mix_keep t k m' a A N X :
  mix A N X → A !! t = Some a → (∀ j, j ≠ k → m' !! j = a !! j) →
  cell X t k ≠ cell A t k → mix (<[t := m']> A) N X.
Proof.
  intros Hmix Ha Hm Hne. eapply (mix_differ t k A); [done|by eapply differ_table|apply differ_refl|].
  right. destruct (proj2 Hmix t k); done.
Qed.

Lemma mix_create t A N X :
  mix A N X → A !! t = None →
  mix (<[t := ∅]> A) N (match X !! t with Some _ => X | None => <[t := ∅]> X end).
Proof.
  intros [Hp Hc] Ha.
  assert (∀ st u j, st !! t = None → cell (<[t := ∅]> st) u j = cell st u j) as He.
  { intros st u j Hst. rewrite cell_after_insert. case_decide as H; [|done]. subst u.
    by rewrite (cell_None _ _ _ Hst). }
  split.
  - intros u. rewrite present_insert. destruct (X !! t) as [x|] eqn:Hx.
    + case_bool_decide as H; [|by destruct (Hp u); auto]. subst u. left.
      by rewrite (present_Some _ _ _ Hx).
    + rewrite present_insert. case_bool_decide; [by left|]. destruct (Hp u); auto.
  - intros u j. rewrite He by done. destruct (X !! t) eqn:Hx; [apply Hc|]. rewrite He by done. apply Hc.
Qed.

Lemma mix_drop t A N X : mix A N X → mix (delete t A) N (delete t X).
Proof.
  intros [Hp Hc].
  assert (∀ st u, present (delete t st) u = negb (bool_decide (t = u)) && present st u) as Hpd.
  { intros st u. unfold present. destruct (decide (t = u)) as [->|H].
    - by rewrite lookup_delete_eq, (bool_decide_eq_true_2 (u = u)).
    - by rewrite lookup_delete_ne, (bool_decide_eq_false_2 (t = u)). }
  assert (∀ st u j, cell (delete t st) u j = if decide (t = u) then None else cell st u j) as Hcd.
  { intros st u j. unfold cell. case_decide as H; [subst u; by rewrite lookup_delete_eq|].
    by rewrite lookup_delete_ne. }
  split; intros; rewrite ?Hpd, ?Hcd.
  - case_bool_decide; [by left|]. apply Hp.
  - case_decide; [by left|]. apply Hc.
Qed.

Lemma mix_step en A N X :
  effective A en → mix A N X → mix (spec_entry A en) N (spec_entry X en).
Proof.
  intros He Hmix. unfold effective, spec_entry in *. destruct (e_type en); try done.
  - destruct (DeserializeSchema (e_data en)) as [schema|]; [|done]. rewrite He.
    pose proof (mix_create (sch_name schema) A N X Hmix He) as H.
    by destruct (X !! sch_name schema).
  - by apply mix_drop.
  - destruct (DecodeRow (e_data en)) as [row|]; [|by destruct (A !! _), (X !! _)].
    destruct He as (a & Ha & Hk). rewrite Ha, decide_False by (rewrite Hk; by intros [? ?]).
    pose proof (mix_put (e_table en) (row_key row) (Some (row_columns row)) a A N X Hmix Ha) as H.
    destruct (X !! e_table en) as [x|] eqn:Hx; [|done]. case_decide as Hd; [|done].
    eapply mix_keep; [done|done| |].
    + intros j Hj. by rewrite lookup_insert_ne.
    + rewrite (cell_Some _ _ _ _ Hx), (cell_Some _ _ _ _ Ha), Hk. by destruct Hd as [? ->].
  - destruct (DecodeRow (e_data en)) as [row|]; [|by destruct (A !! _), (X !! _)].
    destruct He as (a & Ha & Hk). rewrite Ha, decide_True by done.
    pose proof (mix_put (e_table en) (e_key en) (Some (row_columns row)) a A N X Hmix Ha) as H.
    destruct (X !! e_table en) as [x|] eqn:Hx; [|done]. case_decide as Hd; [done|].
    eapply mix_keep; [done|done| |].
    + intros j Hj. by rewrite lookup_insert_ne.
    + rewrite (cell_Some _ _ _ _ Hx), (cell_Some _ _ _ _ Ha). by intros E; rewrite E in Hd.
  - destruct (A !! e_table en) as [a|] eqn:Ha.
    + exact (mix_put (e_table en) (e_key en) None a A N X Hmix Ha).
    + destruct (X !! e_table en) as [x|] eqn:Hx; [|done].
      eapply (mix_differ (e_table en) (e_key en) A); [done|apply differ_refl| |].
      * apply differ_table with x; [done|]. intros j Hj. by rewrite lookup_delete_ne.
      * left. rewrite cell_after_insert, decide_True, lookup_delete_eq, (cell_None _ _ _ Ha); done.
Qed.

Lemma mix_replay es : ∀ A N X,
  all_effective A es → mix A N X → mix (fold_left spec_entry es A) N (fold_left spec_entry es X).
Proof.
  induction es as [|en es IH]; intros A N X; [done|]. intros [He Hall] Hmix. simpl.
  by apply IH, mix_step.
Qed.

Lemma all_effective_split H d :
  all_effective ∅ H → all_effective (replay (take d H)) (drop d H).
Proof. rewrite <- (take_drop d H) at 1. by intros [_ ?]%all_effective_app. Qed.

Lemma replay_split H d k :
  (d <= k)%nat → fold_left spec_entry (drop d (take k H)) (replay (take d H)) = replay (take k H).
Proof.
  intros Hdk. unfold replay. rewrite <- fold_left_app. f_equal.
  replace (take d H) with (take d (take k H)) by (rewrite take_take; f_equal; lia).
  by rewrite take_drop.
Qed.

(** A log from position [d] to [k] over a snapshot at [n]: exactly the state at
    [k] once the log has caught up with the snapshot, a mixture before. *)
Lemma replay_over_snapshot H d n k :
  all_effective ∅ H → (d <= n <= length H)%nat → (d <= k)%nat →
  let st := fold_left spec_entry (drop d (take k H)) (replay (take n H)) in
  mix (replay (take k H)) (replay (take n H)) st
  ∧ ((n <= k)%nat → st = replay (take k H)).
Proof.
  intros Heff Hdn Hdk st.
  assert (∀ j, (d <= j)%nat → mix (replay (take j H)) (replay (take n H))
    (fold_left spec_entry (drop d (take j H)) (replay (take n H)))) as Hmix.
  { intros j Hj. rewrite <- (replay_split H d j) by done. apply mix_replay; [|apply mix_refl].
    pose proof (all_effective_split H d Heff) as He. rewrite <- (take_drop (j - d) (drop d H)) in He.
    apply all_effective_app in He as [He _]. by rewrite skipn_firstn_comm. }
  split; [by apply Hmix|]. intros Hnk. unfold st.
  replace (drop d (take k H)) with (drop d (take n H) ++ drop n (take k H)).
  - rewrite fold_left_app, (mix_same _ _ (Hmix n ltac:(lia))). by apply replay_split.
  - rewrite <- (take_drop n (take k H)) at 2. rewrite drop_app_le.
    + f_equal. f_equal. rewrite take_take. f_equal. lia.
    + rewrite length_take, length_take. lia.
Qed.

(** ** What the snapshot covers *)

(** A snapshot file that loads, up to JSON, to a store. *)
Definition loads (text : string) (st : store) : Prop :=
  ∀ e0 : StorageEngine WalHost, tables_ e0 = ∅ → snapshot_ e0 = Some text →
  ∃ e1, LoadSnapshotIfPresent e0 = (e1, Ret true) ∧ alike (views (tables_ e1)) st.

Definition snapshot_at (snap : option string) (n : nat) (H : list WALEntry) : Prop :=
  match snap with
  | None => n = O
  | Some text => loads text (replay (take n H))
  end.

(** The entries truncated away, and those and the ones in the file. *)
Definition dropped_entries (g : Ghost) : nat := length (concat (pb_entries <$> dropped g)).
Definition settled (g : Ghost) : nat := length (concat (pb_entries <$> dropped g ++ written g)).

(** The snapshot is at most as old as the last truncation, and except during a
    checkpoint the log has caught up with it. *)
Record covered (snap : option string) (g : Ghost) (pc : checkpoint_pc) (n : nat) : Prop := {
  cv_base : base g = [];
  cv_snapshot : snapshot_at snap n (history g);
  cv_bounds : (dropped_entries g <= n <= length (history g))%nat;
  cv_checkpoint :
    match pc with
    | Idle => (n <= settled g)%nat
    | Renamed => n = length (history g)
    | Draining p => n = length (history g) ∧ ∃ l b, accepted g = l ++ [b] ∧ pb_done b = p
    end
}.

Definition covers (s : Threads) : Prop :=
  well s → ∃ n, covered (snapshot_ (engine_ s)) (ghost (wal_ (engine_ s))) (checkpoint_ s) n.

(** In a log that has not failed, the settled entries are a prefix of the
    history. *)
Lemma settled_prefix m w :
  inv m w → failed (ghost w) = false →
  history (ghost w)
  = concat (pb_entries <$> dropped (ghost w) ++ written (ghost w)) ++ concat (pb_entries <$> unanswered w).
Proof.
  intros Hi Hf. destruct (inv_order _ _ Hi) as (l & Ha & Hl). unfold history.
  by rewrite Ha, (Hl Hf), fmap_app, concat_app.
Qed.

Lemma dropped_settled g : (dropped_entries g <= settled g)%nat.
Proof. unfold dropped_entries, settled. rewrite fmap_app, concat_app, length_app. lia. Qed.

Lemma snapshot_at_app snap n H H' :
  (n <= length H)%nat → snapshot_at snap n H → snapshot_at snap n (H ++ H').
Proof. intros Hn. unfold snapshot_at. destruct snap; [|done]. by rewrite take_app_le. Qed.

(** The log moves on and the checkpointer is not in the middle of its work. *)
Lemma covered_grows snap g g' n H' :
  history g' = history g ++ H' → base g' = base g → dropped g' = dropped g →
  (settled g <= settled g')%nat → covered snap g Idle n → covered snap g' Idle n.
Proof.
  intros Hh Hb Hd Hse [H1 H2 H3 H4]. unfold dropped_entries in *. split.
  - by rewrite Hb.
  - rewrite Hh. by apply snapshot_at_app; [lia|].
  - unfold dropped_entries. rewrite Hd, Hh, length_app. lia.
  - lia.
Qed.

Lemma writer_ghost m o w :
  base (ghost (WriterLoop m o w)) = base (ghost w)
  ∧ dropped (ghost (WriterLoop m o w)) = dropped (ghost w)
  ∧ ∃ l, written (ghost (WriterLoop m o w)) = written (ghost w) ++ l.
Proof.
  assert (∃ l, written (ghost w) = written (ghost w) ++ l) as Hn by (exists []; by rewrite app_nil_r).
  unfold WriterLoop. destruct (writer_pc w); [by destruct (queue_ w)| |done|done].
  destruct (WriteAndSync _ _ _ _) as [f ok]. simpl. split_and!; [done|done|].
  case_match; [done|]. by eexists.
Qed.

(** The writer only adds to what is settled. *)
Lemma covered_writer m o w snap pc n :
  covered snap (ghost w) pc n → covered snap (ghost (WriterLoop m o w)) pc n.
Proof.
  destruct (writer_ghost m o w) as (Hb & Hd & l & Hw).
  assert (history (ghost (WriterLoop m o w)) = history (ghost w)) as Hh
    by (unfold history; by rewrite writer_accepted).
  assert (settled (ghost w) <= settled (ghost (WriterLoop m o w)))%nat as Hse.
  { unfold settled. rewrite Hd, Hw, app_assoc, (fmap_app _ (_ ++ _)), concat_app, length_app. lia. }
  intros [H1 H2 H3 H4]. split; unfold dropped_entries; rewrite ?Hb, ?Hh, ?Hd, ?writer_accepted; try done.
  destruct pc; try done. lia.
Qed.

(** Nothing is left unanswered when the barrier of [Drain] is answered. *)
Lemma drained m w l b r :
  inv m w → accepted (ghost w) = l ++ [b] → promises w !! pb_done b = Some (Some r) →
  unanswered w = [].
Proof.
  intros Hi Ha Hp. destruct (inv_order _ _ Hi) as (k & Hk & _).
  destruct (unanswered w) as [|c u _] eqn:Hu using rev_ind; [done|].
  rewrite Ha, app_assoc in Hk. apply app_inj_tail in Hk as [_ ->].
  assert (promises w !! pb_done c = Some None) as Hn.
  { apply (inv_pending _ _ Hi). rewrite Hu, fmap_app. apply elem_of_app. right. by left. }
  by rewrite Hn in Hp.
Qed.

(** The truncation: all that the snapshot has is dropped, or nothing is. *)
Lemma covered_truncate m t r w snap n :
  inv m w → failed (ghost w) = false → unanswered w = [] → n = length (history (ghost w)) →
  covered snap (ghost w) Renamed n → covered snap (ghost (TruncateFile t r w).1) Idle n.
Proof.
  intros Hi Hf Hu -> [H1 H2 H3 _].
  pose proof (settled_prefix _ _ Hi Hf) as Hp. rewrite Hu in Hp. simpl in Hp. rewrite app_nil_r in Hp.
  split; simpl; unfold dropped_entries, settled; simpl; rewrite ?Hf; destruct t; simpl; try done.
  - by rewrite <- Hp.
  - by rewrite app_nil_r, <- Hp.
  - by rewrite <- Hp.
Qed.

(** What a thread's action leaves alone: checkpointer and snapshot, and while a
    checkpoint is under way the log. *)
Definition thread_frame (s s' : Threads) : Prop :=
  checkpoint_ s' = checkpoint_ s ∧ snapshot_ (engine_ s') = snapshot_ (engine_ s)
  ∧ (faithful s' = true → faithful s = true)
  ∧ (wal_ (engine_ s') = wal_ (engine_ s)
     ∨ checkpoint_ s = Idle
       ∧ ∃ ts p es, wal_ (engine_ s') = (AppendBatchAsync ts p es (wal_ (engine_ s))).1).

Lemma frame_same i t e lock ok s :
  snapshot_ e = snapshot_ (engine_ s) → wal_ e = wal_ (engine_ s) →
  thread_frame s (enter i t e lock ok s).
Proof.
  intros Hsn Hw. split_and!; simpl; [done|done| |by left]. by intros [? _]%andb_true_iff.
Qed.

Lemma frame_append i t e lock ok ts p es s :
  snapshot_ e = snapshot_ (engine_ s) → checkpoint_ s = Idle →
  wal_ e = (AppendBatchAsync ts p es (wal_ (engine_ s))).1 →
  thread_frame s (enter i t e lock ok s).
Proof.
  intros Hsn Hpc Hw. split_and!; simpl; [done|done| |right; split; [done|by exists ts, p, es]].
  by intros [? _]%andb_true_iff.
Qed.

Lemma run_thread_frame now ts p i s s' :
  run_thread now ts p i s = Some s' → sound s → thread_frame s s'.
Proof.
  unfold run_thread. destruct (threads_ s !! i) as [t|] eqn:Hi; [|done]. intros Hr Hs.
  assert (holds t = true → checkpoint_ s = Idle) as Hidle.
  { intros Hh. destruct (decide (checkpoint_ s = Idle)) as [|Hne]; [done|].
    pose proof (sound_checkpoint _ Hs Hne) as Hn. by rewrite (sound_holder _ Hs _ _ Hi Hh) in Hn. }
  destruct t as [txn|txn [|w todo] es evs|txn evs d|txn [|ev evs]|txn r|schema|name|q n|r]; try done.
  - destruct (free s); simplify_eq. by apply frame_same.
  - unfold run_submit in Hr. destruct (fresh_id p _); simplify_eq.
    eapply frame_append; [done|by apply Hidle|done].
  - injection Hr as <-. unfold run_apply.
    pose proof (apply_write_outside now txn w (engine_ s)) as Hout.
    destruct (apply_write now txn w (engine_ s)) as [e' [[[en ev]|]|what]]; simpl in Hout;
      destruct Hout as (_ & ? & ? & _); by apply frame_same.
  - destruct (promises _ !! d) as [[[]|]|]; simplify_eq; by apply frame_same.
  - injection Hr as <-. by apply frame_same.
  - injection Hr as <-. by apply frame_same.
  - unfold run_create in Hr. destruct (free s) eqn:Hfree, (fresh_id p _); simpl in Hr; simplify_eq.
    apply free_spec in Hfree as [_ Hpc].
    destruct (tables_ _ !! _); [by apply frame_same|].
    destruct (SerializeSchema schema); [|by apply frame_same].
    by eapply frame_append.
  - unfold run_drop in Hr. destruct (free s) eqn:Hfree, (fresh_id p _); simpl in Hr; simplify_eq.
    apply free_spec in Hfree as [_ Hpc].
    destruct (tables_ _ !! _); [|by apply frame_same]. by eapply frame_append.
  - destruct (promises _ !! q) as [[b|]|]; simplify_eq. by apply frame_same.
Qed.

Lemma append_ghost ts p es w :
  base (ghost (AppendBatchAsync ts p es w).1) = base (ghost w)
  ∧ dropped (ghost (AppendBatchAsync ts p es w).1) = dropped (ghost w)
  ∧ written (ghost (AppendBatchAsync ts p es w).1) = written (ghost w).
Proof. unfold AppendBatchAsync. destruct (fatal_ w); [done|]. by destruct (assign_sequences _ _ _). Qed.

Lemma covers_frame s s' : thread_frame s s' → consistent s → covers s → covers s'.
Proof.
  intros (Hpc & Hsn & Hfa & Hw) Hc Hcv [Hf Hnf]. rewrite Hpc, Hsn.
  destruct Hw as [Hw|(Hidle & ts & p & es & Hw)]; rewrite Hw in *.
  - apply Hcv. split; auto.
  - rewrite append_failed in Hnf. assert (well s) as Hwell by (split; auto).
    destruct (Hcv Hwell) as [n Hn]. exists n. rewrite Hidle in *.
    destruct (append_history ts p es _ (is_fatal _ (Hc Hwell))) as (es' & Hh & _).
    destruct (append_ghost ts p es (wal_ (engine_ s))) as (Hb & Hd & Hwr).
    eapply covered_grows; [exact Hh|done|done| |done]. unfold settled. by rewrite Hd, Hwr.
Qed.

Lemma covers_engine e s :
  snapshot_ e = snapshot_ (engine_ s) → wal_ e = wal_ (engine_ s) →
  covers s → covers (set_engine e s).
Proof. intros Hsn Hw Hc. unfold covers, well in *. simpl. by rewrite Hsn, Hw. Qed.

(** The snapshot file that has just been put in place has the whole history. *)
Lemma snapshot_taken o text s :
  sound s → consistent s → tables_mutex_ s = None → well s →
  map_Forall table_ok (tables_ (engine_ s)) → kept o = None →
  write_snapshot_file o (GetLastSequence (wal_ (engine_ s))) (tables_ (engine_ s)) = Ret (Some text) →
  loads text (replay (history (ghost (wal_ (engine_ s))))).
Proof.
  intros Hs Hc Hm Hwell Hok Hkept Hfile.
  destruct (Hc Hwell) as [Ht _ _]. unfold in_lock in Ht. rewrite Hm, app_nil_r in Ht. rewrite <- Ht.
  intros e0 He0 Hs0.
  destruct (snapshot_file (W := WalHost) o _ _ Hkept Hok (u64_range (next_sequence_ (wal_ (engine_ s)) - 1)))
    as (text' & Htext & Hload). unfold GetLastSequence in Hfile. rewrite Hfile in Htext.
  destruct (open_ok o && (write_ok o && rename_ok o)); [|done]. injection Htext as <-.
  destruct (Hload e0 He0 Hs0) as (e1 & He1 & Hv). exists e1. split; [done|].
  unfold alike. rewrite Hv. unfold restored_view, views.
  transitivity (jsonly (jsonly (view <$> tables_ (engine_ s)))); [|apply jsonly_idemp].
  f_equal. unfold jsonly. by rewrite <- map_fmap_compose.
Qed.

Lemma well_checkpoint pc e ok s :
  (failed (ghost (wal_ e)) = false → failed (ghost (wal_ (engine_ s))) = false) →
  well (set_checkpoint pc e ok s) → well s ∧ ok = true.
Proof. unfold well. simpl. intros Hf [[H1 H2]%andb_true_iff H3]. auto. Qed.

Lemma covers_snapshot o text s :
  sound s → consistent s → tables_mutex_ s = None → covers s →
  write_snapshot_file o (GetLastSequence (wal_ (engine_ s))) (tables_ (engine_ s)) = Ret (Some text) →
  covers (set_checkpoint Renamed (set_snapshot (Some text) (engine_ s))
            (bool_decide (map_Forall table_ok (tables_ (engine_ s)) ∧ kept o = None)) s).
Proof.
  intros Hs Hc Hm Hcv Hfile [Hwell [Hok Hkept]%bool_decide_eq_true]%well_checkpoint; [|done].
  destruct (Hcv Hwell) as [n [H1 _ H3 _]].
  exists (length (history (ghost (wal_ (engine_ s))))). split; simpl; [done| |lia|done].
  rewrite take_ge by done. by eapply snapshot_taken.
Qed.

Lemma covers_drain p s :
  sound s → consistent s → checkpoint_ s = Renamed → covers s →
  covers (set_checkpoint (Draining p) (set_wal (Drain p (wal_ (engine_ s))) (engine_ s)) true s).
Proof.
  intros Hs Hc Hpc Hcv Hwell'. pose proof (drain_history p (wal_ (engine_ s))) as Hh.
  apply well_checkpoint in Hwell' as [Hwell _].
  2: { simpl. by destruct (drain_failed p (wal_ (engine_ s))) as [-> _]. }
  destruct (Hcv Hwell) as [n [H1 H2 H3 H4]]. rewrite Hpc in H4. exists n. simpl.
  assert (∃ b, Drain p (wal_ (engine_ s)) = enqueue (next_sequence_ (wal_ (engine_ s))) b (wal_ (engine_ s))
               ∧ pb_done b = p) as (b & Hd & Hb).
  { destruct (sound_log _ Hs) as [_ Hst]. unfold Drain. rewrite Hst, (is_fatal _ (Hc Hwell)).
    by eexists. }
  split; rewrite ?Hh; [by rewrite Hd|done|..].
  - unfold dropped_entries. by rewrite Hd.
  - split; [done|]. rewrite Hd. by eexists _, b.
Qed.

Lemma covers_truncated t r s :
  sound s → unanswered (wal_ (engine_ s)) = [] → checkpoint_ s ≠ Idle → covers s →
  covers (set_checkpoint Idle (set_wal (TruncateFile t r (wal_ (engine_ s))).1 (engine_ s)) true s).
Proof.
  intros Hs Hu Hpc Hcv [Hwell _]%well_checkpoint; [|apply truncate_failed].
  destruct (Hcv Hwell) as [n [H1 H2 H3 H4]]. exists n. simpl.
  assert (n = length (history (ghost (wal_ (engine_ s))))) as Hn
    by (destruct (checkpoint_ s); [done|done|by destruct H4]).
  destruct (sound_log _ Hs) as [Hi _].
  eapply (covered_truncate SyncFsync); [done|apply Hwell|done|done|]. by split.
Qed.

Lemma may_truncate_last w : may_truncate (GetLastSequence w) w = true.
Proof. unfold may_truncate, GetLastSequence. by rewrite Z.ltb_irrefl. Qed.

Lemma covers_checkpoint o p t r s s' :
  run_checkpoint o p t r s = Some s' → sound s → consistent s → covers s → covers s'.
Proof.
  unfold run_checkpoint. intros Hr Hs Hc Hcv. rewrite may_truncate_last in Hr. simpl in Hr.
  destruct (checkpoint_ s) as [| |q] eqn:Hpc.
  - case_decide as Hm; [done|]. case_decide; [by simplify_eq|].
    destruct (write_snapshot_file _ _ _) as [[text|]|] eqn:Hf; simplify_eq; [|done].
    by eapply covers_snapshot.
  - destruct (sound_log _ Hs) as [_ Hst]. rewrite Hst in Hr. simpl in Hr.
    destruct (fatal_ (wal_ (engine_ s))) eqn:Hfa.
    + simplify_eq. intros Hwell. pose proof Hwell as [Hwell' _]%well_checkpoint; [|apply truncate_failed].
      by rewrite (is_fatal _ (Hc Hwell')) in Hfa.
    + destruct (fresh_id p _); simplify_eq. by apply covers_drain.
  - destruct (promises _ !! q) as [[b|]|] eqn:Hq; simplify_eq. intros Hwell.
    pose proof Hwell as [Hwell' _]%well_checkpoint; [|apply truncate_failed].
    destruct (Hcv Hwell') as [n [_ _ _ H4]]. rewrite Hpc in H4. destruct H4 as (_ & l & c & Ha & Hcq).
    revert Hwell. apply covers_truncated; [done| |by rewrite Hpc|done].
    destruct (sound_log _ Hs) as [Hi _]. eapply drained; [done|done|]. by rewrite Hcq.
Qed.

Lemma covers_step s s' : thread_step s s' → sound s → consistent s → covers s → covers s'.
Proof.
  intros [a s0 s0' Ha] Hs Hc Hcv.
  assert (∀ i t, call i t s0 = Some s0' → covers s0') as Hcall.
  { unfold call. intros i t. case_decide as Hi; [|done]. intros [= <-].
    apply (covers_frame s0); [by apply frame_same|done|done]. }
  destruct a; simpl in Ha; try by apply (Hcall _ _ Ha).
  - simplify_eq. by apply covers_engine.
  - simplify_eq. by apply covers_engine; [unfold Rollback; destruct (negb (IsActive txn))..|].
  - by eapply covers_frame; [eapply run_thread_frame|..].
  - by eapply covers_checkpoint.
  - simplify_eq. intros Hwell. destruct (sound_log _ Hs) as [Hi _].
    assert (well s0) as Hwell0.
    { destruct Hwell as [Hf Hnf]. split; [done|]. by destruct (writer_failed _ _ _ Hi Hnf). }
    destruct (Hcv Hwell0) as [n Hn]. exists n. by apply covered_writer.
Qed.

Lemma covers_reachable feed s : rtc thread_step (fresh_threads feed) s → covers s.
Proof.
  intros Hr. assert (covers (fresh_threads feed)) as H0.
  { intros _. exists O. split; [done|done| |]; unfold dropped_entries, settled; simpl; lia. }
  pose proof (consistent_reachable feed _ (rtc_refl _ _)) as Hc0.
  pose proof (sound_fresh feed) as Hs0. revert Hs0 Hc0 H0.
  induction Hr as [|x y z Hxy _ IH]; [done|]. intros Hsx Hcx Hx.
  apply IH; [by eapply sound_step|by eapply consistent_step|by eapply covers_step].
Qed.

(** ** Crash and recovery *)

(** The log a new process opens on the file that is left; the outcomes of its
    later writes and its clock do not matter. *)
Definition reopen (f : bytes) : WalHost :=
  {| host := WalWriter.Initialize (length f) f; outcomes := []; clock := 0 |}.

#[local] Instance crash_wal : WalApi WalHost := host_api SyncFsync.

Lemma ReadAll_reopen f : wal_ReadAll (reopen f) = ReadAll f.
Proof. simpl. unfold WriteMagicIfEmpty. case_decide as H; [by subst|done]. Qed.

(** A log file left by a crash holds the history from the last truncation on, at
    least as far as it was settled. *)
Lemma crash_history w f :
  inv SyncFsync w → failed (ghost w) = false → base (ghost w) = [] →
  Forall entry_wf (at_risk w) → crash_image w f →
  ∃ k, (settled (ghost w) <= k)%nat
       ∧ ReadAll f = drop (dropped_entries (ghost w)) (take k (history (ghost w))).
Proof.
  intros Hi Hf Hb Hwf Hcr. destruct (crash_reads w f Hi Hf Hwf Hcr) as (j & Hj & Hw).
  pose proof (settled_prefix _ _ Hi Hf) as Hh. unfold unanswered in Hh.
  rewrite !fmap_app, !concat_app, <- !app_assoc in Hh.
  assert (logged (ghost w) = concat (pb_entries <$> written (ghost w))) as Hl
    by (unfold logged; by rewrite Hb).
  unfold at_risk in Hj. rewrite Hl in Hj.
  set (D := concat (pb_entries <$> dropped (ghost w))) in *.
  set (A := concat (pb_entries <$> written (ghost w))) in *.
  set (B := concat (pb_entries <$> in_flight w)) in *.
  exists (length D + min j (length (A ++ B)))%nat. split.
  - unfold settled. rewrite fmap_app, concat_app, length_app. fold D A. rewrite length_app.
    destruct (decide (written (ghost w) = [])) as [E|E].
    + unfold A. rewrite E. simpl. lia.
    + specialize (Hw E). rewrite Hl in Hw. fold A in Hw. lia.
  - unfold dropped_entries. fold D. rewrite Hh, take_app_add, drop_app_length, Hj.
    rewrite (app_assoc A), (take_app_le (A ++ B) _ (min _ _)) by lia.
    destruct (decide (j <= length (A ++ B))%nat); [by rewrite min_l|].
    rewrite min_r by lia. by rewrite !take_ge by lia.
Qed.

(** An acknowledged batch is in every prefix that has what was settled. *)
Lemma acked_in_prefix m w b k :
  inv m w → failed (ghost w) = false → durable w b → (settled (ghost w) <= k)%nat →
  ∃ pre post, take k (history (ghost w)) = pre ++ pb_entries b ++ post.
Proof.
  intros Hi Hf [Hb Hp] Hk. pose proof (acked_written _ _ _ Hi Hf Hb Hp) as Hdw.
  apply elem_of_app in Hdw as (l & l' & Hl)%list_elem_of_split.
  rewrite (settled_prefix _ _ Hi Hf). unfold settled in Hk. rewrite take_app_ge by done.
  rewrite Hl, fmap_app, fmap_cons, concat_app, concat_cons, <- !app_assoc.
  by eexists _, _.
Qed.

(** Initialisation over a snapshot and a log: the replay of the log over what the
    snapshot loads. *)
Lemma Initialize_replays now f snap n H :
  snapshot_at snap n H → (snap = None → replay (take n H) = ∅) →
  ∃ e, Storage.Initialize now (new_StorageEngine (reopen f) snap) = (e, Ret true)
       ∧ alike (views (tables_ e)) (fold_left spec_entry (ReadAll f) (replay (take n H))).
Proof.
  intros Hsn Hnone. set (e0 := new_StorageEngine (reopen f) snap).
  assert (∃ e1, LoadSnapshotIfPresent e0 = (e1, Ret true)
                ∧ alike (views (tables_ e1)) (replay (take n H))) as (e1 & Hl & Hv).
  { destruct snap as [text|]; [by apply Hsn|]. exists e0. split; [done|]. by rewrite Hnone. }
  exists (RecoverFromWAL now e1). unfold Storage.Initialize. rewrite Hl. split; [done|].
  pose proof (load_wal e0) as Hw. rewrite Hl in Hw. simpl in Hw.
  unfold RecoverFromWAL. rewrite recover_fold, Hw, ReadAll_reopen. by rewrite Hv.
Qed.

(** C1. Crash safety of the storage layer, for the histories in which the log can
    tell what happened.  Take a database in Fsync mode that started fresh, and
    any interleaving of commits, table operations, checkpoints and the log's
    writer in which no write of the log failed and no call was unfaithful: no
    INSERT wrote onto a key that had a row, no commit or table creation stopped
    half-way or threw, every row and schema is in the range of the codecs, every
    snapshot file was closed with all its text.  Stop it at any point, with
    whatever prefix of the log file a power loss leaves (its entries within the
    bounds of the format) and with the snapshot file as it was renamed into
    place; the code never syncs that file, and without it commits can be lost
    ([lost_snapshot_loses_commits]).  A new engine initialises, and, up to what JSON cannot
    express, it holds the replay of a prefix of the history that contains the
    whole write set of every commit that had returned true.  If a checkpoint was
    under way, each table is there or not and each key holds its value as after
    that prefix or as after the whole history. *)
Theorem crash_recovers feed now s f :
  rtc thread_step (fresh_threads feed) s →
  faithful s = true → failed (ghost (wal_ (engine_ s))) = false →
  Forall entry_wf (at_risk (wal_ (engine_ s))) →
  crash_image (wal_ (engine_ s)) f →
  ∃ k e st,
    Storage.Initialize now (new_StorageEngine (reopen f) (snapshot_ (engine_ s))) = (e, Ret true)
    ∧ alike (views (tables_ e)) st
    ∧ mix (replay (take k (history (ghost (wal_ (engine_ s))))))
          (replay (history (ghost (wal_ (engine_ s))))) st
    ∧ (checkpoint_ s = Idle → st = replay (take k (history (ghost (wal_ (engine_ s))))))
    ∧ (∀ i txn, threads_ s !! i = Some (Returned txn (Ret true)) →
       ∃ pre es post, take k (history (ghost (wal_ (engine_ s)))) = pre ++ es ++ post
                      ∧ Forall2 same_write (write_entry txn <$> t_write_set txn) es).
Proof.
  intros Hr Hfa Hnf Hwf Hcr. pose proof (sound_reachable _ _ Hr) as Hs.
  destruct (sound_log _ Hs) as [Hi _].
  destruct (consistent_reachable _ _ Hr (conj Hfa Hnf)) as [_ Heff _].
  apply all_effective_app in Heff as [Heff _].
  destruct (covers_reachable _ _ Hr (conj Hfa Hnf)) as [n [Hb Hsn Hn Hpc]].
  destruct (crash_history _ f Hi Hnf Hb Hwf Hcr) as (k & Hk & Hf).
  set (w := wal_ (engine_ s)) in *. set (H := history (ghost w)) in *.
  destruct (Initialize_replays now f _ n H Hsn) as (e & He & Hv).
  { intros Hnone. rewrite Hnone in Hsn. simpl in Hsn. by subst n. }
  pose proof (dropped_settled (ghost w)).
  destruct (replay_over_snapshot H (dropped_entries (ghost w)) n k Heff Hn) as [Hmix Hcaught]; [lia|].
  exists k, e. rewrite Hf in Hv. eexists. split; [done|]. split; [exact Hv|]. split_and!.
  - destruct (checkpoint_ s).
    + rewrite Hcaught by lia. by split; left.
    + assert (take n H = H) as E by (apply take_ge; fold H in Hpc; lia). by rewrite E in Hmix |- *.
    + destruct Hpc as [Hpc _].
      assert (take n H = H) as E by (apply take_ge; fold H in Hpc; lia). by rewrite E in Hmix |- *.
  - intros Hidle. rewrite Hidle in Hpc. apply Hcaught. lia.
  - intros i txn Hi'. pose proof (sound_threads _ Hs _ _ Hi') as [Hnil|(b & Hbd & Hbt)].
    + exists [], [], (take k H). by rewrite Hnil.
    + destruct (acked_in_prefix _ _ _ k Hi Hnf Hbd Hk) as (pre & post & Hp).
      by exists pre, (pb_entries b), post.
Qed.
End crash.

(** ** Concrete crashes *)

#[local] Existing Instance std_json.
#[local] Existing Instance std_order.
#[local] Existing Instance crash_wal.
Import StorageThreads.ThreadsDemo.
Import StorageCommit.Demo.

(** What a new engine finds on a log file and the snapshot in place. *)
Definition recovered (f : bytes) (s : Threads) : StorageEngine WalHost :=
  (Storage.Initialize 9 (new_StorageEngine (reopen f) (snapshot_ (engine_ s)))).1.

Definition log_file (s : Threads) : bytes := contents (log (wal_ (engine_ s))).
Definition written_next (s : Threads) : bytes := concat (pb_bytes <$> in_flight (wal_ (engine_ s))).

Lemma two_at_risk : Forall entry_wf (at_risk (wal_ (engine_ two))).
Proof. apply (bool_decide_unpack _). vm_compute. exact I. Qed.

Lemma crash_recovers_witness :
  (∃ k e st,
    Storage.Initialize 9 (new_StorageEngine (reopen (log_file two)) (snapshot_ (engine_ two))) = (e, Ret true)
    ∧ alike (views (tables_ e)) st
    ∧ mix (replay (take k (history (ghost (wal_ (engine_ two))))))
          (replay (history (ghost (wal_ (engine_ two))))) st
    ∧ (checkpoint_ two = Idle → st = replay (take k (history (ghost (wal_ (engine_ two))))))
    ∧ (∀ i txn, threads_ two !! i = Some (Returned txn (Ret true)) →
       ∃ pre es post, take k (history (ghost (wal_ (engine_ two)))) = pre ++ es ++ post
                      ∧ Forall2 same_write (write_entry txn <$> t_write_set txn) es))
  ∧ row_columns <$> Get "users" "c" (recovered (log_file two) two) = Some {[ "n" := VInt64 3 ]}.
Proof.
  split; [|vm_compute; reflexivity].
  apply (crash_recovers (Some demo_config) 9 two (log_file two));
    [exact (run_schedule_reaches _ _ _ two_runs)|vm_compute; reflexivity..|exact two_at_risk|].
  split; [by apply prefix_app_r|]. vm_compute. lia.
Defined.

(** A commit of two rows is two records and no end mark: a crash in the middle of
    the write recovers the first row without the second. *)
Definition half_way : Threads :=
  demo_state (create ++ [CallCommit 1 (txn_at 1 [write WINSERT "a" 1; write WINSERT "b" 2]);
                         run 0 1; run 0 1; run 0 1; run 1 1; RunWriter ok_io]).

Theorem torn_batch_recovers_half :
  let f := log_file half_way ++ take (length (written_next half_way) - 5) (written_next half_way) in
  crash_image (wal_ (engine_ half_way)) f
  ∧ row_columns <$> Get "users" "a" (recovered f half_way) = Some {[ "n" := VInt64 1 ]}
  ∧ Get "users" "b" (recovered f half_way) = None.
Proof.
  split; [|vm_compute; split; reflexivity].
  split; [|vm_compute; lia]. apply prefix_app. exists (drop (length (written_next half_way) - 5) (written_next half_way)).
  by rewrite take_drop.
Qed.

(** The snapshot is put in place before the log has caught up with it, and its
    "last_sequence" is not looked at when it is loaded: replaying the older log
    over the newer snapshot takes one row of the last transaction back and leaves
    the other, a state the tables never had. *)
Definition ahead : Threads :=
  demo_state (create ++
    [CallCommit 1 (txn_at 1 [write WINSERT "a" 1; write WINSERT "b" 1]);
     run 0 1; run 0 1; run 0 1; run 1 1;
     CallCommit 2 (txn_at 2 [write WUPDATE "a" 2]); run 0 2; run 0 2; run 2 2] ++ writes ++
    [CallCommit 3 (txn_at 3 [write WUPDATE "a" 3; write WUPDATE "b" 3]);
     run 0 3; run 0 3; run 0 3; run 3 3; RunCheckpoint snapshot_ok 4 true true]).

Theorem snapshot_ahead_of_log :
  let found := recovered (log_file ahead) ahead in
  checkpoint_ ahead = Renamed
  ∧ crash_image (wal_ (engine_ ahead)) (log_file ahead)
  ∧ row_columns <$> Get "users" "a" found = Some {[ "n" := VInt64 2 ]}
  ∧ row_columns <$> Get "users" "b" found = Some {[ "n" := VInt64 3 ]}.
Proof.
  split; [vm_compute; reflexivity|]. split; [|vm_compute; split; reflexivity].
  split; [by apply prefix_app_r|]. vm_compute. lia.
Qed.

(** The snapshot file is never synced, and the end of its stream not looked at;
    the log is truncated all the same.  If the power loss takes the text of the
    snapshot with it, or closing the file has not kept it all, nothing is left of
    a commit that returned true. *)
Definition checkpointed (o : snapshot_io) : Threads :=
  demo_state (create ++ [CallCommit 1 (txn_at 1 [write WINSERT "a" 1]); run 0 1; run 0 1; run 1 1] ++ writes ++
    [run 0 1; run 0 1; run 0 1] ++ [RunCheckpoint o 4 true true; RunCheckpoint o 4 true true] ++ writes ++
    [RunCheckpoint o 4 true true]).
Definition cut_off : snapshot_io := {| open_ok := true; write_ok := true; kept := Some 5%nat; rename_ok := true |}.

Definition found_after (s : Threads) (snapshot : option string) : gmap string (gmap string columns) :=
  views (tables_ (Storage.Initialize 9 (new_StorageEngine (reopen (log_file s)) snapshot)).1).
Definition has_returned (s : Threads) : bool :=
  match threads_ s !! 1%nat with Some (Returned _ (Ret true)) => true | _ => false end.

Theorem lost_snapshot_loses_commits :
  (let s := checkpointed snapshot_ok in
   has_returned s = true ∧ checkpoint_ s = Idle ∧ failed (ghost (wal_ (engine_ s))) = false
   ∧ (found_after s (snapshot_ (engine_ s)) !! "users" ≫= lookup "a") = Some {[ "n" := VInt64 1 ]}
   ∧ found_after s (Some "") = ∅)
  ∧ (let s := checkpointed cut_off in
     has_returned s = true ∧ checkpoint_ s = Idle ∧ found_after s (snapshot_ (engine_ s)) = ∅).
Proof. split; [split_and!|split_and!]; vm_compute; reflexivity. Qed.
