(* ===== verification/RowJson.v ===== *)
(** * Rows of modules as JSON (src/wasm/host_functions.cpp)

    The conversions between stored rows and the JSON objects WebAssembly modules
    exchange with the host: [RowToJson], [JsonToRow] and the Base64 codec behind
    binary columns.  Unlike the JSON of snapshots and events (StorageJson.v) they
    keep binary columns; the theorems state what comes back. *)

From Stdlib Require Import Strings.Ascii.
From S2P Require Import Prelude Table Float64 Json StorageJson.
From coqutil Require Import Byte.

Abbreviation chars := (list ascii).

(** ** Base64 *)

Definition kB64 : chars :=
  String.list_ascii_of_string "ABCDEFGHIJKLMNOPQRSTUVWXYZabcdefghijklmnopqrstuvwxyz0123456789+/".

(** [kB64\[i\]]. *)
Definition b64_char (i : Z) : ascii := nth (Z.to_nat i) kB64 "="%char.
(** [kB64\[(n >> shift) & 63\]]. *)
Definition b64_digit (n shift : Z) : ascii := b64_char (Z.land (Z.shiftr n shift) 63).

(** One round of the loop per three bytes. *)
Fixpoint b64_encode (data : list Z) : chars :=
  match data with
  | [] => []
  | [a] => let n := Z.shiftl a 16 in [b64_digit n 18; b64_digit n 12; "="%char; "="%char]
  | [a; b] =>
      let n := Z.lor (Z.shiftl a 16) (Z.shiftl b 8) in
      [b64_digit n 18; b64_digit n 12; b64_digit n 6; "="%char]
  | a :: b :: c :: data =>
      let n := Z.lor (Z.lor (Z.shiftl a 16) (Z.shiftl b 8)) c in
      b64_digit n 18 :: b64_digit n 12 :: b64_digit n 6 :: b64_digit n 0 :: b64_encode data
  end.

Definition Base64Encode (data : bytes) : string :=
  String.string_of_list_ascii (b64_encode (map byte.unsigned data)).

Definition code (c : ascii) : Z := Z.of_N (N_of_ascii c).
Definition char_range (lo hi c : ascii) : bool := (code lo <=? code c) && (code c <=? code hi).

(** The lambda [val]: the value of a digit, or -1. *)
Definition b64_val (c : ascii) : Z :=
  if char_range "A" "Z" c then code c - code "A"
  else if char_range "a" "z" c then code c - code "a" + 26
  else if char_range "0" "9" c then code c - code "0" + 52
  else if bool_decide (c = "+"%char) then 62
  else if bool_decide (c = "/"%char) then 63
  else -1.

(** The loop over groups of four; only called on a multiple of four characters. *)
Fixpoint b64_decode (l : chars) : option (list Z) :=
  match l with
  | c0 :: c1 :: c2 :: c3 :: l =>
      let a := b64_val c0 in
      let b := b64_val c1 in
      if (a <? 0) || (b <? 0) then None else
      let out0 := [u8 (Z.lor (Z.shiftl a 2) (Z.shiftr b 4))] in
      out ← (if bool_decide (c2 = "="%char) then Some out0 else
        let c := b64_val c2 in
        if c <? 0 then None else
        let out1 := out0 ++ [u8 (Z.lor (Z.shiftl b 4) (Z.shiftr c 2))] in
        if bool_decide (c3 = "="%char) then Some out1 else
        let d := b64_val c3 in
        if d <? 0 then None else Some (out1 ++ [u8 (Z.lor (Z.shiftl c 6) d)]));
      rest ← b64_decode l;
      Some (out ++ rest)
  | _ => Some []
  end.

Definition Base64Decode (s : string) : option bytes :=
  if decide ((String.length s) `mod` 4 ≠ 0)%nat then None
  else map byte.of_Z <$> b64_decode (String.list_ascii_of_string s).

Example base64_rfc : map Base64Encode (map str_bytes ["f"; "fo"; "foo"; "foob"; ""])
  = ["Zg=="; "Zm8="; "Zm9v"; "Zm9vYg=="; ""].
Proof. vm_compute. reflexivity. Qed.
(** The decoder is lenient: padding inside the text, and what follows a lone
    padding character, are ignored. *)
Example base64_lenient : (bytes_str <$> Base64Decode "Zg=AZm8=") = Some "ffo" ∧
  Base64Decode "Zm9" = None ∧ Base64Decode "Zm!=" = None.
Proof. vm_compute. done. Qed.

(** *** Decoding inverts encoding *)

Lemma b64_val_char i : 0 <= i < 64 → b64_val (b64_char i) = i ∧ b64_char i ≠ "="%char.
Proof.
  intros Hi. cut (Forall (λ i, b64_val (b64_char i) = i ∧ b64_char i ≠ "="%char) (seqZ 0 64)).
  { intros H. rewrite Forall_forall in H. apply H. apply elem_of_seqZ. lia. }
  vm_compute. repeat constructor; done.
Qed.

Lemma land_63 n : Z.land n 63 = n mod 64.
Proof. apply (Z.land_ones n 6). lia. Qed.

Lemma b64_digit_spec n shift :
  0 <= shift → b64_val (b64_digit n shift) = (n / 2 ^ shift) mod 64 ∧ b64_digit n shift ≠ "="%char.
Proof.
  intros Hs. unfold b64_digit. rewrite land_63, Z.shiftr_div_pow2 by done.
  apply b64_val_char. apply Z.mod_pos_bound. lia.
Qed.

Lemma lor_shiftl a b k : 0 <= k → 0 <= b < 2 ^ k → Z.lor (Z.shiftl a k) b = a * 2 ^ k + b.
Proof.
  intros Hk Hb. rewrite Z.shiftl_mul_pow2 by done. rewrite <- Z.add_lor_land.
  assert (Z.land (a * 2 ^ k) b = 0) as ->; [|lia].
  apply Z.bits_inj'. intros i Hi. rewrite Z.land_spec, Z.bits_0.
  destruct (Z_lt_dec i k); [by rewrite Z.mul_pow2_bits_low|].
  rewrite <- (Z.mod_small b (2 ^ k)) by done. rewrite Z.mod_pow2_bits_high by lia. apply andb_false_r.
Qed.

(** The four digits of a group, and the three bytes they give back. *)
Lemma group_digits a b c :
  0 <= a < 256 → 0 <= b < 256 → 0 <= c < 256 →
  let n := Z.lor (Z.lor (Z.shiftl a 16) (Z.shiftl b 8)) c in
  n / 2 ^ 18 mod 64 = a / 4 ∧ n / 2 ^ 12 mod 64 = a mod 4 * 16 + b / 16 ∧
  n / 2 ^ 6 mod 64 = b mod 16 * 4 + c / 64 ∧ n / 2 ^ 0 mod 64 = c mod 64.
Proof.
  intros Ha Hb Hc. cbv zeta. rewrite <- Z.lor_assoc, (lor_shiftl b c 8) by lia.
  rewrite lor_shiftl by lia.
  change (2 ^ 18) with 262144; change (2 ^ 12) with 4096; change (2 ^ 6) with 64;
    change (2 ^ 0) with 1; change (2 ^ 16) with 65536; change (2 ^ 8) with 256.
  split_and!; Z.div_mod_to_equations; lia.
Qed.

Lemma group_bytes a b c :
  0 <= a < 256 → 0 <= b < 256 → 0 <= c < 256 →
  u8 (Z.lor (Z.shiftl (a / 4) 2) (Z.shiftr (a mod 4 * 16 + b / 16) 4)) = a ∧
  u8 (Z.lor (Z.shiftl (a mod 4 * 16 + b / 16) 4) (Z.shiftr (b mod 16 * 4 + c / 64) 2)) = b ∧
  u8 (Z.lor (Z.shiftl (b mod 16 * 4 + c / 64) 6) (c mod 64)) = c.
Proof.
  intros Ha Hb Hc. unfold u8. rewrite !Z.shiftr_div_pow2 by lia.
  change (2 ^ 4) with 16; change (2 ^ 8) with 256.
  rewrite !lor_shiftl; [|try lia; try (Z.div_mod_to_equations; lia)..].
  change (2 ^ 2) with 4; change (2 ^ 6) with 64; change (2 ^ 4) with 16.
  split_and!; Z.div_mod_to_equations; lia.
Qed.

Definition is_byte (x : Z) : Prop := 0 <= x < 256.

Lemma b64_decode_group c0 c1 c2 c3 l a b :
  b64_val c0 = a → b64_val c1 = b → 0 <= a → 0 <= b →
  b64_decode (c0 :: c1 :: c2 :: c3 :: l)
  = (out ← (if bool_decide (c2 = "="%char) then Some [u8 (Z.lor (Z.shiftl a 2) (Z.shiftr b 4))] else
        let c := b64_val c2 in
        if c <? 0 then None else
        let out1 := [u8 (Z.lor (Z.shiftl a 2) (Z.shiftr b 4))] ++ [u8 (Z.lor (Z.shiftl b 4) (Z.shiftr c 2))] in
        if bool_decide (c3 = "="%char) then Some out1 else
        let d := b64_val c3 in
        if d <? 0 then None else Some (out1 ++ [u8 (Z.lor (Z.shiftl c 6) d)]));
     rest ← b64_decode l; Some (out ++ rest)).
Proof.
  intros <- <- Ha Hb. cbn [b64_decode].
  by rewrite (proj2 (Z.ltb_ge _ _) Ha), (proj2 (Z.ltb_ge _ _) Hb).
Qed.

Lemma b64_decode_encode data : Forall is_byte data → b64_decode (b64_encode data) = Some data.
Proof.
  remember (length data) as k eqn:Ek. revert data Ek.
  induction k as [k IH] using lt_wf_ind. intros data -> Hd.
  assert (Hgo : ∀ a b c, is_byte a → is_byte b → is_byte c →
    let n := Z.lor (Z.lor (Z.shiftl a 16) (Z.shiftl b 8)) c in
    b64_val (b64_digit n 18) = a / 4 ∧ b64_val (b64_digit n 12) = a mod 4 * 16 + b / 16 ∧
    b64_val (b64_digit n 6) = b mod 16 * 4 + c / 64 ∧ b64_val (b64_digit n 0) = c mod 64).
  { intros a b c Ha Hb Hc n. destruct (group_digits a b c Ha Hb Hc) as (E1 & E2 & E3 & E4).
    fold n in E1, E2, E3, E4. split_and!;
    match goal with |- b64_val (b64_digit n ?s) = _ => destruct (b64_digit_spec n s) as [-> _]; [lia|done] end. }
  assert (Hne : ∀ n s, 0 <= s → bool_decide (b64_digit n s = "="%char) = false).
  { intros n s Hs. apply bool_decide_eq_false. by apply b64_digit_spec. }
  destruct data as [|a [|b [|c data]]].
  - done.
  - apply Forall_cons in Hd as [Ha _].
    destruct (Hgo a 0 0 Ha) as (E1 & E2 & _ & _); [done..|].
    destruct (group_bytes a 0 0 Ha) as (B1 & _ & _); [done..|].
    cbv zeta in *. rewrite Z.shiftl_0_l, !Z.lor_0_r in *. cbn [b64_encode].
    rewrite (b64_decode_group _ _ _ _ _ _ _ E1 E2) by (unfold is_byte in *; Z.div_mod_to_equations; lia).
    rewrite bool_decide_eq_true_2 by done. cbn [mbind option_bind b64_decode app]. by rewrite B1.
  - apply Forall_cons in Hd as [Ha [Hb _]%Forall_cons].
    destruct (Hgo a b 0 Ha Hb) as (E1 & E2 & E3 & _); [done..|].
    destruct (group_bytes a b 0 Ha Hb) as (B1 & B2 & _); [done..|].
    cbv zeta in *. rewrite !Z.lor_0_r in E1, E2, E3. cbn [b64_encode].
    rewrite (b64_decode_group _ _ _ _ _ _ _ E1 E2) by (unfold is_byte in *; Z.div_mod_to_equations; lia).
    rewrite Hne by done. cbv zeta. rewrite E3.
    rewrite (proj2 (Z.ltb_ge _ 0)) by (unfold is_byte in *; Z.div_mod_to_equations; lia).
    rewrite bool_decide_eq_true_2 by done. cbn [mbind option_bind b64_decode app]. by rewrite B1, B2.
  - apply Forall_cons in Hd as [Ha [Hb [Hc Hd]%Forall_cons]%Forall_cons].
    destruct (Hgo a b c Ha Hb Hc) as (E1 & E2 & E3 & E4).
    destruct (group_bytes a b c Ha Hb Hc) as (B1 & B2 & B3).
    cbn [b64_encode]. set (n := Z.lor _ c) in *. cbv zeta.
    rewrite (b64_decode_group _ _ _ _ _ _ _ E1 E2) by (unfold is_byte in *; Z.div_mod_to_equations; lia).
    rewrite !Hne by done. cbv zeta. rewrite E3, E4.
    rewrite !(proj2 (Z.ltb_ge _ 0)) by (unfold is_byte in *; Z.div_mod_to_equations; lia).
    cbn [mbind option_bind app]. rewrite (IH (length data)) by (simpl; auto; lia).
    cbn [mbind option_bind app]. by rewrite B1, B2, B3.
Qed.

Lemma b64_encode_length data : (length (b64_encode data) `mod` 4 = 0)%nat.
Proof.
  remember (length data) as k eqn:Ek. revert data Ek.
  induction k as [k IH] using lt_wf_ind. intros [|a [|b [|c data]]] ->; [done..|].
  cbn [b64_encode length].
  replace (S (S (S (S (length (b64_encode data)))))) with (length (b64_encode data) + 1 * 4)%nat by lia.
  rewrite Nat.Div0.mod_add. apply (IH (length data)); [simpl; lia|done].
Qed.

Lemma Base64_roundtrip data : Base64Decode (Base64Encode data) = Some data.
Proof.
  unfold Base64Decode, Base64Encode.
  assert (∀ l, String.length (String.string_of_list_ascii l) = length l) as Hlen
    by (induction l; simpl; auto).
  rewrite Hlen, b64_encode_length, decide_False by auto.
  rewrite String.list_ascii_of_string_of_list_ascii, b64_decode_encode.
  - simpl. f_equal. rewrite map_map. rewrite (map_ext _ id); [apply map_id|].
    intros x. apply byte.of_Z_unsigned.
  - apply Forall_map, Forall_forall. intros x _. apply byte.unsigned_range.
Qed.

(** ** Rows *)

(** The visitor of [RowToJson]: time points become milliseconds, binary values
    an object with their Base64 text. *)
Definition module_json (v : Value) : json :=
  match v with
  | VNull => JNull
  | VBytes b => JObject [("$bytes", JString (Base64Encode b))]
  | VTime ns => JInt (Z.quot ns 1000000)
  | VString s => JString s
  | VInt32 n | VInt64 n => JInt n
  | VFloat b => JFloat (double_of_float b)
  | VDouble b => JFloat b
  | VBool b => JBool b
  end.

Definition RowToJson (row : Row) : json := object_of (module_json <$> row_columns row).

Section rows.
Context `{JL : JsonLib}.

Definition RowJsonSerializer (row : Row) : exc string := dump (RowToJson row).

(** The chain of type tests of [JsonToRow]. *)
Definition json_column (v : json) : exc Value :=
  match v with
  | JNull => Ret VNull
  | JBool b => Ret (VBool b)
  | JInt n => Ret (VInt64 (i64 n))
  | JFloat b => Ret (VDouble b)
  | JString s => Ret (VString s)
  | _ =>
      match json_field "$bytes" v with
      | Some (JString s) =>
          Ret (match Base64Decode s with Some b => VBytes b | None => VNull end)
      | _ => text ← dump v; Ret (VString text)
      end
  end.

Fixpoint json_columns (items : list (string * json)) (cols : gmap string Value)
    : exc (gmap string Value) :=
  match items with
  | [] => Ret cols
  | (k, v) :: items => c ← json_column v; json_columns items (<[k := c]> cols)
  end.

Definition JsonToRow (key : string) (columns : json) : exc Row :=
  cols ← json_columns (json_items columns) ∅; Ret (mkRow key cols).

(** ** What comes back *)

Definition module_value (v : Value) : Value :=
  match v with
  | VInt32 n => VInt64 n
  | VFloat b => VDouble (double_of_float b)
  | VTime ns => VInt64 (Z.quot ns 1000000)
  | v => v
  end.

(** After a passage through text, a number that is not finite is null. *)
Definition module_text_value (v : Value) : Value :=
  match v with
  | VFloat b => restored_float (double_of_float b)
  | VDouble b => restored_float b
  | v => module_value v
  end.

Lemma quot_ms_range ns : is_i 64 ns → is_i 64 (Z.quot ns 1000000).
Proof. rewrite !is_i64_bounds. intros. Z.quot_rem_to_equations; lia. Qed.

Lemma json_column_module v : value_wf v → json_column (module_json v) = Ret (module_value v).
Proof.
  destruct v; simpl; intros Hv; try done.
  - by rewrite i64_small by by apply is_i_32_64.
  - by rewrite i64_small.
  - by rewrite Base64_roundtrip.
  - by rewrite i64_small by by apply quot_ms_range.
Qed.

Lemma json_column_module_text v :
  value_wf v → json_column (json_text (module_json v)) = Ret (module_text_value v).
Proof.
  destruct v as [|n|n|b|b|s|b|b|ns]; intros Hv; cbn [module_json json_text module_text_value module_value];
    try reflexivity.
  - simpl. by rewrite i64_small by by apply is_i_32_64.
  - simpl. by rewrite i64_small.
  - unfold restored_float. by destruct (double_finite (double_of_float b)).
  - unfold restored_float. by destruct (double_finite b).
  - simpl. by rewrite Base64_roundtrip.
  - simpl. by rewrite i64_small by by apply quot_ms_range.
Qed.

Lemma json_columns_app (f : Value → json) (g : Value → Value) l cols :
  Forall (λ kv : string * Value, json_column (f kv.2) = Ret (g kv.2)) l →
  json_columns ((λ kv, (kv.1, f kv.2)) <$> l) cols
  = Ret (fold_left (λ m kv, <[kv.1 := g kv.2]> m) l cols).
Proof.
  intros Hl. revert cols. induction Hl as [|[k v] l Hv _ IH]; intros cols; [done|].
  cbn [fmap list_fmap json_columns fst snd]. simpl in Hv. rewrite Hv. apply IH.
Qed.

(** An object whose values are converted by [f], read back by [g]. *)
Lemma json_columns_spec (f : Value → json) (g : Value → Value) (m : gmap string Value) :
  map_Forall (λ _ v, json_column (f v) = Ret (g v)) m →
  json_columns (map_iter (f <$> m)) ∅ = Ret (g <$> m).
Proof.
  intros Hm. rewrite map_iter_fmap, (json_columns_app f g).
  - f_equal.
    assert (∀ (l : list (string * Value)) (cols : gmap string Value),
      NoDup l.*1 → (∀ k, k ∈ l.*1 → cols !! k = None) →
      fold_left (λ m kv, <[kv.1 := g kv.2]> m) l cols = (g <$> list_to_map l) ∪ cols) as H.
    { induction l as [|[k v] l IH]; intros cols Hnd Hc; csimpl in *.
      - by rewrite fmap_empty, (left_id_L ∅ (∪)).
      - apply NoDup_cons in Hnd as [Hk Hnd]. rewrite IH; [|done|].
        + rewrite fmap_insert, <- insert_union_l, <- insert_union_r; [done|].
          rewrite lookup_fmap. by rewrite not_elem_of_list_to_map_1.
        + intros k' Hk'. rewrite lookup_insert_ne by (intros ->; done). apply Hc. by right. }
    rewrite H; [|apply map_iter_NoDup|intros; apply lookup_empty].
    by rewrite list_to_map_iter, (right_id_L ∅ (∪)).
  - apply Forall_forall. intros [k v] Hkv%elem_of_map_iter. by apply (Hm k v).
Qed.

(** Rows cross the module boundary.  [JsonToRow] reads back what
    [RowToJson] writes, for every row whose values fit their types: the same
    columns, binary ones exactly (Base64 decodes what it encodes), integers
    widened to 64 bits, floats to doubles, time points truncated to
    milliseconds; through the text the module sees it is the same, except that
    a number that is not finite becomes null. *)
Theorem JsonToRow_RowToJson (key : string) (row : Row)
    (Hrow : map_Forall (λ _ v, value_wf v) (row_columns row)) :
  JsonToRow key (RowToJson row) = Ret (mkRow key (module_value <$> row_columns row)) ∧
  JsonToRow key (json_text (RowToJson row)) = Ret (mkRow key (module_text_value <$> row_columns row)).
Proof.
  unfold JsonToRow, RowToJson. split; simpl json_items.
  - rewrite (json_columns_spec _ module_value); [done|].
    intros k v Hv. apply json_column_module, (Hrow k v Hv).
  - rewrite <- (map_iter_fmap json_text), <- map_fmap_compose.
    rewrite (json_columns_spec (json_text ∘ module_json) module_text_value); [done|].
    intros k v Hv. apply json_column_module_text, (Hrow k v Hv).
Qed.
End rows.

Definition demo_row : Row :=
  mkRow "u1" {[ "id" := VInt32 (-5); "raw" := VBytes [Byte.xff; Byte.x00; Byte.x7f; Byte.x0a];
                "at" := VTime 1999999; "name" := VString "Ada" ]}.

Lemma JsonToRow_RowToJson_witness :
  (module_value <$> row_columns demo_row) !! "raw" = Some (VBytes [Byte.xff; Byte.x00; Byte.x7f; Byte.x0a]) ∧
  (module_value <$> row_columns demo_row) !! "at" = Some (VInt64 1) ∧
  JsonToRow (JL:=std_json) "u1" (RowToJson demo_row)
  = Ret (mkRow "u1" (module_value <$> row_columns demo_row)).
Proof.
  split; [vm_compute; reflexivity|]. split; [vm_compute; reflexivity|].
  apply (JsonToRow_RowToJson (JL:=std_json) "u1" demo_row).
  apply (bool_decide_unpack _). vm_compute. exact I.
Defined.
