(* ===== verification/HostFunctions.v ===== *)
(** * Host functions of WebAssembly modules (src/wasm/host_functions.cpp)

    The functions a reducer calls from inside the sandbox: reads, writes,
    deletes and scans of tables through the call's staged overlay, events,
    identity, clock, results; and [CommitHostCall], which turns the overlay into
    one storage transaction after the reducer returned.

    A host function runs in the monad [Host]: it reads and changes the guest's
    linear memory, the call's context and the storage engine, and ends with a
    result, a trap, an exception that leaves the callback, or a null pointer
    ([Undefined]).  The guest's allocator, which the host calls to place
    results, is guest code, and growing memory belongs to the WebAssembly
    engine: both are the parameters of [Guest].  A [std::map] iterates by key
    ([map_iter]).  The JSON cache of a table is left as it was when a
    serialisation throws.  Log messages are left out. *)

From Stdlib Require Import Strings.Ascii.
From S2P Require Import Prelude Table Codec RowCodec Json MemTable Txn WalStore Changefeed StorageJson Storage RowJson.
From coqutil Require Import Byte.

Definition WASM_ERR_PERMISSION : Z := -2.
Definition WASM_ERR_INVALID_ARG : Z := -3.
Definition WASM_MAX_TABLE_NAME : Z := 256.
Definition WASM_MAX_LOG_MSG : Z := 4096.
Definition WASM_MAX_RESULT : Z := 16 * 1024 * 1024.
Definition WASM_DEFAULT_SCAN_LIMIT : Z := 1000.

(** ** State *)

(** The context's storage engine is [storage] of [HostState]; its changefeed,
    when it has one, is the one that engine publishes to. *)
Record ReducerContext := {
  sender_identity : string;
  module_identity : string;
  connection_id : string;
  timestamp_micros : Z;
  has_changefeed : bool
}.

Record ModuleCapabilities := {
  allowed_tables : list string;
  read_only : bool;
  max_memory_mb : Z;
  cap_timeout_ms : Z
}.

(** What wasmtime holds of an instance: its memory, and which optional exports
    were found. *)
Record Instance := {
  inst_memory : bytes;
  has_free : bool;
  has_describe : bool;
  has_initialize : bool
}.

(** [instantiated] is [instance ≠ None]; the call being executed is
    [current_call] of [HostState]. *)
Record WasmModuleImpl := {
  instance : option Instance;
  memory_limit_bytes : Z;
  timeout_ms : Z;
  debug_stdio : bool;
  caps : option ModuleCapabilities;
  module_name : string
}.

Record StagedEvent := { topic : string; ev_staged_key : string; payload : bytes }.

(** table, key, value; a value of [None] is a staged delete. *)
Abbreviation overlay_map := (gmap string (gmap string (option json))).

Record HostCallContext := {
  rctx : ReducerContext;
  overlay : overlay_map;
  events : list StagedEvent;
  result : bytes;
  has_result : bool;
  abort_msg : string
}.

Definition new_call (r : ReducerContext) : HostCallContext :=
  {| rctx := r; overlay := ∅; events := []; result := []; has_result := false; abort_msg := "" |}.

Definition set_overlay (o : overlay_map) (c : HostCallContext) : HostCallContext :=
  {| rctx := rctx c; overlay := o; events := events c; result := result c;
     has_result := has_result c; abort_msg := abort_msg c |}.

(** The module's memory, the call being executed, the storage engine the
    context points to and the process-wide identifier counter. *)
Record HostState (W : Type) := {
  memory : bytes;
  current_call : option HostCallContext;
  storage : option (StorageEngine W);
  g_id_counter : Z
}.
Arguments memory {W} _.
Arguments current_call {W} _.
Arguments storage {W} _.
Arguments g_id_counter {W} _.

Inductive outcome (A : Type) :=
| Done (a : A)
| Trapped (message : string)
| Escaped (what : string)
| Undefined.
Arguments Done {A} a.
Arguments Trapped {A} message.
Arguments Escaped {A} what.
Arguments Undefined {A}.

(** Computations on a state that end in an outcome. *)
Definition Prog (S A : Type) : Type := S → S * outcome A.
Abbreviation Host W := (Prog (HostState W)).

#[export] Instance Prog_ret S : MRet (Prog S) := λ A a s, (s, Done a).
#[export] Instance Prog_bind S : MBind (Prog S) := λ A B f m s,
  match m s with
  | (s', Done a) => f a s'
  | (s', Trapped t) => (s', Trapped t)
  | (s', Escaped w) => (s', Escaped w)
  | (s', Undefined) => (s', Undefined)
  end.

(** The guest's exported allocator ([None] for an error or a trap), and
    [wasmtime_memory_grow]: the memory grown by some pages and its size in
    pages before. *)
Class Guest (W : Type) := {
  origindb_alloc : Z → HostState W → HostState W * option Z;
  memory_grow : Z → bytes → option (bytes * Z)
}.

(** An exception inside a callback. *)
Definition lift_exc {S A} (m : exc A) : Prog S A := λ s,
  match m with Ret a => (s, Done a) | Throw w => (s, Escaped w) end.

(** A try block with its handler of [std::exception]. *)
Definition try_catch {S A} (p : Prog S A) (handler : string → Prog S A) : Prog S A := λ s,
  match p s with (s', Escaped w) => handler w s' | r => r end.

(** The state, and a change of it. *)
Definition get_state {S} : Prog S S := λ s, (s, Done s).
Definition modify_state {S} (f : S → S) : Prog S () := λ s, (f s, Done ()).

(** Running a sequence. *)
Lemma host_bind_done {S A B} (m : Prog S A) (f : A → Prog S B) s s' a :
  m s = (s', Done a) → (m ≫= f) s = f a s'.
Proof. intros H. unfold mbind, Prog_bind. by rewrite H. Qed.

Lemma host_bind_escaped {S A B} (m : Prog S A) (f : A → Prog S B) s s' w :
  m s = (s', Escaped w) → (m ≫= f) s = (s', Escaped w).
Proof. intros H. unfold mbind, Prog_bind. by rewrite H. Qed.

Lemma host_bind_undefined {S A B} (m : Prog S A) (f : A → Prog S B) s s' :
  m s = (s', Undefined) → (m ≫= f) s = (s', Undefined).
Proof. intros H. unfold mbind, Prog_bind. by rewrite H. Qed.

Lemma host_bind_inv {S A B} (m : Prog S A) (f : A → Prog S B) s s' b :
  (m ≫= f) s = (s', Done b) → ∃ s1 a, m s = (s1, Done a) ∧ f a s1 = (s', Done b).
Proof. unfold mbind, Prog_bind. destruct (m s) as [s1 [a| | |]]; try done. by exists s1, a. Qed.

Ltac host_step H := rewrite (host_bind_done _ _ _ _ _ H); cbv beta.

Section host.
Context {W : Type} `{WA : WalApi W} `{JL : JsonLib} `{HO : HashOrder} `{G : Guest W}.
Variable mod_ : WasmModuleImpl.
Abbreviation state := (HostState W).
Abbreviation Host := (Prog (HostState W)).

Definition set_memory (m : bytes) (s : state) : state :=
  {| memory := m; current_call := current_call s; storage := storage s; g_id_counter := g_id_counter s |}.
Definition set_call (c : HostCallContext) (s : state) : state :=
  {| memory := memory s; current_call := Some c; storage := storage s; g_id_counter := g_id_counter s |}.
Definition set_storage (e : StorageEngine W) (s : state) : state :=
  {| memory := memory s; current_call := current_call s; storage := Some e; g_id_counter := g_id_counter s |}.
Definition set_counter (n : Z) (s : state) : state :=
  {| memory := memory s; current_call := current_call s; storage := storage s; g_id_counter := n |}.

Definition Trap {A} (message : string) : Host A := λ s, (s, Trapped message).

(** ** Guest memory *)

Definition InBounds (mem : bytes) (ptr len : Z) : bool := ptr + len <=? zlength mem.

Definition ReadBytes (ptr len : Z) : Host (option bytes) := λ s,
  (s, Done (if InBounds (memory s) ptr len
            then Some (take (Z.to_nat len) (drop (Z.to_nat ptr) (memory s))) else None)).

(** The bytes before the first NUL, if there is one. *)
Fixpoint until_nul (l : bytes) : option bytes :=
  match l with
  | [] => None
  | b :: l => if bool_decide (b = Byte.x00) then Some [] else r ← until_nul l; Some (b :: r)
  end.

Definition ReadCString (ptr cap : Z) : Host (option string) := λ s,
  let sz := zlength (memory s) in
  (s, Done (if sz <=? ptr then None
            else bytes_str <$> until_nul (take (Z.to_nat (Z.min (sz - ptr) cap))
                                               (drop (Z.to_nat ptr) (memory s))))).

Definition WriteBytes (ptr : Z) (data : bytes) : Host bool := λ s,
  if negb (InBounds (memory s) ptr (u32 (zlength data))) then (s, Done false)
  else if 2 ^ 32 <=? zlength data then (s, Undefined)
  else (set_memory (take (Z.to_nat ptr) (memory s) ++ data
                    ++ drop (Z.to_nat ptr + length data) (memory s)) s, Done true).

Definition WriteU32 (ptr value : Z) : Host bool := WriteBytes ptr (le_bytes 4 value).

Definition GuestAlloc (size : Z) : Host Z := λ s,
  let '(s', r) := origindb_alloc size s in (s', Done (match r with Some p => u32 p | None => 0 end)).

Definition WriteOut (data : string) (out_ptr out_len : Z) : Host bool :=
  buf ← GuestAlloc (u32 (str_len data));
  if (buf =? 0) && negb (bool_decide (data = "")) then mret false else
  written ← (if decide (data = "") then mret true else WriteBytes buf (str_bytes data));
  if negb written then mret false else
  first ← WriteU32 out_ptr buf;
  if negb first then mret false else WriteU32 out_len (u32 (str_len data)).

Definition TableAllowed (table : string) : bool :=
  match caps mod_ with
  | None => true
  | Some c => bool_decide (allowed_tables c = []) || bool_decide (table ∈ allowed_tables c)
  end.

Definition is_read_only : bool := match caps mod_ with Some c => read_only c | None => false end.

(** [OpenFrame]: the active call. *)
Definition OpenFrame : Host HostCallContext := λ s,
  match current_call s with
  | Some c => (s, Done c)
  | None => (s, Trapped "host call outside reducer execution")
  end.

(** [f.call->rctx->storage->...]. *)
Definition get_storage : Host (StorageEngine W) := λ s,
  match storage s with Some e => (s, Done e) | None => (s, Undefined) end.
Definition put_storage (e : StorageEngine W) : Host () := λ s, (set_storage e s, Done ()).
Definition put_call (c : HostCallContext) : Host () := λ s, (set_call c s, Done ()).

(** ** Reads *)

Definition HostTableRead (table_ptr key_ptr key_len out_ptr out_len : Z) : Host Z :=
  call ← OpenFrame;
  table ← ReadCString (u32 table_ptr) WASM_MAX_TABLE_NAME;
  key_bytes ← ReadBytes (u32 key_ptr) (u32 key_len);
  match table, key_bytes with
  | Some table, Some key_bytes =>
      let key := bytes_str key_bytes in
      if negb (TableAllowed table) then mret WASM_ERR_PERMISSION else
      match writes ← overlay call !! table; writes !! key with
      | Some None => mret 0
      | Some (Some value) =>
          text ← lift_exc (dump value);
          ok ← WriteOut text (u32 out_ptr) (u32 out_len);
          if negb ok then Trap "host_table_read: result write failed" else mret 1
      | None =>
          e ← get_storage;
          match GetTable table e with
          | None => mret 0
          | Some tbl =>
              '(tbl', vj) ← lift_exc (GetJsonCached tbl key RowJsonSerializer);
              _ ← put_storage (set_tables (<[table := tbl']> (tables_ e)) e);
              match vj with
              | None => mret 0
              | Some text =>
                  ok ← WriteOut text (u32 out_ptr) (u32 out_len);
                  if negb ok then Trap "host_table_read: result write failed" else mret 1
              end
          end
      end
  | _, _ => Trap "host_table_read: out-of-bounds argument"
  end.

(** ** Writes *)

(** [f.call->overlay\[table\]\[key\] = value]. *)
Definition stage_write (table key : string) (value : option json) (o : overlay_map) : overlay_map :=
  <[table := <[key := value]> (default ∅ (o !! table))]> o.

Definition HostTableWrite (table_ptr key_ptr key_len value_ptr value_len : Z) : Host Z :=
  call ← OpenFrame;
  table ← ReadCString (u32 table_ptr) WASM_MAX_TABLE_NAME;
  key_bytes ← ReadBytes (u32 key_ptr) (u32 key_len);
  value_bytes ← ReadBytes (u32 value_ptr) (u32 value_len);
  match table, key_bytes, value_bytes with
  | Some table, Some key_bytes, Some value_bytes =>
      if is_read_only || negb (TableAllowed table) then mret WASM_ERR_PERMISSION else
      match parse (bytes_str value_bytes) with
      | Some value =>
          if negb (is_object value) then mret WASM_ERR_INVALID_ARG else
          _ ← put_call (set_overlay (stage_write table (bytes_str key_bytes) (Some value) (overlay call)) call);
          mret 0
      | None => mret WASM_ERR_INVALID_ARG
      end
  | _, _, _ => Trap "host_table_write: out-of-bounds argument"
  end.

Definition HostTableDelete (table_ptr key_ptr key_len : Z) : Host Z :=
  call ← OpenFrame;
  table ← ReadCString (u32 table_ptr) WASM_MAX_TABLE_NAME;
  key_bytes ← ReadBytes (u32 key_ptr) (u32 key_len);
  match table, key_bytes with
  | Some table, Some key_bytes =>
      if is_read_only || negb (TableAllowed table) then mret WASM_ERR_PERMISSION else
      _ ← put_call (set_overlay (stage_write table (bytes_str key_bytes) None (overlay call)) call);
      mret 0
  | _, _ => Trap "host_table_delete: out-of-bounds argument"
  end.

(** ** Scans *)

(** The exclusive upper bound of a prefix: the last character that is not 0xFF
    is incremented, the ones after it dropped; empty when there is none. *)
Fixpoint bump_last (rev_prefix : list Byte.byte) : list Byte.byte :=
  match rev_prefix with
  | [] => []
  | b :: l => if byte.unsigned b <? 255 then byte.of_Z (byte.unsigned b + 1) :: l else bump_last l
  end.
Definition prefix_end (prefix : string) : string :=
  bytes_str (rev (bump_last (rev (str_bytes prefix)))).

Definition has_prefix (prefix key : string) : bool := String.prefix prefix key.

(** The loop that applies the staged writes to the rows found. *)
Fixpoint apply_staged (prefix : string) (writes : list (string * option json))
    (rows : gmap string string) : exc (gmap string string) :=
  match writes with
  | [] => Ret rows
  | (key, val) :: writes =>
      if negb (has_prefix prefix key) then apply_staged prefix writes rows
      else match val with
      | Some v => text ← dump v; apply_staged prefix writes (<[key := text]> rows)
      | None => apply_staged prefix writes (delete key rows)
      end
  end.

Definition dquote : string := String (ascii_of_nat 34) "".

(** The loop that builds the array: the text so far and the number of rows. *)
Fixpoint build_array (limit : Z) (rows : list (string * string)) (out : string) (count : Z)
    : exc (string * Z) :=
  match rows with
  | [] => Ret (out, count)
  | (key, value_json) :: rows =>
      if limit <=? count then Ret (out, count) else
      key_text ← dump (JString key);
      build_array limit rows
        (out +:+ (if count =? 0 then "" else ",") +:+ "{" +:+ dquote +:+ "key" +:+ dquote +:+ ":"
         +:+ key_text +:+ "," +:+ dquote +:+ "value" +:+ dquote +:+ ":" +:+ value_json +:+ "}")
        (count + 1)
  end.

Definition collect (prefix : string) (rows : gmap string string) (key value_json : string)
    : gmap string string * bool :=
  (if has_prefix prefix key then <[key := value_json]> rows else rows, true).

Definition HostTableScan (table_ptr prefix_ptr prefix_len limit out_ptr out_len : Z) : Host Z :=
  call ← OpenFrame;
  table ← ReadCString (u32 table_ptr) WASM_MAX_TABLE_NAME;
  prefix_bytes ← ReadBytes (u32 prefix_ptr) (u32 prefix_len);
  match table, prefix_bytes with
  | Some table, Some prefix_bytes =>
      let prefix := bytes_str prefix_bytes in
      if negb (TableAllowed table) then mret WASM_ERR_PERMISSION else
      let limit := if limit <=? 0 then WASM_DEFAULT_SCAN_LIMIT else limit in
      e ← get_storage;
      rows ← (match GetTable table e with
              | None => mret ∅
              | Some tbl =>
                  '(tbl', rows) ← lift_exc (ScanJsonCached tbl prefix (prefix_end prefix)
                                              RowJsonSerializer (collect prefix) ∅);
                  _ ← put_storage (set_tables (<[table := tbl']> (tables_ e)) e);
                  mret rows
              end);
      rows ← lift_exc (apply_staged prefix (map_iter (default ∅ (overlay call !! table))) rows);
      '(text, count) ← lift_exc (build_array limit (map_iter rows) "[" 0);
      ok ← WriteOut (text +:+ "]") (u32 out_ptr) (u32 out_len);
      if negb ok then Trap "host_table_scan: result write failed" else mret (i32 count)
  | _, _ => Trap "host_table_scan: out-of-bounds argument"
  end.

(** ** Events, identity and results *)

Definition HostEmitEvent (topic_ptr key_ptr key_len payload_ptr payload_len : Z) : Host Z :=
  call ← OpenFrame;
  topic ← ReadCString (u32 topic_ptr) WASM_MAX_TABLE_NAME;
  key_bytes ← ReadBytes (u32 key_ptr) (u32 key_len);
  payload ← ReadBytes (u32 payload_ptr) (u32 payload_len);
  match topic, key_bytes, payload with
  | Some topic, Some key_bytes, Some payload =>
      let ev := {| topic := topic; ev_staged_key := bytes_str key_bytes; payload := payload |} in
      _ ← put_call {| rctx := rctx call; overlay := overlay call; events := events call ++ [ev];
                      result := result call; has_result := has_result call;
                      abort_msg := abort_msg call |};
      mret 0
  | _, _, _ => Trap "host_emit_event: out-of-bounds argument"
  end.

Definition HostNowMs : Host Z :=
  call ← OpenFrame; mret (i64 (timestamp_micros (rctx call) / 1000)).

(** [g_id_counter.fetch_add(1)]. *)
Definition fetch_add : Host Z := λ s,
  (set_counter (u64 (g_id_counter s + 1)) s, Done (g_id_counter s)).

Definition HostGenerateId : Host Z :=
  call ← OpenFrame;
  let ms := timestamp_micros (rctx call) / 1000 in
  n ← fetch_add;
  mret (i64 (Z.lor (u64 (Z.shiftl ms 20)) (Z.land n 0xFFFFF))).

Definition HostLog (level msg_ptr : Z) : Host () :=
  msg ← ReadCString (u32 msg_ptr) WASM_MAX_LOG_MSG;
  match msg with Some _ => mret () | None => Trap "host_log: out-of-bounds message" end.

Definition HostAbort (msg_ptr : Z) : Host () :=
  call ← OpenFrame;
  msg ← ReadCString (u32 msg_ptr) WASM_MAX_LOG_MSG;
  let text := default "(unreadable abort message)" msg in
  _ ← put_call {| rctx := rctx call; overlay := overlay call; events := events call;
                  result := result call; has_result := has_result call; abort_msg := text |};
  Trap ("aborted: " +:+ text).

Definition HostAlloc (size : Z) : Host Z := λ s,
  let size := u32 size in
  if size =? 0 then (s, Done 0) else
  match memory_grow ((size + 65535) / 65536) (memory s) with
  | None => (s, Done 0)
  | Some (mem, prev) => (set_memory mem s, Done (i32 (u64 (prev * 65536))))
  end.

Definition HostFree (ptr : Z) : Host () := mret ().

Definition HostSetResult (ptr len : Z) : Host () :=
  call ← OpenFrame;
  let len := u32 len in
  if WASM_MAX_RESULT <? len then Trap "host_set_result: payload exceeds 16MiB cap" else
  bytes ← ReadBytes (u32 ptr) len;
  match bytes with
  | None => Trap "host_set_result: out-of-bounds payload"
  | Some b => put_call {| rctx := rctx call; overlay := overlay call; events := events call;
                          result := b; has_result := true; abort_msg := abort_msg call |}
  end.

Definition HostSender (out_ptr out_len : Z) : Host Z :=
  call ← OpenFrame;
  let who := sender_identity (rctx call) in
  if bool_decide (who = "") then mret 0 else
  ok ← WriteOut who (u32 out_ptr) (u32 out_len);
  if negb ok then Trap "host_sender: result write failed" else mret (i32 (str_len who)).

(** ** The commit of a call *)

Definition json_type (v : json) : DataType :=
  match v with
  | JBool _ => BOOLEAN | JInt _ => INT64 | JFloat _ => DOUBLE | _ => STRING
  end.

Definition SchemaFromJson (table : string) (columns : json) : TableSchema :=
  {| sch_name := table;
     sch_columns := (λ kv : string * json,
       {| col_name := kv.1; col_type := json_type kv.2; nullable := true;
          is_primary_key := false; default_value := DefNone |}) <$> json_items columns;
     primary_key := []; sch_options := ∅ |}.

(** The value a missing table is created from: its first staged write that is
    not a delete. *)
Definition first_value (writes : gmap string (option json)) : option json :=
  head (omap snd (map_iter writes)).

(** The loop that creates the missing tables; [Some] is the error it returns. *)
Fixpoint create_missing (tables : list (string * gmap string (option json)))
    (e : StorageEngine W) : StorageEngine W * exc (option string) :=
  match tables with
  | [] => (e, Ret None)
  | (table, writes) :: tables =>
      match GetTable table e, first_value writes with
      | Some _, _ | None, None => create_missing tables e
      | None, Some val =>
          match CreateTable (SchemaFromJson table val) e with
          | (e1, Throw w) => (e1, Throw w)
          | (e1, Ret created) =>
              if negb created && bool_decide (GetTable table e1 = None)
              then (e1, Ret (Some ("failed to auto-create table: " +:+ table)))
              else create_missing tables e1
          end
      end
  end.

(** The staged writes in the order of the two nested loops. *)
Definition overlay_writes (o : overlay_map) : list (string * string * option json) :=
  '(table, writes) ← map_iter o; '(key, val) ← map_iter writes; [(table, key, val)].

Definition stage_one (e : StorageEngine W) (txn : Transaction) (table key : string)
    (val : option json) : exc (Transaction * bool) :=
  match val with
  | None => Ret (Txn.Delete txn table key)
  | Some v =>
      row ← JsonToRow key v;
      Ret (match Storage.Get table key e with
           | Some _ => Txn.Update txn table key row
           | None => Txn.Insert txn table row
           end)
  end.

(** The loop that stages the writes; [inr] is the write that failed. *)
Fixpoint stage_all (e : StorageEngine W) (ws : list (string * string * option json))
    (txn : Transaction) : exc (Transaction + Transaction * (string * string)) :=
  match ws with
  | [] => Ret (inl txn)
  | (table, key, val) :: ws =>
      '(txn', ok) ← stage_one e txn table key val;
      if ok : bool then stage_all e ws txn' else Ret (inr (txn', (table, key)))
  end.

Definition staged_event (now : Z) (ev : StagedEvent) : ChangefeedEvent :=
  {| ev_offset := 0; ev_transaction_id := "wasm-" +:+ module_name mod_; ev_table := topic ev;
     ev_operation := "EVENT"; ev_key := str_bytes (ev_staged_key ev); ev_old_value := [];
     ev_new_value := payload ev; ev_timestamp := now |}.

(** Everything up to the publication of the events. *)
Definition commit_overlay (now : Z) (o : overlay_map) (e : StorageEngine W)
    : StorageEngine W * exc (bool * string) :=
  if decide (o = ∅) then (e, Ret (true, "")) else
  match create_missing (map_iter o) e with
  | (e1, Throw w) => (e1, Throw w)
  | (e1, Ret (Some error)) => (e1, Ret (false, error))
  | (e1, Ret None) =>
      let '(e2, txn) := BeginTransaction READ_COMMITTED e1 in
      match stage_all e2 (overlay_writes o) txn with
      | Throw w => (e2, Throw w)
      | Ret (inr (txn1, (table, key))) =>
          let '(e3, _, _) := Rollback txn1 e2 in
          (e3, Ret (false, "failed to stage write to " +:+ table +:+ "/" +:+ key))
      | Ret (inl txn1) =>
          match Commit now txn1 e2 with
          | (e3, _, Throw w) => (e3, Throw w)
          | (e3, _, Ret true) => (e3, Ret (true, ""))
          | (e3, _, Ret false) => (e3, Ret (false, "transaction commit failed"))
          end
      end
  end.

(** The context's changefeed is the one the engine publishes to. *)
Definition CommitHostCall (now : Z) (call : HostCallContext) (storage : option (StorageEngine W))
    : option (StorageEngine W) * exc (bool * string) :=
  match storage with
  | None => (None, Ret (false, "no storage engine in reducer context"))
  | Some e =>
      match commit_overlay now (overlay call) e with
      | (e1, Ret (true, error)) =>
          (Some (if has_changefeed (rctx call)
                 then publish_all now (staged_event now <$> events call) e1 else e1),
           Ret (true, error))
      | (e1, r) => (Some e1, r)
      end
  end.
End host.

Arguments Trap {W A} message _.
