(* ===== verification/HostReads.v ===== *)
(** * What a reducer reads

    A host read sees the committed rows with the call's staged writes on top:
    [host_table_read] answers one key of that merged view, [host_table_scan]
    the first keys with a prefix, in key order, as a JSON array.  Rows reach the
    guest through the JSON cache of the tables, which stays coherent. *)

From Stdlib Require Import Strings.Ascii.
From S2P Require Import Prelude Table Codec RowCodec Json MemTable Txn WalStore Changefeed StorageJson Storage RowJson StorageCommit HostFunctions.
From coqutil Require Import Byte.

(** ** Keys with a prefix lie in the scanned range *)

Lemma append_empty_r s : s +:+ "" = s.
Proof. induction s as [|c s IH]; [done|exact (f_equal (String c) IH)]. Qed.
Lemma append_assoc x y z : (x +:+ y) +:+ z = x +:+ (y +:+ z).
Proof. induction x as [|c x IH]; [done|exact (f_equal (String c) IH)]. Qed.

Lemma prefix_app p k : String.prefix p k = true → ∃ r, k = p +:+ r.
Proof.
  revert k. induction p as [|a p IH]; intros k; [by exists k|].
  destruct k as [|b k]; simpl; [done|]. destruct (ascii_dec a b) as [->|]; [|done].
  intros [r ->]%IH. by exists r.
Qed.

Lemma prefix_app_true p r : String.prefix p (p +:+ r) = true.
Proof.
  induction p as [|a p IH]; simpl; [by destruct r|]. by destruct (ascii_dec a a).
Qed.

Lemma compare_app q a b : String.compare (q +:+ a) (q +:+ b) = String.compare a b.
Proof.
  induction q as [|c q IH]; [done|]. simpl. unfold Ascii.compare. by rewrite N.compare_refl.
Qed.

Lemma bytes_str_app a b : bytes_str (a ++ b) = bytes_str a +:+ bytes_str b.
Proof.
  unfold bytes_str, String.string_of_list_byte. rewrite map_app.
  induction (map ascii_of_byte a) as [|x l IH]; [done|].
  exact (f_equal (String x) IH).
Qed.

Lemma byte_succ_gt b :
  byte.unsigned b < 255 →
  Ascii.compare (ascii_of_byte b) (ascii_of_byte (byte.of_Z (byte.unsigned b + 1))) = Lt.
Proof. destruct b; vm_compute; done. Qed.

Lemma bump_last_cases l :
  bump_last l = [] ∨
  ∃ pre b post, l = pre ++ b :: post ∧ byte.unsigned b < 255
                ∧ bump_last l = byte.of_Z (byte.unsigned b + 1) :: post.
Proof.
  induction l as [|b l IH]; [by left|]. cbn [bump_last].
  destruct (byte.unsigned b <? 255) eqn:Eb.
  - right. exists [], b, l. apply Z.ltb_lt in Eb. done.
  - destruct IH as [?|(pre & b' & post & -> & Hb & ->)]; [by left|].
    right. by exists (b :: pre), b', post.
Qed.

Lemma prefix_le p k : has_prefix p k = true → String.le p k.
Proof.
  unfold has_prefix. intros [r ->]%prefix_app. unfold String.le, String.leb.
  rewrite <- (append_empty_r p) at 1. rewrite compare_app. by destruct r.
Qed.

Lemma prefix_end_le p k :
  has_prefix p k = true → prefix_end p = "" ∨ String.le k (prefix_end p).
Proof.
  unfold has_prefix, prefix_end. intros [r ->]%prefix_app.
  destruct (bump_last_cases (rev (str_bytes p))) as [->|(pre & b & post & Hl & Hb & ->)]; [by left|].
  right. assert (p = bytes_str (rev post) +:+ String (ascii_of_byte b) (bytes_str (rev pre))) as ->.
  { rewrite <- (bytes_str_bytes p) at 1. rewrite <- (rev_involutive (str_bytes p)), Hl, rev_app_distr.
    simpl. rewrite <- app_assoc, bytes_str_app. done. }
  simpl rev. rewrite bytes_str_app. unfold String.le, String.leb.
  rewrite append_assoc, compare_app. simpl. by rewrite byte_succ_gt.
Qed.

Lemma prefix_in_range {A} p k (x : A) :
  has_prefix p k = true → in_scan_range p (prefix_end p) (k, x).
Proof. intros H. split; [right; by apply prefix_le|by apply prefix_end_le]. Qed.

(** ** The merged view *)

Section reads.
Context {W : Type} `{WA : WalApi W} `{JL : JsonLib} `{HO : HashOrder} `{G : Guest W}.
Variable mod_ : WasmModuleImpl.
Abbreviation state := (HostState W).

(** The text of a key as the call sees it: its staged value, nothing when it
    is a staged delete, else the committed row. *)
Definition merged (o : overlay_map) (e : StorageEngine W) (table key : string)
    : option (exc string) :=
  match writes ← o !! table; writes !! key with
  | Some val => dump <$> val
  | None => RowJsonSerializer <$> Storage.Get table key e
  end.

Definition caches_ok (e : StorageEngine W) : Prop :=
  map_Forall (λ _ t, cache_ok RowJsonSerializer t) (tables_ e).

(** Only the JSON caches differ. *)
Definition no_cache (t : MemTable) : MemTable := set_cache t ∅.
Definition cache_only (e e' : StorageEngine W) : Prop :=
  no_cache <$> tables_ e' = no_cache <$> tables_ e ∧ e' = set_tables (tables_ e') e.

Lemma cache_only_refl e : cache_only e e.
Proof. split; [done|]. by destruct e. Qed.

Lemma cache_only_trans e1 e2 e3 : cache_only e1 e2 → cache_only e2 e3 → cache_only e1 e3.
Proof. intros [H1 E1] [H2 E2]. split; [by rewrite H2|]. rewrite E2, E1. done. Qed.

Lemma cache_only_insert e table t t' :
  tables_ e !! table = Some t → no_cache t' = no_cache t →
  cache_only e (set_tables (<[table := t']> (tables_ e)) e).
Proof.
  intros Ht Hr. split; [|done]. simpl. rewrite fmap_insert, Hr. apply insert_id.
  by rewrite lookup_fmap, Ht.
Qed.

Lemma CachedJson_no_cache t key row ser t' j :
  CachedJson t key row ser = Ret (t', j) → no_cache t' = no_cache t.
Proof.
  unfold CachedJson. destruct (json_cache_ t !! key); [by intros [= <- <-]|].
  destruct (ser row); cbn [mbind exc_bind]; [|done]. by intros [= <- <-].
Qed.

Lemma GetJsonCached_no_cache t key ser t' r :
  GetJsonCached t key ser = Ret (t', r) → no_cache t' = no_cache t.
Proof.
  unfold GetJsonCached. destruct (rows_ t !! key) as [row|]; [|by intros [= <- <-]].
  destruct (CachedJson t key row ser) as [[t1 j]|] eqn:Ec; cbn [mbind exc_bind]; [|done].
  intros [= <- <-]. by eapply CachedJson_no_cache.
Qed.

Lemma ScanJsonCached_no_cache {S} t a b ser (cb : S → string → string → S * bool) s t' s' :
  ScanJsonCached t a b ser cb s = Ret (t', s') → no_cache t' = no_cache t.
Proof.
  unfold ScanJsonCached. generalize (scan_begin a (rows_ t)). intros l. revert t s.
  induction l as [|[k r] l IH]; intros t s; cbn [scan_loop]; [by intros [= <- <-]|].
  destruct (_ && _); [by intros [= <- <-]|]. cbn [fst snd].
  destruct (CachedJson t k r ser) as [[t1 j]|] eqn:Ec; cbn [mbind exc_bind]; [|done].
  apply CachedJson_no_cache in Ec. destruct (cb s k j) as [s1 [|]].
  - intros H%IH. congruence.
  - intros [= <- <-]. done.
Qed.

Lemma caches_ok_insert e table t' :
  caches_ok e → cache_ok RowJsonSerializer t' →
  caches_ok (set_tables (<[table := t']> (tables_ e)) e).
Proof. intros He Ht. by apply map_Forall_insert_2. Qed.

(** *** Scanning the committed rows *)

Definition exc_value {A} (m : exc A) : option A := match m with Ret a => Some a | Throw _ => None end.

Lemma feed_collect prefix l rows :
  NoDup l.*1 → (∀ k r, (k, r) ∈ l → ∃ t, RowJsonSerializer r = Ret t) →
  ∃ rows', feed (λ s k r, j ← RowJsonSerializer r; Ret (collect prefix s k j)) l rows = Ret rows' ∧
    ∀ key, rows' !! key = match (list_to_map l : gmap string Row) !! key with
                          | Some r => if has_prefix prefix key then exc_value (RowJsonSerializer r)
                                      else rows !! key
                          | None => rows !! key
                          end.
Proof.
  revert rows. induction l as [|[k r] l IH]; intros rows Hnd Hl; [by exists rows|].
  csimpl in *. apply NoDup_cons in Hnd as [Hk Hnd].
  destruct (Hl k r (list_elem_of_here _ _)) as [t Ht]. rewrite Ht. unfold collect at 1.
  destruct (IH (if has_prefix prefix k then <[k := t]> rows else rows) Hnd) as (rows' & Hf & Hrows').
  { intros k' r' Hin. apply (Hl k' r'). by right. }
  exists rows'. split; [exact Hf|]. intros key. rewrite Hrows'.
  destruct (decide (key = k)) as [->|Hne].
  - rewrite lookup_insert_eq, not_elem_of_list_to_map_1 by done. rewrite Ht. simpl.
    destruct (has_prefix prefix k); [by rewrite lookup_insert_eq|done].
  - rewrite lookup_insert_ne by done.
    destruct (list_to_map l !! key), (has_prefix prefix k), (has_prefix prefix key);
      by rewrite ?lookup_insert_ne by done.
Qed.

Lemma scan_committed prefix t :
  cache_ok RowJsonSerializer t →
  (∀ k r, rows_ t !! k = Some r → ∃ j, RowJsonSerializer r = Ret j) →
  ∃ t' rows, ScanJsonCached t prefix (prefix_end prefix) RowJsonSerializer (collect prefix) ∅
             = Ret (t', rows) ∧ cache_ok RowJsonSerializer t' ∧ rows_ t' = rows_ t ∧
    ∀ key, rows !! key = if has_prefix prefix key
                         then r ← rows_ t !! key; exc_value (RowJsonSerializer r) else None.
Proof.
  intros Hc Hser. unfold ScanJsonCached. rewrite scan_range_feed.
  set (l := filter (in_scan_range prefix (prefix_end prefix)) (map_iter (rows_ t))).
  assert (Hl : ∀ k r, (k, r) ∈ l → rows_ t !! k = Some r).
  { intros k r [_ Hin]%list_elem_of_filter. by apply elem_of_map_iter. }
  assert (Hnd : NoDup l.*1).
  { eapply sublist_NoDup; [apply (map_iter_NoDup (rows_ t))|]. apply fmap_sublist, sublist_filter. }
  pose proof (cache_ok_scan RowJsonSerializer (collect prefix) l t ∅ Hc Hl) as Hscan.
  destruct (feed_collect prefix l ∅ Hnd) as (rows & Hf & Hrows); [naive_solver|].
  destruct (feed _ l (t, ∅)) as [[t' s']|w]; [|congruence].
  destruct Hscan as (Hs' & Hc' & Hr'). rewrite Hf in Hs'. injection Hs' as <-.
  exists t', rows. split_and!; [done..|]. intros key. rewrite Hrows, lookup_empty.
  destruct (list_to_map l !! key) as [r|] eqn:Hkey.
  - apply elem_of_list_to_map_2, Hl in Hkey as ->. done.
  - apply not_elem_of_list_to_map in Hkey.
    destruct (has_prefix prefix key) eqn:Hp; [|done].
    destruct (rows_ t !! key) as [r|] eqn:Hr; [|done]. destruct Hkey.
    apply list_elem_of_fmap. exists (key, r). split; [done|].
    apply list_elem_of_filter. split; [by apply prefix_in_range|by apply elem_of_map_iter].
Qed.

(** *** Laying the staged writes over them *)

Lemma apply_staged_spec prefix l rows :
  NoDup l.*1 → (∀ k v, (k, Some v) ∈ l → has_prefix prefix k = true → ∃ t, dump v = Ret t) →
  ∃ rows', apply_staged prefix l rows = Ret rows' ∧
    ∀ key, rows' !! key = match (list_to_map l : gmap string (option json)) !! key with
                          | Some val => if has_prefix prefix key
                                        then v ← val; exc_value (dump v) else rows !! key
                          | None => rows !! key
                          end.
Proof.
  revert rows. induction l as [|[k val] l IH]; intros rows Hnd Hl; [by exists rows|].
  csimpl in *. apply NoDup_cons in Hnd as [Hk Hnd].
  assert (Hl' : ∀ k v, (k, Some v) ∈ l → has_prefix prefix k = true → ∃ t, dump v = Ret t).
  { intros k' v Hin. apply Hl. by right. }
  assert (Hstep : ∀ rows1 : gmap string string,
    (∀ key, key ≠ k → rows1 !! key = rows !! key) →
    rows1 !! k = (if has_prefix prefix k then v ← val; exc_value (dump v) else rows !! k) →
    ∃ rows', apply_staged prefix l rows1 = Ret rows' ∧
      ∀ key, rows' !! key = match <[k:=val]> (list_to_map l : gmap string (option json)) !! key with
             | Some val => if has_prefix prefix key then v ← val; exc_value (dump v) else rows !! key
             | None => rows !! key end).
  { intros rows1 Hne Heq. destruct (IH rows1 Hnd Hl') as (rows' & Ha & Hrows'). exists rows'.
    split; [done|]. intros key. rewrite Hrows'. destruct (decide (key = k)) as [->|Hk'].
    - by rewrite lookup_insert_eq, not_elem_of_list_to_map_1.
    - rewrite lookup_insert_ne by done. by rewrite Hne. }
  destruct (has_prefix prefix k) eqn:Hp; simpl; [|by apply Hstep].
  destruct val as [v|].
  - destruct (Hl k v (list_elem_of_here _ _) Hp) as [t Ht]. rewrite Ht. simpl.
    apply Hstep; simpl; [intros; by rewrite lookup_insert_ne|by rewrite Ht, lookup_insert_eq].
  - apply Hstep; simpl; [intros; by rewrite lookup_delete_ne|by rewrite lookup_delete_eq].
Qed.

(** *** The array *)

Definition scan_item (kv : string * string) : exc string :=
  key_text ← dump (JString kv.1);
  Ret ("{" +:+ dquote +:+ "key" +:+ dquote +:+ ":" +:+ key_text +:+ "," +:+ dquote +:+ "value"
       +:+ dquote +:+ ":" +:+ kv.2 +:+ "}").

(** What the guest gets for some rows: the array's text. *)
Definition scan_text (rows : list (string * string)) : exc string :=
  items ← exc_map scan_item rows; Ret ("[" +:+ String.concat "," items +:+ "]").

Lemma concat_snoc sep l x :
  String.concat sep (l ++ [x]) = String.concat sep l +:+ (if decide (l = []) then "" else sep) +:+ x.
Proof.
  induction l as [|y l IH]; [done|]. rewrite decide_False by done.
  destruct l as [|z l]; [done|]. rewrite decide_False in IH by done.
  change (y +:+ sep +:+ String.concat sep ((z :: l) ++ [x])
          = (y +:+ sep +:+ String.concat sep (z :: l)) +:+ sep +:+ x).
  rewrite IH, !append_assoc. done.
Qed.

Lemma build_array_spec limit l : ∀ items,
  0 < limit → zlength items <= limit →
  build_array limit l ("[" +:+ String.concat "," items) (zlength items)
  = (rest ← exc_map scan_item (take (Z.to_nat (limit - zlength items)) l);
     Ret ("[" +:+ String.concat "," (items ++ rest), zlength (items ++ rest))).
Proof.
  induction l as [|[k v] l IH]; intros items Hlim Hit; cbn [build_array].
  - rewrite take_nil. simpl. by rewrite app_nil_r.
  - destruct (limit <=? zlength items) eqn:Ec.
    { apply Z.leb_le in Ec. replace (Z.to_nat (limit - zlength items)) with 0%nat by lia.
      simpl. by rewrite app_nil_r. }
    apply Z.leb_gt in Ec.
    replace (Z.to_nat (limit - zlength items)) with (S (Z.to_nat (limit - (zlength items + 1)))) by lia.
    cbn [take exc_map]. unfold scan_item at 2. cbn [fst snd].
    destruct (dump (JString k)) as [kt|w]; [|reflexivity]. cbn [mbind exc_bind].
    set (item := "{" +:+ _).
    assert (Hz : zlength (items ++ [item]) = zlength items + 1) by (rewrite zlength_app; done).
    rewrite <- Hz. replace (("[" +:+ String.concat "," items) +:+ _)
      with ("[" +:+ String.concat "," (items ++ [item])).
    + rewrite IH by lia. destruct (exc_map _ _) as [rest|]; [|done]. cbn [mbind exc_bind].
      by rewrite <- app_assoc.
    + rewrite concat_snoc, !append_assoc. do 2 f_equal.
      destruct items as [|x items]; [done|]. rewrite decide_False by done.
      rewrite (proj2 (Z.eqb_neq _ _)); [done|]. unfold zlength. simpl. lia.
Qed.

Lemma exc_map_length {A B} (f : A → exc B) l l' : exc_map f l = Ret l' → length l' = length l.
Proof.
  revert l'. induction l as [|a l IH]; intros l'; simpl; [by intros [= <-]|].
  destruct (f a) as [b|]; simpl; [|done]. destruct (exc_map f l) as [bs|]; simpl; [|done].
  intros [= <-]. simpl. by rewrite (IH bs).
Qed.

(** The result of a host call that hands a text to the guest. *)
Definition answer (trap text : string) (out_ptr out_len result : Z) : Host W Z :=
  ok ← WriteOut text (u32 out_ptr) (u32 out_len);
  if negb ok then Trap trap else mret result.

Lemma set_storage_same (e : StorageEngine W) s : storage s = Some e → set_storage e s = s.
Proof. destruct s; simpl. intros ->. done. Qed.

Lemma OpenFrame_some call (s : state) : current_call s = Some call → OpenFrame s = (s, Done call).
Proof. intros H. unfold OpenFrame. by rewrite H. Qed.

Lemma get_storage_some e (s : state) : storage s = Some e → get_storage s = (s, Done e).
Proof. intros H. unfold get_storage. by rewrite H. Qed.

Lemma read_committed table key e :
  caches_ok e →
  match GetTable table e with
  | None => Storage.Get table key e = None
  | Some t =>
      match GetJsonCached t key RowJsonSerializer with
      | Ret (t', r) =>
          let e' := set_tables (<[table := t']> (tables_ e)) e in
          cache_only e e' ∧ caches_ok e' ∧
          match RowJsonSerializer <$> Storage.Get table key e with
          | None => r = None | Some m => ∃ j, m = Ret j ∧ r = Some j
          end
      | Throw w => RowJsonSerializer <$> Storage.Get table key e = Some (Throw w)
      end
  end.
Proof.
  intros Hc. unfold Storage.Get, GetTable. destruct (tables_ e !! table) as [t|] eqn:Ht; [|done].
  cbn [mbind option_bind]. unfold GetJsonCached, MemTable.Get.
  pose proof (Hc _ _ Ht) as Hct. simpl in Hct.
  destruct (rows_ t !! key) as [row|] eqn:Hrow.
  - pose proof (CachedJson_ok _ _ _ _ Hct Hrow) as Hk.
    destruct (CachedJson t key row RowJsonSerializer) as [[t' j]|w] eqn:Ecj; cbn [mbind exc_bind fmap option_fmap option_map].
    + apply CachedJson_no_cache in Ecj. destruct Hk as (Hs & Hct' & Hr). split_and!; [by eapply cache_only_insert|by apply caches_ok_insert|].
      by exists j.
    + by rewrite Hk.
  - split_and!; [by eapply cache_only_insert|by apply caches_ok_insert|done].
Qed.

Lemma scan_merged table prefix o e (texts : gmap string string) (s : state) :
  storage s = Some e → caches_ok e →
  (∀ t k row, tables_ e !! table = Some t → rows_ t !! k = Some row → ∃ j, RowJsonSerializer row = Ret j) →
  (∀ key, match (if has_prefix prefix key then merged o e table key else None) with
          | Some m => ∃ text, m = Ret text ∧ texts !! key = Some text
          | None => texts !! key = None
          end) →
  ∃ e' rows, cache_only e e' ∧ caches_ok e' ∧
    (match GetTable table e with
     | None => mret ∅
     | Some tbl =>
         '(tbl', rows) ← lift_exc (ScanJsonCached tbl prefix (prefix_end prefix)
                                     RowJsonSerializer (collect prefix) ∅);
         _ ← put_storage (set_tables (<[table := tbl']> (tables_ e)) e);
         mret rows
     end : Host W (gmap string string)) s = (set_storage e' s, Done rows) ∧
    apply_staged prefix (map_iter (default ∅ (o !! table))) rows = Ret texts.
Proof.
  intros Hs Hc Hser Htexts.
  assert (Hstaged : ∀ rows : gmap string string,
    (∀ key, rows !! key = if has_prefix prefix key
                          then r ← Storage.Get table key e; exc_value (RowJsonSerializer r) else None) →
    apply_staged prefix (map_iter (default ∅ (o !! table))) rows = Ret texts).
  { intros rows Hrows.
    assert (Hlk : ∀ key, (writes ← o !! table; writes !! key)
                         = (default ∅ (o !! table) : gmap string (option json)) !! key).
    { intros key. destruct (o !! table); simpl; [done|by rewrite lookup_empty]. }
    destruct (apply_staged_spec prefix (map_iter (default ∅ (o !! table))) rows) as (rows' & -> & Hrows').
    - apply map_iter_NoDup.
    - intros k v Hkv%elem_of_map_iter Hp. specialize (Htexts k). rewrite Hp in Htexts.
      unfold merged in Htexts. rewrite Hlk, Hkv in Htexts. simpl in Htexts.
      destruct Htexts as (t & Ht & _). by exists t.
    - f_equal. apply map_eq. intros key. rewrite Hrows', list_to_map_iter. specialize (Htexts key).
      rewrite Hrows. destruct (has_prefix prefix key).
      + unfold merged in Htexts. rewrite Hlk in Htexts.
        destruct (_ !! key) as [[v|]|]; simpl in *.
        * destruct Htexts as (t & -> & ->). done.
        * done.
        * destruct (Storage.Get table key e) as [r|]; simpl in *; [|done].
          destruct Htexts as (t & -> & ->). done.
      + rewrite Htexts. by destruct (default ∅ (o !! table) !! key). }
  unfold GetTable. destruct (tables_ e !! table) as [t|] eqn:Ht.
  - destruct (scan_committed prefix t) as (t' & rows & Hscan & Hc' & Hr' & Hrows).
    { exact (Hc _ _ Ht). }
    { intros k r. by apply (Hser t k r). }
    exists (set_tables (<[table := t']> (tables_ e)) e), rows.
    split_and!; [eapply cache_only_insert; [done|by eapply ScanJsonCached_no_cache]|by apply caches_ok_insert|by rewrite Hscan|].
    apply Hstaged. intros key. rewrite Hrows. unfold Storage.Get, GetTable. rewrite Ht. done.
  - exists e, ∅. split_and!; [apply cache_only_refl|done|by rewrite set_storage_same|].
    apply Hstaged. intros key. unfold Storage.Get, GetTable. rewrite Ht, lookup_empty.
    by destruct (has_prefix prefix key).
Qed.

(** C8.  Reads in a reducer see its own writes over the committed rows.
    [host_table_read] answers the staged value, nothing for a staged delete,
    and otherwise the committed row; [host_table_scan] answers the first rows of
    that merged view whose key has the prefix, in key order and at most [limit]
    of them, whatever the range scan visits beyond the prefix.  Both leave the
    rows alone and the JSON caches coherent.  A key that cannot be dumped makes
    the scan end in an exception instead. *)
Theorem reads_see_merged_view (s : state) call e table
    (Hcall : current_call s = Some call) (Hs : storage s = Some e) (Hc : caches_ok e)
    (Hallowed : TableAllowed mod_ table = true) table_ptr
    (Htable : ReadCString (u32 table_ptr) WASM_MAX_TABLE_NAME s = (s, Done (Some table))) :
  (∀ key_ptr key_len out_ptr out_len key,
    ReadBytes (u32 key_ptr) (u32 key_len) s = (s, Done (Some (str_bytes key))) →
    ∃ e', cache_only e e' ∧ caches_ok e' ∧
      HostTableRead mod_ table_ptr key_ptr key_len out_ptr out_len s
      = match merged (overlay call) e table key with
        | None => (set_storage e' s, Done 0)
        | Some (Ret text) =>
            answer "host_table_read: result write failed" text out_ptr out_len 1 (set_storage e' s)
        | Some (Throw w) => (set_storage e' s, Escaped w)
        end) ∧
  (∀ prefix_ptr prefix_len limit out_ptr out_len prefix (texts : gmap string string),
    ReadBytes (u32 prefix_ptr) (u32 prefix_len) s = (s, Done (Some (str_bytes prefix))) →
    (∀ t k row, tables_ e !! table = Some t → rows_ t !! k = Some row → ∃ j, RowJsonSerializer row = Ret j) →
    (∀ key, match (if has_prefix prefix key then merged (overlay call) e table key else None) with
            | Some m => ∃ text, m = Ret text ∧ texts !! key = Some text
            | None => texts !! key = None
            end) →
    ∃ e', cache_only e e' ∧ caches_ok e' ∧
      HostTableScan mod_ table_ptr prefix_ptr prefix_len limit out_ptr out_len s
      = let rows := take (Z.to_nat (if limit <=? 0 then WASM_DEFAULT_SCAN_LIMIT else limit))
                         (map_iter texts) in
        match scan_text rows with
        | Ret text => answer "host_table_scan: result write failed" text out_ptr out_len
                        (i32 (zlength rows)) (set_storage e' s)
        | Throw w => (set_storage e' s, Escaped w)
        end).
Proof.
  split.
  - intros kp kl op ol key Hkey. unfold HostTableRead.
    host_step (OpenFrame_some _ _ Hcall). host_step Htable. host_step Hkey.
    rewrite Hallowed, bytes_str_bytes. cbv zeta. change (negb true) with false. cbv iota. unfold merged.
    destruct (writes ← overlay call !! table; writes !! key) as [[v|]|]; simpl fmap.
    + exists e. rewrite (set_storage_same _ _ Hs). split_and!; [apply cache_only_refl|done|].
      by destruct (dump v) eqn:Ed; unfold mbind at 1, Prog_bind at 1, lift_exc at 1.
    + exists e. rewrite (set_storage_same _ _ Hs). split_and!; [apply cache_only_refl|done|done].
    + host_step (get_storage_some _ _ Hs). pose proof (read_committed table key e Hc) as Hr.
      destruct (GetTable table e) as [t|].
      * destruct (GetJsonCached t key RowJsonSerializer) as [[t' r]|w].
        -- destruct Hr as (Hco & Hc' & Hr). eexists. split_and!; [exact Hco|exact Hc'|].
           destruct (RowJsonSerializer <$> _) as [m|].
           ++ by destruct Hr as (j & -> & ->).
           ++ by subst r.
        -- exists e. rewrite (set_storage_same _ _ Hs), Hr. split_and!; [apply cache_only_refl|done|done].
      * rewrite Hr. exists e. rewrite (set_storage_same _ _ Hs).
        split_and!; [apply cache_only_refl|done|done].
  - intros pp pl limit op ol prefix texts Hprefix Hser Htexts. unfold HostTableScan.
    host_step (OpenFrame_some _ _ Hcall). host_step Htable. host_step Hprefix.
    rewrite Hallowed, bytes_str_bytes. cbv zeta. change (negb true) with false. cbv iota.
    host_step (get_storage_some _ _ Hs).
    set (lim := if limit <=? 0 then _ else _).
    assert (0 < lim) by (unfold lim, WASM_DEFAULT_SCAN_LIMIT; destruct (limit <=? 0) eqn:El; lia).
    destruct (scan_merged table prefix (overlay call) e texts s Hs Hc Hser Htexts)
      as (e' & rows & Hco & Hc' & Hscan & Hstaged).
    exists e'. split_and!; [done..|]. host_step Hscan. rewrite Hstaged.
    pose proof (build_array_spec lim (map_iter texts) []) as Hb. cbn [String.concat] in Hb.
    rewrite append_empty_r in Hb. change (zlength (@nil string)) with 0 in Hb. rewrite Z.sub_0_r in Hb.
    unfold mbind at 1, Prog_bind at 1, lift_exc at 1. cbv beta iota.
    rewrite Hb by lia. unfold scan_text.
    destruct (exc_map scan_item (take (Z.to_nat lim) (map_iter texts))) as [items|w] eqn:Ei; [|reflexivity].
    apply exc_map_length in Ei. cbn [mbind exc_bind app]. unfold zlength. rewrite <- Ei.
    unfold answer. rewrite <- append_assoc. reflexivity.
Qed.
End reads.

(** ** A concrete call *)

(** A guest whose allocator hands out address 64, in 256 bytes of memory that
    begin with the text "users". *)
Module DemoCall.
Definition memory0 : bytes := str_bytes "users" ++ replicate 251 Byte.x00.
#[export] Instance guest : HostFunctions.Guest WalHost :=
  {| origindb_alloc := λ _ s, (s, Some 64); memory_grow := λ _ _, None |}.
Definition module_ : WasmModuleImpl := 
  {| instance := None; memory_limit_bytes := 0; timeout_ms := 5000; debug_stdio := false;
     caps := None; module_name := "demo" |}.
Definition context : ReducerContext :=
  {| sender_identity := "ada"; module_identity := ""; connection_id := ""; timestamp_micros := 1700000000000000; has_changefeed := true |}.

(** The rows a and b are committed; the call deleted a and wrote c. *)
Definition value_c : json := JObject [("n", JInt 3)].
Definition call : HostCallContext :=
  set_overlay (stage_write "users" "c" (Some value_c) (stage_write "users" "a" None ∅)) (new_call context).
Definition state : HostState WalHost :=
  {| memory := memory0; current_call := Some call; storage := Some Demo.engine1; g_id_counter := 0 |}.
End DemoCall.
Import Demo DemoCall.

#[local] Existing Instance std_json.
#[local] Existing Instance std_order.

Definition text_of (j : json) : string := default "" (exc_value (dump j)).

Lemma demo_caches : caches_ok Demo.engine1.
Proof.
  intros k t Ht. assert (json_cache_ t = ∅) as Hj.
  { assert (map_Forall (λ _ t, json_cache_ t = ∅) (tables_ Demo.engine1)) as H; [|exact (H k t Ht)].
    apply (bool_decide_unpack _). vm_compute. exact I. }
  intros k' j'. by rewrite Hj, lookup_empty.
Qed.

Lemma merged_a :
  (if has_prefix "" "a" then merged (overlay DemoCall.call) Demo.engine1 "users" "a" else None) = None.
Proof. apply (bool_decide_unpack _). vm_compute. exact I. Qed.
Lemma merged_b :
  (if has_prefix "" "b" then merged (overlay DemoCall.call) Demo.engine1 "users" "b" else None)
  = Some (Ret (text_of (JObject [("n", JInt 2)]))).
Proof. apply (bool_decide_unpack _). vm_compute. exact I. Qed.
Lemma merged_c :
  (if has_prefix "" "c" then merged (overlay DemoCall.call) Demo.engine1 "users" "c" else None)
  = Some (Ret (text_of DemoCall.value_c)).
Proof. apply (bool_decide_unpack _). vm_compute. exact I. Qed.

Lemma reads_see_merged_view_witness :
  ∃ e' text, caches_ok e' ∧
    scan_text [("b", text_of (JObject [("n", JInt 2)])); ("c", text_of DemoCall.value_c)] = Ret text ∧
    HostTableScan DemoCall.module_ 0 0 0 0 32 36 DemoCall.state
    = answer "host_table_scan: result write failed" text 32 36 2 (set_storage e' DemoCall.state).
Proof.
  destruct (reads_see_merged_view DemoCall.module_ DemoCall.state DemoCall.call Demo.engine1 "users") with (table_ptr := 0)
    as [_ Hscan]; [reflexivity|reflexivity|apply demo_caches|reflexivity|vm_compute; reflexivity|].
  destruct (Hscan 0 0 0 32 36 ""
              (<["b" := text_of (JObject [("n", JInt 2)])]> (<["c" := text_of DemoCall.value_c]> ∅)))
    as (e' & _ & Hc & Heq).
  - vm_compute. reflexivity.
  - intros t k row Ht. revert k row.
    assert (map_Forall (λ _ t, map_Forall (λ _ r, is_Some (exc_value (RowJsonSerializer r))) (rows_ t))
              (tables_ Demo.engine1)) as H by (apply (bool_decide_unpack _); vm_compute; exact I).
    intros k row Hk. destruct (H _ _ Ht _ _ Hk) as [j Hj]. exists j.
    destruct (RowJsonSerializer row); [by injection Hj as ->|done].
  - intros key. destruct (decide (key = "a")) as [->|]; [by rewrite merged_a|].
    destruct (decide (key = "b")) as [->|]; [rewrite merged_b; by eexists|].
    destruct (decide (key = "c")) as [->|]; [rewrite merged_c; by eexists|].
    assert (has_prefix "" key = true) as -> by (by destruct key).
    assert (merged (overlay DemoCall.call) Demo.engine1 "users" key = None) as ->.
    { unfold merged, DemoCall.call, set_overlay, stage_write. cbn [overlay new_call].
      rewrite lookup_insert_eq. cbn [mbind option_bind].
      rewrite lookup_insert_ne by done. rewrite lookup_insert_eq, lookup_empty. cbn [from_option id].
      rewrite lookup_insert_ne, lookup_empty by done.
      destruct (Storage.Get "users" key Demo.engine1) as [row|] eqn:Eg; [|done]. exfalso.
      assert (map_Forall (λ k _, k = "a" ∨ k = "b") (default ∅ (rows_ <$> tables_ Demo.engine1 !! "users"))) as H
        by (apply (bool_decide_unpack _); vm_compute; exact I).
      unfold Storage.Get, GetTable, MemTable.Get in Eg.
      destruct (tables_ Demo.engine1 !! "users") as [t|]; [|done].
      destruct (H key row Eg); done. }
    rewrite !lookup_insert_ne by done. apply lookup_empty.
  - exists e'. eexists. split; [exact Hc|]. split; [|exact Heq]. reflexivity.
Defined.
