(* ===== verification/HostCommit.v ===== *)
(** * The commit of a reducer call

    [CommitHostCall] turns the overlay of a call into one storage transaction
    and publishes the call's events behind it.  The abstract store of
    StorageCommit is read cell by cell: a cell is the columns of a table's key. *)

From S2P Require Import Prelude Table Codec RowCodec Json MemTable Txn Wal WalStore Changefeed StorageJson Storage RowJson StorageCommit HostFunctions HostReads.

Lemma Forall2_in_l {A B} (P : A → B → Prop) l l' x :
  Forall2 P l l' → x ∈ l → ∃ y, y ∈ l' ∧ P x y.
Proof.
  induction 1 as [|a b l l' Hab _ IH]; [by intros ?%not_elem_of_nil|].
  intros [->|Hx]%elem_of_cons; [exists b; split; [by left|done]|].
  destruct (IH Hx) as (y & Hy & HP). exists y. split; [by right|done].
Qed.

(** ** Cells of the abstract store *)

Definition cell (st : store) (table key : string) : option columns := m ← st !! table; m !! key.

Definition written (w : WriteOperation) : option columns :=
  if decide (w_op w = WDELETE) then None else Some (row_columns (w_row w)).

Definition target (w : WriteOperation) : string * string := (w_table w, row_key (w_row w)).

Lemma cell_insert st table m t k :
  cell (<[table := m]> st) t k = if decide (t = table) then m !! k else cell st t k.
Proof.
  unfold cell. destruct (decide (t = table)) as [->|].
  - by rewrite lookup_insert_eq.
  - by rewrite lookup_insert_ne.
Qed.

Lemma spec_write_cell w st st' :
  spec_write w st = Some st' →
  (∀ t k, cell st' t k = if decide ((t, k) = target w) then written w else cell st t k) ∧
  (w_op w ≠ WINSERT → is_Some (cell st (w_table w) (row_key (w_row w)))).
Proof.
  unfold spec_write, target, written. set (key := row_key (w_row w)).
  destruct (st !! w_table w) as [m|] eqn:Em; [|done]. cbn [mbind option_bind].
  assert (Hcell : ∀ k, cell st (w_table w) k = m !! k) by (intros k; unfold cell; by rewrite Em).
  assert (Hput : ∀ m' v, (∀ k, m' !! k = if decide (k = key) then v else m !! k) →
    ∀ t k, cell (<[w_table w := m']> st) t k = if decide ((t, k) = (w_table w, key)) then v else cell st t k).
  { intros m' v Hm' t k. rewrite cell_insert. destruct (decide (t = w_table w)) as [->|Ht].
    - rewrite Hm', Hcell. destruct (decide (k = key)) as [->|]; [by rewrite decide_True|].
      by rewrite decide_False by congruence.
    - by rewrite decide_False by congruence. }
  assert (Hins : ∀ k v, (<[key := v]> m : gmap string columns) !! k = if decide (k = key) then Some v else m !! k).
  { intros k v. destruct (decide (k = key)) as [->|]; [by rewrite lookup_insert_eq|by rewrite lookup_insert_ne]. }
  assert (Hdel : ∀ k, delete key m !! k = if decide (k = key) then None else m !! k).
  { intros k. destruct (decide (k = key)) as [->|]; [by rewrite lookup_delete_eq|by rewrite lookup_delete_ne]. }
  unfold spec_op. fold key. destruct (w_op w); cbn [mbind option_bind].
  - intros [= <-]. split; [|done]. apply Hput. intros k. apply Hins.
  - destruct (decide (is_Some (m !! key))); cbn [mbind option_bind]; [|done].
    intros [= <-]. split; [|by rewrite Hcell]. apply Hput. intros k. apply Hins.
  - destruct (decide (is_Some (m !! key))); cbn [mbind option_bind]; [|done].
    intros [= <-]. split; [|by rewrite Hcell]. apply Hput. intros k. apply Hdel.
Qed.

(** A write set of distinct targets that succeeds writes each of its cells and
    no other; its updates and deletes name rows that were there. *)
Lemma spec_writes_cell ws : ∀ st,
  NoDup (target <$> ws) → (spec_writes ws st).2 = true →
  (∀ w, w ∈ ws → cell (spec_writes ws st).1 (w_table w) (row_key (w_row w)) = written w
                 ∧ (w_op w ≠ WINSERT → is_Some (cell st (w_table w) (row_key (w_row w))))) ∧
  (∀ t k, (t, k) ∉ target <$> ws → cell (spec_writes ws st).1 t k = cell st t k).
Proof.
  induction ws as [|w ws IH]; intros st Hnd Hok; cbn [spec_writes] in *.
  { split; [by intros w ?%not_elem_of_nil|done]. }
  csimpl in *. apply NoDup_cons in Hnd as [Hw Hnd].
  destruct (spec_write w st) as [st1|] eqn:Ew; [|done].
  apply spec_write_cell in Ew as [Hst1 Hrow]. destruct (IH st1 Hnd Hok) as [Hin Hout].
  split.
  - intros w' [->|Hw']%elem_of_cons.
    + split; [|done]. rewrite Hout, Hst1 by done. by rewrite decide_True.
    + destruct (Hin w' Hw') as [H1 H2]. split; [done|]. intros Hop. specialize (H2 Hop).
      rewrite Hst1, decide_False in H2; [done|]. intros E. apply Hw. change (target w' = target w) in E.
      rewrite <- E. by apply list_elem_of_fmap_2.
  - intros t k [Hne Hnin]%not_elem_of_cons. by rewrite Hout, Hst1, decide_False.
Qed.

Section host_commit.
Context {W : Type} `{WA : WalApi W} `{JL : JsonLib} `{HO : HashOrder} `{G : Guest W}.
Variable mod_ : WasmModuleImpl.

(** ** Staging *)

(** A staged row is an update where there is one to update. *)
Definition put_op (e : StorageEngine W) (table key : string) : WriteOp :=
  if decide (is_Some (cell (views (tables_ e)) table key)) then WUPDATE else WINSERT.

(** The operation a staged write becomes. *)
Definition staged_as (e : StorageEngine W) (tkv : string * string * option json) (w : WriteOperation) : Prop :=
  target w = tkv.1 ∧
  match tkv.2 with
  | None => w_op w = WDELETE
  | Some v => w_op w = put_op e tkv.1.1 tkv.1.2 ∧
      ∃ row, JsonToRow tkv.1.2 v = Ret row ∧ row_columns (w_row w) = row_columns row
  end.

Lemma Get_cell table key (e : StorageEngine W) :
  cell (views (tables_ e)) table key = row_columns <$> Storage.Get table key e.
Proof.
  unfold cell, views, Storage.Get, GetTable, MemTable.Get. rewrite lookup_fmap.
  destruct (tables_ e !! table) as [t|]; [|done]. simpl. apply view_lookup.
Qed.

Lemma put_op_Get table key (e : StorageEngine W) :
  put_op e table key = match Storage.Get table key e with Some _ => WUPDATE | None => WINSERT end.
Proof.
  unfold put_op. case_decide as H; rewrite Get_cell, fmap_is_Some in H.
  - by destruct H as [r ->].
  - apply eq_None_not_Some in H. by rewrite H.
Qed.

Lemma put_op_no_delete (e : StorageEngine W) table key : put_op e table key ≠ WDELETE.
Proof. unfold put_op. by case_decide. Qed.

Lemma JsonToRow_key key v row : JsonToRow key v = Ret row → row_key row = key.
Proof. unfold JsonToRow. destruct (json_columns _ _); simpl; [|done]. by intros [= <-]. Qed.

Lemma stage_all_spec e ws : ∀ txn r,
  t_state txn = ACTIVE → stage_all e ws txn = Ret r →
  ∃ txn' ops, r = inl txn' ∧ t_state txn' = ACTIVE ∧ t_write_set txn' = t_write_set txn ++ ops
              ∧ Forall2 (staged_as e) ws ops.
Proof.
  induction ws as [|[[table key] val] ws IH]; intros txn r Ha; cbn [stage_all].
  { intros [= <-]. exists txn, []. by rewrite app_nil_r. }
  assert (Hstep : ∀ txn1 ok, stage_one e txn table key val = Ret (txn1, ok) →
    ok = true ∧ t_state txn1 = ACTIVE ∧
    ∃ w, t_write_set txn1 = t_write_set txn ++ [w] ∧ staged_as e (table, key, val) w).
  { intros txn1 ok. unfold stage_one, Txn.Delete, Txn.Update, Txn.Insert, IsActive.
    rewrite bool_decide_eq_true_2 by done. destruct val as [v|].
    - destruct (JsonToRow key v) as [row|] eqn:Ej; cbn [mbind exc_bind]; [|done].
      pose proof (JsonToRow_key _ _ _ Ej) as Hk.
      destruct (Storage.Get table key e) eqn:Eg; intros [= <- <-]; split_and!; try done;
        (eexists; split; [reflexivity|]; unfold staged_as, target; simpl; rewrite ?Hk, put_op_Get, Eg; eauto).
    - intros [= <- <-]. split_and!; [done..|]. eexists. split; [reflexivity|]. done. }
  destruct (stage_one e txn table key val) as [[txn1 ok]|w] eqn:Es; cbn [mbind exc_bind]; [|done].
  destruct (Hstep _ _ eq_refl) as (-> & Ha1 & w & Hw & Hst). intros Hrest.
  destruct (IH txn1 r Ha1 Hrest) as (txn' & ops & -> & Ha' & Hops & Hall).
  exists txn', (w :: ops). rewrite Hops, Hw, <- app_assoc. split_and!; [done..|]. by constructor.
Qed.

(** The loops visit each staged cell once. *)
Lemma elem_of_overlay_writes (o : overlay_map) table key val :
  (table, key, val) ∈ overlay_writes o ↔ (writes ← o !! table; writes !! key) = Some val.
Proof.
  unfold overlay_writes. rewrite list_elem_of_bind. split.
  - intros ([t writes] & Hin & Ht%elem_of_map_iter).
    apply list_elem_of_bind in Hin as ([k v] & Hkv & Hk%elem_of_map_iter).
    apply list_elem_of_singleton in Hkv as [= -> -> ->]. by rewrite Ht.
  - destruct (o !! table) as [writes|] eqn:Eo; [|done]. cbn [mbind option_bind]. intros Hk.
    exists (table, writes). split; [|by apply elem_of_map_iter].
    apply list_elem_of_bind. exists (key, val). split; [by left|by apply elem_of_map_iter].
Qed.

Lemma overlay_writes_NoDup (o : overlay_map) : NoDup (overlay_writes o).*1.
Proof.
  unfold overlay_writes. pose proof (map_iter_NoDup o) as Hnd.
  induction (map_iter o) as [|[t writes] l IH]; csimpl in *; [constructor|].
  apply NoDup_cons in Hnd as [Ht Hnd]. rewrite fmap_app. apply NoDup_app. split_and!.
  - assert ((map_iter writes ≫= (λ '(key, val), [(t, key, val)])).*1 = pair t <$> (map_iter writes).*1) as ->.
    { induction (map_iter writes) as [|[k v] l' IH']; [done|]. csimpl. by rewrite IH'. }
    apply NoDup_fmap_2; [apply _|apply map_iter_NoDup].
  - intros [t' k] H1 H2.
    apply list_elem_of_fmap in H1 as ([[t1 k1] v1] & [= -> ->] & H1).
    apply list_elem_of_bind in H1 as ([k2 v2] & Hk2 & _). apply list_elem_of_singleton in Hk2 as [= -> -> ->].
    apply list_elem_of_fmap in H2 as ([[t3 k3] v3] & [= -> ->] & H2).
    apply list_elem_of_bind in H2 as ([t4 w4] & H4 & Hin).
    apply list_elem_of_bind in H4 as ([k5 v5] & Hk5 & _). apply list_elem_of_singleton in Hk5 as [= -> -> ->].
    apply Ht. by apply (list_elem_of_fmap_2 fst _ (t4, w4)).
  - by apply IH.
Qed.

(** ** Missing tables *)

(** The same cells and the same changefeed. *)
Definition same_cells (e e' : StorageEngine W) : Prop :=
  (∀ t k, cell (views (tables_ e')) t k = cell (views (tables_ e)) t k) ∧
  changefeed_engine_ e' = changefeed_engine_ e.

Lemma same_cells_refl e : same_cells e e.
Proof. done. Qed.
Lemma same_cells_trans e1 e2 e3 : same_cells e1 e2 → same_cells e2 e3 → same_cells e1 e3.
Proof. intros [H1 H2] [H3 H4]. split; [intros; by rewrite H3|by rewrite H4]. Qed.

Lemma CreateTable_same_cells schema e : same_cells e (CreateTable schema e).1.
Proof.
  unfold CreateTable. destruct (tables_ e !! sch_name schema) as [t|] eqn:Et; [done|].
  assert (∀ t k, cell (views (<[sch_name schema := new_MemTable schema]> (tables_ e))) t k
                 = cell (views (tables_ e)) t k) as H.
  { intros t k. unfold views. rewrite fmap_insert, cell_insert.
    destruct (decide (t = sch_name schema)) as [->|]; [|done].
    unfold cell. rewrite lookup_fmap, Et. unfold view. simpl. by rewrite fmap_empty, lookup_empty. }
  destruct (SerializeSchema schema); split; try done; exact H.
Qed.

Lemma create_missing_same_cells tables : ∀ e, same_cells e (create_missing tables e).1.
Proof.
  induction tables as [|[table writes] tables IH]; intros e; cbn [create_missing]; [done|].
  destruct (GetTable table e); [apply IH|]. destruct (first_value writes) as [v|]; [|apply IH].
  pose proof (CreateTable_same_cells (SchemaFromJson table v) e) as H.
  destruct (CreateTable _ e) as [e1 [created|w]]; [|done].
  destruct (negb created && _); [done|]. eapply same_cells_trans; [exact H|apply IH].
Qed.

(** ** The whole commit *)

(** What the overlay makes of a store. *)
Definition overlaid (o : overlay_map) (st : store) (table key : string) (c : option columns) : Prop :=
  match writes ← o !! table; writes !! key with
  | Some (Some v) => ∃ row, JsonToRow key v = Ret row ∧ c = Some (row_columns row)
  | Some None => c = None ∧ is_Some (cell st table key)
  | None => c = cell st table key
  end.

Definition published (e : StorageEngine W) : list ChangefeedEvent :=
  match changefeed_engine_ e with Some c => cf_published c | None => [] end.

(** The event of a staged write: the operation by what the cell held before, the
    row in its serialised form, nothing for a delete. *)
Definition row_event (st : store) (tkv : string * string * option json) (ev : ChangefeedEvent) : Prop :=
  let '(table, key, val) := tkv in
  ev_table ev = table ∧ ev_key ev = str_bytes key ∧
  match val with
  | None => ev_operation ev = "DELETE" ∧ ev_new_value ev = []
  | Some v =>
      ev_operation ev = (if decide (is_Some (cell st table key)) then "UPDATE" else "INSERT") ∧
      ∃ row, JsonToRow key v = Ret row ∧ SerializeRow row = Ret (ev_new_value ev)
  end.

Lemma row_event_of txn (e : StorageEngine W) tkv w ev :
  staged_as e tkv w → event_of txn w ev → row_event (views (tables_ e)) tkv ev.
Proof.
  destruct tkv as [[table key] val]. unfold staged_as, target. simpl.
  intros [[= Ht Hk] Hw] (Hevt & Hop & Hkey & _ & Hval). unfold row_event. rewrite Hevt, Hkey, Ht, Hk.
  split; [done|]. split; [done|]. destruct val as [v|].
  - destruct Hw as (Hwop & row & Hrow & Hcols). rewrite decide_False in Hval by (rewrite Hwop; apply put_op_no_delete).
    rewrite Hop, Hwop. unfold put_op. split; [by case_decide|]. exists row. split; [done|].
    rewrite <- Hval. unfold SerializeRow, row_json. by rewrite Hcols, Hk, (JsonToRow_key _ _ _ Hrow).
  - by rewrite Hop, Hw, decide_True in * by done.
Qed.

Lemma row_event_same st st' tkv ev :
  (∀ t k, cell st' t k = cell st t k) → row_event st' tkv ev → row_event st tkv ev.
Proof. intros H. destruct tkv as [[table key] val]. unfold row_event. by rewrite H. Qed.

Lemma commit_overlay_spec now o e e' b error :
  commit_overlay now o e = (e', Ret (b, error)) →
  (b = true → error = "" ∧ ∀ table key, overlaid o (views (tables_ e)) table key (cell (views (tables_ e')) table key)) ∧
  (b = false → changefeed_engine_ e' = changefeed_engine_ e) ∧
  (changefeed_engine_ e' = None ↔ changefeed_engine_ e = None) ∧
  ∃ evs, published e' = published e ++ evs ∧
    (b = true → changefeed_engine_ e ≠ None → Forall2 (row_event (views (tables_ e))) (overlay_writes o) evs).
Proof.
  unfold commit_overlay. destruct (decide (o = ∅)) as [->|Ho].
  { intros [= <- <- <-]. split_and!; [|done..|exists []; rewrite app_nil_r; split; [done|]; intros; constructor].
    intros _. split; [done|]. intros table key. unfold overlaid. by rewrite lookup_empty. }
  pose proof (create_missing_same_cells (map_iter o) e) as [Hcells Hcf].
  assert (Hfail : ∀ e2, changefeed_engine_ e2 = changefeed_engine_ e →
    (false = true → error = "" ∧ ∀ table key, overlaid o (views (tables_ e)) table key (cell (views (tables_ e2)) table key)) ∧
    (false = false → changefeed_engine_ e2 = changefeed_engine_ e) ∧
    (changefeed_engine_ e2 = None ↔ changefeed_engine_ e = None) ∧
    ∃ evs, published e2 = published e ++ evs ∧
      (false = true → changefeed_engine_ e ≠ None → Forall2 (row_event (views (tables_ e))) (overlay_writes o) evs)).
  { intros e2 H2. split_and!; [done|done|by rewrite H2|]. exists []. unfold published.
    by rewrite H2, app_nil_r. }
  destruct (create_missing (map_iter o) e) as [e1 [[err|]|w]]; [|simpl in Hcells, Hcf|done].
  { intros [= <- <- <-]. by apply Hfail. }
  set (e2 := (BeginTransaction READ_COMMITTED e1).1). set (txn := (BeginTransaction READ_COMMITTED e1).2).
  change (BeginTransaction READ_COMMITTED e1) with (e2, txn). cbv iota beta.
  destruct (stage_all e2 (overlay_writes o) txn) as [r|w] eqn:Est; [|done].
  apply stage_all_spec in Est as (txn1 & ops & -> & Ha & Hops & Hst); [|done].
  change (t_write_set txn) with (@nil WriteOperation) in Hops. simpl in Hops.
  destruct (Commit now txn1 e2) as [[e3 txn3] [b'|w]] eqn:Ec; [|by intros].
  apply Commit_outcome in Ec as (Hv & Hok & Hev); [|done]. rewrite Hops in Hv, Hok, Hev.
  change (tables_ e2) with (tables_ e1) in Hv, Hok.
  change (changefeed_engine_ e2) with (changefeed_engine_ e1) in Hev. rewrite Hcf in Hev.
  destruct b'; intros [= <- <- <-].
  - specialize (Hok eq_refl). split_and!.
    + intros _. split; [done|]. rewrite Hv.
      assert (Hkeys : target <$> ops = (overlay_writes o).*1).
      { clear -Hst. induction Hst as [|tkv w l l' [Ht _] _ IH]; [done|]. csimpl. by rewrite Ht, IH. }
      destruct (spec_writes_cell ops (views (tables_ e1))) as [Hin Hout].
      { rewrite Hkeys. apply overlay_writes_NoDup. }
      { done. }
      intros table key. unfold overlaid.
      destruct (writes ← o !! table; writes !! key) as [val|] eqn:El.
      * apply elem_of_overlay_writes in El.
        destruct (Forall2_in_l _ _ _ _ Hst El) as (w & Hw & Htgt & Hop). simpl in Htgt, Hop.
        injection Htgt as <- <-. destruct (Hin w Hw) as [Hcell Hrow]. rewrite Hcell. unfold written.
        destruct val as [v|].
        -- destruct Hop as (Hne & row & Hrow' & Hcols). exists row.
           rewrite decide_False by (rewrite Hne; apply put_op_no_delete).
           by rewrite Hcols.
        -- rewrite decide_True by done. split; [done|]. rewrite <- Hcells. apply Hrow. by rewrite Hop.
      * rewrite Hout; [apply Hcells|]. rewrite Hkeys. intros ([[t k] v] & [= -> ->] & Hin')%list_elem_of_fmap.
        apply elem_of_overlay_writes in Hin'. congruence.
    + done.
    + destruct (changefeed_engine_ e) as [c|]; [|by rewrite Hev].
      by destruct Hev as (c' & evs & -> & _).
    + unfold published. destruct (changefeed_engine_ e) as [c|].
      * destruct Hev as (c' & evs & -> & Hp & Hevs). exists evs. split; [done|]. intros _ _.
        eapply Forall2_trans; [|exact Hst|exact Hevs]. intros tkv w ev Hs Hev.
        apply (row_event_same _ (views (tables_ e2))); [exact Hcells|]. by eapply row_event_of.
      * rewrite Hev. by exists [].
  - apply Hfail. destruct (changefeed_engine_ e) as [c|]; [|done].
    by destruct Hev as (c' & evs & -> & _ & ->).
Qed.

(** The staged writes of a call: every staged cell once. *)
Definition staged_writes (o : overlay_map) (tkvs : list (string * string * option json)) : Prop :=
  NoDup tkvs.*1 ∧ ∀ table key val, (table, key, val) ∈ tkvs ↔ (writes ← o !! table; writes !! key) = Some val.

(** C7.  Committing a reducer call.  When [CommitHostCall] returns true, every
    cell of every table holds the staged value of the call where there is one
    (a staged delete leaves nothing), every staged delete had a row to remove,
    and every other cell is as it was, whether or not tables had to be created.
    The changefeed gets exactly one event for every staged write, with its table
    and key: a DELETE without a value, or an INSERT or UPDATE, by whether the cell
    was there, with the row in JSON; behind them come the call's own events, if
    its context has a changefeed, in order, each under its topic.  When it
    returns false, the changefeed is untouched. *)
Theorem CommitHostCall_applies now call e se b error
    (Hcommit : CommitHostCall mod_ now call (Some e) = (se, Ret (b, error))) :
  ∃ e', se = Some e' ∧
    (b = true →
       error = "" ∧
       (∀ table key, overlaid (overlay call) (views (tables_ e)) table key
                              (cell (views (tables_ e')) table key)) ∧
       (changefeed_engine_ e ≠ None →
        ∃ tkvs rows evs, published e' = published e ++ rows ++ evs ∧
          staged_writes (overlay call) tkvs ∧ Forall2 (row_event (views (tables_ e))) tkvs rows ∧
          Forall2 (λ ev ev', ∃ o, ev' = stamp now o (staged_event mod_ now ev))
                  (if has_changefeed (rctx call) then events call else []) evs)) ∧
    (b = false → changefeed_engine_ e' = changefeed_engine_ e).
Proof.
  unfold CommitHostCall in Hcommit.
  destruct (commit_overlay now (overlay call) e) as [e1 [[b1 error1]|w]] eqn:Ec; [|done].
  apply commit_overlay_spec in Ec as (Htrue & Hfalse & Hnone & rows & Hrows & Hrowevs).
  assert (Hsw : staged_writes (overlay call) (overlay_writes (overlay call))).
  { split; [apply overlay_writes_NoDup|apply elem_of_overlay_writes]. }
  destruct b1; [|injection Hcommit as <- <- <-; by exists e1].
  injection Hcommit as <- <- <-. destruct (Htrue eq_refl) as [-> Hcells].
  eexists. split; [reflexivity|]. split; [|done]. intros _. split; [done|].
  destruct (has_changefeed (rctx call)); split; try exact Hcells.
  - intros Hc. unfold published at 1. cbn [publish_all SetChangefeedEngine changefeed_engine_].
    unfold published in Hrows at 1.
    destruct (changefeed_engine_ e1) as [c|]; [|destruct Hc; by apply Hnone].
    cbn [fmap option_fmap option_map].
    destruct (publish_fold now (staged_event mod_ now <$> events call) c) as (evs & -> & Hevs).
    exists (overlay_writes (overlay call)), rows, evs. rewrite Hrows, <- app_assoc. split; [done|].
    split; [done|]. split; [by apply Hrowevs|]. by apply Forall2_fmap_l in Hevs.
  - intros Hc. exists (overlay_writes (overlay call)), rows, []. rewrite app_nil_r.
    split; [done|]. split; [done|]. split; [by apply Hrowevs|constructor].
Qed.
End host_commit.

#[local] Existing Instance std_json.
#[local] Existing Instance std_order.
Import Demo DemoCall.

Definition demo_commit := CommitHostCall module_ 9 call (Some engine1).

Lemma CommitHostCall_applies_witness :
  ∃ e', demo_commit.1 = Some e' ∧ cell (views (tables_ e')) "users" "a" = None ∧
        cell (views (tables_ e')) "users" "c" = Some {[ "n" := VInt64 3 ]} ∧
        cell (views (tables_ e')) "users" "b" = Some {[ "n" := VInt64 2 ]}.
Proof.
  assert (demo_commit.2 = Ret (true, "")) as Hr by (apply (bool_decide_unpack _); vm_compute; exact I).
  pose proof (surjective_pairing demo_commit) as Hc. rewrite Hr in Hc.
  destruct (CommitHostCall_applies module_ 9 call engine1 demo_commit.1 true "" Hc) as (e' & He & Htrue & _).
  destruct (Htrue eq_refl) as (_ & Hcells & _). exists e'. split; [exact He|]. split_and!.
  - destruct (Hcells "users" "a") as [-> _]. reflexivity.
  - destruct (Hcells "users" "c") as (row & Hrow & ->). f_equal.
    assert (JsonToRow "c" value_c = Ret (mkRow "c" {[ "n" := VInt64 3 ]})) as Hrow'
      by (apply (bool_decide_unpack _); vm_compute; exact I).
    rewrite Hrow' in Hrow. by injection Hrow as <-.
  - pose proof (Hcells "users" "b") as Hb.
    assert (cell (views (tables_ engine1)) "users" "b" = Some {[ "n" := VInt64 2 ]}) as Hb'
      by (apply (bool_decide_unpack _); vm_compute; exact I).
    rewrite <- Hb'. exact Hb.
Defined.

(** A staged delete of a key that is not there makes the commit fail after the
    writes before it have been applied: the call reports an error, nothing
    reaches the log or the changefeed, and the table has changed. *)
Example failed_call_changes_table :
  let o := stage_write "users" "zzz" None (stage_write "users" "a" (Some value_c) ∅) in
  let '(se, r) := CommitHostCall module_ 9 (set_overlay o call) (Some engine1) in
  r = Ret (false, "transaction commit failed") ∧
  (e ← se; cell (views (tables_ e)) "users" "a") = Some {[ "n" := VInt64 3 ]} ∧
  (wal_ReadAll ∘ wal_ <$> se) = Some (wal_ReadAll (wal_ engine1)).
Proof. vm_compute. repeat split. Qed.
