(* ===== verification/HostMemory.v ===== *)
(** * Guest memory: bounds of what the host writes

    Every access of a host function to guest memory goes through the bounds
    check of [GuestMem]; results are placed by [WriteOut] in a buffer of the
    guest's allocator. *)

From S2P Require Import Prelude Table Codec RowCodec Json MemTable Txn WalStore Changefeed StorageJson Storage RowJson HostFunctions HostReads.
From coqutil Require Import Byte Word.LittleEndianList.

(** The bytes [\[ptr, ptr + len)]. *)
Definition window (mem : bytes) (ptr len : Z) : bytes :=
  take (Z.to_nat len) (drop (Z.to_nat ptr) mem).
Definition within (a : nat) (ptr len : Z) : Prop := ptr <= Z.of_nat a < ptr + len.
Definition disjoint_windows (p n q m : Z) : Prop := p + n <= q ∨ q + m <= p ∨ n = 0 ∨ m = 0.

(** Memory after a write that passed the check. *)
Definition splice (mem : bytes) (ptr : Z) (data : bytes) : bytes :=
  take (Z.to_nat ptr) mem ++ data ++ drop (Z.to_nat ptr + length data) mem.

Lemma splice_length mem ptr data :
  0 <= ptr → ptr + zlength data <= zlength mem → length (splice mem ptr data) = length mem.
Proof.
  unfold splice, zlength. intros. rewrite !length_app, length_take, length_drop. lia.
Qed.

Lemma splice_outside mem ptr data a :
  0 <= ptr → ptr + zlength data <= zlength mem → ¬ within a ptr (zlength data) →
  splice mem ptr data !! a = mem !! a.
Proof.
  unfold splice, within, zlength. intros Hp Hle Ha.
  destruct (decide (a < Z.to_nat ptr)%nat).
  - rewrite lookup_app_l by (rewrite length_take; lia). apply lookup_take_lt. lia.
  - rewrite lookup_app_r by (rewrite length_take; lia). rewrite length_take.
    rewrite lookup_app_r by lia. rewrite lookup_drop. f_equal. lia.
Qed.

Lemma splice_window mem ptr data :
  0 <= ptr → ptr + zlength data <= zlength mem → window (splice mem ptr data) ptr (zlength data) = data.
Proof.
  unfold splice, window, zlength. intros. rewrite drop_app_length' by (rewrite length_take; lia).
  by rewrite Nat2Z.id, take_app_length.
Qed.

Lemma window_ext mem mem' ptr len :
  0 <= ptr → (∀ a, within a ptr len → mem' !! a = mem !! a) → window mem' ptr len = window mem ptr len.
Proof.
  intros Hp H. apply list_eq. intros i. unfold window.
  destruct (decide (i < Z.to_nat len)%nat).
  - rewrite !lookup_take_lt, !lookup_drop by lia. apply H. unfold within. lia.
  - by rewrite !lookup_take_ge by lia.
Qed.

Lemma splice_other mem p data q len :
  0 <= p → 0 <= q → p + zlength data <= zlength mem → disjoint_windows p (zlength data) q len →
  window (splice mem p data) q len = window mem q len.
Proof.
  intros Hp Hq Hle Hd. apply window_ext; [done|]. intros a Ha. apply splice_outside; [done..|].
  unfold within, disjoint_windows in *. lia.
Qed.

(** [mem'] is [mem] with [data] put in the window of length [n] at [p]. *)
Definition put (mem : bytes) (p n : Z) (data mem' : bytes) : Prop :=
  zlength mem' = zlength mem ∧ (∀ a, ¬ within a p n → mem' !! a = mem !! a) ∧ window mem' p n = data ∧
  (∀ q x, 0 <= q → disjoint_windows p n q x → window mem' q x = window mem q x).

Lemma splice_put mem p data n :
  0 <= p → zlength data = n → p + n <= zlength mem → put mem p n data (splice mem p data).
Proof.
  intros Hp <- Hfit. split_and!.
  - unfold zlength. by rewrite splice_length.
  - intros a. by apply splice_outside.
  - by apply splice_window.
  - intros q x Hq Hd. by apply splice_other.
Qed.

Lemma text_put mem p data :
  0 <= p → data = "" ∨ p + str_len data <= zlength mem →
  put mem p (str_len data) (str_bytes data) (if decide (data = "") then mem else splice mem p (str_bytes data)).
Proof.
  intros Hp Hfit. destruct (decide (data = "")) as [->|Hd].
  - split_and!; try done.
  - destruct Hfit; [done|]. by apply splice_put.
Qed.

Section memory.
Context {W : Type} `{G : Guest W}.
Abbreviation state := (HostState W).

Lemma set_memory_set m m' (s : state) : set_memory m (set_memory m' s) = set_memory m s.
Proof. done. Qed.
Lemma set_memory_same (s : state) : set_memory (memory s) s = s.
Proof. by destruct s. Qed.

Lemma WriteBytes_spec ptr data (s : state) :
  zlength data < 2 ^ 32 →
  WriteBytes ptr data s
  = if ptr + zlength data <=? zlength (memory s)
    then (set_memory (splice (memory s) ptr data) s, Done true) else (s, Done false).
Proof.
  intros Hlen. unfold WriteBytes, InBounds. rewrite u32_small.
  - destruct (_ <=? zlength (memory s)); [|done]. simpl.
    destruct (2 ^ 32 <=? zlength data) eqn:E; [lia|done].
  - split; [apply zlength_nonneg|done].
Qed.

Lemma le_bytes_zlength n v : zlength (le_bytes n v) = Z.of_nat n.
Proof. unfold zlength, le_bytes. by rewrite length_le_split. Qed.

(** What [WriteOut] did: nothing, the buffer, the buffer and one word, or all
    of it; each part only when it fits. *)
Lemma WriteOut_cases data out_ptr out_len (s s1 : state) buf :
  zlength (str_bytes data) < 2 ^ 32 →
  GuestAlloc (u32 (str_len data)) s = (s1, Done buf) →
  let mem0 := memory s1 in
  let mem1 := if decide (data = "") then mem0 else splice mem0 buf (str_bytes data) in
  let mem2 := splice mem1 out_ptr (le_bytes 4 buf) in
  let mem3 := splice mem2 out_len (le_bytes 4 (u32 (str_len data))) in
  let fits1 := data = "" ∨ buf + zlength (str_bytes data) <= zlength mem0 in
  let fits2 := out_ptr + 4 <= zlength mem1 in
  let fits3 := out_len + 4 <= zlength mem2 in
  ∃ m ok, WriteOut data out_ptr out_len s = (set_memory m s1, Done ok) ∧
    ((ok = false ∧ m = mem0) ∨
     (ok = false ∧ fits1 ∧ m = mem1) ∨
     (ok = false ∧ fits1 ∧ fits2 ∧ m = mem2) ∨
     (ok = true ∧ fits1 ∧ fits2 ∧ fits3 ∧ m = mem3)).
Proof.
  intros Hlen Halloc mem0 mem1 mem2 mem3 fits1 fits2 fits3.
  unfold WriteOut. host_step Halloc.
  destruct ((buf =? 0) && negb (bool_decide (data = ""))).
  { exists mem0, false. unfold mem0. rewrite set_memory_same. split; [done|by left]. }
  assert (Hw : ∀ ptr v (s2 : state), WriteU32 ptr v s2
    = if ptr + 4 <=? zlength (memory s2)
      then (set_memory (splice (memory s2) ptr (le_bytes 4 v)) s2, Done true) else (s2, Done false)).
  { intros ptr v s2. unfold WriteU32. rewrite WriteBytes_spec; rewrite le_bytes_zlength; done. }
  assert (Hbuf : (if decide (data = "") then mret true else WriteBytes buf (str_bytes data)) s1
    = (set_memory mem1 s1, Done true) ∧ fits1 ∨
    (if decide (data = "") then mret true else WriteBytes buf (str_bytes data)) s1 = (s1, Done false)).
  { unfold mem1, fits1. destruct (decide (data = "")) as [->|Hd].
    - left. unfold mem0. rewrite set_memory_same. split; [done|by left].
    - rewrite WriteBytes_spec by done. destruct (buf + _ <=? _) eqn:E; [left|by right].
      split; [done|]. right. apply Z.leb_le in E. done. }
  destruct Hbuf as [[Hbuf Hfit1]|Hbuf]; host_step Hbuf; cbn [negb].
  2:{ exists mem0, false. unfold mem0. rewrite set_memory_same. split; [done|by left]. }
  pose proof (Hw out_ptr buf (set_memory mem1 s1)) as H2. simpl memory in H2.
  destruct (out_ptr + 4 <=? zlength mem1) eqn:E2; host_step H2; cbn [negb].
  2:{ exists mem1, false. split; [done|]. right; left. done. }
  apply Z.leb_le in E2. rewrite Hw. simpl memory.
  destruct (out_len + 4 <=? zlength (splice mem1 out_ptr (le_bytes 4 buf))) eqn:E3.
  - apply Z.leb_le in E3. exists mem3, true. split; [done|]. right; right; right. done.
  - exists mem2, false. split; [done|]. right; right; left. done.
Qed.

(** C40.  Host results stay inside their windows.  For a text below 4 GiB,
    [WriteOut] never changes the size of guest memory nor a byte outside the
    buffer the guest allocated and the two result words; when it returns true
    the windows lie inside the memory and hold the text, the buffer's address
    and the length (if they do not overlap).  A text of 4 GiB or more is checked
    with its length cut to 32 bits, so it can pass the check and be copied past
    the end of the memory. *)
Theorem WriteOut_bounds data out_ptr out_len (s s1 : state) buf
    (Hop : is_u 32 out_ptr) (Hol : is_u 32 out_len)
    (Halloc : GuestAlloc (u32 (str_len data)) s = (s1, Done buf)) :
  let len := str_len data in
  let n := zlength (memory s1) in
  (len < 2 ^ 32 →
   ∃ m ok, WriteOut data out_ptr out_len s = (set_memory m s1, Done ok) ∧
     zlength m = n ∧
     (∀ a, ¬ within a buf len → ¬ within a out_ptr 4 → ¬ within a out_len 4 → m !! a = memory s1 !! a) ∧
     (ok = true →
        (data = "" ∨ buf + len <= n) ∧ out_ptr + 4 <= n ∧ out_len + 4 <= n ∧
        (disjoint_windows buf len out_ptr 4 → disjoint_windows buf len out_len 4 →
         disjoint_windows out_ptr 4 out_len 4 →
         window m buf len = str_bytes data ∧ window m out_ptr 4 = le_bytes 4 buf ∧
         window m out_len 4 = le_bytes 4 len))) ∧
  (2 ^ 32 <= len → buf ≠ 0 → buf + u32 len <= n → WriteOut data out_ptr out_len s = (s1, Undefined)).
Proof.
  assert (Hb : 0 <= buf).
  { unfold GuestAlloc in Halloc. destruct (origindb_alloc _ s) as [s' [p|]]; injection Halloc as _ <-; [|done].
    apply Z.mod_pos_bound. done. }
  destruct Hop as [Hop _], Hol as [Hol _]. intros len n. split.
  - intros Hlen. destruct (WriteOut_cases data out_ptr out_len s s1 buf Hlen Halloc) as (m & ok & Hrun & Hm).
    exists m, ok. split; [exact Hrun|].
    assert (Hword : ∀ mem p v, 0 <= p → p + 4 <= zlength mem → put mem p 4 (le_bytes 4 v) (splice mem p (le_bytes 4 v)))
      by (intros; apply splice_put; [done|apply le_bytes_zlength|done]).
    pose proof (text_put (memory s1) buf data Hb) as P1.
    destruct Hm as [[-> ->]|[(-> & Hf1 & ->)|[(-> & Hf1 & Hf2 & ->)|(-> & Hf1 & Hf2 & Hf3 & ->)]]]; [done|..].
    + destruct (P1 Hf1) as (? & Ha & _). split_and!; [done|intros; by apply Ha|done].
    + destruct (P1 Hf1) as (E1 & Ha & _). destruct (Hword _ _ buf Hop Hf2) as (E2 & Ho & _).
      split_and!; [by rewrite E2| |done]. intros a ???. by rewrite Ho, Ha.
    + destruct (P1 Hf1) as (E1 & Ha & Hw1 & Hk1). destruct (Hword _ _ buf Hop Hf2) as (E2 & Ho & Hw2 & Hk2).
      destruct (Hword _ _ (u32 (str_len data)) Hol Hf3) as (E3 & Hl & Hw3 & Hk3).
      split_and!; [by rewrite E3, E2|intros a ???; by rewrite Hl, Ho, Ha|].
      intros _. split_and!; [done|unfold n; lia|unfold n; lia|].
      assert (Hd : ∀ p q x y, disjoint_windows p x q y → disjoint_windows q y p x)
        by (unfold disjoint_windows; lia).
      intros D1 D2 D3. unfold len. rewrite !Hk3, Hk2, Hw1, Hw2, Hw3 by auto. split_and!; [done..|].
      rewrite u32_small; [done|]. split; [apply zlength_nonneg|done].
  - intros Hlen Hbuf Hfit. unfold WriteOut. host_step Halloc.
    assert (data ≠ "") as Hd by (intros ->; done).
    rewrite (proj2 (Z.eqb_neq _ _)) by done. simpl andb. cbv iota.
    rewrite decide_False by done.
    assert (WriteBytes buf (str_bytes data) s1 = (s1, Undefined)) as Hu.
    { unfold WriteBytes, InBounds. fold (str_len data). fold len. fold n.
      rewrite (proj2 (Z.leb_le _ _)) by done. simpl. by rewrite (proj2 (Z.leb_le _ _)) by done. }
    exact (host_bind_undefined _ _ _ _ Hu).
Qed.
End memory.

Import DemoCall.

Lemma WriteOut_bounds_witness :
  ∃ m, WriteOut "ada" 32 36 state = (set_memory m state, Done true) ∧
       window m 64 3 = str_bytes "ada" ∧ window m 0 5 = str_bytes "users".
Proof.
  destruct (WriteOut_bounds "ada" 32 36 state state 64) as [H _];
    [split; done|split; done|reflexivity|].
  destruct (H eq_refl) as (m & ok & Hrun & _ & Hout & Hin). exists m.
  assert (ok = true) as ->.
  { pose proof (f_equal snd Hrun) as Hok. vm_compute in Hok. by injection Hok. }
  destruct Hin as (_ & _ & _ & Hw); [done|]. split_and!; [exact Hrun| |].
  - apply Hw; unfold disjoint_windows; change (str_len "ada") with 3; lia.
  - rewrite (window_ext (memory state)); [reflexivity|done|].
    intros a Ha. unfold within in *. apply Hout; simpl; unfold within; lia.
Defined.
