(* ===== verification/WasmEngine.v ===== *)
(** * The WebAssembly engine (src/wasm/wasm_engine.cpp)

    The registry of modules, their loading with the import allow-list, the
    version gate and the hot swap, and the execution of a reducer: arguments
    into guest memory, the guest's code with its host calls, the status, and the
    commit of the staged writes.

    What wasmtime does (compiling, linking, running guest code) is the class
    [Wasmtime].  Guest code is a value of [code]: it computes on its memory,
    calls imports and continues with their results, returns or faults; a fault
    is a trap or the epoch deadline.  A module's allocator is a [Guest].  The
    engine of one process is used by one caller at a time; the ticker thread,
    which only advances wasmtime's epoch, is left out. *)

From Stdlib Require Import Strings.Ascii.
From S2P Require Import Prelude Table Codec RowCodec Float64 Json MemTable Txn WalStore Changefeed StorageJson Storage RowJson HostFunctions.
From coqutil Require Import Byte.

(** ** Data *)

Inductive WasmValue :=
| WNull | WBool (b : bool) | WInt32 (n : Z) | WInt64 (n : Z) | WFloat (bits : Z)
| WDouble (bits : Z) | WString (s : string) | WBytes (b : bytes).

Record ReducerDef := {
  def_name : string;
  param_types : list string;
  return_type : string;
  is_init : bool;
  is_client_connected : bool;
  is_client_disconnected : bool
}.

Record ModuleMetadata := {
  meta_name : string;
  version : string;
  meta_tables : list TableSchema;
  reducers : list ReducerDef;
  exports : list string;
  imports : list string
}.

Record WasmResult := { success : bool; error : string; values : list WasmValue }.

Record WasmModule := {
  name_ : string;
  bytecode_ : bytes;
  metadata_ : ModuleMetadata;
  capabilities_ : ModuleCapabilities;
  loaded_ : bool;
  impl_ : WasmModuleImpl
}.

Definition WASM_ERR_NO_HANDLER : Z := -404.
Definition WASM_EPOCH_TICK_MS : Z := 10.

Definition kRequiredExports : list string := ["memory"; "origindb_invoke"; "origindb_alloc"].
Definition kKnownEnvImports : list string :=
  ["host_table_read"; "host_table_write"; "host_table_delete"; "host_table_scan";
   "host_emit_event"; "host_now_ms"; "host_generate_id"; "host_log"; "host_abort";
   "host_alloc"; "host_free"; "host_set_result"; "host_sender"].

(** [name.rfind("__", 0) == 0] *)
Definition IsReservedName (name : string) : bool := String.prefix "__" name.

(** ** Guest code *)

(** A call of an import of the module "env", with its arguments. *)
Inductive host_call :=
| host_table_read (table key key_len out_ptr out_len : Z)
| host_table_write (table key key_len value value_len : Z)
| host_table_delete (table key key_len : Z)
| host_table_scan (table prefix prefix_len limit out_ptr out_len : Z)
| host_emit_event (topic key key_len payload payload_len : Z)
| host_now_ms
| host_generate_id
| host_log (level msg : Z)
| host_abort (msg : Z)
| host_alloc (size : Z)
| host_free (ptr : Z)
| host_set_result (ptr len : Z)
| host_sender (out_ptr out_len : Z).

Inductive code :=
| Return (result : Z)
| Fault (message : string)
| Compute (f : bytes → bytes) (k : bytes → code)
| Import (h : host_call) (k : Z → code).

Inductive extern_kind := EXTERN_FUNC | EXTERN_MEMORY | EXTERN_OTHER.

#[export] Instance extern_kind_eq_dec : EqDecision extern_kind.
Proof. solve_decision. Defined.

(** wasmtime, on the bytes of a module: compilation ([inl] an error, or the
    imports and the export names), the linker, instantiation under a memory
    limit, the exports of the instance and their code. *)
Class Wasmtime (W : Type) := {
  engine_new : bool;
  module_new : bytes → string + list (string * string) * list string;
  context_set_wasi : option string;
  linker_define_wasi : option string;
  linker_define_func : string → option string;
  linker_instantiate : bytes → Z → string + bytes;
  export_kind : bytes → string → option extern_kind;
  export_code : bytes → string → list Z → code;
  guest_of : bytes → Guest W
}.

(** ** Versions *)

Fixpoint segment (s : string) : string * string :=
  match s with
  | EmptyString => ("", "")
  | String c s => if bool_decide (c = "."%char) then ("", s)
                  else let '(seg, rest) := segment s in (String c seg, rest)
  end.

Definition is_digit (c : ascii) : bool := (48 <=? byte.unsigned (byte_of_ascii c)) && (byte.unsigned (byte_of_ascii c) <=? 57).
Definition all_digits (s : string) : bool :=
  negb (bool_decide (s = "")) && forallb is_digit (String.list_ascii_of_string s).

Definition digits_value (s : string) : Z :=
  fold_left (λ n c, n * 10 + (byte.unsigned (byte_of_ascii c) - 48)) (String.list_ascii_of_string s) 0.

(** [std::stol] of a string of digits. *)
Definition stol (s : string) : exc Z :=
  let n := digits_value s in if 2 ^ 63 <=? n then Throw "stol" else Ret n.

Definition string_lt (a b : string) : bool :=
  match String.compare a b with Lt => true | _ => false end.

(** The loop of [CompareVersions]; each round consumes a character. *)
Fixpoint compare_loop (fuel : nat) (a b : string) : exc Z :=
  match fuel with
  | O => Ret 0
  | S fuel =>
      if bool_decide (a = "") && bool_decide (b = "") then Ret 0 else
      let '(sa, a1) := segment a in
      let '(sb, b1) := segment b in
      if all_digits sa && all_digits sb then
        va ← stol sa; vb ← stol sb;
        if va =? vb then compare_loop fuel a1 b1 else Ret (if va <? vb then -1 else 1)
      else if bool_decide (sa = sb) then compare_loop fuel a1 b1
      else Ret (if string_lt sa sb then -1 else 1)
  end.

Definition CompareVersions (a b : string) : exc Z :=
  compare_loop (String.length a + String.length b + 1) a b.

(** ** Running guest code *)

Section run.
Context {W : Type} `{WA : WalApi W} `{JL : JsonLib} `{HO : HashOrder} `{G : Guest W}.
Variable mod_ : WasmModuleImpl.

(** The table [defs] of [RegisterHostFunctions]; a function without result
    answers 0, which the guest does not see. *)
Definition dispatch (h : host_call) : Host W Z :=
  match h with
  | host_table_read t k kl o ol => HostTableRead mod_ t k kl o ol
  | host_table_write t k kl v vl => HostTableWrite mod_ t k kl v vl
  | host_table_delete t k kl => HostTableDelete mod_ t k kl
  | host_table_scan t p pl limit o ol => HostTableScan mod_ t p pl limit o ol
  | host_emit_event t k kl p pl => HostEmitEvent t k kl p pl
  | host_now_ms => HostNowMs
  | host_generate_id => HostGenerateId
  | host_log level msg => _ ← HostLog level msg; mret 0
  | host_abort msg => _ ← HostAbort msg; mret 0
  | host_alloc size => HostAlloc size
  | host_free ptr => _ ← HostFree ptr; mret 0
  | host_set_result ptr len => _ ← HostSetResult ptr len; mret 0
  | host_sender o ol => HostSender o ol
  end.

Fixpoint run_code (c : code) : Host W Z :=
  match c with
  | Return v => mret v
  | Fault message => Trap message
  | Compute f k => λ s, run_code (k (memory s)) (set_memory (f (memory s)) s)
  | Import h k => v ← dispatch h; run_code (k v)
  end.

(** [WriteGuestBuffer]: the address of the copy in guest memory. *)
Definition WriteGuestBuffer (data : string) : Host W (option Z) := λ s,
  match origindb_alloc (str_len data) s with
  | (s1, None) => (s1, Done None)
  | (s1, Some p) =>
      let ptr := u32 p in
      if (ptr =? 0) && negb (bool_decide (data = "")) then (s1, Done None)
      else if zlength (memory s1) <? ptr + str_len data then (s1, Done None)
      else (set_memory (take (Z.to_nat ptr) (memory s1) ++ str_bytes data
                        ++ drop (Z.to_nat ptr + length (str_bytes data)) (memory s1)) s1,
            Done (Some ptr))
  end.

(** [wasmtime_func_call]: a trap's message or the result. *)
Definition func_call (c : code) : Host W (string + Z) := λ s,
  match run_code c s with
  | (s1, Done v) => (s1, Done (inr v))
  | (s1, Trapped message) => (s1, Done (inl message))
  | (s1, Escaped what) => (s1, Escaped what)
  | (s1, Undefined) => (s1, Undefined)
  end.

(** [CallInvoke]: a trap's message or the status. *)
Definition CallInvoke (invoke : list Z → code) (name args_json : string) : Host W (string + Z) :=
  let failed := inl "failed to write call arguments into guest memory" in
  name_ptr ← WriteGuestBuffer name;
  match name_ptr with
  | None => mret failed
  | Some name_ptr =>
      args_ptr ← WriteGuestBuffer args_json;
      match args_ptr with
      | None => mret failed
      | Some args_ptr =>
          r ← func_call (invoke [i32 name_ptr; i32 (str_len name); i32 args_ptr; i32 (str_len args_json)]);
          mret (match r with inl message => inl message | inr status => inr (i32 status) end)
      end
  end.
End run.

(** ** The engine *)

(** The registry's order is that of an unordered map. *)
Record WasmEngine (W : Type) := {
  engine_ : bool;
  shutdown_requested_ : bool;
  modules_ : gmap string WasmModule;
  last_load_error_ : string;
  timeout_ms_ : Z;
  memory_limit_mb_ : Z;
  storage_ : option (StorageEngine W);
  changefeed_ : bool;
  id_counter : Z
}.
Arguments engine_ {W} _.
Arguments shutdown_requested_ {W} _.
Arguments modules_ {W} _.
Arguments last_load_error_ {W} _.
Arguments timeout_ms_ {W} _.
Arguments memory_limit_mb_ {W} _.
Arguments storage_ {W} _.
Arguments changefeed_ {W} _.
Arguments id_counter {W} _.

Definition new_WasmEngine {W} (st : option (StorageEngine W)) (cf : bool) : WasmEngine W :=
  {| engine_ := false; shutdown_requested_ := false; modules_ := ∅; last_load_error_ := "";
     timeout_ms_ := 5000; memory_limit_mb_ := 256; storage_ := st; changefeed_ := cf; id_counter := 0 |}.

Section engine.
Context {W : Type} `{WA : WalApi W} `{JL : JsonLib} `{HO : HashOrder} `{WT : Wasmtime W}.
Abbreviation engine := (WasmEngine W).

Definition set_modules (ms : gmap string WasmModule) (e : engine) : engine :=
  {| engine_ := engine_ e; shutdown_requested_ := shutdown_requested_ e; modules_ := ms;
     last_load_error_ := last_load_error_ e; timeout_ms_ := timeout_ms_ e;
     memory_limit_mb_ := memory_limit_mb_ e; storage_ := storage_ e; changefeed_ := changefeed_ e;
     id_counter := id_counter e |}.
Definition set_store (st : option (StorageEngine W)) (counter : Z) (e : engine) : engine :=
  {| engine_ := engine_ e; shutdown_requested_ := shutdown_requested_ e; modules_ := modules_ e;
     last_load_error_ := last_load_error_ e; timeout_ms_ := timeout_ms_ e;
     memory_limit_mb_ := memory_limit_mb_ e; storage_ := st; changefeed_ := changefeed_ e;
     id_counter := counter |}.
Definition SetLoadError (name error : string) (e : engine) : engine :=
  {| engine_ := engine_ e; shutdown_requested_ := shutdown_requested_ e; modules_ := modules_ e;
     last_load_error_ := name +:+ ": " +:+ error; timeout_ms_ := timeout_ms_ e;
     memory_limit_mb_ := memory_limit_mb_ e; storage_ := storage_ e; changefeed_ := changefeed_ e;
     id_counter := id_counter e |}.
Definition set_engine (started shutdown : bool) (e : engine) : engine :=
  {| engine_ := started; shutdown_requested_ := shutdown; modules_ := modules_ e;
     last_load_error_ := last_load_error_ e; timeout_ms_ := timeout_ms_ e;
     memory_limit_mb_ := memory_limit_mb_ e; storage_ := storage_ e; changefeed_ := changefeed_ e;
     id_counter := id_counter e |}.

Definition set_impl (i : WasmModuleImpl) (m : WasmModule) : WasmModule :=
  {| name_ := name_ m; bytecode_ := bytecode_ m; metadata_ := metadata_ m;
     capabilities_ := capabilities_ m; loaded_ := loaded_ m; impl_ := i |}.
Definition set_metadata (meta : ModuleMetadata) (m : WasmModule) : WasmModule :=
  {| name_ := name_ m; bytecode_ := bytecode_ m; metadata_ := meta;
     capabilities_ := capabilities_ m; loaded_ := loaded_ m; impl_ := impl_ m |}.
Definition set_loaded (m : WasmModule) : WasmModule :=
  {| name_ := name_ m; bytecode_ := bytecode_ m; metadata_ := metadata_ m;
     capabilities_ := capabilities_ m; loaded_ := true; impl_ := impl_ m |}.
Definition set_instance (i : option Instance) (m : WasmModuleImpl) : WasmModuleImpl :=
  {| instance := i; memory_limit_bytes := memory_limit_bytes m; timeout_ms := timeout_ms m;
     debug_stdio := debug_stdio m; caps := caps m; module_name := module_name m |}.
Definition DestroyInstance : WasmModuleImpl → WasmModuleImpl := set_instance None.

(** ** Instances *)

Abbreviation Eng := (Prog (WasmEngine W)).
Definition get_engine : Eng engine := λ e, (e, Done e).
Definition modify (f : engine → engine) : Eng () := λ e, (f e, Done ()).

(** The state a host call of an instance sees. *)
Definition host_state (i : Instance) (call : option HostCallContext) (e : engine) : HostState W :=
  {| memory := inst_memory i; current_call := call; storage := storage_ e; g_id_counter := id_counter e |}.

(** Running guest code in an instance: the result, the instance with its
    memory, and the call context. *)
Definition on_instance {A} (i : Instance) (call : option HostCallContext) (m : Host W A)
    : Eng (A * Instance * option HostCallContext) := λ e,
  let '(s, r) := m (host_state i call e) in
  (set_store (storage s) (g_id_counter s) e,
   match r with
   | Done a => Done (a, {| inst_memory := memory s; has_free := has_free i;
                           has_describe := has_describe i; has_initialize := has_initialize i |},
                     current_call s)
   | Trapped m => Trapped m
   | Escaped w => Escaped w
   | Undefined => Undefined
   end).

(** The loop of [RegisterHostFunctions]: its error, if it fails. *)
Fixpoint RegisterHostFunctions (names : list string) : option string :=
  match names with
  | [] => None
  | name :: names =>
      match linker_define_func name with
      | Some err => Some ("failed to define env." +:+ name +:+ ": " +:+ err)
      | None => RegisterHostFunctions names
      end
  end.

Definition has_func (bytecode : bytes) (name : string) : bool :=
  bool_decide (export_kind bytecode name = Some EXTERN_FUNC).

Definition ResolveExports (bytecode mem : bytes) : string + Instance :=
  if bool_decide (export_kind bytecode "memory" ≠ Some EXTERN_MEMORY) then inl "module does not export memory"
  else if negb (has_func bytecode "origindb_invoke") then inl "module does not export origindb_invoke"
  else if negb (has_func bytecode "origindb_alloc") then inl "module does not export origindb_alloc"
  else inr {| inst_memory := mem; has_free := has_func bytecode "origindb_free";
              has_describe := has_func bytecode "origindb_describe";
              has_initialize := has_func bytecode "_initialize" |}.

(** [Instantiate]: the module without instance and an error, or with one. *)
Definition Instantiate (bytecode : bytes) (impl : WasmModuleImpl) : Eng (WasmModuleImpl * option string) :=
  let fail error := mret (DestroyInstance impl, Some error) in
  match context_set_wasi, linker_define_wasi, RegisterHostFunctions kKnownEnvImports with
  | Some err, _, _ => fail ("WASI setup failed: " +:+ err)
  | None, Some err, _ => fail ("WASI linker setup failed: " +:+ err)
  | None, None, Some err => fail err
  | None, None, None =>
      match linker_instantiate bytecode (memory_limit_bytes impl) with
      | inl err => fail ("instantiation failed: " +:+ err)
      | inr mem =>
          match ResolveExports bytecode mem with
          | inl err => fail err
          | inr i =>
              if has_initialize i then
                '(r, i1, _) ← on_instance i None
                  (func_call (G := guest_of bytecode) impl (export_code bytecode "_initialize" []));
                match r with
                | inl err => fail ("_initialize failed: " +:+ err)
                | inr _ => mret (set_instance (Some i1) impl, None)
                end
              else mret (set_instance (Some i) impl, None)
          end
      end
  end.

(** ** Execution *)

Definition arg_json (v : WasmValue) : json :=
  match v with
  | WNull => JNull
  | WBool b => JBool b
  | WInt32 n | WInt64 n => JInt n
  | WFloat b => JFloat (double_of_float b)
  | WDouble b => JFloat b
  | WString s => JString s
  | WBytes b => JObject [("$bytes", JString (Base64Encode b))]
  end.
Definition SerializeArgs (args : list WasmValue) : exc string := dump (JArray (map arg_json args)).

Definition failed (error : string) : WasmResult := {| success := false; error := error; values := [] |}.

(** [CommitHostCall] on the engine's storage. *)
Definition commit_call (now : Z) (impl : WasmModuleImpl) (call : HostCallContext) : Eng (bool * string) := λ e,
  let '(st, r) := CommitHostCall impl now call (storage_ e) in
  (set_store st (id_counter e) e, match r with Ret a => Done a | Throw w => Escaped w end).

(** What [Execute] does once the guest returned a status. *)
Definition finish (now : Z) (impl : WasmModuleImpl) (reducer_name : string) (call : HostCallContext)
    (status : Z) : Eng WasmResult :=
  if status =? WASM_ERR_NO_HANDLER then
    mret (if IsReservedName reducer_name then {| success := true; error := ""; values := [] |}
          else failed ("unknown reducer: " +:+ reducer_name))
  else if status <? 0 then
    let detail := bytes_str (result call) in
    mret (failed ("reducer returned error " +:+ pretty status
                  +:+ (if bool_decide (detail = "") then "" else ": " +:+ detail)))
  else
    '(ok, commit_error) ← commit_call now impl call;
    mret (if negb ok then failed ("commit failed: " +:+ commit_error)
          else {| success := true; error := "";
                  values := [if has_result call then WBytes (result call) else WInt32 status] |}).

Definition Execute (now : Z) (module : WasmModule) (reducer_name : string) (ctx : ReducerContext)
    (args : list WasmValue) : Eng (WasmModule * WasmResult) :=
  let bytecode := bytecode_ module in
  e ← get_engine;
  if shutdown_requested_ e then mret (module, failed "engine shutting down") else
  '(impl, error) ← (match instance (impl_ module) with
                    | Some _ => mret (impl_ module, None)
                    | None => Instantiate bytecode (impl_ module)
                    end);
  match error, instance impl with
  | Some err, _ => mret (set_impl impl module, failed ("re-instantiation failed: " +:+ err))
  | None, None => λ e, (e, Undefined)
  | None, Some i =>
      args_json ← lift_exc (SerializeArgs args);
      '(r, i1, call) ← on_instance i (Some (new_call ctx))
        (CallInvoke (G := guest_of bytecode) impl (export_code bytecode "origindb_invoke")
                    reducer_name args_json);
      let call := default (new_call ctx) call in
      match r with
      | inl trap_msg =>
          let msg := if bool_decide (abort_msg call ≠ "") then "aborted: " +:+ abort_msg call
                     else if bool_decide (trap_msg = "") then "execution failed" else trap_msg in
          mret (set_impl (DestroyInstance impl) module, failed msg)
      | inr status =>
          res ← finish now impl reducer_name call status;
          mret (set_impl (set_instance (Some i1) impl) module, res)
      end
  end.

Definition CreateReducerContext (now : Z) (sender connection : string) (e : engine) : ReducerContext :=
  {| sender_identity := sender; module_identity := ""; connection_id := connection;
     timestamp_micros := u64 (Z.quot now 1000); has_changefeed := changefeed_ e |}.

(** ** Loading *)

(** The loop over the imports of [Compile]: those recorded, and the error. *)
Fixpoint check_imports (found : list (string * string)) (recorded : list string)
    : list string * option string :=
  match found with
  | [] => (recorded, None)
  | (mod_, name) :: found =>
      let recorded := recorded ++ [mod_ +:+ "." +:+ name] in
      if bool_decide (mod_ = "wasi_snapshot_preview1")
         || (bool_decide (mod_ = "env") && bool_decide (name ∈ kKnownEnvImports))
      then check_imports found recorded
      else (recorded, Some ("disallowed import: " +:+ mod_ +:+ "." +:+ name))
  end.

Fixpoint check_exports (required found : list string) : option string :=
  match required with
  | [] => None
  | r :: required =>
      if bool_decide (r ∈ found) then check_exports required found
      else Some ("missing required export: " +:+ r)
  end.

Definition set_linkage (imps exps : list string) (m : ModuleMetadata) : ModuleMetadata :=
  {| meta_name := meta_name m; version := version m; meta_tables := meta_tables m;
     reducers := reducers m; exports := exps; imports := imps |}.

(** [Compile]: the module with its imports and exports, or an error. *)
Definition Compile (m : WasmModule) : string + WasmModule :=
  match module_new (bytecode_ m) with
  | inl err => inl ("invalid WASM module: " +:+ err)
  | inr (found_imports, found_exports) =>
      match check_imports found_imports [] with
      | (_, Some err) => inl err
      | (recorded, None) =>
          match check_exports kRequiredExports found_exports with
          | Some err => inl err
          | None => inr (set_metadata (set_linkage recorded found_exports (metadata_ m)) m)
          end
      end
  end.

(** One entry of "reducers"; [None] is skipped. *)
Definition reducer_def (r : json) : exc (option ReducerDef) :=
  let def name params :=
    Some {| def_name := name; param_types := params; return_type := "";
            is_init := bool_decide (name = "__init");
            is_client_connected := bool_decide (name = "__client_connected");
            is_client_disconnected := bool_decide (name = "__client_disconnected") |} in
  match r with
  | JString s => Ret (def s [])
  | JObject _ =>
      match json_field "name" r with
      | None => Ret None
      | Some n =>
          name ← as_string n;
          Ret (def name (match json_field "params" r with
                         | Some (JArray ps) =>
                             map (λ p, match p with JString s => s | _ => "any" end) ps
                         | _ => []
                         end))
      end
  | _ => Ret None
  end.

Fixpoint reducer_defs (rs : list json) : exc (list ReducerDef) :=
  match rs with
  | [] => Ret []
  | r :: rs => d ← reducer_def r; ds ← reducer_defs rs; Ret (option_list d ++ ds)
  end.

(** What [ExtractMetadata] makes of the description. *)
Definition describe_metadata (meta : json) (m : ModuleMetadata) : exc ModuleMetadata :=
  let v := match json_field "version" meta with
           | Some (JString s) => if bool_decide (version m = "") then s else version m
           | _ => version m
           end in
  defs ← (match json_field "reducers" meta with Some (JArray rs) => reducer_defs rs | _ => Ret [] end);
  Ret {| meta_name := meta_name m; version := v; meta_tables := meta_tables m;
         reducers := reducers m ++ defs; exports := exports m; imports := imports m |}.

Definition ExtractMetadata (m : WasmModule) : Eng WasmModule :=
  match instance (impl_ m) with
  | None => mret m
  | Some i =>
      if negb (has_describe i) then mret m else
      '(r, i1, _) ← on_instance i None
        (func_call (G := guest_of (bytecode_ m)) (impl_ m) (export_code (bytecode_ m) "origindb_describe" []));
      let m1 := set_impl (set_instance (Some i1) (impl_ m)) m in
      match r with
      | inl _ => mret m1
      | inr v =>
          let packed := u64 v in
          let ptr := u32 (Z.shiftr packed 32) in
          let len := Z.land packed 0xFFFFFFFF in
          if negb (InBounds (inst_memory i1) ptr len) then mret m1 else
          match parse (bytes_str (take (Z.to_nat len) (drop (Z.to_nat ptr) (inst_memory i1)))) with
          | Some meta =>
              if negb (is_object meta) then mret m1 else
              md ← lift_exc (describe_metadata meta (metadata_ m1));
              mret (set_metadata md m1)
          | None => mret m1
          end
      end
  end.

(** The module object before it is compiled. *)
Definition new_module (name : string) (bytecode : bytes) (ver : string) (cap : ModuleCapabilities)
    (e : engine) : WasmModule :=
  {| name_ := name; bytecode_ := bytecode;
     metadata_ := {| meta_name := name; version := ver; meta_tables := []; reducers := [];
                     exports := []; imports := [] |};
     capabilities_ := cap; loaded_ := false;
     impl_ := {| instance := None;
                 memory_limit_bytes :=
                   u64 ((if max_memory_mb cap =? 0 then memory_limit_mb_ e else max_memory_mb cap) * 1024 * 1024);
                 timeout_ms := if cap_timeout_ms cap =? 0 then timeout_ms_ e else cap_timeout_ms cap;
                 debug_stdio := false; caps := Some cap; module_name := name |} |}.

Definition load_failed (name error : string) : Eng bool := _ ← modify (SetLoadError name error); mret false.

(** The version gate: the refusal, if any. *)
Definition version_gate (previous : option WasmModule) (m : WasmModule) : exc (option string) :=
  match previous with
  | None => Ret None
  | Some p =>
      let old_v := version (metadata_ p) in
      let new_v := version (metadata_ m) in
      if bool_decide (old_v = "") || bool_decide (new_v = "") then Ret None else
      c ← CompareVersions new_v old_v;
      Ret (if c <? 0 then Some ("version " +:+ new_v +:+ " is older than deployed version " +:+ old_v
                                +:+ "; bump the version to redeploy") else None)
  end.

Definition LoadModule (now : Z) (name : string) (bytecode : bytes) (ver : string)
    (cap : ModuleCapabilities) : Eng bool :=
  e ← get_engine;
  if negb (engine_ e) then load_failed name "engine not initialized" else
  if shutdown_requested_ e then load_failed name "engine shutting down" else
  if bool_decide (bytecode = []) then load_failed name "empty module bytecode" else
  match Compile (new_module name bytecode ver cap e) with
  | inl err => load_failed name err
  | inr m0 =>
      '(impl, err) ← Instantiate bytecode (impl_ m0);
      match err with
      | Some err => load_failed name err
      | None =>
          m ← ExtractMetadata (set_loaded (set_impl impl m0));
          e1 ← get_engine;
          let previous := modules_ e1 !! name in
          gate ← lift_exc (version_gate previous m);
          match gate with
          | Some err => load_failed name err
          | None =>
              let ctx := CreateReducerContext now "system" "" e1 in
              '(m1, init) ← Execute now m "__init" ctx [];
              if negb (success init) then load_failed name ("__init failed: " +:+ error init) else
              '(m2, migrated) ←
                (match previous with
                 | None => mret (m1, None)
                 | Some p =>
                     '(m2, migrate) ← Execute now m1 "__migrate" ctx
                                        [WString (version (metadata_ p)); WString (version (metadata_ m1))];
                     mret (m2, if success migrate then None else Some (error migrate))
                 end);
              match migrated with
              | Some err => load_failed name ("__migrate failed: " +:+ err)
              | None =>
                  _ ← modify (λ e, set_modules (<[name := m2]> (modules_ e)) e);
                  mret true
              end
          end
      end
  end.

(** ** The registry *)

Definition UnloadModule (name : string) (e : engine) : engine * bool :=
  match modules_ e !! name with
  | None => (e, false)
  | Some _ => (set_modules (delete name (modules_ e)) e, true)
  end.

Definition GetModule (name : string) (e : engine) : option WasmModule := modules_ e !! name.
Definition ListModules (e : engine) : list string := (hash_iter (modules_ e)).*1.

(** The module's instance, shared with the registry, keeps what the call did to
    it. *)
Definition ExecuteReducer (now : Z) (module_name reducer_name : string) (ctx : ReducerContext)
    (args : list WasmValue) : Eng WasmResult :=
  e ← get_engine;
  match GetModule module_name e with
  | None => mret (failed ("module not found: " +:+ module_name))
  | Some m =>
      '(m1, res) ← Execute now m reducer_name ctx args;
      _ ← modify (λ e, set_modules (<[module_name := m1]> (modules_ e)) e);
      mret res
  end.

Definition OnModuleInit (now : Z) (module_name : string) (ctx : ReducerContext) : Eng WasmResult :=
  ExecuteReducer now module_name "__init" ctx [].
Definition OnClientConnected (now : Z) (module_name : string) (ctx : ReducerContext) : Eng WasmResult :=
  ExecuteReducer now module_name "__client_connected" ctx [WString (connection_id ctx)].
Definition OnClientDisconnected (now : Z) (module_name : string) (ctx : ReducerContext) : Eng WasmResult :=
  ExecuteReducer now module_name "__client_disconnected" ctx [WString (connection_id ctx)].

Definition Initialize (e : engine) : engine * bool :=
  if engine_ e then (e, true)
  else if negb engine_new then (e, false)
  else (set_engine true (shutdown_requested_ e) e, true).

Definition RequestShutdown (e : engine) : engine := set_engine (engine_ e) true e.

Definition Shutdown (e : engine) : engine :=
  if negb (engine_ e) then e else set_engine false true (set_modules ∅ (RequestShutdown e)).

Definition SetTimeoutMs (n : Z) (e : engine) : engine :=
  {| engine_ := engine_ e; shutdown_requested_ := shutdown_requested_ e; modules_ := modules_ e;
     last_load_error_ := last_load_error_ e; timeout_ms_ := n; memory_limit_mb_ := memory_limit_mb_ e;
     storage_ := storage_ e; changefeed_ := changefeed_ e; id_counter := id_counter e |}.
Definition SetMemoryLimitMB (n : Z) (e : engine) : engine :=
  {| engine_ := engine_ e; shutdown_requested_ := shutdown_requested_ e; modules_ := modules_ e;
     last_load_error_ := last_load_error_ e; timeout_ms_ := timeout_ms_ e; memory_limit_mb_ := n;
     storage_ := storage_ e; changefeed_ := changefeed_ e; id_counter := id_counter e |}.
End engine.
