(* ===== verification/WasmExec.v ===== *)
(** * Executing a reducer is all or nothing until its commit

    Whatever the guest does, its code only stages writes: the host functions
    leave the tables, the log and the changefeed alone (reads fill the JSON
    caches).  So an execution that fails before the commit changes nothing. *)

From S2P Require Import Prelude Table Codec RowCodec Json MemTable Txn WalStore Changefeed StorageJson Storage RowJson StorageCommit HostFunctions HostReads WasmEngine.
From coqutil Require Import Byte.

(** ** Host functions do not write the storage *)

Section safe.
Context {W : Type} `{WA : WalApi W} `{JL : JsonLib} `{HO : HashOrder} `{G : Guest W}.
Variable mod_ : WasmModuleImpl.
Abbreviation state := (HostState W).

Definition storage_same : option (StorageEngine W) → option (StorageEngine W) → Prop :=
  option_Forall2 cache_only.

#[export] Instance storage_same_po : PreOrder storage_same.
Proof.
  split.
  - intros [e|]; constructor. apply cache_only_refl.
  - intros a b c H1 H2. destruct H1; inversion H2; subst; constructor. by eapply cache_only_trans.
Qed.

(** A run from [s] keeps the storage. *)
Definition keeps {A} (m : Host W A) (s : state) : Prop := storage_same (storage s) (storage (m s).1).

Definition safe {A} (m : Host W A) : Prop := ∀ s, keeps m s.

Lemma keeps_bind {A B} (m : Host W A) (f : A → Host W B) s :
  keeps m s → (∀ a s', m s = (s', Done a) → storage_same (storage s) (storage s') → keeps (f a) s') →
  keeps (m ≫= f) s.
Proof.
  unfold keeps. intros Hm Hf. unfold mbind, Prog_bind.
  destruct (m s) as [s' [a| | |]] eqn:E; simpl in *; try done. etrans; [exact Hm|]. by apply Hf.
Qed.

Lemma safe_bind {A B} (m : Host W A) (f : A → Host W B) : safe m → (∀ a, safe (f a)) → safe (m ≫= f).
Proof. intros Hm Hf s. apply keeps_bind; [apply Hm|]. intros. apply Hf. Qed.

Lemma safe_same_storage {A} (m : Host W A) : (∀ s, storage (m s).1 = storage s) → safe m.
Proof. intros H s. unfold keeps. by rewrite H. Qed.

Lemma safe_ret {A} (a : A) : safe (mret a : Host W A).
Proof. by apply safe_same_storage. Qed.
Lemma safe_Trap {A} m : safe (Trap m : Host W A).
Proof. by apply safe_same_storage. Qed.
Lemma safe_lift_exc {A} (m : exc A) : safe (lift_exc m : Host W A).
Proof. apply safe_same_storage. by destruct m. Qed.
Lemma safe_OpenFrame : safe (OpenFrame : Host W _).
Proof. apply safe_same_storage. intros s. unfold OpenFrame. by destruct (current_call s). Qed.
Lemma safe_put_call c : safe (put_call c : Host W _).
Proof. by apply safe_same_storage. Qed.
Lemma safe_ReadBytes p n : safe (ReadBytes p n : Host W _).
Proof. by apply safe_same_storage. Qed.
Lemma safe_ReadCString p n : safe (ReadCString p n : Host W _).
Proof. by apply safe_same_storage. Qed.
Lemma safe_WriteBytes p d : safe (WriteBytes p d : Host W _).
Proof.
  apply safe_same_storage. intros s. unfold WriteBytes.
  destruct (negb _); [done|]. by destruct (_ <=? _).
Qed.
Lemma safe_fetch_add : safe (fetch_add : Host W _).
Proof. by apply safe_same_storage. Qed.

(** Guest code reaches the storage through imports only; for the allocator,
    which is a parameter, this is a hypothesis. *)
Class GuestSafe : Prop :=
  alloc_safe : ∀ size s, storage_same (storage s) (storage (origindb_alloc size s).1).
Context `{GS : GuestSafe}.

Lemma safe_GuestAlloc n : safe (GuestAlloc n).
Proof. intros s. unfold keeps, GuestAlloc. pose proof (alloc_safe n s). by destruct (origindb_alloc n s). Qed.
End safe.

#[export] Hint Resolve safe_ret safe_Trap safe_lift_exc safe_OpenFrame safe_put_call safe_ReadBytes
  safe_ReadCString safe_WriteBytes safe_fetch_add safe_GuestAlloc : safe.

(** Splits a sequence and the tests in it, down to the calls of the database. *)
Ltac solve_safe :=
  repeat first
    [ solve [auto with safe]
    | apply safe_bind; [|intros]
    | progress cbv zeta
    | case_match ].

Section calls.
Context {W : Type} `{WA : WalApi W} `{JL : JsonLib} `{HO : HashOrder} `{G : Guest W} `{GS : !GuestSafe}.
Variable mod_ : WasmModuleImpl.

Lemma safe_WriteU32 p v : safe (WriteU32 p v : Host W _).
Proof. apply safe_WriteBytes. Qed.

Lemma safe_WriteOut d p n : safe (WriteOut d p n).
Proof. unfold WriteOut. pose proof safe_WriteU32. solve_safe. Qed.

(** Reading a table through its cache. *)
Lemma keeps_put_table e table t t' (s : HostState W) :
  storage s = Some e → GetTable table e = Some t → no_cache t' = no_cache t →
  keeps (put_storage (set_tables (<[table := t']> (tables_ e)) e)) s.
Proof.
  intros Hs Ht Hn. unfold keeps, put_storage. simpl. rewrite Hs. constructor.
  by eapply cache_only_insert.
Qed.

Lemma safe_get_storage {B} (f : StorageEngine W → Host W B) :
  (∀ e s, storage s = Some e → keeps (f e) s) → safe (get_storage ≫= f).
Proof.
  intros Hf s. unfold keeps, get_storage, mbind, Prog_bind.
  destruct (storage s) as [e|] eqn:E; [|simpl; rewrite E; constructor].
  pose proof (Hf e s E) as H. unfold keeps in H. by rewrite E in H.
Qed.

Lemma keeps_lift_exc {A B} (m : exc A) (f : A → Host W B) s :
  (∀ a, m = Ret a → keeps (f a) s) → keeps (lift_exc m ≫= f) s.
Proof.
  intros Hf. unfold keeps, lift_exc, mbind, Prog_bind. destruct m as [a|]; [|done]. by apply (Hf a).
Qed.

Lemma keeps_safe {A B} (m : Host W A) (f : A → Host W B) s :
  keeps m s → (∀ a, safe (f a)) → keeps (m ≫= f) s.
Proof. intros Hm Hf. apply keeps_bind; [done|]. intros. apply Hf. Qed.

Lemma safe_HostTableRead t k kl o ol : safe (HostTableRead mod_ t k kl o ol).
Proof.
  unfold HostTableRead. pose proof safe_WriteOut.
  do 3 (apply safe_bind; [solve_safe|intros]).
  destruct a0 as [table|]; [|solve_safe]. destruct a1 as [kb|]; [|solve_safe]. cbv zeta.
  destruct (negb _); [solve_safe|]. destruct (_ ← _; _) as [[v|]|]; [solve_safe..|].
  apply safe_get_storage. intros e s Hs. destruct (GetTable table e) as [tbl|] eqn:Et; [|apply safe_ret].
  apply keeps_lift_exc. intros [t' vj] Hg. apply keeps_safe; [|intros; solve_safe].
  eapply keeps_put_table; [done..|]. by eapply GetJsonCached_no_cache.
Qed.

Lemma safe_HostTableScan t p pl lim o ol : safe (HostTableScan mod_ t p pl lim o ol).
Proof.
  unfold HostTableScan. pose proof safe_WriteOut.
  do 3 (apply safe_bind; [solve_safe|intros]).
  destruct a0 as [table|]; [|solve_safe]. destruct a1 as [pb|]; [|solve_safe]. cbv zeta.
  destruct (negb _); [solve_safe|].
  apply safe_get_storage. intros e s Hs. apply keeps_safe.
  - destruct (GetTable table e) as [tbl|] eqn:Et; [|apply safe_ret].
    apply keeps_lift_exc. intros [t' rows] Hg. apply keeps_safe; [|intros; solve_safe].
    eapply keeps_put_table; [done..|]. by eapply ScanJsonCached_no_cache.
  - intros rows. solve_safe.
Qed.

Lemma safe_HostAlloc n : safe (HostAlloc n).
Proof.
  apply safe_same_storage. intros s. unfold HostAlloc. cbv zeta.
  destruct (_ =? _); [done|]. by destruct (memory_grow _ _) as [[m p]|].
Qed.

Lemma safe_dispatch h : safe (dispatch mod_ h).
Proof.
  pose proof safe_WriteOut. pose proof safe_HostAlloc.
  destruct h; cbn [dispatch]; try apply safe_HostTableRead; try apply safe_HostTableScan;
    unfold HostTableWrite, HostTableDelete, HostEmitEvent, HostNowMs, HostGenerateId, HostLog, HostAbort,
      HostFree, HostSetResult, HostSender; solve_safe.
Qed.

Lemma safe_run_code c : safe (run_code mod_ c).
Proof.
  induction c as [v|m|f k IH|h k IH]; cbn [run_code]; [solve_safe..| |].
  - intros s. apply (IH (memory s) (set_memory (f (memory s)) s)).
  - apply safe_bind; [apply safe_dispatch|done].
Qed.

Lemma safe_func_call c : safe (func_call mod_ c).
Proof.
  intros s. unfold keeps, func_call. pose proof (safe_run_code c s) as H. unfold keeps in H.
  by destruct (run_code mod_ c s) as [s1 [| | |]].
Qed.

Lemma safe_WriteGuestBuffer d : safe (WriteGuestBuffer d).
Proof.
  intros s. unfold keeps, WriteGuestBuffer. pose proof (alloc_safe (str_len d) s) as H.
  destruct (origindb_alloc _ s) as [s1 [p|]]; [|done]. cbv zeta.
  destruct (_ && _); [done|]. by destruct (_ <? _).
Qed.

Lemma safe_CallInvoke invoke name args : safe (CallInvoke mod_ invoke name args).
Proof. unfold CallInvoke. pose proof safe_func_call. pose proof safe_WriteGuestBuffer. solve_safe. Qed.
End calls.

(** ** The engine *)

Section execute.
Context {W : Type} `{WA : WalApi W} `{JL : JsonLib} `{HO : HashOrder} `{WT : Wasmtime W}.
Context (guests_safe : ∀ bytecode, GuestSafe (G := guest_of bytecode)).
Abbreviation engine := (WasmEngine W).

(** Only the JSON caches and the identifier counter may differ. *)
Definition undisturbed (e e' : engine) : Prop :=
  storage_same (storage_ e) (storage_ e') ∧ e' = set_store (storage_ e') (id_counter e') e.

Lemma undisturbed_refl e : undisturbed e e.
Proof. split; [reflexivity|by destruct e]. Qed.
Lemma undisturbed_trans e1 e2 e3 : undisturbed e1 e2 → undisturbed e2 e3 → undisturbed e1 e3.
Proof. intros [H1 E1] [H2 E2]. split; [by etrans|]. rewrite E2, E1. done. Qed.

Lemma on_instance_undisturbed {A} i call (m : Host W A) e e' r :
  safe m → on_instance i call m e = (e', r) → undisturbed e e'.
Proof.
  intros Hm. unfold on_instance. pose proof (Hm (host_state i call e)) as H. unfold keeps in H.
  destruct (m (host_state i call e)) as [s r']. simpl in H. intros [= <- <-]. by split.
Qed.

Lemma Instantiate_undisturbed bytecode impl e e' r :
  Instantiate bytecode impl e = (e', Done r) → undisturbed e e'.
Proof.
  unfold Instantiate. destruct context_set_wasi; [intros [= <- <-]; apply undisturbed_refl|].
  destruct linker_define_wasi; [intros [= <- <-]; apply undisturbed_refl|].
  destruct (RegisterHostFunctions kKnownEnvImports); [intros [= <- <-]; apply undisturbed_refl|].
  destruct (linker_instantiate _ _) as [err|mem]; [intros [= <- <-]; apply undisturbed_refl|].
  destruct (ResolveExports _ _) as [err|i]; [intros [= <- <-]; apply undisturbed_refl|].
  destruct (has_initialize i); [|intros [= <- <-]; apply undisturbed_refl].
  intros (e1 & [[r1 i1] c] & H1 & H2)%host_bind_inv.
  apply on_instance_undisturbed in H1; [|apply safe_func_call; apply guests_safe].
  destruct r1; injection H2 as <- <-; exact H1.
Qed.

(** The guest answered: from an engine that differs at most by a fresh instance,
    [origindb_invoke] of the module, on the reducer's name and the serialised
    arguments, ran to [e1] with this status, leaving this call context. *)
Definition answered (module : WasmModule) (reducer : string) (ctx : ReducerContext) (args : list WasmValue)
    (e e1 : engine) (impl : WasmModuleImpl) (call : HostCallContext) (status : Z) : Prop :=
  ∃ e0 i i1 args_json left_call,
    undisturbed e e0 ∧ instance impl = Some i ∧ SerializeArgs args = Ret args_json ∧
    on_instance i (Some (new_call ctx))
      (CallInvoke (G := guest_of (bytecode_ module)) impl (export_code (bytecode_ module) "origindb_invoke")
                  reducer args_json) e0 = (e1, Done (inr status, i1, left_call)) ∧
    call = default (new_call ctx) left_call.

(** What an execution makes of that answer: only a status of zero or more
    commits the call, and its outcome is that of the commit. *)
Definition concluded (now : Z) (reducer : string) (impl : WasmModuleImpl) (call : HostCallContext) (status : Z)
    (e1 e' : engine) (res : WasmResult) : Prop :=
  if decide (0 <= status) then
    ∃ ok err,
      CommitHostCall impl now call (storage_ e1) = (storage_ e', Ret (ok, err)) ∧
      success res = ok ∧ (ok = false → error res = "commit failed: " +:+ err) ∧
      (ok = true → values res = [if has_result call then WBytes (result call) else WInt32 status])
  else e' = e1 ∧ values res = [] ∧
       (success res = true ↔ status = WASM_ERR_NO_HANDLER ∧ IsReservedName reducer = true).

Lemma finish_concluded now impl reducer call status e e' res :
  finish now impl reducer call status e = (e', Done res) →
  e' = set_store (storage_ e') (id_counter e') e ∧ concluded now reducer impl call status e e' res.
Proof.
  unfold finish, concluded, WASM_ERR_NO_HANDLER. destruct (Z.eqb_spec status (-404)) as [->|Hs].
  { intros [= <- <-]. split; [by destruct e|]. rewrite decide_False by lia.
    destruct (IsReservedName reducer); simpl; (split_and!; [done|done|]); split; [done|done|done|by intros [_ ?]]. }
  destruct (Z.ltb_spec status 0) as [Hneg|Hpos].
  { intros [= <- <-]. split; [by destruct e|]. rewrite decide_False by lia.
    split_and!; [done|done|]. split; [done|by intros [? _]]. }
  intros (e1 & [ok err] & H1 & H2)%host_bind_inv. unfold commit_call in H1.
  destruct (CommitHostCall impl now call (storage_ e)) as [st [[ok' err']|w]] eqn:Ec; [|done].
  injection H1 as <- <- <-. injection H2 as <- <-. split; [done|]. rewrite decide_True by done.
  exists ok', err'. by destruct ok'.
Qed.

(** Without an answer nothing happened, and a module that was asked has lost its
    instance. *)
Definition unanswered (module module' : WasmModule) (e e' : engine) (res : WasmResult) : Prop :=
  undisturbed e e' ∧ success res = false ∧
  (shutdown_requested_ e = true ∧ module' = module ∨ instance (impl_ module') = None).

Lemma Instantiate_failed_drops bytecode impl e e' impl' err :
  Instantiate bytecode impl e = (e', Done (impl', Some err)) → instance impl' = None.
Proof.
  unfold Instantiate. destruct context_set_wasi; [by intros [= _ <- _]|].
  destruct linker_define_wasi; [by intros [= _ <- _]|].
  destruct (RegisterHostFunctions kKnownEnvImports); [by intros [= _ <- _]|].
  destruct (linker_instantiate _ _) as [|mem]; [by intros [= _ <- _]|].
  destruct (ResolveExports bytecode mem) as [|i]; [by intros [= _ <- _]|].
  destruct (has_initialize i); [|done].
  intros (e1 & [[r i1] c] & _ & H)%host_bind_inv. destruct r; [by injection H as _ <- _|done].
Qed.

Lemma Execute_steps now module reducer ctx args (e e' : engine) module' res :
  Execute now module reducer ctx args e = (e', Done (module', res)) →
  unanswered module module' e e' res
  ∨ ∃ e1 impl call status,
      answered module reducer ctx args e e1 impl call status ∧ undisturbed e e1 ∧
      e' = set_store (storage_ e') (id_counter e') e1 ∧ concluded now reducer impl call status e1 e' res.
Proof.
  unfold Execute. intros (e0 & ? & [= <- <-] & H)%host_bind_inv. revert H.
  destruct (shutdown_requested_ e) eqn:Es.
  { intros [= <- <- <-]. left. split; [apply undisturbed_refl|]. split; [done|by left]. }
  intros (e1 & [impl err] & H1 & H)%host_bind_inv.
  assert (Hu1 : undisturbed e e1).
  { destruct (instance (impl_ module)); [injection H1 as <- <- <-; apply undisturbed_refl|].
    by eapply Instantiate_undisturbed. }
  destruct err as [err|].
  { injection H as <- <- <-. left. split; [done|]. split; [done|]. right.
    destruct (instance (impl_ module)); [done|]. by apply Instantiate_failed_drops in H1. }
  clear H1. destruct (instance impl) as [i|] eqn:Ei; [|done].
  apply host_bind_inv in H as (e2 & args_json & H2 & H). unfold lift_exc in H2.
  destruct (SerializeArgs args) as [a|] eqn:Ea; [|done]. injection H2 as <- <-.
  apply host_bind_inv in H as (e3 & [[r i1] call] & H3 & H).
  pose proof H3 as Hu. apply on_instance_undisturbed in Hu; [|apply safe_CallInvoke; apply guests_safe].
  pose proof (undisturbed_trans _ _ _ Hu1 Hu) as Hu3. cbv zeta in H. destruct r as [trap|status].
  - injection H as <- <- <-. left. split; [done|]. split; [done|by right].
  - apply host_bind_inv in H as (e4 & res' & H4 & H). injection H as <- <- <-.
    apply finish_concluded in H4 as [He' Hc]. right. exists e3, impl, (default (new_call ctx) call), status.
    split; [by exists e1, i, i1, a, call|done].
Qed.

(** An exception leaves the database alone, unless the commit threw it. *)
Lemma bind_escapes {S A B} (m : Prog S A) (f : A → Prog S B) s s' w :
  (m ≫= f) s = (s', Escaped w) →
  m s = (s', Escaped w) ∨ ∃ s1 a, m s = (s1, Done a) ∧ f a s1 = (s', Escaped w).
Proof.
  unfold mbind, Prog_bind. destruct (m s) as [s1 [a| |w'|]]; try done; [by right; exists s1, a|].
  intros [= <- <-]. by left.
Qed.

Lemma Instantiate_escapes bytecode impl e e' w :
  Instantiate bytecode impl e = (e', Escaped w) → undisturbed e e'.
Proof.
  unfold Instantiate. destruct context_set_wasi; [done|]. destruct linker_define_wasi; [done|].
  destruct (RegisterHostFunctions kKnownEnvImports); [done|].
  destruct (linker_instantiate _ _) as [err|mem]; [done|]. destruct (ResolveExports _ _) as [err|i]; [done|].
  destruct (has_initialize i); [|done]. intros [H|(e1 & [[r1 i1] c] & _ & H)]%bind_escapes; [|by destruct r1].
  apply on_instance_undisturbed in H; [done|]. apply safe_func_call; apply guests_safe.
Qed.

Lemma Execute_escapes now module reducer ctx args (e e' : engine) w :
  Execute now module reducer ctx args e = (e', Escaped w) →
  undisturbed e e'
  ∨ ∃ e1 impl call status,
      answered module reducer ctx args e e1 impl call status ∧ undisturbed e e1 ∧ 0 <= status ∧
      e' = set_store (storage_ e') (id_counter e') e1 ∧
      CommitHostCall impl now call (storage_ e1) = (storage_ e', Throw w).
Proof.
  unfold Execute. intros [H|(e0 & ? & [= <- <-] & H)]%bind_escapes; [done|]. revert H.
  destruct (shutdown_requested_ e); [done|]. intros [H|(e1 & [impl err] & H1 & H)]%bind_escapes.
  { left. destruct (instance (impl_ module)); [done|]. by eapply Instantiate_escapes. }
  assert (Hu1 : undisturbed e e1).
  { destruct (instance (impl_ module)); [injection H1 as <- <- <-; apply undisturbed_refl|].
    by eapply Instantiate_undisturbed. }
  destruct err as [err|]; [done|]. destruct (instance impl) as [i|] eqn:Ei; [|done].
  apply bind_escapes in H as [H|(e2 & args_json & H2 & H)]; unfold lift_exc in *.
  { left. destruct (SerializeArgs args); [done|]. by injection H as <-. }
  destruct (SerializeArgs args) as [a|] eqn:Ea; [|done]. injection H2 as <- <-.
  apply bind_escapes in H as [H|(e3 & [[r i1] call] & H3 & H)].
  { left. apply on_instance_undisturbed in H; [by eapply undisturbed_trans|]. apply safe_CallInvoke; apply guests_safe. }
  pose proof H3 as Hu. apply on_instance_undisturbed in Hu; [|apply safe_CallInvoke; apply guests_safe].
  pose proof (undisturbed_trans _ _ _ Hu1 Hu) as Hu3. cbv zeta in H. destruct r as [trap|status]; [done|].
  apply bind_escapes in H as [H|(e4 & res' & _ & H)]; [|done]. right.
  exists e3, impl, (default (new_call ctx) call), status.
  split; [by exists e1, i, i1, a, call|]. split; [done|]. unfold finish in H.
  destruct (status =? WASM_ERR_NO_HANDLER); [done|]. destruct (Z.ltb_spec status 0); [done|]. split; [done|].
  apply bind_escapes in H as [H|(? & [??] & _ & H)]; [|done]. unfold commit_call in H.
  destruct (CommitHostCall _ _ _ _) as [st [|w']]; [done|]. by injection H as <- <-.
Qed.

Lemma Execute_modules now module reducer ctx args (e e' : engine) r :
  Execute now module reducer ctx args e = (e', Done r) →
  modules_ e' = modules_ e ∧ last_load_error_ e' = last_load_error_ e.
Proof.
  destruct r. intros [[[_ ->] _]|(e1 & ? & ? & ? & _ & [_ ->] & -> & _)]%Execute_steps; done.
Qed.

(** C10.  A reducer call is all or nothing up to its commit.  Whatever the guest
    computes and whichever host functions it calls, an execution that returns
    either got no answer (the engine was stopping, or the guest trapped, timed
    out or could not be started): then it fails, no table, log or changefeed has
    changed (only JSON caches and the identifier counter) and the instance is
    dropped.  Or the guest answered, still without an effect on the database: a
    negative status keeps it so, and fails except for a reserved name without
    handler; any other status commits the staged writes of that very call, and
    the outcome and result are those of the commit.  The registry of modules is
    never touched. *)
Theorem Execute_all_or_nothing now module reducer ctx args (e e' : engine) module' res
    (Hrun : Execute now module reducer ctx args e = (e', Done (module', res))) :
  modules_ e' = modules_ e ∧
  (unanswered module module' e e' res ∨
   ∃ e1 impl call status,
     answered module reducer ctx args e e1 impl call status ∧ undisturbed e e1 ∧
     concluded now reducer impl call status e1 e' res).
Proof.
  split; [by eapply Execute_modules|].
  apply Execute_steps in Hrun as [?|(e1 & impl & call & status & ? & ? & _ & ?)]; [by left|].
  right. by exists e1, impl, call, status.
Qed.
End execute.

(** ** A concrete module

    Its memory holds a table's name, a key and a value; [origindb_invoke] answers
    reserved names with -404, and otherwise stages one write and returns, or
    traps when the reducer's name begins with a "b". *)

#[local] Existing Instance std_json.
#[local] Existing Instance std_order.
Import Demo.

Module DemoModule.
Definition value : json := JObject [("n", JInt 9)].
Definition value_text : bytes := str_bytes (text_of value).
Definition memory0 : bytes :=
  str_bytes "users" ++ [Byte.x00; Byte.x6b; Byte.x00] ++ value_text ++ replicate 512 Byte.x00.

Definition invoke (args : list Z) : code :=
  Compute id (λ mem,
    let first := mem !! Z.to_nat (default 0 (head args)) in
    if bool_decide (first = Some Byte.x5f) then Return (-404)
    else Import (host_table_write 0 6 1 8 (zlength value_text))
           (λ _, if bool_decide (first = Some Byte.x62) then Fault "boom" else Return 0)).

Definition guest : HostFunctions.Guest WalHost :=
  {| origindb_alloc := λ size s, (s, Some (if size <? 12 then 200 else 240)); memory_grow := λ _ _, None |}.

#[export] Instance wasmtime : Wasmtime WalHost :=
  {| engine_new := true;
     module_new := λ _, inr ([("env", "host_table_write")], ["memory"; "origindb_invoke"; "origindb_alloc"]);
     context_set_wasi := None; linker_define_wasi := None; linker_define_func := λ _, None;
     linker_instantiate := λ _ _, inr memory0;
     export_kind := λ _ name, if decide (name = "memory") then Some EXTERN_MEMORY
                              else if decide (name ∈ kRequiredExports) then Some EXTERN_FUNC else None;
     export_code := λ _ name args, if decide (name = "origindb_invoke") then invoke args else Return 0;
     guest_of := λ _, guest |}.

Lemma guests_safe bytecode : GuestSafe (G := guest_of bytecode).
Proof. intros size s. reflexivity. Qed.

Definition engine : WasmEngine WalHost :=
  set_engine true false (new_WasmEngine (Some engine1) true).
Definition capabilities : ModuleCapabilities :=
  {| allowed_tables := ["users"]; read_only := false; max_memory_mb := 0; cap_timeout_ms := 0 |}.
Definition module_ : WasmModule := new_module "m" [Byte.x00] "1.2" capabilities engine.
Definition context : ReducerContext := CreateReducerContext 5000 "ada" "c1" engine.
End DemoModule.
Import DemoModule.

(** The reducer "bad" traps after its staged write and loses its instance;
    "write" commits. *)
Lemma Execute_all_or_nothing_witness :
  (∃ e' m res, Execute 9 module_ "bad" context [WInt32 1] DemoModule.engine = (e', Done (m, res)) ∧
               error res = "boom" ∧ instance (impl_ m) = None ∧ modules_ e' = modules_ DemoModule.engine) ∧
  (∃ e' m res e1 impl call status,
     Execute 9 module_ "write" context [WInt32 1] DemoModule.engine = (e', Done (m, res)) ∧
     success res = true ∧ concluded 9 "write" impl call status e1 e' res).
Proof.
  split.
  - assert (Hr : match (Execute 9 module_ "bad" context [WInt32 1] DemoModule.engine).2 with
                 | Done (m, r) => error r = "boom" ∧ instance (impl_ m) = None | _ => False end)
      by (vm_compute; split; reflexivity).
    destruct (Execute 9 module_ "bad" context [WInt32 1] DemoModule.engine) as [e' [[m r]|t|w|]] eqn:E; [|destruct Hr..].
    destruct Hr as [Hr Hi]. exists e', m, r. split; [reflexivity|]. split; [exact Hr|]. split; [exact Hi|].
    apply (Execute_all_or_nothing guests_safe 9 module_ "bad" context [WInt32 1] DemoModule.engine e' m r E).
  - assert (Hs : match (Execute 9 module_ "write" context [WInt32 1] DemoModule.engine).2 with
                 | Done (_, r) => success r = true | _ => False end) by (vm_compute; reflexivity).
    destruct (Execute 9 module_ "write" context [WInt32 1] DemoModule.engine) as [e' [[m r]|t|w|]] eqn:E; [|destruct Hs..].
    destruct (Execute_all_or_nothing guests_safe 9 module_ "write" context [WInt32 1] DemoModule.engine e' m r E)
      as [_ [(_ & Hf & _)|(e1 & impl & call & status & _ & _ & Hc)]].
    { exfalso. simpl in Hs. rewrite Hs in Hf. discriminate Hf. }
    exists e', m, r, e1, impl, call, status. split; [reflexivity|]. split; [exact Hs|exact Hc].
Defined.
