(* ===== verification/WasmLoad.v ===== *)
(** * Loading and replacing modules

    A load replaces the deployed module only when every step has passed; the
    registry holds modules that were checked against the import allow-list and
    the required exports, and calls only change their instances. *)

From S2P Require Import Prelude Table Codec RowCodec Json MemTable Txn WalStore Changefeed StorageJson Storage RowJson StorageCommit HostFunctions HostReads WasmEngine WasmExec.
From coqutil Require Import Byte.

Section load.
Context {W : Type} `{WA : WalApi W} `{JL : JsonLib} `{HO : HashOrder} `{WT : Wasmtime W}.
Abbreviation engine := (WasmEngine W).

(** ** What a registered module has passed *)

Definition allowed_import (s : string) : Prop :=
  String.prefix "wasi_snapshot_preview1." s = true ∨ ∃ n, n ∈ kKnownEnvImports ∧ s = "env." +:+ n.

Definition module_ok (name : string) (m : WasmModule) : Prop :=
  loaded_ m = true ∧ name_ m = name ∧ module_name (impl_ m) = name ∧
  bytecode_ m ≠ [] ∧ caps (impl_ m) = Some (capabilities_ m) ∧
  Forall allowed_import (imports (metadata_ m)) ∧
  (∀ r, r ∈ kRequiredExports → r ∈ exports (metadata_ m)).

Definition registry_ok (e : engine) : Prop := map_Forall module_ok (modules_ e).

Lemma check_imports_ok found : ∀ recorded recorded',
  Forall allowed_import recorded → check_imports found recorded = (recorded', None) →
  Forall allowed_import recorded'.
Proof.
  induction found as [|[m n] found IH]; intros recorded recorded' Hr; cbn [check_imports].
  - by intros [= <-].
  - destruct (_ || _) eqn:E; [|done]. apply IH. apply Forall_app. split; [done|].
    constructor; [|constructor]. apply orb_true_iff in E as [E|E].
    + apply bool_decide_eq_true in E as ->. left. change ("wasi_snapshot_preview1" +:+ "." +:+ n)
        with ("wasi_snapshot_preview1." +:+ n). apply prefix_app_true.
    + apply andb_true_iff in E as [->%bool_decide_eq_true Hn%bool_decide_eq_true]. right. by exists n.
Qed.

Lemma check_exports_ok required found :
  check_exports required found = None → ∀ r, r ∈ required → r ∈ found.
Proof.
  induction required as [|r required IH]; cbn [check_exports]; [by intros _ r ?%not_elem_of_nil|].
  case_bool_decide; [|done]. intros Hc r' [->|Hr]%elem_of_cons; [done|by apply IH].
Qed.

(** Module objects that differ at most in their instance. *)
Definition same_module (m m' : WasmModule) : Prop :=
  ∃ i, m' = set_impl (set_instance i (impl_ m)) m.

Lemma same_module_refl m : same_module m m.
Proof. exists (instance (impl_ m)). by destruct m as [????? []]. Qed.
Lemma same_module_trans m1 m2 m3 : same_module m1 m2 → same_module m2 m3 → same_module m1 m3.
Proof. intros [i ->] [j ->]. by exists j. Qed.

Lemma module_ok_same name m m' : module_ok name m → same_module m m' → module_ok name m'.
Proof. intros Hm [i ->]. exact Hm. Qed.

Lemma Instantiate_same bytecode impl e e' impl' err :
  Instantiate bytecode impl e = (e', Done (impl', err)) → ∃ i, impl' = set_instance i impl.
Proof.
  unfold Instantiate, DestroyInstance.
  destruct context_set_wasi; [intros [= <- <- <-]; by eexists|].
  destruct linker_define_wasi; [intros [= <- <- <-]; by eexists|].
  destruct (RegisterHostFunctions kKnownEnvImports); [intros [= <- <- <-]; by eexists|].
  destruct (linker_instantiate _ _); [intros [= <- <- <-]; by eexists|].
  destruct (ResolveExports _ _) as [|i]; [intros [= <- <- <-]; by eexists|].
  destruct (has_initialize i); [|intros [= <- <- <-]; by eexists].
  intros (e1 & [[r i1] c] & _ & H)%host_bind_inv. destruct r; injection H as <- <- <-; by eexists.
Qed.

Lemma Execute_same now module reducer ctx args e e' module' res :
  Execute now module reducer ctx args e = (e', Done (module', res)) → same_module module module'.
Proof.
  unfold Execute. intros (e0 & ? & [= <- <-] & H)%host_bind_inv. revert H.
  destruct (shutdown_requested_ e); [intros [= <- <- <-]; apply same_module_refl|].
  intros (e1 & [impl err] & H1 & H)%host_bind_inv.
  assert (Hi : ∃ i, impl = set_instance i (impl_ module)).
  { destruct (instance (impl_ module)) as [i|] eqn:Ei.
    - injection H1 as <- <- <-. exists (Some i). rewrite <- Ei. by destruct (impl_ module).
    - by eapply Instantiate_same. }
  destruct Hi as [i ->]. clear H1.
  destruct err as [err|]; [injection H as <- <- <-; by eexists|].
  destruct (instance _) as [i'|]; [|done].
  apply host_bind_inv in H as (e2 & args_json & _ & H).
  apply host_bind_inv in H as (e3 & [[r i1] call] & _ & H). cbv zeta in H. destruct r.
  - injection H as <- <- <-. by eexists.
  - apply host_bind_inv in H as (e4 & res' & _ & H). injection H as <- <- <-. by eexists.
Qed.

(** What [ExtractMetadata] keeps. *)
Definition described (m m' : WasmModule) : Prop :=
  bytecode_ m' = bytecode_ m ∧ capabilities_ m' = capabilities_ m ∧
  (version (metadata_ m) ≠ "" → version (metadata_ m') = version (metadata_ m)) ∧
  ∀ name, module_ok name m → module_ok name m'.

Lemma ExtractMetadata_described m e e' m' :
  ExtractMetadata m e = (e', Done m') → described m m'.
Proof.
  unfold ExtractMetadata.
  destruct (instance (impl_ m)) as [i|]; [|by intros [= <- <-]].
  destruct (negb _); [by intros [= <- <-]|].
  intros (e1 & [[r i1] c] & _ & H)%host_bind_inv. revert H. cbv zeta.
  set (m1 := set_impl _ m). assert (Hm1 : described m m1) by done. clearbody m1.
  destruct r as [|v]; [by intros [= <- <-]|].
  destruct (negb _); [by intros [= <- <-]|].
  destruct (parse _) as [meta|]; [|by intros [= <- <-]].
  destruct (negb _); [by intros [= <- <-]|].
  intros (e2 & md & H2 & H3)%host_bind_inv. injection H3 as <- <-.
  unfold lift_exc, describe_metadata in H2.
  destruct (match json_field "reducers" meta with Some (JArray rs) => reducer_defs rs | _ => Ret [] end)
    as [defs|]; [|done]. cbn [mbind exc_bind] in H2. injection H2 as _ <-.
  destruct Hm1 as (Hb & Hc & Hv & Hok). split_and!; [exact Hb|exact Hc| |exact Hok].
  intros Hne. specialize (Hv Hne). simpl. rewrite <- Hv in Hne. rewrite bool_decide_eq_false_2 by done.
  rewrite Hv. by destruct (json_field "version" meta) as [[]|].
Qed.

Lemma ExtractMetadata_undisturbed (gs : ∀ bytecode, GuestSafe (G := guest_of bytecode)) m e e' m' :
  ExtractMetadata m e = (e', Done m') → undisturbed e e'.
Proof.
  unfold ExtractMetadata.
  destruct (instance (impl_ m)) as [i|]; [|intros [= <- <-]; apply undisturbed_refl].
  destruct (negb _); [intros [= <- <-]; apply undisturbed_refl|].
  intros (e1 & [[r i1] c] & H1 & H)%host_bind_inv.
  apply on_instance_undisturbed in H1; [|apply safe_func_call; apply gs].
  revert H. cbv zeta. destruct r as [|v]; [by intros [= <- <-]|].
  destruct (negb _); [by intros [= <- <-]|].
  destruct (parse _) as [meta|]; [|by intros [= <- <-]].
  destruct (negb _); [by intros [= <- <-]|].
  intros (e2 & md & H2 & H3)%host_bind_inv. injection H3 as <- <-.
  unfold lift_exc in H2. destruct (describe_metadata _ _); [|done]. by injection H2 as <- <-.
Qed.

(** ** Hot swap *)

Lemma load_failed_spec name err (e e' : engine) b :
  load_failed name err e = (e', Done b) →
  b = false ∧ modules_ e' = modules_ e ∧ last_load_error_ e' = name +:+ ": " +:+ err.
Proof. by intros [= <- <-]. Qed.

Lemma Compile_ok m m' :
  Compile m = inr m' →
  ∃ meta, m' = set_metadata meta m ∧ version meta = version (metadata_ m)
          ∧ Forall allowed_import (imports meta) ∧ ∀ r, r ∈ kRequiredExports → r ∈ exports meta.
Proof.
  unfold Compile. destruct (module_new _) as [|[imps exps]]; [done|].
  destruct (check_imports imps []) as [rec [|]] eqn:Ei; [done|].
  destruct (check_exports _ _) eqn:Ee; [done|]. intros [= <-].
  eexists. split; [done|]. split_and!; [done| |].
  - eapply check_imports_ok; [|exact Ei]. constructor.
  - by apply check_exports_ok.
Qed.

Definition not_older (p m : WasmModule) : Prop :=
  version (metadata_ p) ≠ "" → version (metadata_ m) ≠ "" →
  ∃ c, CompareVersions (version (metadata_ m)) (version (metadata_ p)) = Ret c ∧ 0 <= c.

Lemma version_gate_pass p m : version_gate (Some p) m = Ret None → not_older p m.
Proof.
  unfold version_gate, not_older. intros H Hp Hm.
  rewrite !bool_decide_eq_false_2 in H by done. simpl in H.
  destruct (CompareVersions _ _) as [c|]; [|done]. exists c. split; [done|].
  cbn [mbind exc_bind] in H. destruct (c <? 0) eqn:E; [done|]. apply Z.ltb_ge in E. done.
Qed.

Section theorems.
Context (guests_safe : ∀ bytecode, GuestSafe (G := guest_of bytecode)).

(** The hooks of a new module [m0], from the engine [e2] in which it is ready:
  [__init] succeeded, then [__migrate] with both versions if a module is
  replaced; [m] is the module they leave behind in [e5]. *)
Definition hooks_passed (now : Z) (previous : option WasmModule) (m0 m : WasmModule) (e2 e5 : engine) : Prop :=
  let ctx := CreateReducerContext now "system" "" e2 in
  ∃ e4 m1 init, Execute now m0 "__init" ctx [] e2 = (e4, Done (m1, init)) ∧ success init = true ∧
  match previous with
  | None => m = m1 ∧ e5 = e4
  | Some p => ∃ migrate, success migrate = true ∧
      Execute now m1 "__migrate" ctx [WString (version (metadata_ p)); WString (version (metadata_ m1))] e4
      = (e5, Done (m, migrate))
  end.

(** What a load that returned did to the registry. *)
Definition refused (name : string) (e e' : engine) (b : bool) : Prop :=
  b = false ∧ modules_ e' = modules_ e ∧ ∃ err, last_load_error_ e' = name +:+ ": " +:+ err.

Definition deployed (now : Z) (name : string) (bytecode : bytes) (ver : string) (cap : ModuleCapabilities)
  (e e' : engine) (m : WasmModule) : Prop :=
  modules_ e' = <[name := m]> (modules_ e) ∧ module_ok name m ∧
  bytecode_ m = bytecode ∧ capabilities_ m = cap ∧ (ver ≠ "" → version (metadata_ m) = ver) ∧
  (∀ p, modules_ e !! name = Some p → not_older p m) ∧
  ∃ e2 e5 m0, undisturbed e e2 ∧ hooks_passed now (modules_ e !! name) m0 m e2 e5 ∧
            e' = set_modules (<[name := m]> (modules_ e5)) e5.

Lemma LoadModule_cases now name bytecode ver cap (e e' : engine) b :
  LoadModule now name bytecode ver cap e = (e', Done b) →
  refused name e e' b ∨
  (b = true ∧ last_load_error_ e' = last_load_error_ e ∧ ∃ m, deployed now name bytecode ver cap e e' m).
Proof.
  assert (Hfail : ∀ e1 err, modules_ e1 = modules_ e → load_failed name err e1 = (e', Done b) →
  refused name e e' b ∨
  (b = true ∧ last_load_error_ e' = last_load_error_ e ∧ ∃ m, deployed now name bytecode ver cap e e' m)).
  { intros e1 err H1 (-> & H2 & H3)%load_failed_spec. left. split_and!; [done|congruence|by exists err]. }
  unfold LoadModule. intros (e0 & ? & [= <- <-] & H)%host_bind_inv. revert H.
  destruct (negb (engine_ e)); [by apply Hfail|].
  destruct (shutdown_requested_ e); [by apply Hfail|].
  case_bool_decide as Hbc; [by apply Hfail|].
  set (m00 := new_module name bytecode ver cap e).
  destruct (Compile m00) as [err|m0] eqn:Ecomp; [by apply Hfail|].
  apply Compile_ok in Ecomp as (meta & -> & Hver & Himp & Hexp).
  intros (e1 & [impl err] & Hinst & H)%host_bind_inv.
  pose proof (Instantiate_same _ _ _ _ _ _ Hinst) as [i ->].
  apply (Instantiate_undisturbed guests_safe) in Hinst as U1. pose proof (proj2 U1) as E1.
  destruct err as [err|]; [revert H; apply Hfail; by rewrite E1|].
  apply host_bind_inv in H as (e2 & m & Hex & H).
  pose proof (ExtractMetadata_described _ _ _ _ Hex) as (Hb & Hc & Hv & Hok).
  apply (ExtractMetadata_undisturbed guests_safe) in Hex as U2. pose proof (proj2 U2) as E2.
  specialize (Hok name). assert (Hm : module_ok name m) by (by apply Hok). clear Hok.
  assert (Hv' : ver ≠ "" → version (metadata_ m) = ver).
  { intros Hne. rewrite Hv; simpl; by rewrite Hver. }
  apply host_bind_inv in H as (? & ? & [= <- <-] & H). cbv zeta in H.
  apply host_bind_inv in H as (e3 & gate & Hgate & H).
  unfold lift_exc in Hgate. destruct (version_gate _ m) as [g|] eqn:Egate; [|done].
  injection Hgate as <- <-.
  assert (M2 : modules_ e2 = modules_ e) by (rewrite E2, E1; done).
  assert (L2 : last_load_error_ e2 = last_load_error_ e) by (rewrite E2, E1; done).
  destruct g as [err|]; [revert H; by apply Hfail|].
  apply host_bind_inv in H as (e4 & [m1 init] & Hinit & H).
  destruct (Execute_modules guests_safe _ _ _ _ _ _ _ _ Hinit) as [M4 L4].
  pose proof Hinit as Hinit0. apply Execute_same in Hinit.
  destruct (success init) eqn:Hsi; cbn [negb] in H; [|revert H; apply Hfail; congruence].
  apply host_bind_inv in H as (e5 & [m2 migrated] & Hmig & H).
  assert (H5 : modules_ e5 = modules_ e ∧ last_load_error_ e5 = last_load_error_ e ∧ same_module m1 m2
             ∧ (migrated = None → hooks_passed now (modules_ e !! name) m m2 e2 e5)).
  { rewrite <- M2. destruct (modules_ e2 !! name) as [p|].
  - apply host_bind_inv in Hmig as (e6 & [m3 mig] & Hmig & H6). injection H6 as <- <- Emig.
    destruct (Execute_modules guests_safe _ _ _ _ _ _ _ _ Hmig) as [M6 L6].
    pose proof Hmig as Hmig0. apply Execute_same in Hmig. split_and!; [congruence..|done|].
    intros ->. destruct (success mig) eqn:Hsm; [|done].
    exists e4, m1, init. split; [exact Hinit0|]. split; [done|]. by exists mig.
  - injection Hmig as <- <- _. split_and!; [congruence..|apply same_module_refl|].
    intros _. by exists e4, m1, init. }
  destruct H5 as (M5 & L5 & Hsame & Hhooks). clear Hmig.
  destruct migrated as [err|]; [revert H; by apply Hfail|].
  injection H as <- <-. right. split_and!; [done|done|]. exists m2.
  pose proof (same_module_trans _ _ _ Hinit Hsame) as [i' ->].
  split; [simpl; by rewrite M5|]. split; [exact Hm|]. split; [exact Hb|]. split; [exact Hc|]. split; [exact Hv'|].
  split; [intros p Hp; rewrite M2, Hp in Egate; by apply version_gate_pass in Egate|].
  exists e2, e5, m. split; [by eapply undisturbed_trans|]. split; [by apply Hhooks|done].
Qed.

(** The [__init] of a module with this bytecode ran to an end, every check before
  it passed, on an engine nothing else had touched. *)
Definition init_ran (now : Z) (name : string) (bytecode : bytes) (e e3 : engine) (res : WasmResult) : Prop :=
  ∃ m m1 e2, undisturbed e e2 ∧ module_ok name m ∧ bytecode_ m = bytecode ∧
    (∀ p, modules_ e !! name = Some p → not_older p m) ∧
    Execute now m "__init" (CreateReducerContext now "system" "" e2) [] e2 = (e3, Done (m1, res)).

(** What a refused load may have done to the database: nothing before [__init];
  if that failed, what its execution left. *)
Lemma LoadModule_refused now name bytecode ver cap (e e' : engine) :
  LoadModule now name bytecode ver cap e = (e', Done false) →
  storage_same (storage_ e) (storage_ e') ∨
  ∃ e3 res, init_ran now name bytecode e e3 res ∧ (success res = false → storage_ e' = storage_ e3).
Proof.
  assert (Hfail : ∀ e1 err, undisturbed e e1 → load_failed name err e1 = (e', Done false) →
    storage_same (storage_ e) (storage_ e') ∨
    ∃ e3 res, init_ran now name bytecode e e3 res ∧ (success res = false → storage_ e' = storage_ e3)).
  { intros e1 err [Hs _] H. left. injection H as <-. exact Hs. }
  unfold LoadModule. intros (e0 & ? & [= <- <-] & H)%host_bind_inv. revert H.
  destruct (negb (engine_ e)); [apply Hfail, undisturbed_refl|].
  destruct (shutdown_requested_ e); [apply Hfail, undisturbed_refl|].
  case_bool_decide as Hbc; [apply Hfail, undisturbed_refl|].
  set (m00 := new_module name bytecode ver cap e).
  destruct (Compile m00) as [err|m0] eqn:Ecomp; [apply Hfail, undisturbed_refl|].
  apply Compile_ok in Ecomp as (meta & -> & Hver & Himp & Hexp).
  intros (e1 & [impl err] & Hinst & H)%host_bind_inv.
  pose proof (Instantiate_same _ _ _ _ _ _ Hinst) as [i ->].
  apply (Instantiate_undisturbed guests_safe) in Hinst as U1.
  destruct err as [err|]; [revert H; by apply Hfail|].
  apply host_bind_inv in H as (e2 & m & Hex & H).
  pose proof (ExtractMetadata_described _ _ _ _ Hex) as (Hb & _ & _ & Hok).
  apply (ExtractMetadata_undisturbed guests_safe) in Hex as U2.
  pose proof (undisturbed_trans _ _ _ U1 U2) as U. pose proof (proj2 U) as E2.
  specialize (Hok name). assert (Hm : module_ok name m) by (by apply Hok).
  apply host_bind_inv in H as (? & ? & [= <- <-] & H). cbv zeta in H.
  apply host_bind_inv in H as (e3 & gate & Hgate & H).
  unfold lift_exc in Hgate. destruct (version_gate _ m) as [g|] eqn:Egate; [|done].
  injection Hgate as <- <-. assert (M2 : modules_ e2 = modules_ e) by (by rewrite E2).
  destruct g as [err|]; [revert H; by apply Hfail|].
  apply host_bind_inv in H as (e4 & [m1 init] & Hinit & H).
  assert (Hran : init_ran now name bytecode e e4 init).
  { exists m, m1, e2. split_and!; [done|done|exact Hb| |exact Hinit].
    intros p Hp. rewrite M2, Hp in Egate. by apply version_gate_pass in Egate. }
  right. exists e4, init. split; [exact Hran|]. intros Hf. rewrite Hf in H. cbn [negb] in H.
  injection H as <-. reflexivity.
Qed.

(** C9.  Deploying a module replaces the one in service only when everything has
  passed.  A load that returns false leaves the registry as it was and records
  the reason.  A load that returns true enters one module under the name, with
  the given bytecode and capabilities, checked imports and exports, the
  requested version if one was given, and not older than the module it
  replaces; before that its [__init] and, if it replaces one, its [__migrate]
  succeeded, on an engine whose tables, log and changefeed nothing else had
  touched, and nothing but the registry changed after them. *)
Theorem LoadModule_hot_swap now name bytecode ver cap (e e' : engine) b
  (Hload : LoadModule now name bytecode ver cap e = (e', Done b)) :
  if b : bool then
  last_load_error_ e' = last_load_error_ e ∧
  ∃ m, modules_ e' = <[name := m]> (modules_ e) ∧ module_ok name m ∧
    bytecode_ m = bytecode ∧ capabilities_ m = cap ∧
    (ver ≠ "" → version (metadata_ m) = ver) ∧
    (∀ p, modules_ e !! name = Some p → not_older p m) ∧
    ∃ e2 e5 m0, undisturbed e e2 ∧ hooks_passed now (modules_ e !! name) m0 m e2 e5 ∧
                e' = set_modules (<[name := m]> (modules_ e5)) e5
  else
  modules_ e' = modules_ e ∧ ∃ err, last_load_error_ e' = name +:+ ": " +:+ err.
Proof. by apply LoadModule_cases in Hload as [(-> & ? & ?)|(-> & ? & ?)]. Qed.

(** C37.  The registry is well formed.  Every module in it is loaded, carries its
  own name, imports only WASI and the known host functions, and exports what
  the engine calls; loading, unloading, executing and shutting down keep it
  so. *)
Theorem registry_well_formed (e : engine) (Hok : registry_ok e) :
  (∀ now name bytecode ver cap e' b,
   LoadModule now name bytecode ver cap e = (e', Done b) → registry_ok e') ∧
  (∀ now name reducer ctx args e' res,
   ExecuteReducer now name reducer ctx args e = (e', Done res) → registry_ok e') ∧
  (∀ name, registry_ok (UnloadModule name e).1) ∧ registry_ok (Shutdown e).
Proof.
  split_and!.
  - intros now name bytecode ver cap e' b [(_ & Hm & _)|(_ & _ & m & Hm & Hmok & _)]%LoadModule_cases;
    unfold registry_ok; rewrite Hm; [done|by apply map_Forall_insert_2].
  - intros now name reducer ctx args e' res. unfold ExecuteReducer.
  intros (e0 & ? & [= <- <-] & H)%host_bind_inv. unfold GetModule in H.
  destruct (modules_ e !! name) as [m|] eqn:Em; [|by injection H as <- <-].
  apply host_bind_inv in H as (e1 & [m1 r] & H1 & H2).
  destruct (Execute_modules guests_safe _ _ _ _ _ _ _ _ H1) as [M1 _].
  apply Execute_same in H1. injection H2 as <- <-. unfold registry_ok. simpl. rewrite M1.
  apply map_Forall_insert_2; [|done]. eapply module_ok_same; [|exact H1]. by apply (Hok name).
  - intros name. unfold UnloadModule. destruct (modules_ e !! name); [|done].
  by apply map_Forall_delete.
  - unfold Shutdown. destruct (negb _); [done|]. apply map_Forall_empty.
Qed.
End theorems.
End load.

#[local] Existing Instance std_json.
#[local] Existing Instance std_order.
Import Demo DemoModule.

(** Version 1.2 is deployed; a second load, of version 1.1, is refused. *)
Definition load1 := LoadModule 9 "m" [Byte.x00] "1.2" capabilities DemoModule.engine.
Definition load2 := LoadModule 9 "m" [Byte.x01] "1.1" capabilities load1.1.

Lemma load1_ok : LoadModule 9 "m" [Byte.x00] "1.2" capabilities DemoModule.engine = (load1.1, Done true).
Proof.
  assert (load1.2 = Done true) as H by (vm_compute; reflexivity). rewrite <- H. apply surjective_pairing.
Qed.
Lemma load2_refused : LoadModule 9 "m" [Byte.x01] "1.1" capabilities load1.1 = (load2.1, Done false).
Proof.
  assert (load2.2 = Done false) as H by (vm_compute; reflexivity). rewrite <- H. apply surjective_pairing.
Qed.

Lemma LoadModule_hot_swap_witness :
  (∃ m, modules_ load1.1 = <["m" := m]> ∅ ∧ module_ok "m" m) ∧ modules_ load2.1 = modules_ load1.1.
Proof.
  pose proof (LoadModule_hot_swap DemoModule.guests_safe _ _ _ _ _ _ _ _ load1_ok) as (_ & m & Hm & Hok & _).
  pose proof (LoadModule_hot_swap DemoModule.guests_safe _ _ _ _ _ _ _ _ load2_refused) as (Hm2 & _).
  split; [exists m; split; [exact Hm|exact Hok]|exact Hm2].
Defined.

Lemma registry_well_formed_witness : registry_ok load1.1 ∧ registry_ok (Shutdown load1.1).
Proof.
  assert (H0 : registry_ok DemoModule.engine) by apply map_Forall_empty.
  destruct (registry_well_formed DemoModule.guests_safe DemoModule.engine H0) as [Hl _].
  pose proof (Hl _ _ _ _ _ _ _ load1_ok) as H. split; [exact H|].
  apply (registry_well_formed DemoModule.guests_safe load1.1 H).
Defined.
