(* ===== verification/WasmVersion.v ===== *)
(** * Comparing module versions

    [CompareVersions] walks two dotted versions segment by segment: the loop
    ends, the comparison is antisymmetric, and on numeric versions it is the
    lexicographic order of the numbers, where a missing segment is below any
    present one. *)

From Stdlib Require Import Strings.Ascii.
From S2P Require Import Prelude HostReads WasmEngine.

Lemma segment_length s seg rest :
  segment s = (seg, rest) → (String.length rest <= String.length s)%nat ∧
                            (s ≠ "" → String.length rest < String.length s)%nat.
Proof.
  revert seg. induction s as [|c s IH]; intros seg; cbn [segment]; [by intros [= <- <-]|].
  case_bool_decide.
  - intros [= <- <-]. simpl. lia.
  - destruct (segment s) as [seg' rest'] eqn:E. intros [= <- <-].
    destruct (IH _ eq_refl). simpl. lia.
Qed.

Lemma compare_loop_fuel : ∀ n m a b,
  (String.length a + String.length b < n)%nat → (String.length a + String.length b < m)%nat →
  compare_loop n a b = compare_loop m a b.
Proof.
  induction n as [|n IH]; intros m a b Hn Hm; [lia|]. destruct m as [|m]; [lia|].
  cbn [compare_loop]. destruct (bool_decide (a = "") && bool_decide (b = "")) eqn:E0; [done|].
  destruct (segment a) as [sa a1] eqn:Ea. destruct (segment b) as [sb b1] eqn:Eb.
  assert (Hlt : (String.length a1 + String.length b1 < String.length a + String.length b)%nat).
  { apply segment_length in Ea as [Ha Ha']. apply segment_length in Eb as [Hb Hb'].
    apply andb_false_iff in E0 as [E0|E0]; apply bool_decide_eq_false in E0.
    - specialize (Ha' E0). lia.
    - specialize (Hb' E0). lia. }
  assert (Hrec : compare_loop n a1 b1 = compare_loop m a1 b1) by (apply IH; lia).
  rewrite Hrec. done.
Qed.

Lemma string_lt_swap a b : a ≠ b → string_lt b a = negb (string_lt a b).
Proof.
  intros Hne. unfold string_lt. rewrite String.compare_antisym.
  destruct (String.compare a b) eqn:E; try done. by apply String.compare_eq_iff in E.
Qed.

Lemma compare_loop_swap : ∀ n a b c, compare_loop n a b = Ret c → compare_loop n b a = Ret (- c).
Proof.
  induction n as [|n IH]; intros a b c; cbn [compare_loop]; [by intros [= <-]|].
  rewrite andb_comm. destruct (bool_decide (b = "") && bool_decide (a = "")); [by intros [= <-]|].
  destruct (segment a) as [sa a1], (segment b) as [sb b1]. rewrite andb_comm.
  destruct (all_digits sb && all_digits sa).
  - destruct (stol sa) as [va|]; cbn [mbind exc_bind]; [|done].
    destruct (stol sb) as [vb|]; cbn [mbind exc_bind]; [|done].
    rewrite (Z.eqb_sym vb va). destruct (va =? vb) eqn:E; [apply IH|].
    apply Z.eqb_neq in E. intros [= <-].
    destruct (va <? vb) eqn:E1, (vb <? va) eqn:E2; try done; lia.
  - case_bool_decide as E.
    + rewrite bool_decide_eq_true_2 by done. apply IH.
    + rewrite bool_decide_eq_false_2 by done. intros [= <-].
      rewrite (string_lt_swap sa sb E). by destruct (string_lt sa sb).
Qed.

(** ** Numeric versions *)

Definition numeric (s : string) : Prop := all_digits s = true ∧ digits_value s < 2 ^ 63.

#[export] Instance numeric_dec s : Decision (numeric s).
Proof. unfold numeric. apply _. Defined.

(** The lexicographic order of the segments' numbers; a prefix is smaller. *)
Fixpoint lex (a b : list Z) : Z :=
  match a, b with
  | [], [] => 0
  | [], _ => -1
  | _, [] => 1
  | x :: a, y :: b => if x =? y then lex a b else if x <? y then -1 else 1
  end.

Lemma numeric_nonempty s : numeric s → s ≠ "".
Proof. intros [H _] ->. done. Qed.

Lemma numeric_no_dot s : all_digits s = true → forallb (λ c, negb (bool_decide (c = "."%char))) (String.list_ascii_of_string s) = true.
Proof.
  unfold all_digits. intros [_ H]%andb_true_iff. apply Is_true_true, forallb_True.
  apply Is_true_true, forallb_True in H. eapply Forall_impl; [exact H|]. intros c Hc.
  case_bool_decide as E; [|done]. by subst.
Qed.

Lemma segment_app seg rest :
  forallb (λ c, negb (bool_decide (c = "."%char))) (String.list_ascii_of_string seg) = true →
  segment (seg +:+ String "." rest) = (seg, rest) ∧ segment seg = (seg, "").
Proof.
  induction seg as [|c seg IH]; cbn [String.list_ascii_of_string forallb]; [done|].
  intros [Hc Hs]%andb_true_iff. destruct (IH Hs) as [E1 E2].
  change (String c seg +:+ String "." rest) with (String c (seg +:+ String "." rest)).
  cbn [segment]. destruct (bool_decide (c = "."%char)); [done|]. by rewrite E1, E2.
Qed.

(** The text of a version splits off its first segment. *)
Lemma segment_concat s l :
  numeric s → segment (String.concat "." (s :: l)) = (s, String.concat "." l).
Proof.
  intros [Hd _]%and_comm%and_comm. destruct l as [|s' l].
  - apply (segment_app s ""). by apply numeric_no_dot.
  - change (String.concat "." (s :: s' :: l)) with (s +:+ String "." (String.concat "." (s' :: l))).
    apply segment_app. by apply numeric_no_dot.
Qed.

Lemma concat_nonempty s l : numeric s → String.concat "." (s :: l) ≠ "".
Proof.
  intros Hs E. apply (segment_concat s l) in Hs as Hseg. rewrite E in Hseg. injection Hseg as <- _.
  by apply numeric_nonempty in Hs.
Qed.

Lemma compare_loop_numeric : ∀ n a b,
  Forall numeric a → Forall numeric b →
  (String.length (String.concat "." a) + String.length (String.concat "." b) < n)%nat →
  compare_loop n (String.concat "." a) (String.concat "." b)
  = Ret (lex (digits_value <$> a) (digits_value <$> b)).
Proof.
  induction n as [|n IH]; intros a b Ha Hb Hn; [lia|].
  assert (Hstol : ∀ s, numeric s → stol s = Ret (digits_value s)).
  { intros s [_ Hs]. unfold stol. cbv zeta. by rewrite (proj2 (Z.leb_gt _ _)). }
  assert (Hempty : ∀ s, numeric s → s ≠ "") by apply numeric_nonempty.
  destruct a as [|x a], b as [|y b].
  - done.
  - apply Forall_cons in Hb as [Hy Hb]. cbn [compare_loop].
    rewrite (bool_decide_eq_false_2 (String.concat "." (y :: b) = "")) by by apply concat_nonempty.
    rewrite andb_false_r, (segment_concat y b) by done. cbn [String.concat segment].
    change (all_digits "") with false. cbn [andb].
    rewrite bool_decide_eq_false_2 by (apply not_eq_sym; auto). apply Hempty in Hy. by destruct y.
  - apply Forall_cons in Ha as [Hx Ha]. cbn [compare_loop].
    rewrite (bool_decide_eq_false_2 (String.concat "." (x :: a) = "")) by by apply concat_nonempty.
    cbn [andb]. rewrite (segment_concat x a) by done. cbn [String.concat segment].
    change (all_digits "") with false. rewrite andb_false_r.
    rewrite bool_decide_eq_false_2 by auto. apply Hempty in Hx. by destruct x.
  - apply Forall_cons in Ha as [Hx Ha]. apply Forall_cons in Hb as [Hy Hb].
    pose proof (segment_concat x a Hx) as Ex. pose proof (segment_concat y b Hy) as Ey.
    cbn [compare_loop].
    rewrite (bool_decide_eq_false_2 (String.concat "." (x :: a) = "")) by by apply concat_nonempty.
    rewrite Ex, Ey. cbn [andb]. rewrite (proj1 Hx), (proj1 Hy). cbn [andb].
    rewrite (Hstol x Hx), (Hstol y Hy). cbn [mbind exc_bind fmap list_fmap lex].
    destruct (_ =? _); [|done]. apply IH; [done..|].
    apply segment_length in Ex as [_ Ex]. apply segment_length in Ey as [_ Ey].
    specialize (Ex (concat_nonempty x a Hx)). specialize (Ey (concat_nonempty y b Hy)). lia.
Qed.

(** The comparison of versions.  Its loop ends: more rounds than the two
    texts have characters change nothing.  Swapping the arguments negates the
    answer, so a version is never both newer and older.  On dotted numbers it is
    the lexicographic order of the numbers, a shorter version being older than
    its extensions ("1" is older than "1.0", although missing segments are meant
    to be zero); with a segment that is not a number it is not an order: 10,
    1a and 9 are in a cycle. *)
Theorem CompareVersions_order a b :
  (∀ n, (String.length a + String.length b < n)%nat → compare_loop n a b = CompareVersions a b) ∧
  (∀ c, CompareVersions a b = Ret c → CompareVersions b a = Ret (- c)) ∧
  (∀ la lb, Forall numeric la → Forall numeric lb →
     CompareVersions (String.concat "." la) (String.concat "." lb)
     = Ret (lex (digits_value <$> la) (digits_value <$> lb))) ∧
  CompareVersions "1" "1.0" = Ret (-1) ∧
  (CompareVersions "10" "1a" = Ret (-1) ∧ CompareVersions "1a" "9" = Ret (-1)
   ∧ CompareVersions "9" "10" = Ret (-1)).
Proof.
  split_and!; [| | |vm_compute; reflexivity..].
  - intros n Hn. apply compare_loop_fuel; lia.
  - intros c Hc. apply compare_loop_swap in Hc. unfold CompareVersions. rewrite <- Hc.
    apply compare_loop_fuel; lia.
  - intros la lb Ha Hb. apply compare_loop_numeric; [done..|lia].
Qed.

Lemma CompareVersions_order_witness :
  CompareVersions (String.concat "." ["1"; "2"; "10"]) (String.concat "." ["1"; "2"; "9"]) = Ret 1 ∧
  CompareVersions "1.2.9" "1.2.10" = Ret (-1) ∧ compare_loop 100 "1.2" "1.10" = CompareVersions "1.2" "1.10".
Proof.
  split_and!.
  - destruct (CompareVersions_order "" "") as (_ & _ & H & _).
    rewrite H; [reflexivity|apply (bool_decide_unpack _); vm_compute; exact I..].
  - destruct (CompareVersions_order "1.2.10" "1.2.9") as (_ & H & _). apply (H 1). reflexivity.
  - destruct (CompareVersions_order "1.2" "1.10") as (H & _). apply H. simpl. lia.
Defined.
