(* ===== verification/WasmSub.v ===== *)
(** * WebAssembly subscriptions (src/wasm/wasm_subscription.cpp)

    Subscriptions whose filter and transform functions are reducers of a
    deployed module: the registry with its lists per client, the queue of
    changefeed events and the processing thread, the calls into the engine.
    What the callback is given is recorded in [delivered].  A method under its
    mutex is one function; an exception of the processing thread ends the
    process ([Escaped]).  [ReducerContext]s here leave their timestamp
    uninitialised: its value is an argument. *)

From S2P Require Import Prelude Table Codec RowCodec Float64 Json MemTable Txn WalStore Changefeed StorageJson Storage RowJson HostFunctions WasmEngine.

(** ** Data *)

Record QuerySpec := {
  tables : list string;
  where_clause : string;
  spec_columns : list string;
  parameters : gmap string WasmValue
}.

Record WasmSubscriptionQuery := {
  id : string;
  module_name : string;
  filter_function : string;
  transform_function : string;
  query_spec : option QuerySpec;
  client_id : string;
  start_offset : Z;
  include_initial_data : bool;
  created_at : Z
}.

Record Metrics := {
  total_subscriptions : Z;
  active_subscriptions : Z;
  events_processed : Z;
  events_filtered : Z;
  events_transformed : Z;
  events_emitted : Z;
  wasm_errors : Z;
  avg_processing_time : Z
}.

Definition no_metrics : Metrics :=
  {| total_subscriptions := 0; active_subscriptions := 0; events_processed := 0; events_filtered := 0;
     events_transformed := 0; events_emitted := 0; wasm_errors := 0; avg_processing_time := 0 |}.

(** The counters. *)
Definition count_total (m : Metrics) : Metrics :=
  {| total_subscriptions := u64 (total_subscriptions m + 1); active_subscriptions := u64 (active_subscriptions m + 1);
     events_processed := events_processed m; events_filtered := events_filtered m;
     events_transformed := events_transformed m; events_emitted := events_emitted m;
     wasm_errors := wasm_errors m; avg_processing_time := avg_processing_time m |}.
Definition count_removed (n : nat) (m : Metrics) : Metrics :=
  {| total_subscriptions := total_subscriptions m; active_subscriptions := u64 (active_subscriptions m - Z.of_nat n);
     events_processed := events_processed m; events_filtered := events_filtered m;
     events_transformed := events_transformed m; events_emitted := events_emitted m;
     wasm_errors := wasm_errors m; avg_processing_time := avg_processing_time m |}.
Definition count_events (processed filtered transformed emitted errors : Z) (m : Metrics) : Metrics :=
  {| total_subscriptions := total_subscriptions m; active_subscriptions := active_subscriptions m;
     events_processed := u64 (events_processed m + processed); events_filtered := u64 (events_filtered m + filtered);
     events_transformed := u64 (events_transformed m + transformed); events_emitted := u64 (events_emitted m + emitted);
     wasm_errors := u64 (wasm_errors m + errors); avg_processing_time := avg_processing_time m |}.
(** The moving average, in milliseconds. *)
Definition count_time (duration : Z) (m : Metrics) : Metrics :=
  {| total_subscriptions := total_subscriptions m; active_subscriptions := active_subscriptions m;
     events_processed := events_processed m; events_filtered := events_filtered m;
     events_transformed := events_transformed m; events_emitted := events_emitted m; wasm_errors := wasm_errors m;
     avg_processing_time := if avg_processing_time m =? 0 then duration
                            else Z.quot (avg_processing_time m * 9 + duration) 10 |}.

(** ** The event as the module sees it *)

Section convert.
Context `{JL : JsonLib}.

(** The lambda [embed]. *)
Definition embed (data : bytes) : json :=
  match data with
  | [] => JNull
  | _ => default (JString (bytes_str data)) (parse (bytes_str data))
  end.

Definition event_object (event : ChangefeedEvent) : json :=
  object_of (<["table" := JString (ev_table event)]> (<["operation" := JString (ev_operation event)]>
    (<["offset" := JInt (ev_offset event)]> (<["transaction_id" := JString (ev_transaction_id event)]>
    (<["key" := JString (bytes_str (ev_key event))]> (<["new_value" := embed (ev_new_value event)]>
    {[ "old_value" := embed (ev_old_value event) ]})))))).

Definition ConvertEventToWasmValue (event : ChangefeedEvent) : exc WasmValue :=
  text ← dump (event_object event); Ret (WString text).
End convert.

(** ** The manager *)

Record Manager (W : Type) := {
  engine : WasmEngine W;
  subscriptions_ : gmap string WasmSubscriptionQuery;
  client_subscriptions_ : gmap string (list string);
  changefeed_subscription_id_ : string;
  next_subscription_id_ : Z;
  event_queue_ : list ChangefeedEvent;
  is_running_ : bool;
  subscription_callback_ : bool;
  metrics_ : Metrics;
  delivered : list (string * string * WasmValue)
}.
Arguments engine {W} _.
Arguments subscriptions_ {W} _.
Arguments client_subscriptions_ {W} _.
Arguments changefeed_subscription_id_ {W} _.
Arguments next_subscription_id_ {W} _.
Arguments event_queue_ {W} _.
Arguments is_running_ {W} _.
Arguments subscription_callback_ {W} _.
Arguments metrics_ {W} _.
Arguments delivered {W} _.

Definition new_Manager {W} (e : WasmEngine W) : Manager W :=
  {| engine := e; subscriptions_ := ∅; client_subscriptions_ := ∅; changefeed_subscription_id_ := "";
     next_subscription_id_ := 1; event_queue_ := []; is_running_ := false; subscription_callback_ := false;
     metrics_ := no_metrics; delivered := [] |}.

Section manager.
Context {W : Type} `{WA : WalApi W} `{JL : JsonLib} `{HO : HashOrder} `{WT : Wasmtime W}.
Abbreviation manager := (Manager W).
Abbreviation Man := (Prog (Manager W)).

Definition set_engine (e : WasmEngine W) (m : manager) : manager :=
  {| engine := e; subscriptions_ := subscriptions_ m; client_subscriptions_ := client_subscriptions_ m;
     changefeed_subscription_id_ := changefeed_subscription_id_ m; next_subscription_id_ := next_subscription_id_ m;
     event_queue_ := event_queue_ m; is_running_ := is_running_ m; subscription_callback_ := subscription_callback_ m;
     metrics_ := metrics_ m; delivered := delivered m |}.
Definition set_registry (subs : gmap string WasmSubscriptionQuery) (clients : gmap string (list string)) (m : manager) : manager :=
  {| engine := engine m; subscriptions_ := subs; client_subscriptions_ := clients;
     changefeed_subscription_id_ := changefeed_subscription_id_ m; next_subscription_id_ := next_subscription_id_ m;
     event_queue_ := event_queue_ m; is_running_ := is_running_ m; subscription_callback_ := subscription_callback_ m;
     metrics_ := metrics_ m; delivered := delivered m |}.
Definition set_metrics (f : Metrics → Metrics) (m : manager) : manager :=
  {| engine := engine m; subscriptions_ := subscriptions_ m; client_subscriptions_ := client_subscriptions_ m;
     changefeed_subscription_id_ := changefeed_subscription_id_ m; next_subscription_id_ := next_subscription_id_ m;
     event_queue_ := event_queue_ m; is_running_ := is_running_ m; subscription_callback_ := subscription_callback_ m;
     metrics_ := f (metrics_ m); delivered := delivered m |}.
Definition set_queue (q : list ChangefeedEvent) (m : manager) : manager :=
  {| engine := engine m; subscriptions_ := subscriptions_ m; client_subscriptions_ := client_subscriptions_ m;
     changefeed_subscription_id_ := changefeed_subscription_id_ m; next_subscription_id_ := next_subscription_id_ m;
     event_queue_ := q; is_running_ := is_running_ m; subscription_callback_ := subscription_callback_ m;
     metrics_ := metrics_ m; delivered := delivered m |}.
Definition set_running (run : bool) (feed : string) (m : manager) : manager :=
  {| engine := engine m; subscriptions_ := subscriptions_ m; client_subscriptions_ := client_subscriptions_ m;
     changefeed_subscription_id_ := feed; next_subscription_id_ := next_subscription_id_ m;
     event_queue_ := event_queue_ m; is_running_ := run; subscription_callback_ := subscription_callback_ m;
     metrics_ := metrics_ m; delivered := delivered m |}.
Definition next_id (m : manager) : manager :=
  {| engine := engine m; subscriptions_ := subscriptions_ m; client_subscriptions_ := client_subscriptions_ m;
     changefeed_subscription_id_ := changefeed_subscription_id_ m; next_subscription_id_ := u64 (next_subscription_id_ m + 1);
     event_queue_ := event_queue_ m; is_running_ := is_running_ m; subscription_callback_ := subscription_callback_ m;
     metrics_ := metrics_ m; delivered := delivered m |}.
Definition deliver (d : string * string * WasmValue) (m : manager) : manager :=
  {| engine := engine m; subscriptions_ := subscriptions_ m; client_subscriptions_ := client_subscriptions_ m;
     changefeed_subscription_id_ := changefeed_subscription_id_ m; next_subscription_id_ := next_subscription_id_ m;
     event_queue_ := event_queue_ m; is_running_ := is_running_ m; subscription_callback_ := subscription_callback_ m;
     metrics_ := metrics_ m; delivered := delivered m ++ [d] |}.
Definition SetSubscriptionCallback (set : bool) (m : manager) : manager :=
  {| engine := engine m; subscriptions_ := subscriptions_ m; client_subscriptions_ := client_subscriptions_ m;
     changefeed_subscription_id_ := changefeed_subscription_id_ m; next_subscription_id_ := next_subscription_id_ m;
     event_queue_ := event_queue_ m; is_running_ := is_running_ m; subscription_callback_ := set;
     metrics_ := metrics_ m; delivered := delivered m |}.

Definition get : Man manager := λ m, (m, Done m).
Definition change (f : manager → manager) : Man () := λ m, (f m, Done ()).

(** ** Lifecycle *)

(** The changefeed is the one the storage engine publishes to. *)
Definition on_changefeed {A} (f : Changefeed → Changefeed * A) (m : manager) : manager * outcome A :=
  match storage_ (engine m) with
  | None => (m, Undefined)
  | Some st =>
      match changefeed_engine_ st with
      | None => (m, Undefined)
      | Some c =>
          let '(c1, a) := f c in
          (set_engine (set_store (Some (SetChangefeedEngine (Some c1) st)) (id_counter (engine m)) (engine m)) m, Done a)
      end
  end.

Definition Initialize (now : Z) (callback : nat) : Man bool :=
  sub ← on_changefeed (Changefeed.CreateSubscription now
    {| table_pattern := "*"; sql_where_clause := ""; f_columns := [] |} 0 AT_LEAST_ONCE);
  m ← get;
  _ ← change (set_running (is_running_ m) sub);
  _ ← on_changefeed (λ c, (Changefeed.Subscribe sub callback c, ()));
  mret true.

Definition Start (m : manager) : manager * bool :=
  if is_running_ m then (m, true) else (set_running true (changefeed_subscription_id_ m) m, true).

(** [Stop], once the processing thread has been joined. *)
Definition Stop : Man () :=
  m ← get;
  if negb (is_running_ m) then mret () else
  _ ← change (set_running false (changefeed_subscription_id_ m));
  _ ← (if bool_decide (changefeed_subscription_id_ m = "") then mret () else
       _ ← on_changefeed (λ c, (Unsubscribe (changefeed_subscription_id_ m) c, ()));
       _ ← on_changefeed (Changefeed.DeleteSubscription (changefeed_subscription_id_ m));
       mret ());
  change (set_registry ∅ ∅).

(** ** Calls into the engine *)

(** A context as the manager fills it: no module, no connection, and a timestamp
    that was never written. *)
Definition reducer_context (garbage : Z) (sender : string) : ReducerContext :=
  {| sender_identity := sender; module_identity := ""; connection_id := ""; timestamp_micros := garbage;
     has_changefeed := true |}.

Definition call_reducer (now garbage : Z) (sender module reducer : string) (args : list WasmValue) : Man WasmResult := λ m,
  let '(e, r) := ExecuteReducer now module reducer (reducer_context garbage sender) args (engine m) in
  (set_engine e m, r).

(** The loops over the deployed modules. *)
Fixpoint notify_modules (now garbage : Z) (client reducer : string) (modules : list string) : Man () :=
  match modules with
  | [] => mret ()
  | name :: modules =>
      _ ← call_reducer now garbage client name reducer [WString client];
      notify_modules now garbage client reducer modules
  end.

Definition OnClientConnected (now garbage : Z) (client : string) : Man () :=
  m ← get; notify_modules now garbage client "__client_connected" (ListModules (engine m)).

Definition OnClientDisconnected (now garbage : Z) (client : string) : Man () :=
  m ← get;
  _ ← (match client_subscriptions_ m !! client with
       | None => mret ()
       | Some ids =>
           _ ← change (set_registry (foldr delete (subscriptions_ m) ids) (delete client (client_subscriptions_ m)));
           change (set_metrics (count_removed (length ids)))
       end);
  notify_modules now garbage client "__client_disconnected" (ListModules (engine m)).

(** ** Subscriptions *)

(** The callback, if there is one and the subscription has a client. *)
Definition call_back (sub_id client : string) (data : WasmValue) : Man bool :=
  m ← get;
  if subscription_callback_ m && negb (bool_decide (client = ""))
  then _ ← change (deliver (sub_id, client, data)); mret true
  else mret false.

Definition SendInitialData (now garbage : Z) (query : WasmSubscriptionQuery) : Man () :=
  match query_spec query with
  | None => mret ()
  | Some spec =>
      result ← call_reducer now garbage "" (module_name query) "__get_initial_data" [WString (where_clause spec)];
      match success result, values result with
      | true, WBytes data :: _ => _ ← call_back (id query) (client_id query) (WBytes data); mret ()
      | _, _ => mret ()
      end
  end.

Definition subscription_name (n : Z) : string := "wasm_sub_" +:+ pretty n.

Definition stored_query (sub_id : string) (now : Z) (query : WasmSubscriptionQuery) : WasmSubscriptionQuery :=
  {| id := sub_id; module_name := module_name query; filter_function := filter_function query;
     transform_function := transform_function query; query_spec := query_spec query; client_id := client_id query;
     start_offset := start_offset query; include_initial_data := include_initial_data query; created_at := now |}.

Definition CreateSubscription (now garbage : Z) (query : WasmSubscriptionQuery) : Man string :=
  m ← get;
  let sub_id := subscription_name (next_subscription_id_ m) in
  let stored := stored_query sub_id now query in
  _ ← change next_id;
  _ ← change (set_registry (<[sub_id := stored]> (subscriptions_ m))
         (if bool_decide (client_id query = "") then client_subscriptions_ m
          else <[client_id query := default [] (client_subscriptions_ m !! client_id query) ++ [sub_id]]>
                 (client_subscriptions_ m)));
  _ ← (if include_initial_data query then SendInitialData now garbage stored else mret ());
  _ ← change (set_metrics count_total);
  mret sub_id.

Definition DeleteSubscription (subscription_id : string) (m : manager) : manager * bool :=
  match subscriptions_ m !! subscription_id with
  | None => (m, false)
  | Some query =>
      let clients :=
        if bool_decide (client_id query = "") then client_subscriptions_ m
        else let ids := filter (λ i, i ≠ subscription_id) (default [] (client_subscriptions_ m !! client_id query)) in
             if bool_decide (ids = []) then delete (client_id query) (client_subscriptions_ m)
             else <[client_id query := ids]> (client_subscriptions_ m) in
      (set_metrics (count_removed 1) (set_registry (delete subscription_id (subscriptions_ m)) clients m), true)
  end.

Definition GetSubscription (subscription_id : string) (m : manager) : option WasmSubscriptionQuery :=
  subscriptions_ m !! subscription_id.

Definition ListSubscriptions (client : string) (m : manager) : list WasmSubscriptionQuery :=
  if bool_decide (client = "") then (hash_iter (subscriptions_ m)).*2
  else omap (λ i, subscriptions_ m !! i) (default [] (client_subscriptions_ m !! client)).

(** ** Events *)

Definition ProcessChangefeedEvent (event : ChangefeedEvent) (m : manager) : manager :=
  set_metrics (count_events 1 0 0 0 0) (set_queue (event_queue_ m ++ [event]) m).

(** The table test at the head of the loop. *)
Definition skips_table (query : WasmSubscriptionQuery) (event : ChangefeedEvent) : bool :=
  match query_spec query with
  | Some spec => negb (bool_decide (tables spec = [])) && negb (bool_decide (ev_table event ∈ tables spec))
  | None => false
  end.

(** The filter function: whether to go on. *)
Definition run_filter (now garbage : Z) (query : WasmSubscriptionQuery) (event_data : WasmValue) : Man bool :=
  if bool_decide (filter_function query = "") then mret true else
  r ← call_reducer now garbage "" (module_name query) (filter_function query) [event_data];
  let excluded emit := _ ← (if emit : bool then mret () else change (set_metrics (count_events 0 1 0 0 0))); mret emit in
  match success r, values r with
  | true, WInt32 n :: _ => excluded (negb (n =? 0))
  | true, WBool b :: _ => excluded b
  | _, _ => _ ← change (set_metrics (count_events 0 0 0 0 1)); mret false
  end.

(** The transform function: what to emit, unless it failed. *)
Definition run_transform (now garbage : Z) (query : WasmSubscriptionQuery) (event_data : WasmValue) : Man (option WasmValue) :=
  if bool_decide (transform_function query = "") then mret (Some event_data) else
  r ← call_reducer now garbage "" (module_name query) (transform_function query) [event_data];
  match success r, values r with
  | true, v :: _ =>
      _ ← change (set_metrics (count_events 0 0 1 0 0));
      mret (Some (match v with WBytes data => WBytes data | _ => event_data end))
  | _, _ => _ ← change (set_metrics (count_events 0 0 0 0 1)); mret None
  end.

(** One subscription of the loop of [ProcessSingleEvent]. *)
Definition process_query (now garbage : Z) (event : ChangefeedEvent) (sub_id : string) (query : WasmSubscriptionQuery)
    : Man () :=
  if skips_table query event then mret () else
  event_data ← lift_exc (ConvertEventToWasmValue event);
  emit ← run_filter now garbage query event_data;
  if negb emit then mret () else
  final_data ← run_transform now garbage query event_data;
  match final_data with
  | None => mret ()
  | Some data =>
      called ← call_back sub_id (client_id query) data;
      if called : bool then change (set_metrics (count_events 0 0 0 1 0)) else mret ()
  end.

Fixpoint process_queries (now garbage : Z) (event : ChangefeedEvent) (subs : list (string * WasmSubscriptionQuery)) : Man () :=
  match subs with
  | [] => mret ()
  | (sub_id, query) :: subs =>
      _ ← process_query now garbage event sub_id query;
      process_queries now garbage event subs
  end.

Definition ProcessSingleEvent (now garbage duration : Z) (event : ChangefeedEvent) : Man () :=
  m ← get;
  _ ← process_queries now garbage event (hash_iter (subscriptions_ m));
  change (set_metrics (count_time duration)).

Fixpoint process_events (now garbage duration : Z) (events : list ChangefeedEvent) : Man () :=
  match events with
  | [] => mret ()
  | event :: events => _ ← ProcessSingleEvent now garbage duration event; process_events now garbage duration events
  end.

(** A round of [ProcessingLoop]: whether the thread goes on. *)
Definition ProcessingLoop (now garbage duration : Z) : Man bool :=
  m ← get;
  if negb (is_running_ m) then mret false else
  _ ← change (set_queue []);
  _ ← process_events now garbage duration (event_queue_ m);
  mret true.

(** ** Queries *)

Definition ExecuteQuery (now garbage : Z) (module query_function : string) (params : gmap string WasmValue)
    : Man (list WasmValue * option string) :=
  r ← call_reducer now garbage "" module query_function (hash_iter params).*2;
  mret (if success r then (values r, None) else ([], Some (error r))).

Definition GetMetrics (m : manager) : Metrics := metrics_ m.
End manager.

(** ** The query builder *)

Definition empty_spec : QuerySpec := {| tables := []; where_clause := ""; spec_columns := []; parameters := ∅ |}.
Definition with_spec (f : QuerySpec → QuerySpec) (q : WasmSubscriptionQuery) : WasmSubscriptionQuery :=
  {| id := id q; module_name := module_name q; filter_function := filter_function q;
     transform_function := transform_function q; query_spec := Some (f (default empty_spec (query_spec q)));
     client_id := client_id q; start_offset := start_offset q; include_initial_data := include_initial_data q;
     created_at := created_at q |}.

Definition WithModule (s : string) (q : WasmSubscriptionQuery) : WasmSubscriptionQuery :=
  {| id := id q; module_name := s; filter_function := filter_function q; transform_function := transform_function q;
     query_spec := query_spec q; client_id := client_id q; start_offset := start_offset q;
     include_initial_data := include_initial_data q; created_at := created_at q |}.
Definition WithFilter (s : string) (q : WasmSubscriptionQuery) : WasmSubscriptionQuery :=
  {| id := id q; module_name := module_name q; filter_function := s; transform_function := transform_function q;
     query_spec := query_spec q; client_id := client_id q; start_offset := start_offset q;
     include_initial_data := include_initial_data q; created_at := created_at q |}.
Definition WithTransform (s : string) (q : WasmSubscriptionQuery) : WasmSubscriptionQuery :=
  {| id := id q; module_name := module_name q; filter_function := filter_function q; transform_function := s;
     query_spec := query_spec q; client_id := client_id q; start_offset := start_offset q;
     include_initial_data := include_initial_data q; created_at := created_at q |}.
Definition FromTables (ts : list string) : WasmSubscriptionQuery → WasmSubscriptionQuery :=
  with_spec (λ s, {| tables := ts; where_clause := where_clause s; spec_columns := spec_columns s; parameters := parameters s |}).
Definition FromTable (t : string) : WasmSubscriptionQuery → WasmSubscriptionQuery := FromTables [t].
Definition Where (w : string) : WasmSubscriptionQuery → WasmSubscriptionQuery :=
  with_spec (λ s, {| tables := tables s; where_clause := w; spec_columns := spec_columns s; parameters := parameters s |}).
Definition Select (cs : list string) : WasmSubscriptionQuery → WasmSubscriptionQuery :=
  with_spec (λ s, {| tables := tables s; where_clause := where_clause s; spec_columns := cs; parameters := parameters s |}).
Definition WithParameter (name : string) (v : WasmValue) : WasmSubscriptionQuery → WasmSubscriptionQuery :=
  with_spec (λ s, {| tables := tables s; where_clause := where_clause s; spec_columns := spec_columns s;
                     parameters := <[name := v]> (parameters s) |}).
Definition ForClient (s : string) (q : WasmSubscriptionQuery) : WasmSubscriptionQuery :=
  {| id := id q; module_name := module_name q; filter_function := filter_function q;
     transform_function := transform_function q; query_spec := query_spec q; client_id := s;
     start_offset := start_offset q; include_initial_data := include_initial_data q; created_at := created_at q |}.
Definition StartingAt (offset : Z) (q : WasmSubscriptionQuery) : WasmSubscriptionQuery :=
  {| id := id q; module_name := module_name q; filter_function := filter_function q;
     transform_function := transform_function q; query_spec := query_spec q; client_id := client_id q;
     start_offset := offset; include_initial_data := include_initial_data q; created_at := created_at q |}.
Definition IncludeInitialData (b : bool) (q : WasmSubscriptionQuery) : WasmSubscriptionQuery :=
  {| id := id q; module_name := module_name q; filter_function := filter_function q;
     transform_function := transform_function q; query_spec := query_spec q; client_id := client_id q;
     start_offset := start_offset q; include_initial_data := b; created_at := created_at q |}.
