(* ===== verification/WasmSubEvents.v ===== *)
(** * What the WebAssembly subscription manager keeps and delivers *)

From S2P Require Import Prelude Table Codec RowCodec Float64 Json MemTable Txn WalStore Changefeed StorageJson Storage RowJson StorageCommit HostFunctions HostReads WasmEngine WasmExec WasmSub.

Section theorems.
Context {W : Type} `{WA : WalApi W} `{JL : JsonLib} `{HO : HashOrder} `{WT : Wasmtime W}.
Abbreviation manager := (Manager W).
Abbreviation Man := (Prog (Manager W)).

(** ** Calls into the engine leave the registry alone *)

Definition same_registry (m m' : manager) : Prop :=
  subscriptions_ m' = subscriptions_ m ∧ client_subscriptions_ m' = client_subscriptions_ m ∧
  next_subscription_id_ m' = next_subscription_id_ m ∧ subscription_callback_ m' = subscription_callback_ m ∧
  active_subscriptions (metrics_ m') = active_subscriptions (metrics_ m).

#[local] Instance same_registry_preorder : PreOrder same_registry.
Proof. split; unfold same_registry; [done|]. intros m1 m2 m3. intuition congruence. Qed.

(** Whatever its outcome. *)
Definition keeps {A} (p : Man A) : Prop := ∀ m, same_registry m (p m).1.

Lemma keeps_ret {A} (a : A) : keeps (mret a).
Proof. by intros m. Qed.
Lemma keeps_get : keeps get.
Proof. by intros m. Qed.
Lemma keeps_change f : (∀ m, same_registry m (f m)) → keeps (change f).
Proof. intros H m. apply H. Qed.
Lemma keeps_lift {A} (e : exc A) : keeps (lift_exc e).
Proof. intros m. by destruct e. Qed.
Lemma frame_bind {A B} (p : Man A) (f : A → Man B) : keeps p → (∀ a, keeps (f a)) → keeps (p ≫= f).
Proof.
  intros Hp Hf m. specialize (Hp m). unfold mbind, Prog_bind. destruct (p m) as [m1 [a| | |]]; simpl in *; [|done..].
  etrans; [exact Hp|apply Hf].
Qed.
Lemma keeps_call now garbage sender module reducer args : keeps (call_reducer now garbage sender module reducer args).
Proof. intros m. unfold call_reducer. by destruct (ExecuteReducer _ _ _ _ _ _). Qed.

Ltac solve_keeps :=
  repeat first
    [ apply keeps_ret | apply keeps_get | apply keeps_lift | apply keeps_call | done
    | apply keeps_change; by intros ?
    | apply frame_bind; [|intros ?] | case_match ].

Lemma keeps_notify now garbage client reducer modules : keeps (notify_modules now garbage client reducer modules).
Proof. induction modules; simpl; [apply keeps_ret|]. apply frame_bind; [apply keeps_call|done]. Qed.
Lemma keeps_call_back i c v : keeps (call_back i c v).
Proof. unfold call_back. solve_keeps. Qed.
Lemma keeps_initial now garbage q : keeps (SendInitialData now garbage q).
Proof. pose proof keeps_call_back. unfold SendInitialData. solve_keeps. Qed.
Lemma keeps_filter now garbage q v : keeps (run_filter now garbage q v).
Proof. unfold run_filter. solve_keeps. Qed.
Lemma keeps_transform now garbage q v : keeps (run_transform now garbage q v).
Proof. unfold run_transform. solve_keeps. Qed.
Lemma keeps_query now garbage ev i q : keeps (process_query now garbage ev i q).
Proof. pose proof keeps_call_back. pose proof keeps_filter. pose proof keeps_transform. unfold process_query. solve_keeps. Qed.
Lemma keeps_queries now garbage ev l : keeps (process_queries now garbage ev l).
Proof. induction l as [|[i q] l IH]; simpl; [apply keeps_ret|]. apply frame_bind; [apply keeps_query|done]. Qed.
Lemma keeps_event now garbage d ev : keeps (ProcessSingleEvent now garbage d ev).
Proof. pose proof keeps_queries. unfold ProcessSingleEvent. solve_keeps. Qed.
Lemma keeps_events now garbage d evs : keeps (process_events now garbage d evs).
Proof. induction evs; simpl; [apply keeps_ret|]. apply frame_bind; [apply keeps_event|done]. Qed.
Lemma keeps_loop now garbage d : keeps (ProcessingLoop now garbage d).
Proof. pose proof keeps_events. unfold ProcessingLoop. solve_keeps. Qed.

(** ** The registry *)

Definition registry_ok (m : manager) : Prop :=
  (∀ i q, subscriptions_ m !! i = Some q →
     id q = i ∧ ∃ n, i = subscription_name n ∧ 0 <= n < next_subscription_id_ m) ∧
  (∀ c i, i ∈ default [] (client_subscriptions_ m !! c) ↔
     c ≠ "" ∧ ∃ q, subscriptions_ m !! i = Some q ∧ client_id q = c) ∧
  (∀ c ids, client_subscriptions_ m !! c = Some ids → ids ≠ [] ∧ NoDup ids) ∧
  active_subscriptions (metrics_ m) = u64 (Z.of_nat (size (subscriptions_ m))).

Lemma registry_ok_same m m' : same_registry m m' → registry_ok m → registry_ok m'.
Proof. unfold registry_ok. by intros (-> & -> & -> & _ & ->). Qed.

Lemma registry_ok_empty e : registry_ok (new_Manager e).
Proof.
  split_and!; [done| |done|done]. intros c i. simpl. split; [by intros ?%not_elem_of_nil|].
  by intros (_ & q & ? & _).
Qed.

Lemma sub_name_inj n n' : subscription_name n = subscription_name n' → n = n'.
Proof. unfold subscription_name. by intros ?%(inj (String.append _))%(inj pretty). Qed.
Lemma foldr_delete_lookup {A} (m : gmap string A) ids k :
  foldr delete m ids !! k = if decide (k ∈ ids) then None else m !! k.
Proof.
  induction ids as [|i ids IH]; cbn [foldr].
  - by rewrite decide_False by apply not_elem_of_nil.
  - destruct (decide (k = i)) as [->|Hne].
    + rewrite lookup_delete_eq, decide_True by (by left). done.
    + rewrite lookup_delete_ne by done. rewrite IH.
      destruct (decide (k ∈ ids)); [rewrite decide_True by (by right)|rewrite decide_False by (by intros [?|?]%elem_of_cons)]; done.
Qed.

Lemma foldr_delete_size {A} (m : gmap string A) ids :
  NoDup ids → (∀ i, i ∈ ids → is_Some (m !! i)) → Z.of_nat (size (foldr delete m ids)) = Z.of_nat (size m) - Z.of_nat (length ids).
Proof.
  induction 1 as [|i ids Hi Hnd IH]; intros Hin; simpl; [lia|].
  assert (is_Some (foldr delete m ids !! i)) as Hs.
  { rewrite foldr_delete_lookup, decide_False by done. apply Hin. by left. }
  rewrite map_size_delete. destruct Hs as [x ->]. specialize (IH ltac:(intros j Hj; apply Hin; by right)).
  assert (size (foldr delete m ids) ≠ 0%nat) as Hne.
  { destruct (size (foldr delete m ids)) eqn:E; [|done]. apply map_size_empty_inv in E.
    assert (foldr delete m ids !! i = None) as Hno by (by rewrite E). rewrite foldr_delete_lookup, decide_False in Hno by done.
    destruct (Hin i) as [y Hy]; [by left|congruence]. }
  lia.
Qed.

Lemma u64_sub_l a b : u64 (u64 a - b) = u64 (a - b).
Proof. unfold u64. apply Zminus_mod_idemp_l. Qed.
(** Entering a subscription under the next name. *)
Definition entered (now : Z) (q : WasmSubscriptionQuery) (m : manager) : manager :=
  let sub_id := subscription_name (next_subscription_id_ m) in
  set_metrics count_total
    (set_registry (<[sub_id := stored_query sub_id now q]> (subscriptions_ m))
       (if bool_decide (client_id q = "") then client_subscriptions_ m
        else <[client_id q := default [] (client_subscriptions_ m !! client_id q) ++ [sub_id]]> (client_subscriptions_ m))
       (next_id m)).

Lemma next_name_fresh m : registry_ok m → subscriptions_ m !! subscription_name (next_subscription_id_ m) = None.
Proof.
  intros (H & _). destruct (subscriptions_ m !! _) as [q|] eqn:E; [|done].
  destruct (H _ _ E) as (_ & n & Hn%sub_name_inj & ?). lia.
Qed.

Lemma entered_ok now q m :
  registry_ok m → 0 <= next_subscription_id_ m → next_subscription_id_ m + 1 < 2 ^ 64 → registry_ok (entered now q m).
Proof.
  intros Hok Hlo Hhi. pose proof (next_name_fresh m Hok) as Hfresh. destruct Hok as (H1 & H2 & H3 & H4).
  unfold entered. set (i0 := subscription_name (next_subscription_id_ m)) in *.
  assert (Hnext : u64 (next_subscription_id_ m + 1) = next_subscription_id_ m + 1) by (apply u64_small; unfold is_u; lia).
  split_and!; simpl.
  - intros i q' Hi. rewrite Hnext. destruct (decide (i = i0)) as [->|Hne].
    + rewrite lookup_insert_eq in Hi. injection Hi as <-. split; [done|]. exists (next_subscription_id_ m). split; [done|lia].
    + rewrite lookup_insert_ne in Hi by done. destruct (H1 _ _ Hi) as (? & n & ? & ?). split; [done|].
      exists n. split; [done|lia].
  - intros c i.
    assert (Hold : i ∈ default [] (client_subscriptions_ m !! c) → i ≠ i0).
    { intros Hin ->. apply H2 in Hin as (_ & q' & Hq & _). congruence. }
    assert (Hlook : ∀ j, j ≠ i0 → <[i0:=stored_query i0 now q]> (subscriptions_ m) !! j = subscriptions_ m !! j).
    { intros j Hj. by rewrite lookup_insert_ne. }
    case_bool_decide as Hc.
    + split.
      * intros Hin. rewrite Hlook by (by apply Hold). by apply H2.
      * intros (Hne & q' & Hq & Hqc). destruct (decide (i = i0)) as [->|Hi0].
        { rewrite lookup_insert_eq in Hq. injection Hq as <-. simpl in Hqc. congruence. }
        rewrite Hlook in Hq by done. apply H2. eauto.
    + destruct (decide (c = client_id q)) as [->|Hcq].
      * rewrite lookup_insert_eq. simpl. rewrite elem_of_app, list_elem_of_singleton. split.
        { intros [Hin| ->].
          - rewrite Hlook by (by apply Hold). by apply H2.
          - split; [done|]. eexists. by rewrite lookup_insert_eq. }
        { intros (_ & q' & Hq & Hqc). destruct (decide (i = i0)) as [->|Hi0]; [by right|left].
          rewrite Hlook in Hq by done. apply H2. eauto. }
      * rewrite lookup_insert_ne by done. split.
        { intros Hin. rewrite Hlook by (by apply Hold). by apply H2. }
        { intros (Hne & q' & Hq & Hqc). destruct (decide (i = i0)) as [->|Hi0].
          { rewrite lookup_insert_eq in Hq. injection Hq as <-. simpl in Hqc. congruence. }
          rewrite Hlook in Hq by done. apply H2. eauto. }
  - intros c ids. case_bool_decide; [apply H3|]. destruct (decide (c = client_id q)) as [->|Hcq].
    + rewrite lookup_insert_eq. intros [= <-]. split; [by destruct (default [] _)|].
      apply NoDup_app. split_and!.
      * destruct (client_subscriptions_ m !! client_id q) as [ids|] eqn:E; [by apply H3 in E as [_ ?]|constructor].
      * intros i Hin ->%list_elem_of_singleton. apply H2 in Hin as (_ & q' & Hq & _). congruence.
      * apply NoDup_singleton.
    + rewrite lookup_insert_ne by done. apply H3.
  - rewrite H4, u64_add_l, map_size_insert_None by done. f_equal. lia.
Qed.
Lemma DeleteSubscription_ok i m : registry_ok m → registry_ok (DeleteSubscription i m).1.
Proof.
  intros Hok. unfold DeleteSubscription. destruct (subscriptions_ m !! i) as [q|] eqn:Hq; [|done].
  destruct Hok as (H1 & H2 & H3 & H4). simpl.
  set (ids := filter (λ j, j ≠ i) (default [] (client_subscriptions_ m !! client_id q))).
  assert (Hids : ∀ j, j ∈ ids ↔ j ≠ i ∧ client_id q ≠ "" ∧ ∃ q', subscriptions_ m !! j = Some q' ∧ client_id q' = client_id q).
  { intros j. unfold ids. by rewrite list_elem_of_filter, H2. }
  set (clients := if bool_decide (client_id q = "") then _ else _).
  assert (Hclients : ∀ c, client_id q ≠ c ∨ c = "" → clients !! c = client_subscriptions_ m !! c).
  { intros c Hc. unfold clients. case_bool_decide as He; [done|].
    assert (client_id q ≠ c) by (destruct Hc; congruence).
    case_bool_decide; [by rewrite lookup_delete_ne|by rewrite lookup_insert_ne]. }
  assert (Hclient : client_id q ≠ "" → default [] (clients !! client_id q) = ids).
  { intros He. unfold clients. rewrite bool_decide_eq_false_2 by done.
    case_bool_decide as Hn; [by rewrite lookup_delete_eq|by rewrite lookup_insert_eq]. }
  split_and!; simpl.
  - intros j q' [_ Hj]%lookup_delete_Some. by apply H1.
  - intros c j. destruct (decide (c = client_id q ∧ c ≠ "")) as [[-> He]|Hc].
    + rewrite Hclient by done. rewrite Hids. split.
      * intros (Hne & _ & q' & Hj & Hc). split; [done|]. exists q'. by rewrite lookup_delete_ne.
      * intros (_ & q' & [Hne Hj]%lookup_delete_Some & Hc). split; [done|]. split; [done|]. by exists q'.
    + rewrite Hclients by (destruct (decide (c = "")); [by right|left; intros <-; by apply Hc]). rewrite H2. split.
      * intros (He & q' & Hj & Hcq). split; [done|]. exists q'. rewrite lookup_delete_ne; [done|]. intros <-.
        rewrite Hq in Hj. injection Hj as <-. by apply Hc.
      * intros (He & q' & [_ Hj]%lookup_delete_Some & Hcq). split; [done|]. by exists q'.
  - intros c l Hl. destruct (decide (c = client_id q ∧ c ≠ "")) as [[-> He]|Hc].
    + pose proof (Hclient He) as Hd. rewrite Hl in Hd. simpl in Hd. subst l. split.
      * intros Hn. revert Hl. unfold clients. rewrite bool_decide_eq_false_2 by done.
        rewrite bool_decide_eq_true_2 by done. by rewrite lookup_delete_eq.
      * apply NoDup_filter. destruct (client_subscriptions_ m !! client_id q) eqn:E; [by apply H3 in E as [_ ?]|constructor].
    + rewrite Hclients in Hl by (destruct (decide (c = "")); [by right|left; intros <-; by apply Hc]). by apply H3 in Hl.
  - rewrite H4, u64_sub_l, map_size_delete, Hq. f_equal.
    assert (size (subscriptions_ m) ≠ 0%nat).
    { intros E%map_size_empty_inv. by rewrite E in Hq. }
    lia.
Qed.

(** Dropping a client. *)
Definition dropped (client : string) (m : manager) : manager :=
  match client_subscriptions_ m !! client with
  | None => m
  | Some ids => set_metrics (count_removed (length ids))
                  (set_registry (foldr delete (subscriptions_ m) ids) (delete client (client_subscriptions_ m)) m)
  end.

Lemma dropped_lookup client m i :
  registry_ok m →
  subscriptions_ (dropped client m) !! i
  = q ← subscriptions_ m !! i; if decide (client ≠ "" ∧ client_id q = client) then None else Some q.
Proof.
  intros (H1 & H2 & H3 & H4). pose proof (H2 client i) as Hi. unfold dropped.
  destruct (client_subscriptions_ m !! client) as [ids|] eqn:Ec; simpl in *.
  - rewrite foldr_delete_lookup. case_decide as Hin.
    + apply Hi in Hin as (He & q & -> & Hq). simpl. by rewrite decide_True.
    + destruct (subscriptions_ m !! i) as [q|] eqn:Eq; [|done]. simpl. rewrite decide_False; [done|].
      intros [? ?]. apply Hin, Hi. eauto.
  - destruct (subscriptions_ m !! i) as [q|] eqn:Eq; [|done]. simpl. rewrite decide_False; [done|].
    intros [? ?]. assert (i ∈ @nil string) as ?%not_elem_of_nil by (apply Hi; eauto). done.
Qed.

Lemma dropped_ok client m : registry_ok m → registry_ok (dropped client m).
Proof.
  intros Hok. pose proof (λ i, dropped_lookup client m i Hok) as Hl. revert Hl. unfold dropped.
  destruct (client_subscriptions_ m !! client) as [ids|] eqn:Ec; [|done]. simpl. intros Hl.
  destruct Hok as (H1 & H2 & H3 & H4). destruct (H3 _ _ Ec) as [Hne Hnd].
  assert (Hcne : client ≠ "").
  { destruct ids as [|i ids]; [done|]. assert (i ∈ default [] (client_subscriptions_ m !! client)) as [? _]%H2 by (rewrite Ec; by left). done. }
  split_and!; simpl.
  - intros i q Hi. rewrite Hl in Hi. destruct (subscriptions_ m !! i) as [q'|] eqn:Eq; [|done]. simpl in Hi.
    case_decide; [done|]. injection Hi as <-. by apply H1.
  - intros c i. destruct (decide (c = client)) as [->|Hc].
    + rewrite lookup_delete_eq. simpl. split; [by intros ?%not_elem_of_nil|]. intros (_ & q & Hi & Hq).
      rewrite Hl in Hi. destruct (subscriptions_ m !! i) as [q'|]; [|done]. simpl in Hi. case_decide as Hd; [done|].
      injection Hi as ->. by destruct Hd.
    + rewrite lookup_delete_ne by done. rewrite H2. split.
      * intros (He & q & Hi & Hq). split; [done|]. exists q. rewrite Hl, Hi. simpl. rewrite decide_False by naive_solver. done.
      * intros (He & q & Hi & Hq). split; [done|]. rewrite Hl in Hi. destruct (subscriptions_ m !! i) as [q'|]; [|done].
        simpl in Hi. case_decide; [done|]. exists q'. split; [done|]. congruence.
  - intros c l [_ ?]%lookup_delete_Some. by apply (H3 c).
  - rewrite H4, u64_sub_l, foldr_delete_size; [done|done|].
    intros i Hi. assert (i ∈ default [] (client_subscriptions_ m !! client)) as (_ & q & -> & _)%H2 by by rewrite Ec. by eexists.
Qed.

Lemma OnClientDisconnected_same now garbage client m :
  same_registry (dropped client m) (OnClientDisconnected now garbage client m).1.
Proof.
  unfold OnClientDisconnected, dropped.
  match goal with |- context[(get ≫= ?f) m] => assert ((get ≫= f) m = f m m) as -> by done end. cbv beta.
  destruct (client_subscriptions_ m !! client) as [ids|].
  - match goal with |- context[(?p ≫= ?f) m] =>
      assert ((p ≫= f) m = f () (set_metrics (count_removed (length ids))
        (set_registry (foldr delete (subscriptions_ m) ids) (delete client (client_subscriptions_ m)) m))) as -> by done end.
    apply keeps_notify.
  - apply keeps_notify.
Qed.

Lemma CreateSubscription_entered now garbage q m m' i :
  CreateSubscription now garbage q m = (m', Done i) →
  i = subscription_name (next_subscription_id_ m) ∧ same_registry (entered now q m) m'.
Proof.
  unfold CreateSubscription. intros (m0 & ? & [= <- <-] & H)%host_bind_inv.
  apply host_bind_inv in H as (m1 & ? & [= <- _] & H). apply host_bind_inv in H as (m2 & ? & [= <- _] & H).
  apply host_bind_inv in H as (m3 & ? & H3 & H). apply host_bind_inv in H as (m4 & ? & [= <- _] & H).
  injection H as <- <-. split; [done|].
  assert (Hk : keeps (if include_initial_data q then SendInitialData now garbage
                        (stored_query (subscription_name (next_subscription_id_ m)) now q) else mret ())).
  { destruct (include_initial_data q); [apply keeps_initial|apply keeps_ret]. }
  match type of H3 with _ ?mm = _ => specialize (Hk mm) end. rewrite H3 in Hk.
  destruct Hk as (E1 & E2 & E3 & E4 & E5). unfold same_registry, entered. simpl in *. by rewrite E1, E2, E3, E4, E5.
Qed.
(** The registry of WebAssembly subscriptions stays consistent.  In it every
    subscription carries its own name, the list of a client is exactly its
    subscriptions, each once, and the active count is their number.  Creating
    enters the query under a fresh name, deleting removes that one, a
    disconnected client loses exactly its own; processing events and module
    calls, whatever the modules do, leave it alone. *)
Theorem subscriptions_consistent (m : manager) (Hok : registry_ok m)
    (Hids : 0 <= next_subscription_id_ m ∧ next_subscription_id_ m + 1 < 2 ^ 64) :
  (∀ now garbage q m' i, CreateSubscription now garbage q m = (m', Done i) →
     registry_ok m' ∧ subscriptions_ m !! i = None ∧
     subscriptions_ m' = <[i := stored_query i now q]> (subscriptions_ m)) ∧
  (∀ i, registry_ok (DeleteSubscription i m).1 ∧
        (DeleteSubscription i m).2 = bool_decide (is_Some (subscriptions_ m !! i)) ∧
        subscriptions_ (DeleteSubscription i m).1 = delete i (subscriptions_ m)) ∧
  (∀ now garbage client i, let m' := (OnClientDisconnected now garbage client m).1 in
     registry_ok m' ∧
     subscriptions_ m' !! i
     = q ← subscriptions_ m !! i; if decide (client ≠ "" ∧ client_id q = client) then None else Some q) ∧
  (∀ now garbage client, registry_ok (OnClientConnected now garbage client m).1) ∧
  (∀ now garbage d, registry_ok (ProcessingLoop now garbage d m).1) ∧
  (∀ client q, client ≠ "" → q ∈ ListSubscriptions client m ↔ subscriptions_ m !! id q = Some q ∧ client_id q = client).
Proof.
  split_and!.
  - intros now garbage q m' i [-> Hs]%CreateSubscription_entered. split; [|split].
    + eapply registry_ok_same; [exact Hs|]. by apply entered_ok; destruct Hids.
    + by apply next_name_fresh.
    + destruct Hs as (-> & _). done.
  - intros i. split; [by apply DeleteSubscription_ok|]. unfold DeleteSubscription.
    destruct (subscriptions_ m !! i) as [q|] eqn:E; [cbn [fst snd]; rewrite (bool_decide_eq_true_2 (is_Some (Some q))) by (by exists q); done|].
    rewrite bool_decide_eq_false_2 by (by intros [? ?]). split; [done|]. simpl. by rewrite delete_id.
  - intros now garbage client i m'. pose proof (OnClientDisconnected_same now garbage client m) as Hs. split.
    + eapply registry_ok_same; [exact Hs|]. by apply dropped_ok.
    + unfold m'. destruct Hs as (-> & _). by apply dropped_lookup.
  - intros now garbage client. eapply registry_ok_same; [|exact Hok]. unfold OnClientConnected.
    assert (Hk : keeps (m ← get; notify_modules now garbage client "__client_connected" (ListModules (engine m)))).
    { apply frame_bind; [apply keeps_get|]. intros ?. apply keeps_notify. }
    apply Hk.
  - intros now garbage d. eapply registry_ok_same; [|exact Hok]. apply keeps_loop.
  - intros client q Hc. destruct Hok as (H1 & H2 & _). unfold ListSubscriptions. rewrite bool_decide_eq_false_2 by done.
    rewrite list_elem_of_omap. split.
    + intros (i & (_ & q' & Hi & Hq)%H2 & Hi'). rewrite Hi in Hi'. injection Hi' as ->.
      destruct (H1 _ _ Hi) as [-> _]. done.
    + intros [Hi Hq]. exists (id q). split; [|done]. apply H2. eauto.
Qed.

(** ** Deliveries *)

(** In the state [m1] the filter accepts the event, and then the transform
    function answers [v]. *)
Definition accepted (now garbage : Z) (q : WasmSubscriptionQuery) (event_data v : WasmValue) (m1 : manager) : Prop :=
  ∃ m2 m3, run_filter now garbage q event_data m1 = (m2, Done true) ∧
              run_transform now garbage q event_data m2 = (m3, Done (Some v)).

Lemma run_filter_delivered now garbage q v m m' b :
  run_filter now garbage q v m = (m', Done b) → delivered m' = delivered m.
Proof.
  unfold run_filter. case_bool_decide as Hf; [by intros [= <- _]|].
  intros (m1 & r & H1 & H)%host_bind_inv.
  assert (Hd : delivered m1 = delivered m).
  { revert H1. unfold call_reducer. destruct (ExecuteReducer _ _ _ _ _ _). by intros [= <- _]. }
  revert H. cbv zeta. destruct (success r); [|by intros [= <- _]].
  destruct (values r) as [|[| | | | | | |] vs]; try by intros [= <- _].
  - destruct b0; by intros [= <- _].
  - destruct (negb _); by intros [= <- _].
Qed.

Lemma run_transform_delivered now garbage q v m m' r :
  run_transform now garbage q v m = (m', Done r) → delivered m' = delivered m.
Proof.
  unfold run_transform. case_bool_decide as Hf; [by intros [= <- _]|].
  intros (m1 & res & H1 & H)%host_bind_inv.
  assert (Hd : delivered m1 = delivered m).
  { revert H1. unfold call_reducer. destruct (ExecuteReducer _ _ _ _ _ _). by intros [= <- _]. }
  revert H. destruct (success res); [|by intros [= <- _]].
  destruct (values res) as [|x vs]; by intros [= <- _].
Qed.

Lemma process_query_delivers now garbage event i q m m' :
  process_query now garbage event i q m = (m', Done ()) →
  ∃ ds, delivered m' = delivered m ++ ds ∧ (length ds <= 1)%nat ∧
    (∀ d, d ∈ ds → subscription_callback_ m = true ∧ client_id q ≠ "" ∧ skips_table q event = false ∧
       ∃ event_data v, d = (i, client_id q, v) ∧ ConvertEventToWasmValue event = Ret event_data ∧
                       accepted now garbage q event_data v m) ∧
    (subscription_callback_ m = true → client_id q ≠ "" → skips_table q event = false →
     filter_function q = "" → transform_function q = "" →
     ∃ event_data, ConvertEventToWasmValue event = Ret event_data ∧ ds = [(i, client_id q, event_data)]).
Proof.
  unfold process_query. destruct (skips_table q event).
  { intros [= <-]. exists []. rewrite app_nil_r. split_and!; [done|simpl; lia|by intros d ?%not_elem_of_nil|done]. }
  intros (m1 & data & H1 & H)%host_bind_inv. unfold lift_exc in H1.
  destruct (ConvertEventToWasmValue event) as [ed|]; [|done]. injection H1 as <- <-.
  apply host_bind_inv in H as (m1 & emit & H1 & H).
  pose proof (run_filter_delivered _ _ _ _ _ _ _ H1) as D1.
  pose proof (keeps_filter now garbage q ed m) as K1. rewrite H1 in K1. destruct K1 as (_ & _ & _ & C1 & _). simpl in C1.
  destruct emit; cbn [negb] in H.
  2:{ injection H as <-. exists []. rewrite app_nil_r. split_and!; [done|simpl; lia|by intros d ?%not_elem_of_nil|].
      intros _ _ _ Hf _. unfold run_filter in H1. rewrite bool_decide_eq_true_2 in H1 by done. done. }
  apply host_bind_inv in H as (m2 & final & H2 & H).
  pose proof (run_transform_delivered _ _ _ _ _ _ _ H2) as D2.
  pose proof (keeps_transform now garbage q ed m1) as K2. rewrite H2 in K2. destruct K2 as (_ & _ & _ & C2 & _). simpl in C2.
  destruct final as [v|].
  2:{ injection H as <-. exists []. rewrite app_nil_r. split_and!; [congruence|simpl; lia|by intros d ?%not_elem_of_nil|].
      intros _ _ _ _ Ht. unfold run_transform in H2. rewrite bool_decide_eq_true_2 in H2 by done. done. }
  apply host_bind_inv in H as (m3 & called & H3 & H). unfold call_back in H3.
  apply host_bind_inv in H3 as (m2' & ? & [= <- <-] & H3). rewrite C2, C1 in H3.
  destruct (subscription_callback_ m); simpl in H3.
  2:{ injection H3 as <- <-. injection H as <-. exists []. rewrite app_nil_r.
      split_and!; [congruence|simpl; lia|by intros d ?%not_elem_of_nil|done]. }
  case_bool_decide as Hc.
  { simpl in H3. injection H3 as <- <-. injection H as <-. exists []. rewrite app_nil_r.
    split_and!; [congruence|simpl; lia|by intros d ?%not_elem_of_nil|done]. }
  simpl in H3. apply host_bind_inv in H3 as (m4 & ? & [= <- _] & [= <- <-]). injection H as <-.
  exists [(i, client_id q, v)]. split_and!.
  - simpl. by rewrite D2, D1.
  - simpl. lia.
  - intros d ->%list_elem_of_singleton. split_and!; [done|done|done|]. exists ed, v. split_and!; [done|done|]. by exists m1, m2.
  - intros _ _ _ Hf Ht. exists ed. split; [done|]. unfold run_transform in H2. rewrite bool_decide_eq_true_2 in H2 by done.
    by injection H2 as _ ->.
Qed.

Lemma process_queries_delivers now garbage event l : ∀ m m',
  NoDup l.*1 → process_queries now garbage event l m = (m', Done ()) →
  ∃ ds, delivered m' = delivered m ++ ds ∧ NoDup (ds.*1).*1 ∧ (∀ d, d ∈ ds → d.1.1 ∈ l.*1) ∧
    (∀ i c v, (i, c, v) ∈ ds → subscription_callback_ m = true ∧ c ≠ "" ∧
       ∃ q l1 l2 m1, l = l1 ++ (i, q) :: l2 ∧ process_queries now garbage event l1 m = (m1, Done ()) ∧
         client_id q = c ∧ skips_table q event = false ∧
         ∃ event_data, ConvertEventToWasmValue event = Ret event_data ∧ accepted now garbage q event_data v m1) ∧
    (∀ i q, (i, q) ∈ l → subscription_callback_ m = true → client_id q ≠ "" → skips_table q event = false →
       filter_function q = "" → transform_function q = "" →
       ∃ event_data, ConvertEventToWasmValue event = Ret event_data ∧ (i, client_id q, event_data) ∈ ds).
Proof.
  induction l as [|[i q] l IH]; intros m m' Hnd.
  - intros [= <-]. exists []. rewrite app_nil_r. split_and!; [done|constructor|by intros d ?%not_elem_of_nil|
      by intros i c v ?%not_elem_of_nil|by intros i q ?%not_elem_of_nil].
  - simpl. intros (m1 & [] & H1 & H2)%host_bind_inv. apply NoDup_cons in Hnd as [Hi Hnd].
    pose proof (keeps_query now garbage event i q m) as K. rewrite H1 in K. destruct K as (_ & _ & _ & C & _). simpl in C.
    pose proof H1 as Hrun. apply process_query_delivers in H1 as (d1 & D1 & L1 & F1 & G1).
    apply IH in H2 as (d2 & D2 & N2 & I2 & F2 & G2); [|done]. rewrite C in F2, G2.
    exists (d1 ++ d2). split_and!.
    + by rewrite D2, D1, app_assoc.
    + rewrite !fmap_app. apply NoDup_app. split_and!; [destruct d1 as [|x [|]]; [constructor|apply NoDup_singleton|simpl in L1; lia]| |done].
      intros j Hj1 Hj2. apply Hi.
      assert (j = i) as <-; [|].
      { apply list_elem_of_fmap in Hj1 as ([i' c'] & -> & ([[i'' c''] v] & [= -> ->] & Hd)%list_elem_of_fmap).
        apply F1 in Hd as (_ & _ & _ & ed & w & [= -> _ _] & _). done. }
      apply list_elem_of_fmap in Hj2 as ([i' c'] & -> & (d & -> & Hd)%list_elem_of_fmap). by apply I2.
    + intros d [Hd|Hd]%elem_of_app.
      * apply F1 in Hd as (_ & _ & _ & ed & w & -> & _). by left.
      * right. by apply I2.
    + intros j c v [Hd|Hd]%elem_of_app.
      * apply F1 in Hd as (Hcb & Hc & Hs & ed & w & [= -> -> ->] & Hed & Ha).
        split_and!; [done|done|]. exists q, [], l, m. split_and!; [done|done|done|done|]. by exists ed.
      * apply F2 in Hd as (Hcb & Hc & q' & l1 & l2 & m2 & -> & Hl1 & Hrest). split; [exact Hcb|]. split; [exact Hc|].
        exists q', ((i, q) :: l1), l2, m2. split; [done|]. split; [|exact Hrest].
        simpl. unfold mbind, Prog_bind. rewrite Hrun. exact Hl1.
    + intros j q' [[= -> ->]|Hin]%elem_of_cons Hcb Hc Hs Hf Ht.
      * destruct G1 as (ed & Hed & ->); [done..|]. exists ed. split; [done|]. by left.
      * destruct (G2 j q' Hin Hcb Hc Hs Hf Ht) as (ed & Hed & Hd). exists ed. split; [done|]. apply elem_of_app. by right.
Qed.

(** C20.  An event reaches the clients whose subscriptions accept it, once each.
    When the processing of an event ends normally, the callback has been called
    at most once per subscription, and only for one with a client, on all tables
    or the event's, with the value its transform function answered after its
    filter function accepted the event, in the state the earlier subscriptions
    left; a subscription without functions always
    gets the event itself.  The registry is unchanged. *)
Theorem process_event_delivers now garbage duration event (m m' : manager)
    (Hrun : ProcessSingleEvent now garbage duration event m = (m', Done ())) :
  subscriptions_ m' = subscriptions_ m ∧
  ∃ ds, delivered m' = delivered m ++ ds ∧ NoDup (ds.*1).*1 ∧
    (∀ i c v, (i, c, v) ∈ ds → subscription_callback_ m = true ∧ c ≠ "" ∧
       ∃ q before after m1, subscriptions_ m !! i = Some q ∧ hash_iter (subscriptions_ m) = before ++ (i, q) :: after ∧
         process_queries now garbage event before m = (m1, Done ()) ∧
         client_id q = c ∧ skips_table q event = false ∧
         ∃ event_data, ConvertEventToWasmValue event = Ret event_data ∧ accepted now garbage q event_data v m1) ∧
    (∀ i q, subscriptions_ m !! i = Some q → subscription_callback_ m = true → client_id q ≠ "" →
       skips_table q event = false → filter_function q = "" → transform_function q = "" →
       ∃ event_data, ConvertEventToWasmValue event = Ret event_data ∧ (i, client_id q, event_data) ∈ ds).
Proof.
  split. { pose proof (keeps_event now garbage duration event m) as K. rewrite Hrun in K. apply K. }
  unfold ProcessSingleEvent in Hrun. apply host_bind_inv in Hrun as (m0 & ? & [= <- <-] & H).
  apply host_bind_inv in H as (m1 & [] & H & [= <-]).
  apply process_queries_delivers in H as (ds & D & N & _ & F & G); [|apply hash_iter_NoDup].
  exists ds. split_and!; [exact D|exact N| |].
  - intros i c v Hd. destruct (F i c v Hd) as (Hc & Hn & q & l1 & l2 & m2 & Hl & Hrest). split; [exact Hc|]. split; [exact Hn|].
    exists q, l1, l2, m2. split; [|exact (conj Hl Hrest)]. apply elem_of_hash_iter. rewrite Hl. apply elem_of_app. right. by left.
  - intros i q Hq. apply G. by apply elem_of_hash_iter.
Qed.
End theorems.

(** ** An instance *)

#[local] Existing Instance std_json.
#[local] Existing Instance std_order.
Import Demo DemoModule.

Definition plain_query (client table : string) : WasmSubscriptionQuery :=
  ForClient client (FromTable table
    {| id := ""; module_name := "m"; filter_function := ""; transform_function := ""; query_spec := None;
       client_id := ""; start_offset := 0; include_initial_data := false; created_at := 0 |}).
Definition filtered_query : WasmSubscriptionQuery := WithFilter "keep" (plain_query "ada" "users").

(** Three subscriptions: everything of "users" for two clients, the third through
    a filter of a module that is not deployed. *)
Definition manager0 : Manager WalHost := SetSubscriptionCallback true (new_Manager DemoModule.engine).
Definition manager1 := (CreateSubscription 1 0 (plain_query "ada" "users") manager0).1.
Definition manager2 := (CreateSubscription 2 0 filtered_query manager1).1.
Definition manager3 := (CreateSubscription 3 0 (plain_query "bob" "orders") manager2).1.

Definition event (key : bytes) : ChangefeedEvent :=
  {| ev_offset := 7; ev_transaction_id := "t"; ev_table := "users"; ev_operation := "insert"; ev_key := key;
     ev_old_value := []; ev_new_value := str_bytes "{}"; ev_timestamp := 5 |}.
Definition processed := ProcessSingleEvent 9 0 1 (event (str_bytes "k")) manager3.

Lemma created0 : CreateSubscription 1 0 (plain_query "ada" "users") manager0 = (manager1, Done "wasm_sub_1").
Proof.
  assert ((CreateSubscription 1 0 (plain_query "ada" "users") manager0).2 = Done "wasm_sub_1") as H by (vm_compute; reflexivity).
  rewrite <- H. apply surjective_pairing.
Qed.
Lemma processed_ok : processed = (processed.1, Done ()).
Proof. assert (processed.2 = Done ()) as H by (vm_compute; reflexivity). rewrite <- H. apply surjective_pairing. Qed.

Lemma manager0_ok : registry_ok manager0.
Proof. exact (registry_ok_empty DemoModule.engine). Qed.

Lemma subscriptions_consistent_witness :
  registry_ok manager1 ∧ subscriptions_ manager1 = {[ "wasm_sub_1" := stored_query "wasm_sub_1" 1 (plain_query "ada" "users") ]} ∧
  subscriptions_ (OnClientDisconnected 9 0 "ada" manager0).1 !! "wasm_sub_1" = None.
Proof.
  assert (Hids : 0 <= next_subscription_id_ manager0 ∧ next_subscription_id_ manager0 + 1 < 2 ^ 64)
    by (cbv [manager0 SetSubscriptionCallback new_Manager next_subscription_id_]; lia).
  destruct (subscriptions_consistent manager0 manager0_ok Hids) as (Hc & _ & Hd & _).
  destruct (Hc _ _ _ _ _ created0) as (Hok & _ & Hs). split; [exact Hok|]. split; [exact Hs|].
  exact (proj2 (Hd 9 0 "ada" "wasm_sub_1")).
Defined.

Lemma process_event_delivers_witness :
  subscriptions_ processed.1 = subscriptions_ manager3 ∧
  ∃ ds event_data, delivered processed.1 = [] ++ ds ∧ NoDup (ds.*1).*1 ∧
    ConvertEventToWasmValue (event (str_bytes "k")) = Ret event_data ∧ ("wasm_sub_1", "ada", event_data) ∈ ds.
Proof.
  destruct (process_event_delivers 9 0 1 (event (str_bytes "k")) manager3 processed.1 processed_ok)
    as (Hs & ds & Hd & Hn & _ & Hplain).
  split; [exact Hs|].
  assert (Hq : subscriptions_ manager3 !! "wasm_sub_1" = Some (stored_query "wasm_sub_1" 1 (plain_query "ada" "users")))
    by (vm_compute; reflexivity).
  destruct (Hplain _ _ Hq) as (ed & Hed & Hin);
    [vm_compute; reflexivity|by apply (bool_decide_unpack _); vm_compute|vm_compute; reflexivity..|].
  exists ds, ed. split; [exact Hd|]. split; [exact Hn|]. split; [exact Hed|exact Hin].
Defined.

(** The module is given the text of the event; a key that is not UTF-8 throws on
    the processing thread, which ends the process. *)
Example one_delivery : (delivered processed.1).*1 = [("wasm_sub_1", "ada")].
Proof. vm_compute. reflexivity. Qed.
Example bad_key : ∃ what, (ProcessSingleEvent 9 0 1 (event [Byte.xff]) manager3).2 = Escaped what.
Proof. eexists. vm_compute. reflexivity. Qed.
