(* ===== verification/Tick.v ===== *)
(** * The tick scheduler (src/wasm/tick_scheduler.cpp)

    A dispatcher thread enqueues the entries whose time has come, unless their
    previous tick is still in flight; worker threads run them.  The threads
    interleave in the step relation [tick_step]; a step is one atomic operation
    or one critical section, and a worker that has tested the condition of its
    wait still holds the queue's mutex until it blocks.  The environment chooses
    clocks, wake-ups and the outcome and duration of each reducer call.  Times
    are nanoseconds of the steady clock; the dispatcher's sleep, which only
    paces it, is left out. *)

From stdpp Require Import relations.
From S2P Require Import Prelude WasmEngine.

(** ** State *)

Record Entry := { module : string; reducer : string; args : list WasmValue; period : Z }.

Record Runtime := { entry : Entry; next_fire : Z; in_flight : bool }.

Record Stats := { executed : Z; skipped : Z; errors : Z; max_exec_us : Z; n_entries : Z }.

(** Where a worker is: before the lock; the condition found false, about to
    block; blocked; running an entry's reducer; returned. *)
Inductive worker := WIdle | WTested | WBlocked | WRunning (i : nat) | WExited.

#[export] Instance worker_eq_dec : EqDecision worker.
Proof. solve_decision. Defined.

(** The dispatcher: at the loop test, at an entry of a pass, or returned. *)
Inductive dispatcher := DTest | DAt (i : nat) (now : Z) | DExited.

(** [Stop]: not called, the flag cleared, everyone notified. *)
Inductive stopper := NotStopped | Flagged | Notified.

Record TickScheduler := {
  entries_ : list Runtime;
  queue_ : list nat;
  workers_ : list worker;
  dispatch_ : dispatcher;
  running_ : bool;
  stop_ : stopper;
  stats_ : Stats
}.

Definition zero_stats (n : Z) : Stats :=
  {| executed := 0; skipped := 0; errors := 0; max_exec_us := 0; n_entries := n |}.

(** [AddEntry] before [Start]. *)
Definition AddEntry (now : Z) (e : Entry) (es : list Runtime) : list Runtime :=
  es ++ [{| entry := e; next_fire := now; in_flight := false |}].

(** [Start]: the threads exist and [running_] is set. *)
Definition Start (num_workers : nat) (es : list Runtime) : TickScheduler :=
  {| entries_ := es; queue_ := []; workers_ := replicate (if decide (num_workers = 0)%nat then 1%nat else num_workers) WIdle;
     dispatch_ := DTest; running_ := true; stop_ := NotStopped; stats_ := zero_stats 0 |}.

(** ** The schedule of an entry *)

(** [do next_fire += period while (next_fire <= now)]; [None] when the rounds run
    out. *)
Fixpoint advance (fuel : nat) (period next now : Z) : option Z :=
  match fuel with
  | O => None
  | S fuel => let next := next + period in
              if next <=? now then advance fuel period next now else Some next
  end.

(** Enough rounds for a positive period. *)
Definition advance_fuel (next now : Z) : nat := Z.to_nat (now - next) + 1.

Definition set_stats (f : Stats → Stats) (s : TickScheduler) : TickScheduler :=
  {| entries_ := entries_ s; queue_ := queue_ s; workers_ := workers_ s; dispatch_ := dispatch_ s;
     running_ := running_ s; stop_ := stop_ s; stats_ := f (stats_ s) |}.
Definition set_entries (es : list Runtime) (s : TickScheduler) : TickScheduler :=
  {| entries_ := es; queue_ := queue_ s; workers_ := workers_ s; dispatch_ := dispatch_ s;
     running_ := running_ s; stop_ := stop_ s; stats_ := stats_ s |}.
Definition set_queue (q : list nat) (s : TickScheduler) : TickScheduler :=
  {| entries_ := entries_ s; queue_ := q; workers_ := workers_ s; dispatch_ := dispatch_ s;
     running_ := running_ s; stop_ := stop_ s; stats_ := stats_ s |}.
Definition set_worker (w : nat) (p : worker) (s : TickScheduler) : TickScheduler :=
  {| entries_ := entries_ s; queue_ := queue_ s; workers_ := <[w := p]> (workers_ s);
     dispatch_ := dispatch_ s; running_ := running_ s; stop_ := stop_ s; stats_ := stats_ s |}.
Definition set_dispatch (d : dispatcher) (s : TickScheduler) : TickScheduler :=
  {| entries_ := entries_ s; queue_ := queue_ s; workers_ := workers_ s; dispatch_ := d;
     running_ := running_ s; stop_ := stop_ s; stats_ := stats_ s |}.

Definition count_skip (st : Stats) : Stats :=
  {| executed := executed st; skipped := u64 (skipped st + 1); errors := errors st;
     max_exec_us := max_exec_us st; n_entries := n_entries st |}.
Definition count_tick (ok : bool) (us : Z) (st : Stats) : Stats :=
  {| executed := u64 (executed st + 1); skipped := skipped st;
     errors := if ok then errors st else u64 (errors st + 1);
     max_exec_us := if max_exec_us st <? us then us else max_exec_us st; n_entries := n_entries st |}.

Definition SnapshotAndReset (s : TickScheduler) : TickScheduler * Stats :=
  (set_stats (λ _, zero_stats 0) s,
   {| executed := executed (stats_ s); skipped := skipped (stats_ s); errors := errors (stats_ s);
      max_exec_us := max_exec_us (stats_ s); n_entries := Z.of_nat (length (entries_ s)) |}).

(** The mutex of the queue is free. *)
Definition unlocked (s : TickScheduler) : Prop := WTested ∉ workers_ s.

(** One entry of a dispatch pass: nothing if it is not due, else its schedule
    moves past [now] and it is enqueued, or skipped while in flight.  The result
    says whether a worker is notified. *)
Definition dispatch_entry (i : nat) (now : Z) (rt : Runtime) (s : TickScheduler)
    : option (TickScheduler * bool) :=
  if now <? next_fire rt then Some (s, false) else
  next ← advance (advance_fuel (next_fire rt) now) (period (entry rt)) (next_fire rt) now;
  let put flag := set_entries (<[i := {| entry := entry rt; next_fire := next; in_flight := flag |}]> (entries_ s)) s in
  Some (if in_flight rt then (set_stats count_skip (put true), false)
        else (set_queue (queue_ s ++ [i]) (put true), true)).

(** ** Interleavings *)

Inductive tick_step : TickScheduler → TickScheduler → Prop :=
| dispatch_begin s now :
    dispatch_ s = DTest →
    tick_step s (set_dispatch (if running_ s then DAt 0 now else DExited) s)
| dispatch_next s s' i now rt notify :
    dispatch_ s = DAt i now → entries_ s !! i = Some rt →
    dispatch_entry i now rt s = Some (s', notify) → (notify = true → unlocked s) →
    (* [notify_one] with no worker blocked *)
    (notify = true → WBlocked ∉ workers_ s) →
    tick_step s (set_dispatch (DAt (S i) now) s')
| dispatch_notify s s' i now rt w :
    dispatch_ s = DAt i now → entries_ s !! i = Some rt →
    dispatch_entry i now rt s = Some (s', true) → unlocked s → workers_ s !! w = Some WBlocked →
    tick_step s (set_worker w WIdle (set_dispatch (DAt (S i) now) s'))
| dispatch_end s i now :
    dispatch_ s = DAt i now → entries_ s !! i = None → tick_step s (set_dispatch DTest s)
| worker_wait s w :
    workers_ s !! w = Some WIdle → unlocked s → queue_ s = [] → running_ s = true →
    tick_step s (set_worker w WTested s)
| worker_block s w :
    workers_ s !! w = Some WTested → tick_step s (set_worker w WBlocked s)
| worker_wake s w :
    (* a spurious wake-up *)
    workers_ s !! w = Some WBlocked → tick_step s (set_worker w WIdle s)
| worker_exit s w :
    workers_ s !! w = Some WIdle → unlocked s → queue_ s = [] → running_ s = false →
    tick_step s (set_worker w WExited s)
| worker_take s w i q :
    workers_ s !! w = Some WIdle → unlocked s → queue_ s = i :: q →
    tick_step s (set_worker w (WRunning i) (set_queue q s))
| worker_done s w i rt ok us :
    workers_ s !! w = Some (WRunning i) → entries_ s !! i = Some rt →
    tick_step s (set_worker w WIdle (set_stats (count_tick ok us)
      (set_entries (<[i := {| entry := entry rt; next_fire := next_fire rt; in_flight := false |}]> (entries_ s)) s)))
| stop_flag s :
    stop_ s = NotStopped →
    tick_step s {| entries_ := entries_ s; queue_ := queue_ s; workers_ := workers_ s;
                   dispatch_ := dispatch_ s; running_ := false; stop_ := Flagged; stats_ := stats_ s |}
| stop_notify s :
    (* [notify_all], without the mutex *)
    stop_ s = Flagged →
    tick_step s {| entries_ := entries_ s; queue_ := queue_ s;
                   workers_ := (λ p, if decide (p = WBlocked) then WIdle else p) <$> workers_ s;
                   dispatch_ := dispatch_ s; running_ := running_ s; stop_ := Notified; stats_ := stats_ s |}
| snapshot s : tick_step s (SnapshotAndReset s).1.

(** ** The schedule moves past the clock *)

Lemma advance_spec fuel : ∀ period next now,
  0 < period → next <= now → now - next < Z.of_nat fuel →
  ∃ k, 0 < k ∧ advance fuel period next now = Some (next + k * period)
       ∧ now < next + k * period ∧ next + k * period <= now + period.
Proof.
  induction fuel as [|fuel IH]; intros period next now Hp Hn Hf; [lia|]. cbn [advance]. cbv zeta.
  destruct (next + period <=? now) eqn:E.
  - apply Z.leb_le in E. destruct (IH period (next + period) now) as (k & Hk & -> & H1 & H2); [lia..|].
    exists (k + 1). split_and!; [lia|f_equal; lia|lia|lia].
  - apply Z.leb_gt in E. exists 1. split_and!; [lia|f_equal; lia|lia|lia].
Qed.

(** C38.  The loop that drops missed frames ends.  With a positive period it
    takes at most one round per nanosecond of delay and leaves the entry due
    after now, at most one period later, on its original grid; with a period of
    zero (or less) it never ends, however many rounds it gets. *)
Theorem advance_terminates period next now (Hdue : next <= now) :
  (0 < period →
   ∃ k, 0 < k ∧ advance (advance_fuel next now) period next now = Some (next + k * period)
        ∧ now < next + k * period <= now + period) ∧
  (period <= 0 → ∀ fuel, advance fuel period next now = None).
Proof.
  split.
  - intros Hp. destruct (advance_spec (advance_fuel next now) period next now) as (k & Hk & H1 & H2 & H3);
      [done|done|unfold advance_fuel; lia|]. by exists k.
  - intros Hp fuel. revert next Hdue. induction fuel as [|fuel IH]; intros next Hdue; [done|].
    cbn [advance]. cbv zeta. rewrite (proj2 (Z.leb_le _ _)) by lia. apply IH. lia.
Qed.

Lemma advance_terminates_witness :
  advance (advance_fuel 100 250) 60 100 250 = Some 280 ∧ advance 1000 0 100 250 = None.
Proof.
  split.
  - destruct (advance_terminates 60 100 250) as [H _]; [lia|].
    destruct H as (k & Hk & -> & H1 & H2); [lia|]. f_equal. lia.
  - apply (advance_terminates 0 100 250); lia.
Defined.

(** ** No pile-up *)

Definition queued (i : nat) (s : TickScheduler) : nat := length (filter (λ j, j = i) (queue_ s)).
Definition running_count (i : nat) (ws : list worker) : nat := length (filter (λ p, p = WRunning i) ws).
Definition pending (i : nat) (s : TickScheduler) : nat := (queued i s + running_count i (workers_ s))%nat.

(** An entry is in flight exactly while one tick of it is queued or running. *)
Definition tick_ok (s : TickScheduler) : Prop :=
  ∀ i, pending i s = match entries_ s !! i with
                     | Some rt => if in_flight rt then 1%nat else 0%nat
                     | None => 0%nat
                     end.

Definition is_running (i : nat) (p : worker) : nat := if decide (p = WRunning i) then 1 else 0.

Lemma running_count_cons i p ws : running_count i (p :: ws) = (is_running i p + running_count i ws)%nat.
Proof. unfold running_count, is_running. rewrite filter_cons. by destruct (decide (p = WRunning i)). Qed.

Lemma running_count_insert i ws w p p' :
  ws !! w = Some p →
  (running_count i (<[w := p']> ws) + is_running i p = running_count i ws + is_running i p')%nat.
Proof.
  revert w. induction ws as [|q ws IH]; intros [|w] Hw; try done.
  - injection Hw as ->. change (<[0%nat:=p']> (p :: ws)) with (p' :: ws). rewrite !running_count_cons. lia.
  - specialize (IH w Hw). change (<[S w:=p']> (q :: ws)) with (q :: <[w:=p']> ws).
    rewrite !running_count_cons. lia.
Qed.

Lemma set_worker_pending i w p p' s :
  workers_ s !! w = Some p →
  (pending i (set_worker w p' s) + is_running i p = pending i s + is_running i p')%nat.
Proof.
  intros Hw. unfold pending, queued. simpl. pose proof (running_count_insert i (workers_ s) w p p' Hw). lia.
Qed.

(** Steps between states of a worker that runs nothing. *)
Lemma set_worker_ok w p p' s :
  workers_ s !! w = Some p → (∀ i, p ≠ WRunning i) → (∀ i, p' ≠ WRunning i) → tick_ok s → tick_ok (set_worker w p' s).
Proof.
  intros Hw Hp Hp' Hok i. pose proof (set_worker_pending i w p p' s Hw) as H.
  unfold is_running in H. rewrite !decide_False in H by done. simpl. rewrite <- Hok. lia.
Qed.

Lemma dispatch_entry_ok i now rt s s' b :
  entries_ s !! i = Some rt → dispatch_entry i now rt s = Some (s', b) → tick_ok s → tick_ok s' ∧ workers_ s' = workers_ s.
Proof.
  intros Hi. unfold dispatch_entry. destruct (now <? next_fire rt); [by intros [= <- <-]|].
  destruct (advance _ _ _ _) as [next|]; [|done]. cbn [mbind option_bind]. cbv zeta.
  assert (Hlt : (i < length (entries_ s))%nat) by by eapply lookup_lt_Some.
  destruct (in_flight rt) eqn:Ef; intros [= <- <-] Hok; (split; [|done]); intros j; unfold pending, queued; simpl;
    specialize (Hok j); unfold pending, queued in Hok.
  - destruct (decide (j = i)) as [->|Hne].
    + rewrite list_lookup_insert_eq by done. rewrite Hi, Ef in Hok. done.
    + by rewrite list_lookup_insert_ne by done.
  - rewrite filter_app, length_app, filter_cons, filter_nil. destruct (decide (i = j)) as [->|Hne].
    + rewrite list_lookup_insert_eq by done. rewrite Hi, Ef in Hok. simpl. lia.
    + rewrite list_lookup_insert_ne by done. simpl. lia.
Qed.

Lemma notify_all_count i ws :
  running_count i ((λ p, if decide (p = WBlocked) then WIdle else p) <$> ws) = running_count i ws.
Proof.
  unfold running_count. induction ws as [|p ws IH]; [done|]. csimpl. rewrite !filter_cons.
  destruct (decide (p = WBlocked)) as [->|Hp].
  - rewrite !decide_False by done. done.
  - destruct (decide (p = WRunning i)); simpl; by rewrite IH.
Qed.

Lemma tick_step_ok s s' : tick_step s s' → tick_ok s → tick_ok s'.
Proof.
  destruct 1 as [s now Hd|s s' i now rt notify Hd Hi He Hl Hb|s s' i now rt w Hd Hi He Hl Hw|s i now Hd Hi
    |s w Hw Hl Hq Hr|s w Hw|s w Hw|s w Hw Hl Hq Hr|s w i q Hw Hl Hq|s w i rt ok us Hw Hi|s Hs|s Hs|s]; intros Hok.
  - exact Hok.
  - by apply (dispatch_entry_ok _ _ _ _ _ _ Hi He) in Hok as [Hok _].
  - apply (dispatch_entry_ok _ _ _ _ _ _ Hi He) in Hok as [Hok Hws].
    apply set_worker_ok with (p := WBlocked); [simpl; by rewrite Hws|done|done|exact Hok].
  - exact Hok.
  - by apply set_worker_ok with (p := WIdle).
  - by apply set_worker_ok with (p := WTested).
  - by apply set_worker_ok with (p := WBlocked).
  - by apply set_worker_ok with (p := WIdle).
  - intros j. pose proof (set_worker_pending j w WIdle (WRunning i) (set_queue q s) Hw) as H.
    specialize (Hok j). unfold pending, queued in Hok. rewrite Hq, filter_cons in Hok.
    unfold is_running in H. rewrite (decide_False (P := WIdle = WRunning j)) in H by done.
    unfold pending at 2, queued in H. simpl in *.
    destruct (decide (i = j)) as [->|Hne]; [rewrite decide_True in H by done|rewrite decide_False in H by congruence];
      simpl in *; lia.
  - intros j. match goal with |- pending j (set_worker w WIdle ?s1) = _ => set (s2 := s1) end.
    pose proof (set_worker_pending j w (WRunning i) WIdle s2 Hw) as H.
    assert (Hp : pending j s2 = pending j s) by done. rewrite Hp, (Hok j) in H. clear Hp. simpl.
    unfold is_running in H. rewrite (decide_False (P := WIdle = WRunning j)) in H by done.
    assert (Hlt : (i < length (entries_ s))%nat) by by eapply lookup_lt_Some.
    destruct (decide (j = i)) as [->|Hne].
    + rewrite list_lookup_insert_eq by done. rewrite decide_True, Hi in H by done. simpl.
      destruct (in_flight rt); lia.
    + rewrite list_lookup_insert_ne by done. rewrite decide_False in H by congruence. lia.
  - exact Hok.
  - intros i. unfold pending, queued. simpl. rewrite notify_all_count. apply Hok.
  - exact Hok.
Qed.

Lemma Start_ok n es : Forall (λ rt, in_flight rt = false) es → tick_ok (Start n es).
Proof.
  intros Hes i. unfold pending, queued, running_count. simpl.
  rewrite list_filter_none by (apply Forall_forall; intros p [-> _]%elem_of_replicate; done).
  destruct (es !! i) as [rt|] eqn:Ei; [|done]. apply (Forall_lookup_1 _ _ _ _ Hes) in Ei. simpl in Ei. by rewrite Ei.
Qed.

Lemma reachable_ok n es s :
  Forall (λ rt, in_flight rt = false) es → rtc tick_step (Start n es) s → tick_ok s.
Proof.
  intros Hes Hrun. assert (H0 : tick_ok (Start n es)) by by apply Start_ok.
  induction Hrun as [|s1 s2 s3 Hstep _ IH]; [done|]. apply IH. by eapply tick_step_ok.
Qed.

Lemma tick_step_entries s s' : tick_step s s' → length (entries_ s') = length (entries_ s).
Proof.
  assert (Hd : ∀ i now rt s s' b, dispatch_entry i now rt s = Some (s', b) → length (entries_ s') = length (entries_ s)).
  { intros i now rt s1 s2 b. unfold dispatch_entry. destruct (now <? next_fire rt); [by intros [= <- <-]|].
    destruct (advance _ _ _ _); [|done]. cbn [mbind option_bind]. cbv zeta.
    destruct (in_flight rt); intros [= <- <-]; simpl; apply length_insert. }
  destruct 1; simpl; try done; try by eapply Hd. apply length_insert.
Qed.

Lemma running_at i ws w : ws !! w = Some (WRunning i) → (1 <= running_count i ws)%nat.
Proof.
  intros Hw. pose proof (running_count_insert i ws w (WRunning i) WIdle Hw) as H.
  unfold is_running in H. rewrite (decide_True (P := WRunning i = WRunning i)) in H by done.
  rewrite (decide_False (P := WIdle = WRunning i)) in H by done. lia.
Qed.

Lemma queued_count_NoDup (q : list nat) : (∀ i, (length (filter (λ j, j = i) q) <= 1)%nat) → NoDup q.
Proof.
  induction q as [|i q IH]; intros H; [constructor|]. constructor.
  - intros Hi. specialize (H i). rewrite filter_cons, decide_True in H by done. simpl in H.
    assert (i ∈ filter (λ j, j = i) q) as Hin by by apply list_elem_of_filter.
    destruct (filter (λ j, j = i) q); [by apply not_elem_of_nil in Hin|simpl in H; lia].
  - apply IH. intros j. specialize (H j). rewrite filter_cons in H. destruct (decide (i = j)); simpl in H; lia.
Qed.

(** C34.  Ticks never pile up.  In every reachable state, whatever the clocks,
    wake-ups and reducers do, an entry is in flight exactly while one tick of it
    is queued or running: no entry is queued twice, none runs on two workers or
    runs while queued, and the queue is never longer than the list of
    entries. *)
Theorem ticks_coalesce n es s
    (Hes : Forall (λ rt, in_flight rt = false) es) (Hrun : rtc tick_step (Start n es) s) :
  tick_ok s ∧ NoDup (queue_ s) ∧ (length (queue_ s) <= length es)%nat ∧
  (∀ w1 w2 i, workers_ s !! w1 = Some (WRunning i) → workers_ s !! w2 = Some (WRunning i) → w1 = w2) ∧
  (∀ w i, workers_ s !! w = Some (WRunning i) → i ∉ queue_ s).
Proof.
  pose proof (reachable_ok _ _ _ Hes Hrun) as Hok.
  assert (Hlen : length (entries_ s) = length es).
  { clear Hok Hes. remember (Start n es) as s0 eqn:E0. assert (length (entries_ s0) = length es) as H0 by by rewrite E0.
    clear E0. revert H0. induction Hrun as [|s1 s2 s3 Hstep _ IH]; [done|]. intros H0. apply IH.
    by rewrite (tick_step_entries _ _ Hstep). }
  assert (Hle : ∀ i, (queued i s + running_count i (workers_ s) <= 1)%nat).
  { intros i. specialize (Hok i). unfold pending in Hok. rewrite Hok.
    destruct (entries_ s !! i) as [rt|]; [|lia]. destruct (in_flight rt); lia. }
  assert (Hnd : NoDup (queue_ s)).
  { apply queued_count_NoDup. intros i. specialize (Hle i). unfold queued in Hle. lia. }
  split_and!; [done|done| | |].
  - rewrite <- Hlen, <- (length_seq (length (entries_ s)) 0).
    apply submseteq_length, NoDup_submseteq; [done|]. intros i Hi. apply elem_of_seq. split; [lia|].
    specialize (Hok i). destruct (entries_ s !! i) eqn:Ei; [by apply lookup_lt_Some in Ei|].
    unfold pending, queued in Hok.
    assert (i ∈ filter (λ j, j = i) (queue_ s)) as Hin by by apply list_elem_of_filter.
    destruct (filter (λ j, j = i) (queue_ s)); [by apply not_elem_of_nil in Hin|done].
  - intros w1 w2 i H1 H2. destruct (decide (w1 = w2)) as [|Hne]; [done|]. exfalso.
    pose proof (running_count_insert i (workers_ s) w1 (WRunning i) WIdle H1) as Hc.
    unfold is_running in Hc. rewrite (decide_True (P := WRunning i = WRunning i)) in Hc by done.
    rewrite (decide_False (P := WIdle = WRunning i)) in Hc by done.
    assert (<[w1:=WIdle]> (workers_ s) !! w2 = Some (WRunning i)) as H2' by by rewrite list_lookup_insert_ne.
    apply running_at in H2'. specialize (Hle i). lia.
  - intros w i Hw Hi. apply running_at in Hw. specialize (Hle i). unfold queued in Hle.
    assert (i ∈ filter (λ j, j = i) (queue_ s)) as Hin by by apply list_elem_of_filter.
    destruct (filter (λ j, j = i) (queue_ s)); [by apply not_elem_of_nil in Hin|simpl in Hle; lia].
Qed.

(** ** Stopping *)

(** Two entries, one worker: it tests its condition, the stop flag is cleared and
    everyone notified, and only then does it block. *)
Definition demo_entries : list Runtime :=
  AddEntry 0 {| module := "m1"; reducer := "tick"; args := []; period := 10 |}
    (AddEntry 0 {| module := "m0"; reducer := "tick"; args := []; period := 10 |} []).

Definition asleep (s : TickScheduler) : Prop :=
  running_ s = false ∧ stop_ s = Notified ∧ dispatch_ s = DExited ∧ queue_ s = [] ∧ workers_ s = [WBlocked].

Lemma asleep_step s s' : asleep s → tick_step s s' → asleep s' ∨ s' = set_worker 0 WIdle s.
Proof.
  intros Ha Hstep. revert Ha. unfold asleep.
  destruct Hstep as [s now|s s' i now rt notify|s s' i now rt w|s i now|s w Hw|s w Hw|s w Hw|s w Hw|s w i q Hw
    |s w i rt ok us Hw|s|s|s]; intros (Hr & Hs & Hd & Hq & Hws); try congruence.
  - rewrite Hws in Hw. destruct w as [|[|w]]; done.
  - right. rewrite Hws in Hw. by destruct w as [|[|w]].
  - rewrite Hws in Hw. destruct w as [|[|w]]; done.
  - rewrite Hws in Hw. destruct w as [|[|w]]; done.
  - by left.
Qed.

(** [Stop] clears the flag and notifies without the queue's mutex: a worker
    between the test of its condition and its wait misses both, and from then on
    nothing but a spurious wake-up gets it out, so joining it never returns. *)
Theorem stop_can_hang :
  ∃ s, rtc tick_step (Start 1 demo_entries) s ∧ asleep s ∧
       ∀ s', tick_step s s' → asleep s' ∨ s' = set_worker 0 WIdle s.
Proof.
  eexists. split; [|split; [|intros s'; apply asleep_step]].
  - eapply rtc_l; [apply (worker_wait _ 0); [done| |done|done]|].
    { unfold unlocked. simpl. by intros ?%list_elem_of_singleton. }
    eapply rtc_l; [apply stop_flag; done|]. eapply rtc_l; [apply stop_notify; done|].
    eapply rtc_l; [apply (worker_block _ 0); done|]. eapply rtc_l; [apply (dispatch_begin _ 0); done|].
    apply rtc_refl.
  - done.
  - done.
Qed.

(** The first entry of a pass is enqueued and taken by a worker. *)
Definition demo_running : TickScheduler :=
  set_worker 0 (WRunning 0) (set_queue []
    (set_dispatch (DAt 1 5) (default (Start 1 demo_entries, false)
       (dispatch_entry 0 5 {| entry := {| module := "m0"; reducer := "tick"; args := []; period := 10 |};
                              next_fire := 0; in_flight := false |}
                       (set_dispatch (DAt 0 5) (Start 1 demo_entries)))).1)).

Lemma ticks_coalesce_witness : tick_ok demo_running ∧ 0%nat ∉ queue_ demo_running.
Proof.
  assert (Hrun : rtc tick_step (Start 1 demo_entries) demo_running).
  { eapply rtc_l; [apply (dispatch_begin _ 5); done|].
    eapply rtc_l; [eapply (dispatch_next _ _ 0 5); [done|done|reflexivity|intros _|intros _]|].
    { unfold unlocked. simpl. by intros ?%list_elem_of_singleton. }
    { simpl. by intros ?%list_elem_of_singleton. }
    eapply rtc_l; [eapply (worker_take _ 0 0 []); [done| |done]|].
    { unfold unlocked. simpl. by intros ?%list_elem_of_singleton. }
    apply rtc_refl. }
  destruct (ticks_coalesce 1 demo_entries demo_running) as (Hok & _ & _ & _ & Hq);
    [repeat constructor|exact Hrun|].
  split; [exact Hok|]. apply (Hq 0%nat 0%nat). reflexivity.
Defined.
