(* ===== verification/BinaryProtocol.v ===== *)
(** * The binary client protocol (src/websocket/binary_protocol.cpp)

    [BinarySerializer] appends big-endian fields to a buffer;
    [BinaryDeserializer] reads them with a bounds check and throws on short
    input; [ProtocolConverter] builds the messages and translates changefeed
    events between JSON and binary.  A serializer is the buffer it appends to, a
    deserializer a [reader].  [ProtocolBenchmark] only measures times and is
    left out. *)

From S2P Require Import Prelude Codec Json StorageJson.
From coqutil Require Import Byte Word.LittleEndianList.

Definition MAGIC_BYTE_1 : Z := 0xDB.
Definition MAGIC_BYTE_2 : Z := 0x01.

(** ** Enumerations

    A [static_cast] from a byte without enumerator is a value of the type. *)

Inductive MessageType :=
| WELCOME | PING | PONG | ERROR | SUBSCRIBE | UNSUBSCRIBE | SUBSCRIPTION_CREATED
| SUBSCRIPTION_REMOVED | CHANGEFEED_EVENT | SQL_RESULT | WASM_EVENT | BATCH_INSERT
| BATCH_UPDATE | BATCH_DELETE | SQL_QUERY | SQL_EXECUTE | RESERVED | MT_other (n : Z).

Definition MessageType_byte (t : MessageType) : Z :=
  match t with
  | WELCOME => 0x01 | PING => 0x02 | PONG => 0x03 | ERROR => 0x04
  | SUBSCRIBE => 0x10 | UNSUBSCRIBE => 0x11 | SUBSCRIPTION_CREATED => 0x12
  | SUBSCRIPTION_REMOVED => 0x13 | CHANGEFEED_EVENT => 0x20 | SQL_RESULT => 0x21
  | WASM_EVENT => 0x22 | BATCH_INSERT => 0x30 | BATCH_UPDATE => 0x31 | BATCH_DELETE => 0x32
  | SQL_QUERY => 0x40 | SQL_EXECUTE => 0x41 | RESERVED => 0xFF | MT_other n => n
  end.

Definition MessageType_of (n : Z) : MessageType :=
  match n with
  | 0x01 => WELCOME | 0x02 => PING | 0x03 => PONG | 0x04 => ERROR
  | 0x10 => SUBSCRIBE | 0x11 => UNSUBSCRIBE | 0x12 => SUBSCRIPTION_CREATED
  | 0x13 => SUBSCRIPTION_REMOVED | 0x20 => CHANGEFEED_EVENT | 0x21 => SQL_RESULT
  | 0x22 => WASM_EVENT | 0x30 => BATCH_INSERT | 0x31 => BATCH_UPDATE | 0x32 => BATCH_DELETE
  | 0x40 => SQL_QUERY | 0x41 => SQL_EXECUTE | 0xFF => RESERVED | _ => MT_other n
  end.

#[export] Instance MessageType_eq_dec : EqDecision MessageType.
Proof. solve_decision. Defined.

Inductive DataType :=
| NULL_TYPE | BOOL | INT8 | INT16 | INT32 | INT64 | FLOAT32 | FLOAT64 | STRING | BINARY
| ARRAY | MAP | TIMESTAMP | DT_other (n : Z).

Definition DataType_byte (t : DataType) : Z :=
  match t with
  | NULL_TYPE => 0x00 | BOOL => 0x01 | INT8 => 0x02 | INT16 => 0x03 | INT32 => 0x04
  | INT64 => 0x05 | FLOAT32 => 0x06 | FLOAT64 => 0x07 | STRING => 0x08 | BINARY => 0x09
  | ARRAY => 0x0A | MAP => 0x0B | TIMESTAMP => 0x0C | DT_other n => n
  end.

Definition DataType_of (n : Z) : DataType :=
  match n with
  | 0x00 => NULL_TYPE | 0x01 => BOOL | 0x02 => INT8 | 0x03 => INT16 | 0x04 => INT32
  | 0x05 => INT64 | 0x06 => FLOAT32 | 0x07 => FLOAT64 | 0x08 => STRING | 0x09 => BINARY
  | 0x0A => ARRAY | 0x0B => MAP | 0x0C => TIMESTAMP | _ => DT_other n
  end.

Inductive OperationType := INSERT | UPDATE | DELETE | TRUNCATE | OT_other (n : Z).

Definition OperationType_byte (t : OperationType) : Z :=
  match t with
  | INSERT => 0x01 | UPDATE => 0x02 | DELETE => 0x03 | TRUNCATE => 0x04 | OT_other n => n
  end.

Definition OperationType_of (n : Z) : OperationType :=
  match n with
  | 0x01 => INSERT | 0x02 => UPDATE | 0x03 => DELETE | 0x04 => TRUNCATE | _ => OT_other n
  end.

Record BinaryMessageHeader := {
  magic : Z * Z;
  msg_type : MessageType;
  flags : Z;
  payload_size : Z
}.

(** [std::variant<int64_t, double, std::string, bool>] *)
Inductive FieldValue := FInt (n : Z) | FDouble (bits : Z) | FString (s : string) | FBool (b : bool).

Record ChangefeedEvent := {
  table : string;
  operation : OperationType;
  key : string;
  data : gmap string FieldValue
}.

(** ** BinarySerializer *)

Definition WriteUint8 (out : bytes) (v : Z) : bytes := out ++ [byte.of_Z v].

Definition WriteUint16 (out : bytes) (v : Z) : bytes :=
  out ++ [byte.of_Z (Z.land (Z.shiftr v 8) 0xFF); byte.of_Z (Z.land v 0xFF)].

Definition WriteUint32 (out : bytes) (v : Z) : bytes :=
  out ++ [byte.of_Z (Z.land (Z.shiftr v 24) 0xFF); byte.of_Z (Z.land (Z.shiftr v 16) 0xFF);
          byte.of_Z (Z.land (Z.shiftr v 8) 0xFF); byte.of_Z (Z.land v 0xFF)].

Definition WriteUint64 (out : bytes) (v : Z) : bytes :=
  fold_left (λ out i, out ++ [byte.of_Z (Z.land (Z.shiftr v (i * 8)) 0xFF)]) [7; 6; 5; 4; 3; 2; 1; 0] out.

Definition WriteInt8 (out : bytes) (v : Z) : bytes := WriteUint8 out (u8 v).
Definition WriteInt16 (out : bytes) (v : Z) : bytes := WriteUint16 out (v mod 2 ^ 16).
Definition WriteInt32 (out : bytes) (v : Z) : bytes := WriteUint32 out (u32 v).
Definition WriteInt64 (out : bytes) (v : Z) : bytes := WriteUint64 out (u64 v).
(** The bit pattern of the number. *)
Definition WriteFloat (out : bytes) (bits : Z) : bytes := WriteUint32 out bits.
Definition WriteDouble (out : bytes) (bits : Z) : bytes := WriteUint64 out bits.

Definition WriteRaw (out d : bytes) : bytes := out ++ d.
Definition WriteBinary (out d : bytes) : bytes := WriteRaw (WriteUint32 out (u32 (zlength d))) d.
Definition WriteString (out : bytes) (s : string) : bytes := WriteBinary out (str_bytes s).

Definition WriteMessageHeader (out : bytes) (type : MessageType) (size flags : Z) : bytes :=
  WriteUint32 (WriteUint8 (WriteUint8 (WriteUint8 (WriteUint8 out MAGIC_BYTE_1) MAGIC_BYTE_2)
                                      (MessageType_byte type)) flags) size.

Definition WriteDataType (out : bytes) (t : DataType) : bytes := WriteUint8 out (DataType_byte t).
Definition WriteOperationType (out : bytes) (t : OperationType) : bytes := WriteUint8 out (OperationType_byte t).

Definition WriteField (out : bytes) (field : string * FieldValue) : bytes :=
  let out := WriteString out field.1 in
  match field.2 with
  | FInt n => WriteInt64 (WriteDataType out INT64) n
  | FDouble bits => WriteDouble (WriteDataType out FLOAT64) bits
  | FString s => WriteString (WriteDataType out STRING) s
  | FBool b => WriteUint8 (WriteDataType out BOOL) (if b then 1 else 0)
  end.

Definition WriteChangefeedEvent (out : bytes) (table : string) (operation : OperationType)
    (key : string) (data : gmap string FieldValue) : bytes :=
  let out := WriteString (WriteOperationType (WriteString out table) operation) key in
  fold_left WriteField (map_iter data) (WriteUint32 out (u32 (Z.of_nat (size data)))).

(** ** BinaryDeserializer *)

Definition EnsureAvailable (n : Z) : reader () := λ p,
  if zlength p <? n then Throw "Insufficient data in buffer" else Ret ((), p).

(** [data_\[position_ + i\]], read after the check. *)
Definition at_ (i : nat) (p : bytes) : Z := byte.unsigned (nth i p Byte.x00).

Definition ReadUint8 : reader Z :=
  _ ← EnsureAvailable 1; consume (λ p, Ret (at_ 0 p, drop 1 p)).

Definition ReadUint16 : reader Z :=
  _ ← EnsureAvailable 2;
  consume (λ p, Ret (Z.lor (Z.shiftl (at_ 0 p) 8) (at_ 1 p), drop 2 p)).

Definition ReadUint32 : reader Z :=
  _ ← EnsureAvailable 4;
  consume (λ p, Ret (Z.lor (Z.lor (Z.lor (Z.shiftl (at_ 0 p) 24) (Z.shiftl (at_ 1 p) 16))
                                  (Z.shiftl (at_ 2 p) 8)) (at_ 3 p), drop 4 p)).

Definition ReadUint64 : reader Z :=
  _ ← EnsureAvailable 8;
  consume (λ p, Ret (fold_left (λ value i, Z.lor (u64 (Z.shiftl value 8)) (at_ i p)) (seq 0 8) 0, drop 8 p)).

Definition ReadInt8 : reader Z := v ← ReadUint8; mret (signed 8 v).
Definition ReadInt16 : reader Z := v ← ReadUint16; mret (signed 16 v).
Definition ReadInt32 : reader Z := v ← ReadUint32; mret (i32 v).
Definition ReadInt64 : reader Z := v ← ReadUint64; mret (i64 v).
Definition ReadFloat : reader Z := ReadUint32.
Definition ReadDouble : reader Z := ReadUint64.

Definition ReadRaw (n : Z) : reader bytes :=
  _ ← EnsureAvailable n; consume (λ p, Ret (take (Z.to_nat n) p, drop (Z.to_nat n) p)).
Definition ReadBinary : reader bytes := n ← ReadUint32; ReadRaw n.
Definition ReadString : reader string := b ← ReadBinary; mret (bytes_str b).

Definition ReadMessageHeader : reader BinaryMessageHeader :=
  m0 ← ReadUint8; m1 ← ReadUint8; t ← ReadUint8; f ← ReadUint8; n ← ReadUint32;
  mret {| magic := (m0, m1); msg_type := MessageType_of t; flags := f; payload_size := n |}.

Definition ReadDataType : reader DataType := n ← ReadUint8; mret (DataType_of n).
Definition ReadOperationType : reader OperationType := n ← ReadUint8; mret (OperationType_of n).

(** One round of the loop over the fields. *)
Definition ReadFieldValue : reader (string * FieldValue) :=
  field_name ← ReadString;
  type ← ReadDataType;
  value ← (match type with
           | INT64 => n ← ReadInt64; mret (FInt n)
           | FLOAT64 => b ← ReadDouble; mret (FDouble b)
           | STRING => s ← ReadString; mret (FString s)
           | BOOL => n ← ReadUint8; mret (FBool (negb (n =? 0)))
           | _ => throw "Unsupported data type in changefeed event"
           end);
  mret (field_name, value).

Definition ReadField (fields : gmap string FieldValue) : reader (gmap string FieldValue) :=
  '(field_name, value) ← ReadFieldValue; mret (<[field_name := value]> fields).

Definition ReadChangefeedEvent : reader ChangefeedEvent :=
  t ← ReadString;
  op ← ReadOperationType;
  k ← ReadString;
  field_count ← ReadUint32;
  fields ← repeat_read (Z.to_nat field_count) ReadField ∅;
  mret {| table := t; operation := op; key := k; data := fields |}.

(** ** ProtocolConverter *)

(** A payload behind the header that announces it. *)
Definition message (type : MessageType) (payload : bytes) : bytes :=
  WriteRaw (WriteMessageHeader [] type (u32 (zlength payload)) 0) payload.

Definition operation_of_name (operation : string) : OperationType :=
  if bool_decide (operation = "insert") then INSERT
  else if bool_decide (operation = "update") then UPDATE
  else if bool_decide (operation = "delete") then DELETE
  else TRUNCATE.

Definition operation_name (op : OperationType) : option string :=
  match op with
  | INSERT => Some "insert" | UPDATE => Some "update" | DELETE => Some "delete"
  | TRUNCATE => Some "truncate" | OT_other _ => None
  end.

(** The members a binary event can carry; the others are skipped. *)
Definition field_of_json (v : json) : option FieldValue :=
  match v with
  | JInt n => Some (FInt (i64 n))
  | JFloat b => Some (FDouble b)
  | JString s => Some (FString s)
  | JBool b => Some (FBool b)
  | _ => None
  end.

Definition add_member (fields : gmap string FieldValue) (kv : string * json) : gmap string FieldValue :=
  match field_of_json kv.2 with Some v => <[kv.1 := v]> fields | None => fields end.

Definition data_of_json (j : json) : gmap string FieldValue := fold_left add_member (json_items j) ∅.

Definition json_of_field (v : FieldValue) : json :=
  match v with FInt n => JInt n | FDouble b => JFloat b | FString s => JString s | FBool b => JBool b end.

Section converter.
Context `{JL : JsonLib}.

Definition ChangefeedEventToBinary (subscription_id table operation key json_data : string) : exc bytes :=
  match parse json_data with
  | None => Throw "parse error"
  | Some j =>
      Ret (message CHANGEFEED_EVENT
             (WriteChangefeedEvent (WriteString [] subscription_id) table (operation_of_name operation)
                                   key (data_of_json j)))
  end.

(** The JSON of an event; without fields [data_json] stays null. *)
Definition event_json (subscription_id : string) (event : ChangefeedEvent) : json :=
  let data_json := if decide (data event = ∅) then JNull else object_of (json_of_field <$> data event) in
  let fields := <["type" := JString "changefeed_event"]> (<["subscription_id" := JString subscription_id]>
                (<["table" := JString (table event)]> (<["key" := JString (key event)]>
                {[ "data" := data_json ]}))) in
  object_of (match operation_name (operation event) with
             | Some name => <["operation" := JString name]> fields
             | None => fields
             end).

(** What [BinaryToJsonChangefeedEvent] reads. *)
Definition ReadEventMessage : reader json :=
  header ← ReadMessageHeader;
  if decide (msg_type header ≠ CHANGEFEED_EVENT) then throw "Not a changefeed event message" else
  subscription_id ← ReadString;
  event ← ReadChangefeedEvent;
  mret (event_json subscription_id event).

Definition BinaryToJsonChangefeedEvent (d : bytes) : exc string :=
  '(j, _) ← ReadEventMessage d; dump j.

Definition CreateBinaryWelcomeMessage (client_id server_version : string) : bytes :=
  let payload := WriteUint32 (WriteString (WriteString [] client_id) server_version) 3 in
  message WELCOME (fold_left WriteString ["changefeed"; "wasm_subscriptions"; "binary_protocol"] payload).

Definition CreateBinaryErrorMessage (error_code : Z) (error_message : string) : bytes :=
  message ERROR (WriteString (WriteUint32 [] error_code) error_message).

Definition CreateBinaryPingMessage (timestamp : Z) : bytes := message PING (WriteUint64 [] timestamp).
Definition CreateBinaryPongMessage (timestamp : Z) : bytes := message PONG (WriteUint64 [] timestamp).

Definition IsBinaryProtocol (d : bytes) : bool :=
  (2 <=? zlength d) && (at_ 0 d =? MAGIC_BYTE_1) && (at_ 1 d =? MAGIC_BYTE_2).
End converter.

(** ** Words *)

Lemma land_255_byte v : byte.of_Z (Z.land v 0xFF) = byte.of_Z v.
Proof. rewrite (byte_of_Z_mod v). f_equal. apply (Z.land_ones v 8). lia. Qed.

Lemma EnsureAvailable_app n (l rest : bytes) : n = zlength l → EnsureAvailable n (l ++ rest) = Ret ((), l ++ rest).
Proof.
  intros ->. unfold EnsureAvailable. rewrite (proj2 (Z.ltb_ge _ _)); [done|].
  rewrite zlength_app. pose proof (zlength_nonneg rest). lia.
Qed.

Lemma WriteUint16_be out v : WriteUint16 out v = out ++ rev (le_bytes 2 v).
Proof. unfold WriteUint16. rewrite !land_255_byte. reflexivity. Qed.
Lemma WriteUint32_be out v : WriteUint32 out v = out ++ rev (le_bytes 4 v).
Proof. unfold WriteUint32. rewrite !land_255_byte. reflexivity. Qed.
Lemma WriteUint64_be out v : WriteUint64 out v = out ++ rev (le_bytes 8 v).
Proof.
  unfold WriteUint64. cbn [fold_left]. rewrite !land_255_byte, <- !app_assoc. reflexivity.
Qed.

(** The shift-and-or loop of the readers. *)
Lemma be_fold l : fold_left (λ v b, Z.lor (Z.shiftl v 8) (byte.unsigned b)) l 0 = le_word (rev l).
Proof.
  induction l as [|b l IH] using rev_ind; [done|].
  rewrite fold_left_app, rev_app_distr. cbn [fold_left rev app]. rewrite IH, le_word_cons. apply Z.lor_comm.
Qed.

Lemma be_word_read n v : le_word (rev (rev (le_bytes n v))) = v mod 2 ^ (8 * Z.of_nat n).
Proof. by rewrite rev_involutive, le_word_bytes. Qed.

Lemma ReadUint16_bytes l rest : length l = 2%nat → ReadUint16 (l ++ rest) = Ret (le_word (rev l), rest).
Proof.
  intros Hl. unfold ReadUint16. rewrite reader_bind_unfold, EnsureAvailable_app by (unfold zlength; lia).
  rewrite <- be_fold. do 2 (destruct l as [|? l]; [done|]). destruct l; [|done].
  cbn [fold_left]. by rewrite Z.shiftl_0_l, Z.lor_0_l.
Qed.

Lemma ReadUint32_bytes l rest : length l = 4%nat → ReadUint32 (l ++ rest) = Ret (le_word (rev l), rest).
Proof.
  intros Hl. unfold ReadUint32. rewrite reader_bind_unfold, EnsureAvailable_app by (unfold zlength; lia).
  rewrite <- be_fold. do 4 (destruct l as [|? l]; [done|]). destruct l; [|done].
  cbn [fold_left]. unfold consume, at_. simpl nth. do 2 f_equal.
  by rewrite Z.shiftl_0_l, Z.lor_0_l, !Z.shiftl_lor, !Z.shiftl_shiftl by lia.
Qed.

Lemma be_fold64 l : (length l <= 8)%nat →
  fold_left (λ v b, Z.lor (u64 (Z.shiftl v 8)) (byte.unsigned b)) l 0 = le_word (rev l).
Proof.
  induction l as [|b l IH] using rev_ind; [done|]. rewrite length_app. simpl. intros Hl.
  rewrite fold_left_app, rev_app_distr. cbn [fold_left rev app]. rewrite IH by lia.
  rewrite le_word_cons, Z.lor_comm. f_equal. apply u64_small.
  pose proof (le_combine_bound (rev l)) as [H1 H2]. rewrite length_rev in H2.
  assert (2 ^ (8 * Z.of_nat (length l)) <= 2 ^ 56) by (apply Z.pow_le_mono_r; lia).
  unfold is_u, le_word. rewrite Z.shiftl_mul_pow2 by lia. change (2 ^ 64) with (2 ^ 56 * 2 ^ 8). lia.
Qed.

Lemma ReadUint64_bytes l rest : length l = 8%nat → ReadUint64 (l ++ rest) = Ret (le_word (rev l), rest).
Proof.
  intros Hl. unfold ReadUint64. rewrite reader_bind_unfold, EnsureAvailable_app by (unfold zlength; lia).
  rewrite <- be_fold64 by lia. do 8 (destruct l as [|? l]; [done|]). destruct l; [|done]. cbn [consume seq fold_left app at_ nth skipn]. unfold consume, at_. cbn [nth app seq fold_left skipn]. done.
Qed.

(** ** Every writer/reader pair is a codec *)

#[export] Instance Uint8_codec : Codec WriteUint8 ReadUint8 (is_u 8).
Proof.
  split; [done|]. intros v rest Hv. unfold ReadUint8, WriteUint8.
  rewrite reader_bind_unfold, EnsureAvailable_app by done. unfold consume, at_. simpl.
  rewrite byte.unsigned_of_Z. unfold byte.wrap. by rewrite Z.mod_small.
Qed.

#[export] Instance Uint16_codec : Codec WriteUint16 ReadUint16 (is_u 16).
Proof.
  split; [intros; by rewrite !WriteUint16_be|]. intros v rest Hv.
  rewrite WriteUint16_be, app_nil_l, ReadUint16_bytes, rev_involutive, le_word_bytes by (by rewrite length_rev, length_le_bytes).
  by rewrite Z.mod_small.
Qed.

#[export] Instance Uint32_codec : Codec WriteUint32 ReadUint32 (is_u 32).
Proof.
  split; [intros; by rewrite !WriteUint32_be|]. intros v rest Hv.
  rewrite WriteUint32_be, app_nil_l, ReadUint32_bytes, rev_involutive, le_word_bytes by (by rewrite length_rev, length_le_bytes).
  by rewrite Z.mod_small.
Qed.

#[export] Instance Uint64_codec : Codec WriteUint64 ReadUint64 (is_u 64).
Proof.
  split; [intros; by rewrite !WriteUint64_be|]. intros v rest Hv.
  rewrite WriteUint64_be, app_nil_l, ReadUint64_bytes, rev_involutive, le_word_bytes by (by rewrite length_rev, length_le_bytes).
  by rewrite Z.mod_small.
Qed.

#[export] Instance Int64_codec : Codec WriteInt64 ReadInt64 (is_i 64).
Proof.
  split; [intros; unfold WriteInt64; by rewrite (codec_append out)|]. intros v rest Hv.
  unfold WriteInt64, ReadInt64. rewrite reader_bind_unfold, codec_read by (apply Z.mod_pos_bound; done).
  unfold u64, i64. by rewrite signed_mod.
Qed.

#[export] Instance Binary_codec : Codec WriteBinary ReadBinary (λ b, zlength b < 2 ^ 32).
Proof.
  split; [intros; unfold WriteBinary, WriteRaw; by rewrite (codec_append out), app_assoc|].
  intros b rest Hb. pose proof (zlength_nonneg b). unfold WriteBinary, WriteRaw, ReadBinary.
  rewrite u32_small, <- app_assoc by done.
  rewrite (codec_bind WriteUint32 ReadUint32 (is_u 32)) by done.
  unfold ReadRaw. rewrite reader_bind_unfold, EnsureAvailable_app by done.
  unfold consume. by rewrite take_app_exact, drop_app_exact by (unfold zlength; lia).
Qed.

Definition text_wf (s : string) : Prop := str_len s < 2 ^ 32.
#[export] Instance text_wf_dec s : Decision (text_wf s).
Proof. unfold text_wf. apply _. Defined.

#[export] Instance Text_codec : Codec WriteString ReadString text_wf.
Proof.
  split; [intros; unfold WriteString; by rewrite (codec_append out)|]. intros s rest Hs.
  unfold WriteString, ReadString. rewrite reader_bind_unfold, codec_read by done. by rewrite bytes_str_bytes.
Qed.

Definition field_value_wf (v : FieldValue) : Prop :=
  match v with FInt n => is_i 64 n | FDouble b => is_u 64 b | FString s => text_wf s | FBool _ => True end.
Definition field_wf (kv : string * FieldValue) : Prop := text_wf kv.1 ∧ field_value_wf kv.2.
#[export] Instance OperationType_eq_dec : EqDecision OperationType.
Proof. solve_decision. Defined.
#[export] Instance field_value_wf_dec v : Decision (field_value_wf v).
Proof. destruct v; simpl; apply _. Defined.

#[export] Instance field_wf_dec kv : Decision (field_wf kv).
Proof. unfold field_wf. apply _. Defined.

Lemma WriteField_append out kv : WriteField out kv = out ++ WriteField [] kv.
Proof.
  destruct kv as [k [n|b|s|b]]; unfold WriteField, WriteDataType, WriteDouble; simpl;
    rewrite ?(codec_append (put := WriteInt64) (WriteUint8 _ _)), ?(codec_append (put := WriteUint64) (WriteUint8 _ _)),
      ?(codec_append (put := WriteString) (WriteUint8 _ _)), ?(codec_append (put := WriteUint8) (WriteUint8 _ _)),
      ?(codec_append (put := WriteUint8) (WriteString _ _)), ?(codec_append (put := WriteString) out),
      <- ?app_assoc; reflexivity.
Qed.

#[export] Instance Field_codec : Codec WriteField ReadFieldValue field_wf.
Proof.
  split; [apply WriteField_append|]. intros [k v] rest [Hk Hv]. simpl in Hk, Hv.
  unfold ReadFieldValue, ReadDataType, ReadDouble.
  assert (Htag : ∀ B t (f : Z → reader B) rest, is_u 8 t → (ReadUint8 ≫= f) (WriteUint8 [] t ++ rest) = f t rest)
    by (intros; by apply codec_bind with (wf := is_u 8); [apply _|]).
  destruct v as [n|b|s|b]; unfold WriteField, WriteDataType, WriteDouble; cbn [fst snd DataType_byte field_value_wf] in *;
    rewrite ?(codec_append (put := WriteInt64) (WriteUint8 _ _)), ?(codec_append (put := WriteUint64) (WriteUint8 _ _)),
      ?(codec_append (put := WriteString) (WriteUint8 _ _)), ?(codec_append (put := WriteUint8) (WriteUint8 _ _)),
      ?(codec_append (put := WriteUint8) (WriteString _ _)), <- !app_assoc;
    rewrite (codec_bind WriteString ReadString text_wf) by done; rewrite !reader_bind_unfold;
    rewrite codec_read by done; cbn [mret reader_ret DataType_of]; rewrite !reader_bind_unfold.
  - by rewrite codec_read.
  - by rewrite codec_read.
  - by rewrite codec_read.
  - rewrite codec_read by by destruct b. by destruct b.
Qed.

(** ** Messages *)

Definition OperationType_wf (op : OperationType) : Prop :=
  OperationType_of (OperationType_byte op) = op ∧ is_u 8 (OperationType_byte op).
Definition event_wf (ev : ChangefeedEvent) : Prop :=
  text_wf (table ev) ∧ OperationType_wf (operation ev) ∧ text_wf (key ev) ∧
  Z.of_nat (size (data ev)) < 2 ^ 32 ∧ map_Forall (λ k v, field_wf (k, v)) (data ev).

#[export] Instance event_wf_dec ev : Decision (event_wf ev).
Proof. unfold event_wf, OperationType_wf. apply _. Defined.

Definition WriteEvent (out : bytes) (ev : ChangefeedEvent) : bytes :=
  WriteChangefeedEvent out (table ev) (operation ev) (key ev) (data ev).

Lemma fold_insert_map (m : gmap string FieldValue) :
  fold_left (λ fields kv, <[kv.1 := kv.2]> fields) (map_iter m) ∅ = m.
Proof.
  assert (∀ (l : list (string * FieldValue)) (acc : gmap string FieldValue),
    NoDup l.*1 → (∀ k, k ∈ l.*1 → acc !! k = None) →
    fold_left (λ fields kv, <[kv.1 := kv.2]> fields) l acc = list_to_map l ∪ acc) as H.
  { induction l as [|[k v] l IH]; intros acc Hnd Hacc; csimpl in *; [by rewrite (left_id_L ∅ (∪))|].
    apply NoDup_cons in Hnd as [Hk Hnd]. rewrite IH; [|done|].
    - rewrite <- insert_union_l, <- insert_union_r; [done|]. by apply not_elem_of_list_to_map_1.
    - intros k' Hk'. rewrite lookup_insert_ne by (intros ->; done). apply Hacc. by right. }
  rewrite H; [by rewrite list_to_map_iter, (right_id_L ∅ (∪))|apply map_iter_NoDup|intros; apply lookup_empty].
Qed.

#[export] Instance Event_codec : Codec WriteEvent ReadChangefeedEvent event_wf.
Proof.
  split.
  - intros out ev. unfold WriteEvent, WriteChangefeedEvent, WriteOperationType.
    rewrite (codec_fold_append WriteField ReadFieldValue field_wf),
      (codec_fold_append WriteField ReadFieldValue field_wf _ (WriteUint32 _ _)).
    rewrite (codec_append (put := WriteUint32) (WriteString _ _)), (codec_append (put := WriteString) (WriteUint8 _ _)),
      (codec_append (put := WriteUint8) (WriteString _ _)), (codec_append (put := WriteString) out).
    rewrite (codec_append (put := WriteUint32) (WriteString (WriteUint8 _ _) _)),
      (codec_append (put := WriteString) (WriteUint8 (WriteString [] _) _)),
      (codec_append (put := WriteUint8) (WriteString [] (table ev))).
    by rewrite <- !app_assoc.
  - intros ev rest (Ht & [Hop Hop8] & Hk & Hn & Hf).
    unfold WriteEvent, WriteChangefeedEvent, WriteOperationType, ReadChangefeedEvent, ReadOperationType.
    rewrite (codec_fold_append WriteField ReadFieldValue field_wf),
      (codec_append (put := WriteUint32) (WriteString _ _)), (codec_append (put := WriteString) (WriteUint8 _ _)),
      (codec_append (put := WriteUint8) (WriteString _ _)), <- !app_assoc.
    rewrite (codec_bind WriteString ReadString text_wf) by done.
    rewrite reader_bind_unfold, (codec_bind WriteUint8 ReadUint8 (is_u 8)) by done.
    cbn [mret reader_ret]. rewrite Hop, (codec_bind WriteString ReadString text_wf) by done.
    assert (Hlen : length (map_iter (data ev)) = size (data ev)) by (by rewrite map_iter_perm, length_map_to_list).
    rewrite u32_small, (codec_bind WriteUint32 ReadUint32 (is_u 32)) by (split; lia).
    rewrite reader_bind_unfold, Nat2Z.id, <- Hlen.
    rewrite (codec_repeat WriteField ReadFieldValue field_wf _ (λ fields kv, <[kv.1 := kv.2]> fields)).
    + rewrite fold_insert_map. by destruct ev.
    + intros s [k v] rest' Hw. unfold ReadField. rewrite reader_bind_unfold, codec_read by done. done.
    + apply Forall_forall. intros [k v] Hkv%elem_of_map_iter. by apply (Hf k v).
Qed.

(** ** Short input *)

Lemma extends_fixed {A} n k (f : bytes → A) :
  Z.of_nat k <= n → (∀ p x, n <= zlength p → f (p ++ x) = f p) →
  Extends (_ ← EnsureAvailable n; consume (λ p, Ret (f p, drop k p))).
Proof.
  intros Hk Hf p a rest x. rewrite !reader_bind_unfold. unfold EnsureAvailable, consume.
  destruct (zlength p <? n) eqn:E; [done|]. apply Z.ltb_ge in E. intros [= <- <-].
  rewrite (proj2 (Z.ltb_ge _ _)) by (rewrite zlength_app; pose proof (zlength_nonneg x); lia).
  rewrite Hf by done. rewrite drop_app_le; [done|]. unfold zlength in E. lia.
Qed.

Lemma at_app i p x : (i < length p)%nat → at_ i (p ++ x) = at_ i p.
Proof. intros. unfold at_. by rewrite app_nth1. Qed.

#[export] Instance ReadUint8_extends : Extends ReadUint8.
Proof. apply extends_fixed; [done|]. intros p x Hp. unfold zlength in Hp. by rewrite at_app by lia. Qed.
#[export] Instance ReadUint32_extends : Extends ReadUint32.
Proof. apply extends_fixed; [done|]. intros p x Hp. unfold zlength in Hp. by rewrite !at_app by lia. Qed.
#[export] Instance ReadUint64_extends : Extends ReadUint64.
Proof.
  apply extends_fixed; [done|]. intros p x Hp. unfold zlength in Hp. cbn [seq fold_left].
  by rewrite !at_app by lia.
Qed.
#[export] Instance ReadRaw_extends n : Extends (ReadRaw n).
Proof.
  destruct (decide (0 <= n)) as [Hn|Hn].
  - apply extends_fixed; [lia|]. intros p x Hp. unfold zlength in Hp. by rewrite take_app_le by lia.
  - intros p a rest x. unfold ReadRaw, EnsureAvailable, consume. rewrite !reader_bind_unfold.
    rewrite !(proj2 (Z.ltb_ge _ _)) by (pose proof (zlength_nonneg p); pose proof (zlength_nonneg (p ++ x)); lia).
    replace (Z.to_nat n) with 0%nat by lia. by intros [= <- <-].
Qed.

#[export] Instance ReadString_extends : Extends ReadString.
Proof. unfold ReadString, ReadBinary. apply _. Qed.
#[export] Instance ReadFieldValue_extends : Extends ReadFieldValue.
Proof.
  unfold ReadFieldValue, ReadDataType, ReadInt64, ReadDouble. apply extends_bind; [apply _|]. intros k.
  apply extends_bind; [apply _|]. intros t. apply extends_bind; [|intros; apply _]. destruct t; apply _.
Qed.
#[export] Instance ReadField_extends fields : Extends (ReadField fields).
Proof. unfold ReadField. apply extends_bind; [apply _|]. intros [k v]. apply _. Qed.
#[export] Instance ReadChangefeedEvent_extends : Extends ReadChangefeedEvent.
Proof. unfold ReadChangefeedEvent, ReadOperationType. apply _. Qed.
#[export] Instance ReadMessageHeader_extends : Extends ReadMessageHeader.
Proof. unfold ReadMessageHeader. apply _. Qed.

#[export] Instance ReadEventMessage_extends : Extends ReadEventMessage.
Proof.
  unfold ReadEventMessage. apply extends_bind; [apply _|]. intros h. destruct (decide _); apply _.
Qed.

(** The header [message] writes, read back. *)
Lemma ReadMessageHeader_message type payload :
  is_u 8 (MessageType_byte type) → MessageType_of (MessageType_byte type) = type →
  ReadMessageHeader (message type payload)
  = Ret ({| magic := (MAGIC_BYTE_1, MAGIC_BYTE_2); msg_type := type; flags := 0;
            payload_size := u32 (zlength payload) |}, payload).
Proof.
  intros Ht Hof. unfold message, WriteRaw, WriteMessageHeader, ReadMessageHeader.
  rewrite (codec_append (put := WriteUint32)), (codec_append (put := WriteUint8) (WriteUint8 (WriteUint8 _ _) _)),
    (codec_append (put := WriteUint8) (WriteUint8 (WriteUint8 [] _) _)),
    (codec_append (put := WriteUint8) (WriteUint8 [] _)), <- !app_assoc.
  do 4 rewrite (codec_bind WriteUint8 ReadUint8 (is_u 8)) by (done || (split; done)).
  rewrite (codec_bind WriteUint32 ReadUint32 (is_u 32)) by (apply Z.mod_pos_bound; done).
  by rewrite Hof.
Qed.

Lemma message_is_binary type payload : IsBinaryProtocol (message type payload) = true.
Proof.
  unfold IsBinaryProtocol, message, WriteRaw, WriteMessageHeader, WriteUint32, WriteUint8.
  rewrite <- !app_assoc. cbn [app]. rewrite (proj2 (Z.leb_le _ _)); [done|].
  unfold zlength. cbn [length]. lia.
Qed.

(** ** What a binary event can carry *)

(** The values that cross the wire, and what arrives: integers up to 64 bits
    (an unsigned one past the signed range comes out negative), numbers, texts and
    truth values; null, arrays and objects do not. *)
Inductive carried : json → json → Prop :=
| carried_int n : - 2 ^ 63 <= n < 2 ^ 63 → carried (JInt n) (JInt n)
| carried_unsigned n : 2 ^ 63 <= n < 2 ^ 64 → carried (JInt n) (JInt (n - 2 ^ 64))
| carried_float b : carried (JFloat b) (JFloat b)
| carried_string s : carried (JString s) (JString s)
| carried_bool b : carried (JBool b) (JBool b).

(** A member the library can hold and whose lengths fit 32 bits. *)
Definition member_fits (kv : string * json) : Prop :=
  text_wf kv.1 ∧
  match kv.2 with
  | JInt n => - 2 ^ 63 <= n < 2 ^ 64
  | JFloat b => is_u 64 b
  | JString s => text_wf s
  | _ => True
  end.
#[export] Instance member_fits_dec kv : Decision (member_fits kv).
Proof. unfold member_fits. destruct kv as [? []]; apply _. Defined.

Lemma field_carried k v v' :
  member_fits (k, v) → carried v v' ↔ ∃ f, field_of_json v = Some f ∧ json_of_field f = v'.
Proof.
  intros [_ Hv]. split.
  - intros [n Hn|n Hn|b|s|b]; (eexists; split; [reflexivity|]); simpl; [|by rewrite i64_wraps|done..].
    by rewrite i64_keeps.
  - intros (f & Hf & <-). destruct v as [|b|n|b|s| | |]; try done; injection Hf as <-; try constructor.
    simpl in *. destruct (decide (n < 2 ^ 63)).
    + rewrite i64_keeps by lia. constructor. lia.
    + rewrite i64_wraps by lia. constructor. lia.
Qed.

Lemma data_of_object members k f :
  NoDup members.*1 →
  data_of_json (JObject members) !! k = Some f ↔ ∃ v, (k, v) ∈ members ∧ field_of_json v = Some f.
Proof.
  intros Hnd. unfold data_of_json. simpl.
  assert (∀ acc : gmap string FieldValue, (∀ x, x ∈ members.*1 → acc !! x = None) →
    fold_left add_member members acc !! k = Some f ↔
    acc !! k = Some f ∨ ∃ v, (k, v) ∈ members ∧ field_of_json v = Some f) as H.
  { induction members as [|[x w] l IH]; intros acc Hacc; csimpl in *; [set_solver|].
    apply NoDup_cons in Hnd as [Hx Hnd]. specialize (IH Hnd). unfold add_member at 2. cbn [fst snd].
    assert (Hout : ∀ v, (x, v) ∉ l) by (intros v Hv; apply Hx; by apply (list_elem_of_fmap_2 fst) in Hv).
    assert (Hax : acc !! x = None) by (apply Hacc; by left).
    destruct (field_of_json w) as [g|] eqn:Eg.
    - rewrite IH. 2: { intros y Hy. rewrite lookup_insert_ne by (by intros ->). apply Hacc. by right. }
      destruct (decide (x = k)) as [->|Hne].
      + rewrite lookup_insert_eq, Hax. split.
        * intros [[= ->]|(v & Hv & _)]; [right; exists w; by split; [left|]|by apply Hout in Hv].
        * intros [?|(v & [[= ->]|Hv]%elem_of_cons & Hf)]; [done|left; congruence|by apply Hout in Hv].
      + rewrite lookup_insert_ne by done. set_solver.
    - rewrite IH by (intros y Hy; apply Hacc; by right). split; [set_solver|].
      intros [?|(v & [[= -> ->]|Hv]%elem_of_cons & Hf)]; [by left|congruence|right; by exists v]. }
  rewrite H by (intros; apply lookup_empty). rewrite lookup_empty. naive_solver.
Qed.

Lemma data_size members : (size (data_of_json (JObject members)) <= length members)%nat.
Proof.
  unfold data_of_json. simpl. assert (∀ acc : gmap string FieldValue,
    (size (fold_left add_member members acc) <= size acc + length members)%nat) as H; [|specialize (H ∅); by rewrite map_size_empty in H].
  induction members as [|kv l IH]; intros acc; simpl; [lia|]. etrans; [apply IH|].
  unfold add_member. destruct (field_of_json kv.2); [|lia].
  rewrite map_size_insert. destruct (acc !! kv.1); simpl; lia.
Qed.

Lemma members_event_wf tbl op k members :
  text_wf tbl → text_wf k → zlength members < 2 ^ 32 → NoDup members.*1 → Forall member_fits members →
  event_wf {| table := tbl; operation := operation_of_name op; key := k; data := data_of_json (JObject members) |}.
Proof.
  intros Ht Hk Hlen Hnd Hm. unfold event_wf. cbn [table operation key data]. split_and!; [done|..|done| |].
  - unfold operation_of_name. repeat case_match; by split.
  - pose proof (data_size members). unfold zlength in Hlen. lia.
  - intros x f (v & Hin & Hf)%data_of_object; [|done].
    rewrite Forall_forall in Hm. destruct (Hm _ Hin) as [Hx Hv]. split; [done|]. cbn [fst snd] in *.
    destruct v; try done; injection Hf as <-; simpl; try done. apply signed_range. lia.
Qed.

(** A JSON event as its readers see it. *)
Definition describes (event : json) (subscription_id tbl op k : string) (members : list (string * json)) : Prop :=
  json_field "type" event = Some (JString "changefeed_event") ∧
  json_field "subscription_id" event = Some (JString subscription_id) ∧
  json_field "table" event = Some (JString tbl) ∧
  json_field "key" event = Some (JString k) ∧
  json_field "operation" event = Some (JString (if decide (op ∈ ["insert"; "update"; "delete"]) then op else "truncate")) ∧
  (∃ row, json_field "data" event = Some row ∧
     (∀ name v', json_field name row = Some v' ↔ ∃ v, (name, v) ∈ members ∧ carried v v') ∧
     ((∀ name v v', (name, v) ∈ members → ¬ carried v v') → row = JNull)) ∧
  ∀ name v, json_field name event = Some v →
    name ∈ ["type"; "subscription_id"; "table"; "operation"; "key"; "data"].

Lemma event_json_describes subscription_id tbl op k members :
  NoDup members.*1 → Forall member_fits members →
  describes (event_json subscription_id
    {| table := tbl; operation := operation_of_name op; key := k; data := data_of_json (JObject members) |})
    subscription_id tbl op k members.
Proof.
  intros Hnd Hm. set (d := data_of_json (JObject members)). unfold describes, event_json.
  assert (Hop : operation_name (operation_of_name op)
    = Some (if decide (op ∈ ["insert"; "update"; "delete"]) then op else "truncate")).
  { unfold operation_of_name. repeat case_bool_decide; subst; try done. rewrite decide_False; [done|set_solver]. }
  cbn [table operation key data]. rewrite Hop. clear Hop.
  split; [rewrite json_field_object; by simplify_map_eq|].
  split; [rewrite json_field_object; by simplify_map_eq|].
  split; [rewrite json_field_object; by simplify_map_eq|].
  split; [rewrite json_field_object; by simplify_map_eq|].
  split; [rewrite json_field_object; by simplify_map_eq|]. split.
  - eexists. split; [rewrite json_field_object; by simplify_map_eq|]. rewrite Forall_forall in Hm. split.
    + intros name v'. transitivity (∃ f, d !! name = Some f ∧ json_of_field f = v').
      * case_decide as E.
        { simpl. rewrite E. split; [done|]. intros (f & Hf & _). by rewrite lookup_empty in Hf. }
        rewrite json_field_object, lookup_fmap. destruct (d !! name); naive_solver.
      * split.
        { intros (f & (v & Hv & Hf)%data_of_object & Hj); [|done]. exists v. split; [done|].
          apply (field_carried name); [by apply (Hm (name, v))|]. by exists f. }
        { intros (v & Hv & (f & Hf & Hj)%(field_carried name)); [|by apply (Hm (name, v))].
          exists f. split; [|done]. apply data_of_object; [done|]. by exists v. }
    + intros Hnone. apply decide_True. apply map_eq. intros name. rewrite lookup_empty.
      destruct (d !! name) as [f|] eqn:E; [|done]. apply data_of_object in E as (v & Hv & Hf); [|done].
      destruct (Hnone name v (json_of_field f) Hv). apply (field_carried name); [by apply (Hm (name, v))|]. by exists f.
  - intros name v. rewrite json_field_object. rewrite !lookup_insert_Some, lookup_singleton_Some. set_solver.
Qed.

Section theorems.
Context `{JL : JsonLib}.

(** C33.  A changefeed event survives the binary protocol.  For an event whose
    texts and member list have lengths below 2^32, the message carries the magic
    bytes and announces its payload's size, and the JSON read back from it says
    what was written: the subscription, the table, the key, the operation (any
    name but insert, update and delete is a truncation), and in its data, under
    their names, exactly the integer, float, string and boolean members, with
    their values; an unsigned integer past 2^63 - 1 wraps to a negative one, and
    null, array and object members are missing.  From a message cut short nothing
    is read: the reader throws. *)
Theorem binary_event_roundtrip subscription_id tbl op k json_data members
    (Hparse : parse json_data = Some (JObject members)) (Hnd : NoDup members.*1)
    (Hsub : text_wf subscription_id) (Htbl : text_wf tbl) (Hk : text_wf k)
    (Hlen : zlength members < 2 ^ 32) (Hm : Forall member_fits members) :
  ∃ wire payload event,
    ChangefeedEventToBinary subscription_id tbl op k json_data = Ret wire ∧
    IsBinaryProtocol wire = true ∧
    ReadMessageHeader wire
    = Ret ({| magic := (0xDB, 0x01); msg_type := CHANGEFEED_EVENT; flags := 0;
              payload_size := zlength payload mod 2 ^ 32 |}, payload) ∧
    BinaryToJsonChangefeedEvent wire = dump event ∧
    describes event subscription_id tbl op k members ∧
    (∀ p q, wire = p ++ q → q ≠ [] → is_throw (BinaryToJsonChangefeedEvent p)).
Proof.
  set (ev := {| table := tbl; operation := operation_of_name op; key := k; data := data_of_json (JObject members) |}).
  set (payload := WriteEvent (WriteString [] subscription_id) ev).
  exists (message CHANGEFEED_EVENT payload), payload, (event_json subscription_id ev).
  assert (Hheader : ReadMessageHeader (message CHANGEFEED_EVENT payload)
    = Ret ({| magic := (MAGIC_BYTE_1, MAGIC_BYTE_2); msg_type := CHANGEFEED_EVENT; flags := 0;
              payload_size := u32 (zlength payload) |}, payload)) by (by apply ReadMessageHeader_message).
  assert (Hread : ReadEventMessage (message CHANGEFEED_EVENT payload) = Ret (event_json subscription_id ev, [])).
  { unfold ReadEventMessage. rewrite reader_bind_unfold, Hheader. cbn [msg_type].
    rewrite decide_False by auto. unfold payload. rewrite (codec_append (put := WriteEvent)).
    rewrite (codec_bind WriteString ReadString text_wf) by done.
    rewrite <- (app_nil_r (WriteEvent [] ev)), (codec_bind WriteEvent ReadChangefeedEvent event_wf)
      by (by apply members_event_wf). done. }
  split_and!.
  - unfold ChangefeedEventToBinary. by rewrite Hparse.
  - apply message_is_binary.
  - exact Hheader.
  - unfold BinaryToJsonChangefeedEvent. by rewrite Hread.
  - by apply event_json_describes.
  - intros p q Hm' Hq. rewrite Hm' in Hread.
    apply extends_prefix_throws in Hread as [w Hw]; [|apply _|done].
    exists w. unfold BinaryToJsonChangefeedEvent. by rewrite Hw.
Qed.
End theorems.

(** An event with a member of each kind: the array is missing afterwards, the
    large number negative. *)
Definition demo_members : list (string * json) :=
  [("big", JInt (2 ^ 64 - 1)); ("id", JInt 7); ("name", JString "Ada"); ("ok", JBool true); ("tags", JArray [])].

Definition demo_text (j : json) : string := match std_dump j with Ret s => s | Throw _ => "" end.

Lemma binary_event_roundtrip_witness :
  ∃ wire event row,
    ChangefeedEventToBinary (JL := std_json) "s1" "users" "update" "k" (demo_text (JObject demo_members)) = Ret wire ∧
    BinaryToJsonChangefeedEvent (JL := std_json) wire = std_dump event ∧
    json_field "operation" event = Some (JString "update") ∧ json_field "data" event = Some row ∧
    json_field "big" row = Some (JInt (-1)) ∧ json_field "name" row = Some (JString "Ada") ∧
    json_field "ok" row = Some (JBool true) ∧ json_field "tags" row ≠ Some (JArray []).
Proof.
  destruct (binary_event_roundtrip (JL := std_json) "s1" "users" "update" "k" (demo_text (JObject demo_members)) demo_members)
    as (wire & payload & event & H1 & _ & _ & H4 & (_ & _ & _ & _ & Hop & (row & Hrow & Hfields & _) & _) & _);
    [vm_compute; reflexivity|apply (bool_decide_unpack _); vm_compute; exact I|reflexivity|reflexivity|reflexivity|reflexivity|apply (bool_decide_unpack _); vm_compute; exact I|].
  exists wire, event, row. split; [exact H1|]. split; [exact H4|]. split; [exact Hop|]. split; [exact Hrow|].
  split_and!; [apply Hfields..|].
  - exists (JInt (2 ^ 64 - 1)). split; [unfold demo_members; left|]. apply carried_unsigned. lia.
  - exists (JString "Ada"). split; [unfold demo_members; set_solver|]. apply carried_string.
  - exists (JBool true). split; [unfold demo_members; set_solver|]. apply carried_bool.
  - intros H. apply Hfields in H as (v & _ & Hc). inversion Hc.
Defined.
