(* ===== verification/BinaryBenchmark.v ===== *)
(** * The benchmark of the binary protocol (class ProtocolBenchmark)

    One changefeed event and a batch of records, written as JSON and in the
    compact encoding; the clock's readings are an argument.  The theorems show that
    what is timed is a complete encoding: reading it back gives the event and the
    records that were written. *)

From Stdlib Require Import Floats.SpecFloat.
From S2P Require Import Prelude Codec RowCodec Float64 Json BinaryProtocol.

Record BenchmarkResult := {
  json_size : Z;
  binary_size : Z;
  compression_ratio : Z;
  json_serialize_ns : Z;
  binary_serialize_ns : Z;
  json_deserialize_ns : Z;
  binary_deserialize_ns : Z
}.

(** [static_cast<double>(a) / static_cast<double>(b)]. *)
Definition ratio (a b : Z) : Z := double_bits (SFdiv 53 1024 (double_sf (double_of_int a)) (double_sf (double_of_int b))).

(** The JSON object of named values; without any it stays null. *)
Definition json_of_fields (data : gmap string FieldValue) : json :=
  if decide (data = ∅) then JNull else object_of (json_of_field <$> data).

(** ** One event *)

Definition benchmark_json (table operation key : string) (data : gmap string FieldValue) : json :=
  object_of (<["type" := JString "changefeed_event"]> (<["subscription_id" := JString "benchmark-sub"]>
            (<["table" := JString table]> (<["operation" := JString operation]> (<["key" := JString key]>
            {[ "data" := json_of_fields data ]}))))).

Definition benchmark_binary (table operation key : string) (data : gmap string FieldValue) : bytes :=
  message CHANGEFEED_EVENT
    (WriteChangefeedEvent (WriteString [] "benchmark-sub") table (operation_of_name operation) key data).

(** What the timed reading of the binary event does. *)
Definition read_benchmark : reader (BinaryMessageHeader * string * ChangefeedEvent) :=
  header ← ReadMessageHeader;
  sub_id ← ReadString;
  event ← ReadChangefeedEvent;
  mret (header, sub_id, event).

Section benchmark.
Context `{JL : JsonLib}.

(** The clock is read eight times; the difference of two readings as 64 bits. *)
Definition elapsed (ns : nat → Z) (i : nat) : Z := u64 (ns (S i) - ns i).

Definition BenchmarkChangefeedEvent (ns : nat → Z) (table operation key : string) (data : gmap string FieldValue)
    : exc BenchmarkResult :=
  json_str ← dump (benchmark_json table operation key data);
  let binary_data := benchmark_binary table operation key data in
  match parse json_str with
  | None => Throw "parse error"
  | Some _ =>
      _ ← read_benchmark binary_data;
      Ret {| json_size := str_len json_str; binary_size := zlength binary_data;
             compression_ratio := ratio (str_len json_str) (zlength binary_data);
             json_serialize_ns := elapsed ns 0; binary_serialize_ns := elapsed ns 2;
             json_deserialize_ns := elapsed ns 4; binary_deserialize_ns := elapsed ns 6 |}
  end.

(** ** A batch *)

Definition batch_json (records : list (gmap string FieldValue)) : json :=
  object_of (<["type" := JString "batch_insert"]> (<["table" := JString "benchmark_table"]>
            {[ "records" := JArray (map json_of_fields records) ]})).

Definition WriteRecord (out : bytes) (record : gmap string FieldValue) : bytes :=
  fold_left WriteField (map_iter record) (WriteUint32 out (u32 (Z.of_nat (size record)))).
Definition WriteBatch (out : bytes) (records : list (gmap string FieldValue)) : bytes :=
  fold_left WriteRecord records (WriteUint32 (WriteString out "benchmark_table") (u32 (zlength records))).

(** The times of reading keep their initial value. *)
Definition BenchmarkBatchOperation (ns : nat → Z) (records : list (gmap string FieldValue)) : exc BenchmarkResult :=
  json_str ← dump (batch_json records);
  let binary_data := message BATCH_INSERT (WriteBatch [] records) in
  Ret {| json_size := str_len json_str; binary_size := zlength binary_data;
         compression_ratio := ratio (str_len json_str) (zlength binary_data);
         json_serialize_ns := elapsed ns 0; binary_serialize_ns := elapsed ns 2;
         json_deserialize_ns := 0; binary_deserialize_ns := 0 |}.
End benchmark.

(** ** Reading back *)

(** What a reader of batches would do; the sources have none. *)
Definition ReadRecord : reader (gmap string FieldValue) :=
  field_count ← ReadUint32; repeat_read (Z.to_nat field_count) ReadField ∅.
Definition ReadBatch : reader (string * list (gmap string FieldValue)) :=
  table ← ReadString;
  count ← ReadUint32;
  records ← repeat_read (Z.to_nat count) (λ l, r ← ReadRecord; mret (l ++ [r])) [];
  mret (table, records).

Definition record_wf (r : gmap string FieldValue) : Prop :=
  Z.of_nat (size r) < 2 ^ 32 ∧ map_Forall (λ k v, field_wf (k, v)) r.

#[export] Instance Record_codec : Codec WriteRecord ReadRecord record_wf.
Proof.
  split.
  - intros out r. unfold WriteRecord. rewrite (codec_fold_append WriteField ReadFieldValue field_wf),
      (codec_fold_append WriteField ReadFieldValue field_wf _ (WriteUint32 [] _)), (codec_append (put := WriteUint32) out).
    by rewrite <- app_assoc.
  - intros r rest [Hn Hf]. unfold WriteRecord, ReadRecord.
    rewrite (codec_fold_append WriteField ReadFieldValue field_wf), <- app_assoc.
    assert (Hlen : length (map_iter r) = size r) by (by rewrite map_iter_perm, length_map_to_list).
    rewrite u32_small, (codec_bind WriteUint32 ReadUint32 (is_u 32)) by (split; lia).
    rewrite Nat2Z.id, <- Hlen, (codec_repeat WriteField ReadFieldValue field_wf _ (λ fields kv, <[kv.1 := kv.2]> fields)).
    + by rewrite fold_insert_map.
    + intros s [k v] rest' Hw. unfold ReadField. rewrite reader_bind_unfold, codec_read by done. done.
    + apply Forall_forall. intros [k v] Hkv%elem_of_map_iter. by apply (Hf k v).
Qed.

Lemma fold_append {A} (l acc : list A) : fold_left (λ l r, l ++ [r]) l acc = acc ++ l.
Proof. revert acc. induction l as [|a l IH]; intros acc; simpl; [by rewrite app_nil_r|]. by rewrite IH, <- app_assoc. Qed.

(** The batch that is written holds every record, whole and in order. *)
Theorem batch_reads_back records :
  zlength records < 2 ^ 32 → Forall record_wf records →
  ReadBatch (WriteBatch [] records) = Ret (("benchmark_table", records), []).
Proof.
  intros Hn Hw. unfold WriteBatch, ReadBatch. unfold zlength in *.
  rewrite (codec_fold_append WriteRecord ReadRecord record_wf), (codec_append (put := WriteUint32)), <- app_assoc.
  rewrite (codec_bind WriteString ReadString text_wf) by (vm_compute; reflexivity).
  rewrite u32_small, (codec_bind WriteUint32 ReadUint32 (is_u 32)) by (split; lia).
  rewrite reader_bind_unfold, Nat2Z.id, <- (app_nil_r (fold_left WriteRecord records [])).
  rewrite (codec_repeat WriteRecord ReadRecord record_wf _ (λ l r, l ++ [r])); [by rewrite fold_append| |done].
  intros l r rest Hr. by rewrite reader_bind_unfold, codec_read.
Qed.

Lemma json_of_fields_ok data : map_Forall (λ k v, utf8 k = true ∧ json_ok (json_of_field v) = true) data →
  json_ok (json_of_fields data) = true.
Proof.
  intros H. unfold json_of_fields. destruct (decide _); [done|]. apply json_ok_object.
  apply map_Forall_fmap. exact H.
Qed.

Lemma event_message_reads_back sub_id ev : text_wf sub_id → event_wf ev →
  ∃ header, read_benchmark (message CHANGEFEED_EVENT (WriteEvent (WriteString [] sub_id) ev)) = Ret ((header, sub_id, ev), [])
            ∧ msg_type header = CHANGEFEED_EVENT.
Proof.
  intros Hsub Hev. set (payload := WriteEvent (WriteString [] sub_id) ev).
  assert (Hheader : ReadMessageHeader (message CHANGEFEED_EVENT payload)
    = Ret ({| magic := (MAGIC_BYTE_1, MAGIC_BYTE_2); msg_type := CHANGEFEED_EVENT; flags := 0;
              payload_size := u32 (zlength payload) |}, payload)) by (by apply ReadMessageHeader_message).
  exists {| magic := (MAGIC_BYTE_1, MAGIC_BYTE_2); msg_type := CHANGEFEED_EVENT; flags := 0;
             payload_size := u32 (zlength payload) |}. split; [|reflexivity]. unfold read_benchmark. rewrite reader_bind_unfold, Hheader.
  unfold payload at 2. rewrite (codec_append (put := WriteEvent)), (codec_bind WriteString ReadString text_wf) by done.
  rewrite <- (app_nil_r (WriteEvent [] ev)), (codec_bind WriteEvent ReadChangefeedEvent event_wf) by done.
  done.
Qed.

Section reads_back.
Context `{JL : JsonLib}.

(** The benchmark of an event that fits answers, with the sizes of the two texts,
    and the binary message it times reads back as the event. *)
Theorem benchmark_reads_back ns tbl op k fields :
  let ev := {| table := tbl; operation := operation_of_name op; key := k; data := fields |} in
  event_wf ev → utf8 tbl = true → utf8 op = true → utf8 k = true →
  map_Forall (λ name v, utf8 name = true ∧ json_ok (json_of_field v) = true) fields →
  ∃ json_str r, dump (benchmark_json tbl op k fields) = Ret json_str
    ∧ BenchmarkChangefeedEvent ns tbl op k fields = Ret r
    ∧ json_size r = str_len json_str ∧ binary_size r = zlength (benchmark_binary tbl op k fields)
    ∧ ∃ header, read_benchmark (benchmark_binary tbl op k fields) = Ret ((header, "benchmark-sub", ev), [])
                ∧ msg_type header = CHANGEFEED_EVENT.
Proof.
  intros ev Hev Ht Ho Hk Hf.
  assert (json_ok (benchmark_json tbl op k fields) = true) as Hok.
  { apply json_ok_object. do 5 (apply map_Forall_insert_2; [by split|]).
    apply map_Forall_singleton. split; [done|]. by apply json_of_fields_ok. }
  destruct (parse_dump _ Hok) as (json_str & Hd & Hp & _).
  assert (text_wf "benchmark-sub") as Hsub by (vm_compute; reflexivity).
  destruct (event_message_reads_back _ _ Hsub Hev) as (header & Hread & Htype).
  change (read_benchmark (benchmark_binary tbl op k fields) = Ret ((header, "benchmark-sub", ev), [])) in Hread.
  unfold BenchmarkChangefeedEvent. rewrite Hd. cbn [mbind exc_bind]. rewrite Hp, Hread. cbn [mbind exc_bind].
  do 2 eexists. split; [done|]. split; [reflexivity|]. split; [done|]. split; [done|].
  exists header. split; [reflexivity|exact Htype].
Qed.
End reads_back.

(** ** A concrete benchmark *)

#[local] Existing Instance std_json.

Definition demo_fields : gmap string FieldValue := {["id" := FInt 7; "name" := FString "Alice"; "ok" := FBool true]}.
Definition demo_benchmark := BenchmarkChangefeedEvent (λ i, Z.of_nat i * Z.of_nat i) "users" "insert" "7" demo_fields.

Example demo_sizes : (λ r, (binary_size r, json_serialize_ns r, binary_deserialize_ns r)) <$> demo_benchmark = Ret (85, 1, 13).
Proof. vm_compute. reflexivity. Qed.
Example demo_ratio : ratio 3 2 = double_of_int 3 - 2 ^ 52.
Proof. vm_compute. reflexivity. Qed.
