(* ===== verification/ModuleStore.v ===== *)
(** * The store of deployed modules (src/wasm/module_store.cpp)

    Modules persist as directories <modules>/<name>/ with module.wasm and
    manifest.json, and an index of them in memory.  The state is the index and
    the modules directory; the outcome of every file operation is an argument,
    down to a stream that reports success and loses bytes when it is closed.
    SHA-256 and the indented form of [dump] are parameters. *)

From Stdlib Require Import Strings.Ascii.
From S2P Require Import Prelude Json StorageJson.
From coqutil Require Import Byte.

(** ** Parameters *)

(** [EVP_Digest] with [EVP_sha256]. *)
Class Sha256 := EVP_Digest : bytes → bytes.

(** [dump(2)]: the text of [dump] with other white space. *)
Class IndentedDump {JL : JsonLib} := {
  dump2 : json → exc string;
  parse_dump2 : ∀ j, json_ok j = true → ∃ s, dump2 j = Ret s ∧ parse s = Some (json_text j)
}.
Arguments IndentedDump : clear implicits.

(** ** Files *)

(** An entry of the modules directory; other kinds of file are skipped. *)
Inductive dir_entry := Dir (files : gmap string bytes) | OtherFile.

Abbreviation disk := (gmap string dir_entry).

(** Writing a file through an [ofstream]: whether it opens (which empties it),
    whether the stream reports success, and how much is on disk once it is
    closed, if not everything. *)
Record write_io := { opened : bool; accepted : bool; kept : option nat }.

Definition write_file (io : write_io) (file : string) (data : bytes) (files : gmap string bytes) : gmap string bytes :=
  if opened io then <[file := match kept io with Some n => take n data | None => data end]> files else files.

(** [std::filesystem::rename] of existing files. *)
Definition rename_file (old new : string) (files : gmap string bytes) : gmap string bytes :=
  match files !! old with
  | Some data => <[new := data]> (delete old files)
  | None => files
  end.

(** ** State *)

(** [wasm_path] is the module.wasm of the directory entry named here. *)
Record StoredModuleInfo := {
  name : string;
  version : string;
  sha256 : string;
  deployed_at_ms : Z;
  size_bytes : Z;
  wasm_path : string
}.

Record ModuleStore := { dir_ : string; index_ : gmap string StoredModuleInfo }.

Definition new_ModuleStore (modules_dir : string) : ModuleStore := {| dir_ := modules_dir; index_ := ∅ |}.
Definition set_index (m : gmap string StoredModuleInfo) (st : ModuleStore) : ModuleStore :=
  {| dir_ := dir_ st; index_ := m |}.

(** [operator/] of paths, for a relative right operand. *)
Definition path_append (p q : string) : string :=
  match rev (String.list_ascii_of_string p) with
  | [] => q
  | c :: _ => if bool_decide (c = "/"%char) then p +:+ q else p +:+ "/" +:+ q
  end.

(** [isalnum] in the C locale. *)
Definition isalnum (c : ascii) : bool :=
  let n := byte.unsigned (byte_of_ascii c) in
  ((48 <=? n) && (n <=? 57)) || ((65 <=? n) && (n <=? 90)) || ((97 <=? n) && (n <=? 122)).

Definition ValidModuleName (nm : string) : bool :=
  if bool_decide (nm = "") || (128 <? str_len nm) then false
  else forallb (λ c, isalnum c || bool_decide (c = "_"%char) || bool_decide (c = "-"%char)
                     || bool_decide (c = "."%char)) (String.list_ascii_of_string nm)
       && negb (bool_decide (nm = ".")) && negb (bool_decide (nm = "..")).

(** The characters of [hex]. *)
Definition hex (n : Z) : ascii := default "0"%char (String.get (Z.to_nat n) "0123456789abcdef").
Fixpoint hex_string (digest : bytes) : string :=
  match digest with
  | [] => ""
  | b :: digest => String (hex (Z.shiftr (byte.unsigned b) 4))
                     (String (hex (Z.land (byte.unsigned b) 0xF)) (hex_string digest))
  end.

Section store.
Context `{JL : JsonLib} {ID : IndentedDump JL} {SH : Sha256} `{HO : HashOrder}.

Definition Sha256Hex (data : bytes) : string := hex_string (EVP_Digest data).

(** [manifest.value(key, std::string)] and [manifest.value(key, uint64_t)]. *)
Definition string_value (key : string) (default_value : string) (manifest : json) : exc string :=
  match json_field key manifest with Some v => as_string v | None => Ret default_value end.
Definition uint64_value (key : string) (default_value : Z) (manifest : json) : exc Z :=
  match json_field key manifest with
  | Some (JInt n) => Ret (u64 n)
  | Some (JFloat b) => Ret (double_trunc b)
  | Some _ => Throw "json: type must be number"
  | None => Ret default_value
  end.

(** One round of the loop of [Initialize]: what a directory is indexed as, if it
    is not skipped. *)
Definition index_entry (entry : string) (files : gmap string bytes) : exc (option StoredModuleInfo) :=
  match files !! "manifest.json" ≫= λ text, parse (bytes_str text) with
  | None => Ret None
  | Some manifest =>
      if bool_decide (json_field "name" manifest = None) || bool_decide (json_field "sha256" manifest = None)
      then Ret None else
      match files !! "module.wasm" with
      | None => Ret None
      | Some wasm =>
          expected ← (member "sha256" manifest ≫= as_string);
          if negb (bool_decide (Sha256Hex wasm = expected)) then Ret None else
          nm ← (member "name" manifest ≫= as_string);
          ver ← string_value "version" "" manifest;
          deployed ← uint64_value "deployed_at_ms" 0 manifest;
          Ret (Some {| name := nm; version := ver; sha256 := expected; deployed_at_ms := deployed;
                       size_bytes := u64 (zlength wasm); wasm_path := entry |})
      end
  end.

(** The loop; an exception leaves the index reached so far. *)
Fixpoint index_entries (entries : list (string * dir_entry)) (index : gmap string StoredModuleInfo)
    : gmap string StoredModuleInfo * exc () :=
  match entries with
  | [] => (index, Ret ())
  | (entry, Dir files) :: entries =>
      match index_entry entry files with
      | Throw what => (index, Throw what)
      | Ret None => index_entries entries index
      | Ret (Some info) => index_entries entries (<[name info := info]> index)
      end
  | (_, OtherFile) :: entries => index_entries entries index
  end.

(** [Initialize]; creating the directory and listing it succeed or not. *)
Definition Initialize (create_ok list_ok : bool) (d : disk) (st : ModuleStore) : ModuleStore * exc bool :=
  if negb create_ok then (st, Ret false) else
  let '(index, r) := index_entries (if list_ok then hash_iter d else []) ∅ in
  (set_index index st, _ ← r; Ret true).

(** The outcomes of the file operations of [Save], and its clock. *)
Record save_io := {
  mkdir_error : option string;
  wasm_io : write_io;
  rename_error : option string;
  manifest_io : write_io;
  now_ms : Z
}.

Definition manifest_json (info : StoredModuleInfo) : json :=
  object_of (<["name" := JString (name info)]> (<["version" := JString (version info)]>
    (<["sha256" := JString (sha256 info)]> (<["deployed_at_ms" := JInt (deployed_at_ms info)]>
    {[ "size_bytes" := JInt (size_bytes info) ]})))).

(** [create_directories(dir_ / name)]: an error, or the files of the directory. *)
Definition create_module_dir (error : option string) (nm : string) (d : disk) : string + gmap string bytes :=
  match error, d !! nm with
  | Some msg, _ => inl msg
  | None, Some OtherFile => inl "Not a directory"
  | None, Some (Dir files) => inr files
  | None, None => inr ∅
  end.

(** [Save]: the store, the disk, and the error ([None] is true). *)
Definition Save (io : save_io) (nm ver : string) (bytecode : bytes) (st : ModuleStore) (d : disk)
    : ModuleStore * disk * exc (option string) :=
  if negb (ValidModuleName nm) then (st, d, Ret (Some "invalid module name")) else
  match create_module_dir (mkdir_error io) nm d with
  | inl msg => (st, d, Ret (Some ("cannot create module directory: " +:+ msg)))
  | inr files =>
      let files1 := write_file (wasm_io io) "module.wasm.tmp" bytecode files in
      if negb (opened (wasm_io io) && accepted (wasm_io io)) then
        (st, <[nm := Dir files1]> d, Ret (Some "failed to write module bytecode"))
      else match rename_error io with
      | Some msg => (st, <[nm := Dir files1]> d, Ret (Some ("failed to move module into place: " +:+ msg)))
      | None =>
          let files2 := rename_file "module.wasm.tmp" "module.wasm" files1 in
          let info := {| name := nm; version := ver; sha256 := Sha256Hex bytecode;
                         deployed_at_ms := u64 (now_ms io); size_bytes := u64 (zlength bytecode);
                         wasm_path := nm |} in
          if negb (opened (manifest_io io)) then
            (st, <[nm := Dir files2]> d, Ret (Some "failed to write manifest"))
          else match dump2 (manifest_json info) with
          | Throw what => (st, <[nm := Dir (write_file (manifest_io io) "manifest.json" [] files2)]> d, Throw what)
          | Ret text =>
              let d1 := <[nm := Dir (write_file (manifest_io io) "manifest.json" (str_bytes text) files2)]> d in
              if negb (accepted (manifest_io io)) then (st, d1, Ret (Some "failed to write manifest"))
              else (set_index (<[nm := info]> (index_ st)) st, d1, Ret None)
          end
      end
  end.

(** [remove_all]: everything removed, or an error and what it left behind; its
    count is then the largest [uintmax_t]. *)
Inductive remove_io := RemovedAll | RemoveFailed (remains : option dir_entry).

Definition Remove (io : remove_io) (nm : string) (st : ModuleStore) (d : disk) : ModuleStore * disk * bool :=
  if negb (ValidModuleName nm) then (st, d, false) else
  let existed := bool_decide (is_Some (index_ st !! nm)) in
  let st1 := set_index (delete nm (index_ st)) st in
  match io with
  | RemovedAll => (st1, delete nm d, existed || bool_decide (is_Some (d !! nm)))
  | RemoveFailed remains => (st1, partial_alter (λ _, remains) nm d, true)
  end.

Definition GetInfo (nm : string) (st : ModuleStore) : option StoredModuleInfo := index_ st !! nm.
Definition List_ (st : ModuleStore) : list StoredModuleInfo := (hash_iter (index_ st)).*2.

(** [ReadFileBytes] of a module's bytecode. *)
Definition ReadFileBytes (d : disk) (entry : string) : option bytes :=
  match d !! entry with Some (Dir files) => files !! "module.wasm" | _ => None end.

(** [LoadBytecode]: the error, or the bytes. *)
Definition LoadBytecode (nm : string) (st : ModuleStore) (d : disk) : string + bytes :=
  match index_ st !! nm with
  | None => inl "module not in store"
  | Some info =>
      match ReadFileBytes d (wasm_path info) with
      | None => inl ("cannot read " +:+ path_append (path_append (dir_ st) (wasm_path info)) "module.wasm")
      | Some data => inr data
      end
  end.
End store.
