(* ===== verification/ModuleStoreRestart.v ===== *)
(** * The module store across restarts

    The store refines a map from names to deployments: after any run of saves
    and removals, the index and what a new process reads from the directory both
    are that map, whatever fails before a module's bytecode is in place.  What is
    indexed from any directory, however damaged, has the recorded digest. *)

From Stdlib Require Import Strings.Ascii.
From S2P Require Import Prelude Json StorageJson ModuleStore.
From coqutil Require Import Byte.

(** ** Text the manifests hold *)

Lemma utf8_cons c s : byte.unsigned (byte_of_ascii c) <= 127 → utf8 (String c s) = utf8 s.
Proof.
  intros Hc. unfold utf8, str_bytes. simpl.
  unfold in_range at 1. pose proof (byte.unsigned_range (byte_of_ascii c)).
  rewrite (proj2 (Z.leb_le _ _)), (proj2 (Z.leb_le _ _)) by lia. done.
Qed.

Lemma utf8_ascii s :
  Forall (λ c, byte.unsigned (byte_of_ascii c) <= 127) (String.list_ascii_of_string s) → utf8 s = true.
Proof. induction s as [|c s IH]; [done|]. intros [Hc Hs]%Forall_cons. rewrite utf8_cons by done. by apply IH. Qed.

Lemma valid_name_utf8 nm : ValidModuleName nm = true → utf8 nm = true.
Proof.
  unfold ValidModuleName. destruct (_ || _); [done|]. intros [[H _]%andb_true_iff _]%andb_true_iff.
  apply utf8_ascii, Forall_forall. intros c Hc. apply list_elem_of_In in Hc.
  rewrite forallb_forall in H. specialize (H c Hc). revert H. unfold isalnum. clear Hc.
  destruct c as [[] [] [] [] [] [] [] []]; vm_compute; congruence.
Qed.

Lemma hex_ascii n : byte.unsigned (byte_of_ascii (hex n)) <= 127.
Proof.
  unfold hex. destruct (String.get (Z.to_nat n) "0123456789abcdef") as [c|] eqn:E; [|vm_compute; congruence].
  revert E. generalize (Z.to_nat n) as k. intros k E.
  do 16 (destruct k as [|k]; [injection E as <-; vm_compute; congruence|]). destruct k; discriminate E.
Qed.

Lemma hex_string_utf8 digest : utf8 (hex_string digest) = true.
Proof. induction digest as [|b digest IH]; [done|]. simpl. by rewrite !utf8_cons by apply hex_ascii. Qed.

(** ** The abstract store *)

Record deployment := { dep_version : string; dep_bytecode : bytes; dep_at : Z }.

Section restart.
Context `{JL : JsonLib} {ID : IndentedDump JL} {SH : Sha256} `{HO : HashOrder}.

Definition info_of (nm : string) (dep : deployment) : StoredModuleInfo :=
  {| name := nm; version := dep_version dep; sha256 := Sha256Hex (dep_bytecode dep);
     deployed_at_ms := dep_at dep; size_bytes := zlength (dep_bytecode dep); wasm_path := nm |}.

Definition deployment_wf (dep : deployment) : Prop :=
  utf8 (dep_version dep) = true ∧ is_u 64 (dep_at dep) ∧ is_u 64 (zlength (dep_bytecode dep)).

(** The files of a deployed module. *)
Definition stored (nm : string) (dep : deployment) (files : gmap string bytes) : Prop :=
  files !! "module.wasm" = Some (dep_bytecode dep) ∧
  ∃ text, files !! "manifest.json" = Some (str_bytes text) ∧
          parse text = Some (json_text (manifest_json (info_of nm dep))).

Lemma manifest_ok nm dep :
  ValidModuleName nm = true → deployment_wf dep → json_ok (manifest_json (info_of nm dep)) = true.
Proof.
  intros Hn (Hv & Hat & Hsz). apply json_ok_object. unfold is_u in *.
  repeat (apply map_Forall_insert_2; [split; [done|]|]); simpl.
  - by apply valid_name_utf8.
  - done.
  - apply hex_string_utf8.
  - apply bool_decide_eq_true_2. lia.
  - apply bool_decide_eq_true_2. lia.
  - apply map_Forall_empty.
Qed.

Lemma index_entry_stored nm dep files :
  deployment_wf dep → stored nm dep files → index_entry nm files = Ret (Some (info_of nm dep)).
Proof.
  intros (_ & Hat & Hsz) (Hw & text & Hm & Hp). unfold index_entry.
  rewrite Hm. simpl. rewrite bytes_str_bytes, Hp.
  assert (Hf : ∀ k v, (<["name" := JString nm]> (<["version" := JString (dep_version dep)]>
     (<["sha256" := JString (Sha256Hex (dep_bytecode dep))]> (<["deployed_at_ms" := JInt (dep_at dep)]>
      {[ "size_bytes" := JInt (zlength (dep_bytecode dep)) ]} : gmap string json)))) !! k = Some v →
     json_field k (json_text (manifest_json (info_of nm dep))) = Some (json_text v)).
  { intros k v Hk. unfold manifest_json. rewrite json_field_text_object. simpl. by rewrite Hk. }
  unfold member, string_value, uint64_value.
  rewrite (Hf "name" (JString nm)), (Hf "version" (JString (dep_version dep))),
    (Hf "sha256" (JString (Sha256Hex (dep_bytecode dep)))), (Hf "deployed_at_ms" (JInt (dep_at dep)))
    by reflexivity.
  rewrite !bool_decide_eq_false_2 by done. simpl. rewrite Hw, bool_decide_eq_true_2 by done. simpl.
  unfold info_of. by rewrite !u64_small.
Qed.
(** ** Indexing a directory *)

Lemma index_entry_ext nm files files' :
  files !! "manifest.json" = files' !! "manifest.json" → files !! "module.wasm" = files' !! "module.wasm" →
  index_entry nm files = index_entry nm files'.
Proof. unfold index_entry. by intros -> ->. Qed.

Lemma index_entries_spec (f : string → option StoredModuleInfo) l : ∀ index,
  NoDup l.*1 → (∀ k, (k, OtherFile) ∉ l) →
  (∀ k files, (k, Dir files) ∈ l → index_entry k files = Ret (f k) ∧ ∀ i, f k = Some i → name i = k) →
  ∃ index', index_entries l index = (index', Ret ()) ∧
    ∀ k, index' !! k = if decide (k ∈ l.*1) then f k ∪ index !! k else index !! k.
Proof.
  induction l as [|[k [files|]] l IH]; intros index Hnd Ho Hf.
  - exists index. split; [done|]. intros k. by rewrite decide_False by apply not_elem_of_nil.
  - apply NoDup_cons in Hnd as [Hk Hnd]. destruct (Hf k files) as [He Hname]; [by left|].
    destruct (IH (match f k with Some i => <[k := i]> index | None => index end)) as (index' & H1 & H2).
    { done. } { intros k' Hk'. apply (Ho k'). by right. } { intros k' fs Hk'. apply Hf. by right. }
    exists index'. split.
    + simpl. rewrite He. destruct (f k) as [i|]; [by rewrite (Hname i)|done].
    + intros k'. rewrite H2. simpl. destruct (decide (k' = k)) as [->|Hne].
      * rewrite decide_False by done. rewrite decide_True by (by left).
        destruct (f k); [rewrite lookup_insert_eq|]; by destruct (index !! k).
      * assert (k' ∈ k :: l.*1 ↔ k' ∈ l.*1) as Hiff by (rewrite elem_of_cons; naive_solver).
        assert ((match f k with Some i => <[k:=i]> index | None => index end) !! k' = index !! k') as ->.
        { destruct (f k); [by rewrite lookup_insert_ne|done]. }
        destruct (decide (k' ∈ l.*1)); [rewrite decide_True by tauto|rewrite decide_False by tauto]; done.
  - destruct (Ho k). by left.
Qed.

(** ** What a store and its directory represent *)

Definition represents (m : gmap string deployment) (st : ModuleStore) (d : disk) : Prop :=
  map_Forall (λ nm dep, ValidModuleName nm = true ∧ deployment_wf dep ∧
                        ∃ files, d !! nm = Some (Dir files) ∧ stored nm dep files) m ∧
  (∀ nm, index_ st !! nm = info_of nm <$> m !! nm) ∧
  (∀ nm files, d !! nm = Some (Dir files) → m !! nm = None → index_entry nm files = Ret None) ∧
  (∀ nm, d !! nm ≠ Some OtherFile).

Lemma Initialize_represents m st d st0 :
  represents m st d → Initialize true true d st0 = (set_index (index_ st) st0, Ret true).
Proof.
  intros (Hm & Hi & Hn & Ho). unfold Initialize. simpl.
  destruct (index_entries_spec (λ nm, info_of nm <$> m !! nm) (hash_iter d) ∅) as (index' & H1 & H2).
  - apply hash_iter_NoDup.
  - intros k Hk%elem_of_hash_iter. by apply (Ho k).
  - intros k files Hk%elem_of_hash_iter. split; [|intros i; destruct (m !! k); [by intros [= <-]|done]].
    destruct (m !! k) as [dep|] eqn:Em; [|by apply Hn].
    destruct (Hm _ _ Em) as (_ & Hwf & files' & Hd & Hs). simplify_eq/=. by apply index_entry_stored.
  - rewrite H1. simpl. assert (index' = index_ st) as ->; [|done].
    apply map_eq. intros k. rewrite H2, Hi, lookup_empty.
    destruct (decide (k ∈ (hash_iter d).*1)) as [|Hk]; [by destruct (m !! k)|].
    destruct (m !! k) as [dep|] eqn:Em; [|done]. destruct Hk.
    destruct (Hm _ _ Em) as (_ & _ & files & Hd & _).
    apply list_elem_of_fmap. exists (k, Dir files). split; [done|]. by apply elem_of_hash_iter.
Qed.

(** ** Operations *)

(** Everything up to and including the rename works. *)
Definition in_place (io : save_io) : bool :=
  bool_decide (mkdir_error io = None) && (opened (wasm_io io) && accepted (wasm_io io))
  && bool_decide (rename_error io = None).

(** A save whose streams keep what they accept and whose manifest is written. *)
Definition save_fine (io : save_io) (ver : string) (bytecode : bytes) : Prop :=
  (accepted (wasm_io io) = true → kept (wasm_io io) = None) ∧
  manifest_io io = {| opened := true; accepted := true; kept := None |} ∧
  utf8 ver = true ∧ is_u 64 (zlength bytecode).

Definition deployed_by (io : save_io) (ver : string) (bytecode : bytes) : deployment :=
  {| dep_version := ver; dep_bytecode := bytecode; dep_at := u64 (now_ms io) |}.

(** Replacing a directory by one that reads the same changes nothing. *)
Lemma represents_same_files m st d nm files files' :
  represents m st d → create_module_dir None nm d = inr files →
  files' !! "manifest.json" = files !! "manifest.json" → files' !! "module.wasm" = files !! "module.wasm" →
  represents m st (<[nm := Dir files']> d).
Proof.
  intros (Hm & Hi & Hn & Ho) Hd H1 H2. unfold create_module_dir in Hd.
  split_and!; [|done| |].
  - intros k dep Hk. destruct (Hm k dep Hk) as (Hv & Hwf & fs & Hfs & Hw & text & Ht & Hp).
    split; [done|]. split; [done|]. destruct (decide (k = nm)) as [->|Hne].
    + rewrite Hfs in Hd. simplify_eq/=. exists files'. rewrite lookup_insert_eq. split; [done|].
      split; [congruence|]. exists text. split; [congruence|done].
    + exists fs. rewrite lookup_insert_ne by done. split; [done|]. split; [done|]. by exists text.
  - intros k fs Hk Hmk. destruct (decide (k = nm)) as [->|Hne].
    + rewrite lookup_insert_eq in Hk. injection Hk as <-. rewrite (index_entry_ext _ _ files) by done.
      destruct (d !! nm) as [[fs|]|] eqn:E; simplify_eq/=; [by apply Hn|done].
    + rewrite lookup_insert_ne in Hk by done. by apply Hn.
  - intros k. destruct (decide (k = nm)) as [->|Hne]; [by rewrite lookup_insert_eq|by rewrite lookup_insert_ne].
Qed.

Lemma represents_deploy m st d nm dep files :
  represents m st d → ValidModuleName nm = true → deployment_wf dep → stored nm dep files →
  represents (<[nm := dep]> m) (set_index (<[nm := info_of nm dep]> (index_ st)) st) (<[nm := Dir files]> d).
Proof.
  intros (Hm & Hi & Hn & Ho) Hv Hwf Hs. split_and!.
  - intros k dep' Hk. destruct (decide (k = nm)) as [->|Hne].
    + rewrite lookup_insert_eq in Hk. injection Hk as <-. split; [done|]. split; [done|].
      exists files. by rewrite lookup_insert_eq.
    + rewrite lookup_insert_ne in Hk by done. destruct (Hm k dep' Hk) as (? & ? & fs & ? & ?).
      split; [done|]. split; [done|]. exists fs. by rewrite lookup_insert_ne.
  - intros k. simpl. destruct (decide (k = nm)) as [->|Hne]; [by rewrite !lookup_insert_eq|].
    by rewrite !lookup_insert_ne by done.
  - intros k fs Hk Hmk. destruct (decide (k = nm)) as [->|Hne]; [by rewrite lookup_insert_eq in Hmk|].
    rewrite lookup_insert_ne in Hk by done. rewrite lookup_insert_ne in Hmk by done. by apply Hn.
  - intros k. destruct (decide (k = nm)) as [->|Hne]; [by rewrite lookup_insert_eq|by rewrite lookup_insert_ne].
Qed.

Lemma represents_remove m st d nm :
  represents m st d → represents (delete nm m) (set_index (delete nm (index_ st)) st) (delete nm d).
Proof.
  intros (Hm & Hi & Hn & Ho). split_and!.
  - intros k dep' [Hne Hk]%lookup_delete_Some. destruct (Hm k dep' Hk) as (? & ? & fs & ? & ?).
    split; [done|]. split; [done|]. exists fs. by rewrite lookup_delete_ne.
  - intros k. simpl. destruct (decide (k = nm)) as [->|Hne]; [by rewrite !lookup_delete_eq|].
    by rewrite !lookup_delete_ne by done.
  - intros k fs [Hne Hk]%lookup_delete_Some Hmk. rewrite lookup_delete_ne in Hmk by done. by apply Hn.
  - intros k [_ Hk]%lookup_delete_Some. by apply (Ho k).
Qed.

Lemma Save_represents io nm ver bytecode m st d :
  represents m st d → save_fine io ver bytecode →
  ∃ st' d' r, Save io nm ver bytecode st d = (st', d', Ret r) ∧ dir_ st' = dir_ st ∧
    (r = None ↔ ValidModuleName nm && in_place io = true) ∧
    represents (if ValidModuleName nm && in_place io then <[nm := deployed_by io ver bytecode]> m else m) st' d'.
Proof.
  intros Hr (Hkept & Hman & Hver & Hlen). unfold Save, in_place.
  destruct (ValidModuleName nm) eqn:Hv; cbn [negb andb]; [|by do 3 eexists].
  destruct (mkdir_error io) as [msg|]; [by do 3 eexists|].
  destruct (create_module_dir None nm d) as [msg|files] eqn:Hd.
  { exfalso. revert Hd. unfold create_module_dir. destruct (d !! nm) as [[]|] eqn:E; [done| |done].
    destruct Hr as (_ & _ & _ & Ho). by destruct (Ho nm). }
  rewrite (bool_decide_eq_true_2 (None = None)) by done. cbn [andb].
  set (files1 := write_file (wasm_io io) "module.wasm.tmp" bytecode files).
  assert (Hfiles1 : represents m st (<[nm := Dir files1]> d)).
  { apply (represents_same_files m st d nm files files1); [done|done|..]; unfold files1, write_file;
      destruct (opened (wasm_io io)); by rewrite ?lookup_insert_ne. }
  destruct (opened (wasm_io io)) eqn:Hop; cbn [negb andb]; [|by do 3 eexists].
  destruct (accepted (wasm_io io)) eqn:Hac; cbn [negb andb]; [|by do 3 eexists].
  destruct (rename_error io) as [msg|]; [by do 3 eexists|].
  rewrite (bool_decide_eq_true_2 (None = None)) by done. cbn [andb]. rewrite Hman. cbn [opened accepted negb].
  set (dep := deployed_by io ver bytecode).
  assert (Hwf : deployment_wf dep) by (split_and!; [done|apply Z.mod_pos_bound; lia|done]).
  rewrite (u64_small (zlength bytecode)) by done.
  assert (Hinfo : {| name := nm; version := ver; sha256 := Sha256Hex bytecode; deployed_at_ms := u64 (now_ms io);
     size_bytes := zlength bytecode; wasm_path := nm |} = info_of nm dep) by done.
  rewrite Hinfo. destruct (parse_dump2 _ (manifest_ok nm dep Hv Hwf)) as (text & -> & Htext).
  do 3 eexists. split; [done|]. split; [done|]. split; [done|].
  apply represents_deploy; [done..|]. unfold rename_file, files1, write_file. rewrite Hop, Hkept by done.
  rewrite lookup_insert_eq. simpl. split.
  - by rewrite lookup_insert_ne, lookup_insert_eq.
  - exists text. by rewrite lookup_insert_eq.
Qed.
(** ** Runs *)

Inductive store_op := OpSave (io : save_io) (nm ver : string) (bytecode : bytes) | OpRemove (nm : string).

Definition apply_op (s : ModuleStore * disk) (op : store_op) : ModuleStore * disk :=
  match op with
  | OpSave io nm ver bytecode => (Save io nm ver bytecode s.1 s.2).1
  | OpRemove nm => (Remove RemovedAll nm s.1 s.2).1
  end.

Definition spec_op (m : gmap string deployment) (op : store_op) : gmap string deployment :=
  match op with
  | OpSave io nm ver bytecode =>
      if ValidModuleName nm && in_place io then <[nm := deployed_by io ver bytecode]> m else m
  | OpRemove nm => if ValidModuleName nm then delete nm m else m
  end.

Definition op_fine (op : store_op) : Prop :=
  match op with OpSave io _ ver bytecode => save_fine io ver bytecode | OpRemove _ => True end.

Lemma apply_op_represents m s op :
  represents m s.1 s.2 → op_fine op →
  represents (spec_op m op) (apply_op s op).1 (apply_op s op).2 ∧ dir_ (apply_op s op).1 = dir_ s.1.
Proof.
  intros Hr Hf. destruct op as [io nm ver bytecode|nm]; simpl.
  - destruct (Save_represents io nm ver bytecode m s.1 s.2 Hr Hf) as (st' & d' & r & -> & Hd & _ & Hr'). done.
  - unfold Remove. destruct (ValidModuleName nm); [|done]. simpl. split; [by apply represents_remove|done].
Qed.

Lemma run_represents ops : ∀ m s,
  represents m s.1 s.2 → Forall op_fine ops →
  represents (foldl spec_op m ops) (foldl apply_op s ops).1 (foldl apply_op s ops).2 ∧
  dir_ (foldl apply_op s ops).1 = dir_ s.1.
Proof.
  induction ops as [|op ops IH]; intros m s Hr Hf; [done|]. apply Forall_cons in Hf as [Hop Hops].
  destruct (apply_op_represents m s op Hr Hop) as [Hr1 Hd1]. simpl.
  destruct (IH _ _ Hr1 Hops) as [Hr2 Hd2]. split; [done|congruence].
Qed.

Lemma represents_empty dir : represents ∅ (new_ModuleStore dir) ∅.
Proof. split_and!; [apply map_Forall_empty|done|done|done]. Qed.

(** C22.  Deployed modules survive a restart.  After any run of saves and
    removals from an empty directory, in which directories, temporary files and
    renames may fail anywhere but streams keep what they accept and manifests are
    written, a new process indexes exactly the modules the old one had: per name
    the last deployment that was not removed, with its version, digest, time and
    size, and its bytecode loads unchanged.  A save answers true exactly when its
    name is valid and its bytecode is in place; one that fails leaves the
    previous deployment in service. *)
Theorem store_survives_restart dir ops (Hfine : Forall op_fine ops) :
  let m := foldl spec_op ∅ ops in
  let '(st, d) := foldl apply_op (new_ModuleStore dir, ∅) ops in
  Initialize true true d (new_ModuleStore dir) = (st, Ret true) ∧
  (∀ nm, GetInfo nm st = info_of nm <$> m !! nm) ∧
  (∀ nm, LoadBytecode nm st d = match m !! nm with
                                | Some dep => inr (dep_bytecode dep)
                                | None => inl "module not in store" end) ∧
  (∀ io nm ver bytecode, save_fine io ver bytecode →
     ∃ st' d' r, Save io nm ver bytecode st d = (st', d', Ret r) ∧
                 (r = None ↔ ValidModuleName nm && in_place io = true)).
Proof.
  intros m. destruct (run_represents ops ∅ (new_ModuleStore dir, ∅) (represents_empty dir) Hfine) as [Hr Hd].
  destruct (foldl apply_op _ ops) as [st d]. simpl in Hr, Hd. fold m in Hr. split_and!.
  - rewrite (Initialize_represents m st d) by done. destruct st as [dir' idx]. simpl in *. by subst.
  - intros nm. unfold GetInfo. apply Hr.
  - intros nm. unfold LoadBytecode. destruct Hr as (Hm & Hi & _). rewrite Hi.
    destruct (m !! nm) as [dep|] eqn:Em; [|done].
    destruct (Hm _ _ Em) as (_ & _ & files & Hfiles & Hw & _). simpl. unfold ReadFileBytes. by rewrite Hfiles, Hw.
  - intros io nm ver bytecode Hf.
    destruct (Save_represents io nm ver bytecode m st d Hr Hf) as (st' & d' & r & ? & _ & ? & _).
    by exists st', d', r.
Qed.

(** ** Damaged directories *)

(** What [index_entry] accepts has the recorded digest and size. *)
Definition verified (d : disk) (nm : string) (info : StoredModuleInfo) : Prop :=
  name info = nm ∧ ∃ files wasm, d !! wasm_path info = Some (Dir files) ∧ files !! "module.wasm" = Some wasm ∧
    sha256 info = Sha256Hex wasm ∧ size_bytes info = u64 (zlength wasm).

Lemma index_entry_verified d entry files info :
  d !! entry = Some (Dir files) → index_entry entry files = Ret (Some info) → verified d (name info) info.
Proof.
  intros Hd. unfold index_entry. destruct (_ ≫= _) as [manifest|]; [|done].
  destruct (_ || _); [done|]. destruct (files !! "module.wasm") as [wasm|] eqn:Hw; [|done].
  destruct (member "sha256" manifest ≫= as_string) as [expected|]; [|done]. simpl.
  case_bool_decide as Hsha; [|done]. simpl. destruct (member "name" manifest ≫= as_string) as [nm|]; [|done]. simpl.
  destruct (string_value _ _ _) as [ver|]; [|done]. simpl. destruct (uint64_value _ _ _) as [dep|]; [|done].
  intros [= <-]. split; [done|]. by exists files, wasm.
Qed.

Lemma index_entries_verified d l : ∀ index index' r,
  (∀ k e, (k, e) ∈ l → d !! k = Some e) → map_Forall (verified d) index →
  index_entries l index = (index', r) → map_Forall (verified d) index'.
Proof.
  induction l as [|[k [files|]] l IH]; intros index index' r Hl Hidx; simpl.
  - by intros [= <- <-].
  - destruct (index_entry k files) as [[info|]|what] eqn:E.
    + apply IH; [intros k' e He; apply Hl; by right|]. apply map_Forall_insert_2; [|done].
      eapply index_entry_verified; [|done]. apply Hl. by left.
    + apply IH; [intros k' e He; apply Hl; by right|done].
    + by intros [= <- <-].
  - apply IH; [intros k' e He; apply Hl; by right|done].
Qed.

(** Nothing corrupt is served.  Whatever the directory holds (after a crash,
    a failed save or tampering) and however [Initialize] ends, every module it
    indexed is on disk under its own name ([verified]) and loads, and the bytes have the recorded digest and size; a save or a
    removal of one name, whatever fails in it, leaves every other module's index
    entry and directory alone, and a save that does not answer true leaves the
    index as it was. *)
Theorem store_integrity create_ok list_ok d st0 st r
    (Hinit : Initialize create_ok list_ok d (new_ModuleStore st0) = (st, r)) :
  (∀ nm info, GetInfo nm st = Some info →
     verified d nm info ∧ ∃ wasm, LoadBytecode nm st d = inr wasm ∧ sha256 info = Sha256Hex wasm ∧
                                  size_bytes info = u64 (zlength wasm)) ∧
  (∀ io nm ver bytecode k, k ≠ nm →
     let '(st', d', saved) := Save io nm ver bytecode st d in
     index_ st' !! k = index_ st !! k ∧ d' !! k = d !! k ∧ (saved ≠ Ret None → st' = st)) ∧
  (∀ io nm k, k ≠ nm →
     let '(st', d', _) := Remove io nm st d in index_ st' !! k = index_ st !! k ∧ d' !! k = d !! k).
Proof.
  split; [|split].
  - intros nm info Hinfo.
    assert (Hall : map_Forall (verified d) (index_ st)).
    { unfold Initialize in Hinit. destruct create_ok; simpl in Hinit; [|injection Hinit as <- <-; apply map_Forall_empty].
      destruct (index_entries _ ∅) as [index r'] eqn:E. injection Hinit as <- <-. simpl.
      eapply index_entries_verified; [|apply map_Forall_empty|exact E].
      intros k e Hk. destruct list_ok; [by apply elem_of_hash_iter|by apply not_elem_of_nil in Hk]. }
    split; [by apply Hall|].
    destruct (Hall _ _ Hinfo) as (Hn & files & wasm & Hd & Hw & Hs & Hsz). exists wasm. unfold LoadBytecode. unfold GetInfo in Hinfo. rewrite Hinfo. unfold ReadFileBytes. by rewrite Hd, Hw.
  - intros io nm ver bytecode k Hk. unfold Save.
    repeat case_match; simplify_eq/=; by rewrite ?lookup_insert_ne.
  - intros io nm k Hk. unfold Remove. destruct (negb _); [done|].
    destruct io as [|remains]; simpl; rewrite lookup_delete_ne by done; [by rewrite lookup_delete_ne|].
    by rewrite lookup_partial_alter_ne.
Qed.
End restart.

(** ** A redeployment that fails half-way *)

#[local] Existing Instance std_json.
#[local] Existing Instance std_order.

Definition std_indented : IndentedDump std_json.
Proof.
  refine {| dump2 := std_dump : json → exc string |}.
  intros j Hj. destruct (std_parse_dump j Hj) as (s & H1 & H2 & _). by exists s.
Defined.

#[local] Existing Instance std_indented.
#[local] Instance identity_digest : Sha256 := λ data, data.

Definition good_write : write_io := {| opened := true; accepted := true; kept := None |}.
Definition good_save (now : Z) : save_io :=
  {| mkdir_error := None; wasm_io := good_write; rename_error := None; manifest_io := good_write; now_ms := now |}.

(** The first version is deployed; the second fails to open its manifest, after
    its bytecode has replaced the first's. *)
Definition no_manifest : save_io :=
  {| mkdir_error := None; wasm_io := good_write; rename_error := None;
     manifest_io := {| opened := false; accepted := false; kept := None |}; now_ms := 2 |}.

Definition first := apply_op (new_ModuleStore "modules", ∅) (OpSave (good_save 1) "m" "1" [Byte.x01]).
Definition second := Save no_manifest "m" "2" [Byte.x02] first.1 first.2.

(** The failed save loses the deployed module: the running process still lists
    version 1 but loads the bytes of version 2, and the next one finds neither. *)
Theorem failed_redeploy_loses_module :
  second.2 = Ret (Some "failed to write manifest") ∧
  version <$> GetInfo "m" second.1.1 = Some "1" ∧ LoadBytecode "m" second.1.1 second.1.2 = inr [Byte.x02] ∧
  (Initialize true true second.1.2 (new_ModuleStore "modules")).2 = Ret true ∧
  GetInfo "m" (Initialize true true second.1.2 (new_ModuleStore "modules")).1 = None.
Proof. split_and!; vm_compute; reflexivity. Qed.

Definition demo_ops : list store_op :=
  [OpSave (good_save 1) "m" "1" [Byte.x01]; OpSave (good_save 2) "n" "1" [Byte.x02];
   OpSave {| mkdir_error := None; wasm_io := {| opened := true; accepted := false; kept := Some 0%nat |};
             rename_error := None; manifest_io := good_write; now_ms := 3 |} "m" "2" [Byte.x03];
   OpRemove "n"].

Lemma store_survives_restart_witness :
  let '(st, d) := foldl apply_op (new_ModuleStore "modules", ∅) demo_ops in
  Initialize true true d (new_ModuleStore "modules") = (st, Ret true) ∧
  LoadBytecode "m" st d = inr [Byte.x01] ∧ LoadBytecode "n" st d = inl "module not in store".
Proof.
  assert (Hf : Forall op_fine demo_ops).
  { repeat constructor; simpl; try done; unfold is_u, zlength; simpl; lia. }
  pose proof (store_survives_restart "modules" demo_ops Hf) as H.
  destruct (foldl apply_op _ demo_ops) as [st d]. destruct H as (H1 & _ & H3 & _).
  split; [exact H1|]. split; [rewrite (H3 "m"); reflexivity|rewrite (H3 "n"); reflexivity].
Defined.

(** The directory the failed save left: nothing is indexed, nothing corrupt. *)
Lemma store_integrity_witness :
  GetInfo "m" (Initialize true true first.2 (new_ModuleStore "modules")).1 = Some (info_of "m"
    {| dep_version := "1"; dep_bytecode := [Byte.x01]; dep_at := 1 |}) ∧
  ∃ wasm, LoadBytecode "m" (Initialize true true first.2 (new_ModuleStore "modules")).1 first.2 = inr wasm ∧
          Sha256Hex [Byte.x01] = Sha256Hex wasm.
Proof.
  assert (Hi : GetInfo "m" (Initialize true true first.2 (new_ModuleStore "modules")).1 = Some (info_of "m"
    {| dep_version := "1"; dep_bytecode := [Byte.x01]; dep_at := 1 |})) by (vm_compute; reflexivity).
  split; [exact Hi|].
  destruct (store_integrity true true first.2 "modules" _ _ (surjective_pairing _)) as [H _].
  destruct (H "m" _ Hi) as (_ & wasm & H1 & H2 & _). exists wasm. split; [exact H1|exact H2].
Defined.
