(* ===== verification/Auth.v ===== *)
(** * Authentication (src/common/auth.cpp, include/grpc/auth_check.h)

    Two bearer tokens with two scopes, loaded from <data>/auth/tokens.json or
    generated at the first start.  The directory is a map of files; the outcome
    of every file operation and the random bytes of OpenSSL are arguments, as in
    [ModuleStore].  File modes are left out. *)

From S2P Require Import Prelude Json StorageJson ModuleStore.
From coqutil Require Import Byte.

Inductive AuthScope := CLIENT | ADMIN.

#[export] Instance AuthScope_eq_dec : EqDecision AuthScope.
Proof. solve_decision. Defined.

Record AuthManager := {
  admin_token_ : string;
  client_token_ : string;
  generated_ : bool
}.

Definition new_AuthManager (admin_override client_override : string) : AuthManager :=
  {| admin_token_ := admin_override; client_token_ := client_override; generated_ := false |}.
Definition set_tokens (admin client : string) (generated : bool) : AuthManager :=
  {| admin_token_ := admin; client_token_ := client; generated_ := generated |}.

(** ** Checking a token *)

Fixpoint diff_loop (diff : Z) (a b : bytes) : Z :=
  match a, b with
  | x :: a, y :: b => diff_loop (Z.lor diff (Z.lxor (byte.unsigned x) (byte.unsigned y))) a b
  | _, _ => diff
  end.

Definition ConstantTimeEquals (a b : string) : bool :=
  if negb (str_len a =? str_len b) then false else diff_loop 0 (str_bytes a) (str_bytes b) =? 0.

Definition Check (token : string) (scope : AuthScope) (m : AuthManager) : bool :=
  if bool_decide (token = "") then false
  else if ConstantTimeEquals token (admin_token_ m) then true
  else if bool_decide (scope = CLIENT) && ConstantTimeEquals token (client_token_ m) then true
  else false.

Definition kPrefix : string := "Bearer ".
Definition StripBearer (header_value : string) : string :=
  if String.prefix kPrefix header_value then String.substring 7 (String.length header_value - 7) header_value
  else header_value.

(** [CheckAuth]: no manager means no authentication; the header is the
    "authorization" metadata of the call. *)
Inductive Status := OK | UNAUTHENTICATED (message : string) | PERMISSION_DENIED (message : string).

Definition CheckAuth (auth : option AuthManager) (header : option string) (scope : AuthScope) : Status :=
  match auth with
  | None => OK
  | Some m =>
      match header with
      | None => UNAUTHENTICATED "missing authorization metadata (Bearer token)"
      | Some value =>
          if Check (StripBearer value) scope m then OK
          else PERMISSION_DENIED (if bool_decide (scope = ADMIN) then "admin token required for this operation"
                                  else "invalid token")
      end
  end.

(** ** Start-up *)

Definition GenerateToken (prefix : string) (random : bytes) : string := prefix +:+ hex_string random.

(** The outcomes of the file operations of [Initialize]; [None] for the random
    bytes is the failure of [RAND_bytes], which aborts the process. *)
Record init_io := {
  create_error : bool;
  admin_random : option bytes;
  client_random : option bytes;
  tmp_io : write_io;
  persist_error : bool
}.

(** How it ends: an answer, an exception, [abort()]. *)
Inductive ended := Returned (b : bool) | Threw (what : string) | Aborted.

Section auth.
Context `{JL : JsonLib} {ID : IndentedDump JL}.

(** [doc.value(key, "")] throws on a value that is not an object. *)
Definition value_or_empty (key : string) (doc : json) : exc string :=
  if is_object doc then match json_field key doc with Some v => as_string v | None => Ret "" end
  else Throw "json: cannot use value() with this type".

(** Loading the persisted tokens: those reached, and how it ended. *)
Definition load_tokens (files : gmap string bytes) (admin client : string) : string * string * exc () :=
  match files !! "tokens.json" ≫= λ text, parse (bytes_str text) with
  | None => (admin, client, Ret ())
  | Some doc =>
      match (if bool_decide (admin = "") then value_or_empty "admin_token" doc else Ret admin) with
      | Throw what => (admin, client, Throw what)
      | Ret admin =>
          match (if bool_decide (client = "") then value_or_empty "client_token" doc else Ret client) with
          | Throw what => (admin, client, Throw what)
          | Ret client => (admin, client, Ret ())
          end
      end
  end.

Definition tokens_json (admin client : string) : json :=
  object_of (<["admin_token" := JString admin]> {[ "client_token" := JString client ]}).

(** A token that is still missing. *)
Definition fill (prefix : string) (random : option bytes) (token : string) : option string :=
  if bool_decide (token = "") then GenerateToken prefix <$> random else Some token.

Definition Initialize (io : init_io) (m : AuthManager) (files : gmap string bytes)
    : AuthManager * gmap string bytes * ended :=
  if create_error io then (m, files, Returned false) else
  if negb (bool_decide (admin_token_ m = "")) && negb (bool_decide (client_token_ m = "")) then (m, files, Returned true) else
  match load_tokens files (admin_token_ m) (client_token_ m) with
  | (admin, client, Throw what) => (set_tokens admin client false, files, Threw what)
  | (admin, client, Ret ()) =>
      if negb (bool_decide (admin = "")) && negb (bool_decide (client = "")) then
        (set_tokens admin client false, files, Returned true) else
      match fill "odb_admin_" (admin_random io) admin, fill "odb_client_" (client_random io) client with
      | Some admin, Some client =>
          let m1 := set_tokens admin client true in
          if negb (opened (tmp_io io)) then (m1, files, Returned false) else
          match dump2 (tokens_json admin client) with
          | Throw what => (m1, write_file (tmp_io io) "tokens.json.tmp" [] files, Threw what)
          | Ret text =>
              let files1 := write_file (tmp_io io) "tokens.json.tmp" (str_bytes text) files in
              if negb (accepted (tmp_io io)) then (m1, files1, Returned false)
              else if persist_error io then (m1, files1, Returned false)
              else (m1, rename_file "tokens.json.tmp" "tokens.json" files1, Returned true)
          end
      | _, _ => (set_tokens admin client false, files, Aborted)
      end
  end.

(** ** What a token grants *)

Lemma diff_loop_zero a : ∀ d b, 0 <= d → length a = length b → diff_loop d a b = 0 ↔ d = 0 ∧ a = b.
Proof.
  induction a as [|x a IH]; intros d [|y b] Hd Hl; try done; simpl; [tauto|].
  pose proof (byte.unsigned_range x). pose proof (byte.unsigned_range y).
  rewrite IH; [|apply Z.lor_nonneg; split; [done|apply Z.lxor_nonneg; lia]|by injection Hl].
  rewrite Z.lor_eq_0_iff, Z.lxor_eq_0_iff. split.
  - intros [[-> E%byte.unsigned_inj] ->]. by subst.
  - by intros [-> [= -> ->]].
Qed.

Lemma ConstantTimeEquals_spec a b : ConstantTimeEquals a b = bool_decide (a = b).
Proof.
  unfold ConstantTimeEquals. destruct (str_len a =? str_len b) eqn:E; simpl.
  - apply Z.eqb_eq in E. unfold str_len, zlength in E.
    pose proof (diff_loop_zero (str_bytes a) 0 (str_bytes b) ltac:(done) ltac:(lia)) as H.
    case_bool_decide as Hab; [subst; apply Z.eqb_eq; by apply H|]. apply Z.eqb_neq. intros [_ E']%H. apply Hab.
    by rewrite <- (bytes_str_bytes a), E', bytes_str_bytes.
  - apply Z.eqb_neq in E. rewrite bool_decide_eq_false_2; [done|]. by intros ->.
Qed.

Lemma substring_suffix p s : String.substring (String.length p) (String.length (p +:+ s) - String.length p) (p +:+ s) = s.
Proof.
  induction p as [|c p IH]; [|exact IH].
  change (String.substring 0 (String.length s - 0) s = s). rewrite Nat.sub_0_r.
  induction s as [|c s IH]; [done|]. simpl. by rewrite IH.
Qed.

Lemma StripBearer_prefixed token : StripBearer (kPrefix +:+ token) = token.
Proof.
  unfold StripBearer. assert (String.prefix kPrefix (kPrefix +:+ token) = true) as ->.
  { destruct token; reflexivity. }
  exact (substring_suffix kPrefix token).
Qed.

Lemma Check_spec token scope m :
  Check token scope m = true ↔ token ≠ "" ∧ (token = admin_token_ m ∨ scope = CLIENT ∧ token = client_token_ m).
Proof. unfold Check. rewrite !ConstantTimeEquals_spec. repeat case_bool_decide; simpl; subst; naive_solver. Qed.

(** C30.  A call is admitted exactly on a token of its scope.  With
    authentication on, a client call needs one of the two tokens and an
    administrative call the administrator's, with or without the "Bearer "
    prefix; an empty token never passes, even where a stored token is empty; a
    missing header is distinguished from a wrong token. *)
Theorem CheckAuth_grants (m : AuthManager) (scope : AuthScope) :
  (∀ token, Check token scope m = true ↔
     token ≠ "" ∧ (token = admin_token_ m ∨ scope = CLIENT ∧ token = client_token_ m)) ∧
  (∀ token, CheckAuth (Some m) (Some (kPrefix +:+ token)) scope = OK ↔ Check token scope m = true) ∧
  (∀ value, String.prefix kPrefix value = false →
     CheckAuth (Some m) (Some value) scope = OK ↔ Check value scope m = true) ∧
  (∃ message, CheckAuth (Some m) None scope = UNAUTHENTICATED message) ∧
  (∀ value, CheckAuth (Some m) (Some value) scope = OK ∨
     ∃ message, CheckAuth (Some m) (Some value) scope = PERMISSION_DENIED message) ∧
  (∀ header, CheckAuth None header scope = OK).
Proof.
  assert (Hok : ∀ value, CheckAuth (Some m) (Some value) scope = OK ↔ Check (StripBearer value) scope m = true).
  { intros value. simpl. by destruct (Check _ scope m). }
  split_and!.
  - intros token. apply Check_spec.
  - intros token. by rewrite Hok, StripBearer_prefixed.
  - intros value Hp. rewrite Hok. unfold StripBearer. by rewrite Hp.
  - by eexists.
  - intros value. simpl. destruct (Check _ scope m); [by left|right; by eexists].
  - done.
Qed.
(** ** Restarting *)

Lemma tokens_json_ok admin client :
  utf8 admin = true → utf8 client = true → json_ok (tokens_json admin client) = true.
Proof.
  intros Ha Hc. apply json_ok_object. apply map_Forall_insert_2; [by split|]. apply map_Forall_singleton. by split.
Qed.

Lemma value_or_empty_json admin client :
  value_or_empty "admin_token" (json_text (tokens_json admin client)) = Ret admin ∧
  value_or_empty "client_token" (json_text (tokens_json admin client)) = Ret client.
Proof.
  assert (H : ∀ key v, (<["admin_token" := JString admin]> {[ "client_token" := JString client ]} : gmap string json) !! key
    = Some (JString v) → value_or_empty key (json_text (tokens_json admin client)) = Ret v).
  { intros key v Hk. unfold tokens_json, value_or_empty. rewrite json_field_text_object, Hk. done. }
  split; apply H; [apply lookup_insert_eq|]. rewrite lookup_insert_ne, lookup_singleton_eq by done. done.
Qed.

Lemma fill_some prefix random token token' :
  prefix ≠ "" → fill prefix random token = Some token' → token' ≠ "" ∧ (token ≠ "" → token' = token).
Proof.
  intros Hp. unfold fill. case_bool_decide as E.
  - destruct random as [r|]; [|done]. intros [= <-]. split; [|done]. by destruct prefix.
  - by intros [= <-].
Qed.

Lemma load_tokens_keeps files admin client admin' client' r :
  load_tokens files admin client = (admin', client', r) →
  (admin ≠ "" → admin' = admin) ∧ (client ≠ "" → client' = client).
Proof.
  unfold load_tokens. destruct (_ ≫= _) as [doc|]; [|by intros [= <- <- _]].
  repeat case_bool_decide; subst.
  - destruct (value_or_empty _ doc); [|by intros [= <- <- _]]. destruct (value_or_empty _ doc); by intros [= <- <- _].
  - destruct (value_or_empty _ doc); by intros [= <- <- _].
  - destruct (value_or_empty _ doc); by intros [= <- <- _].
  - by intros [= <- <- _].
Qed.

(** The two ways [Initialize] succeeds. *)
Lemma Initialize_true io admin client files m files1 :
  Initialize io (new_AuthManager admin client) files = (m, files1, Returned true) →
  (admin_token_ m ≠ "" ∧ client_token_ m ≠ "") ∧
  ((admin ≠ "" → admin_token_ m = admin) ∧ (client ≠ "" → client_token_ m = client)) ∧
  (generated_ m = false ∧ files1 = files ∨
   generated_ m = true ∧ ∃ text, dump2 (tokens_json (admin_token_ m) (client_token_ m)) = Ret text ∧ opened (tmp_io io) = true ∧
     files1 = rename_file "tokens.json.tmp" "tokens.json" (write_file (tmp_io io) "tokens.json.tmp" (str_bytes text) files)).
Proof.
  unfold Initialize. destruct (create_error io); [done|]. cbn [admin_token_ client_token_ new_AuthManager].
  destruct (negb _ && negb _) eqn:E0.
  { apply andb_true_iff in E0 as [Ha%negb_true_iff%bool_decide_eq_false Hc%negb_true_iff%bool_decide_eq_false].
    intros [= <- <-]. split; [done|]. split; [done|]. by left. }
  destruct (load_tokens files admin client) as [[a c] [[]|w]] eqn:El; [|done]. apply load_tokens_keeps in El as [Ka Kc].
  destruct (negb (bool_decide (a = "")) && negb (bool_decide (c = ""))) eqn:E1.
  { apply andb_true_iff in E1 as [Ha%negb_true_iff%bool_decide_eq_false Hc%negb_true_iff%bool_decide_eq_false].
    intros [= <- <-]. split; [done|]. split; [done|]. by left. }
  destruct (fill "odb_admin_" _ a) as [a'|] eqn:Fa; [|done]. destruct (fill "odb_client_" _ c) as [c'|] eqn:Fc; [|done].
  apply fill_some in Fa as [Na Sa]; [|done]. apply fill_some in Fc as [Nc Sc]; [|done].
  destruct (opened (tmp_io io)) eqn:Eo; [|done]. cbn [negb]. destruct (dump2 _) as [text|w] eqn:Ed; [|done].
  destruct (accepted (tmp_io io)); [|done]. destruct (persist_error io); [done|]. intros [= <- <-].
  split; [done|]. split; [cbn [admin_token_ client_token_ set_tokens]; split; intros H|].
  - rewrite Sa; rewrite Ka by done; done.
  - rewrite Sc; rewrite Kc by done; done.
  - right. split; [done|]. by exists text.
Qed.

Lemma Initialize_loads io admin client files a c :
  create_error io = false → a ≠ "" → c ≠ "" →
  load_tokens files admin client =
    (if bool_decide (admin = "") then a else admin, if bool_decide (client = "") then c else client, Ret ()) →
  Initialize io (new_AuthManager admin client) files =
    (set_tokens (if bool_decide (admin = "") then a else admin) (if bool_decide (client = "") then c else client) false,
     files, Returned true).
Proof.
  intros Hd Ha Hc Hl. unfold Initialize. rewrite Hd. cbn [admin_token_ client_token_ new_AuthManager].
  pose proof (bool_decide_eq_false_2 (a = "") Ha) as Ea'. pose proof (bool_decide_eq_false_2 (c = "") Hc) as Ec'. rewrite Hl.
  destruct (bool_decide (admin = "")) eqn:Ea, (bool_decide (client = "")) eqn:Ec; cbn [negb andb];
    rewrite ?Ea', ?Ec', ?Ea, ?Ec; reflexivity.
Qed.

(** C36.  Generated tokens outlive the process.  A start that succeeds has two
    tokens that are not empty, the given ones where given; if it generated none
    it left the disk as it was.  If it generated a token, the tokens are UTF-8 and
    the file kept what was written to it, every later start, its directory
    available, takes these two where no explicit token is given, generates
    nothing and changes nothing. *)
Theorem tokens_survive_restart io io' admin client files m files1
    (Hrun : Initialize io (new_AuthManager admin client) files = (m, files1, Returned true))
    (Hutf8 : utf8 (admin_token_ m) = true ∧ utf8 (client_token_ m) = true)
    (Hkept : kept (tmp_io io) = None) (Hdir : create_error io' = false) :
  (admin_token_ m ≠ "" ∧ client_token_ m ≠ "") ∧
  ((admin ≠ "" → admin_token_ m = admin) ∧ (client ≠ "" → client_token_ m = client)) ∧
  (generated_ m = false → files1 = files) ∧
  (generated_ m = true →
     ∀ admin' client', Initialize io' (new_AuthManager admin' client') files1 =
       (set_tokens (if bool_decide (admin' = "") then admin_token_ m else admin')
                   (if bool_decide (client' = "") then client_token_ m else client') false,
        files1, Returned true)).
Proof.
  destruct (Initialize_true _ _ _ _ _ _ Hrun) as ([Na Nc] & Hkeep & Hcase). split; [done|]. split; [done|].
  destruct Hcase as [[Hg ->]|(Hg & text & Hd & Ho & ->)]; rewrite Hg; [done|]. split; [done|]. intros _ admin' client'.
  destruct (parse_dump2 (tokens_json (admin_token_ m) (client_token_ m))) as (s & Hs & Hp); [apply tokens_json_ok; apply Hutf8|].
  rewrite Hd in Hs. injection Hs as <-. unfold write_file, rename_file. rewrite Ho, Hkept, lookup_insert_eq.
  destruct (value_or_empty_json (admin_token_ m) (client_token_ m)) as [Ta Tc].
  apply Initialize_loads; [exact Hdir|exact Na|exact Nc|].
  unfold load_tokens. rewrite lookup_insert_eq. cbn [mbind option_bind]. rewrite bytes_str_bytes, Hp, Ta, Tc.
  by destruct (bool_decide (admin' = "")), (bool_decide (client' = "")).
Qed.
End auth.

(** ** Instances *)

#[local] Existing Instance std_json.
#[local] Instance demo_indented : IndentedDump std_json.
Proof.
  refine {| dump2 := std_dump : json → exc string |}.
  intros j Hj. destruct (std_parse_dump j Hj) as (s & H1 & H2 & _). by exists s.
Defined.

Definition boot : init_io :=
  {| create_error := false; admin_random := Some (replicate 24 Byte.xa5); client_random := Some (replicate 24 Byte.x3c);
     tmp_io := {| opened := true; accepted := true; kept := None |}; persist_error := false |}.
Definition first_boot := Initialize boot (new_AuthManager "" "") ∅.

Lemma CheckAuth_grants_witness :
  CheckAuth (Some first_boot.1.1) (Some "secret") ADMIN = OK ↔ Check "secret" ADMIN first_boot.1.1 = true.
Proof. apply (CheckAuth_grants first_boot.1.1 ADMIN). vm_compute. reflexivity. Defined.

Lemma tokens_survive_restart_witness :
  Initialize boot (new_AuthManager "" "") first_boot.1.2 =
    (set_tokens (admin_token_ first_boot.1.1) (client_token_ first_boot.1.1) false, first_boot.1.2, Returned true).
Proof.
  assert (Hrun : first_boot = (first_boot.1.1, first_boot.1.2, Returned true)).
  { assert (first_boot.2 = Returned true) as <- by (vm_compute; reflexivity). by destruct first_boot as [[? ?] ?]. }
  destruct (tokens_survive_restart boot boot "" "" ∅ first_boot.1.1 first_boot.1.2 Hrun) as (_ & _ & _ & H);
    [vm_compute; split; reflexivity|reflexivity|reflexivity|].
  apply H. vm_compute. reflexivity.
Defined.
