(* ===== verification/WsFrame.v ===== *)
(** * WebSocket frames (src/websocket/websocket_server.cpp)

    The codec of frames and the loop of a connection that reassembles frames
    from what [recv] returns.  The handler of a message is a parameter here;
    [WsServer] supplies it. *)

From S2P Require Import Prelude Codec BinaryProtocol HostFunctions.
From coqutil Require Import Byte Word.LittleEndianList.

(** ** Reading a frame *)

Definition byte_at (data : bytes) (i : nat) : Z := byte.unsigned (nth i data Byte.x00).

Definition masked (second_byte : Z) : bool := negb (Z.land second_byte 0x80 =? 0).

(** The loop over the eight bytes of an extended length. *)
Definition length_loop (bs : bytes) : Z := fold_left (λ v b, Z.lor (u64 (Z.shiftl v 8)) (byte.unsigned b)) bs 0.

(** The size of the header and the length of the payload, once the header is
    there; both functions below start with this. *)
Definition frame_header (data : bytes) : option (Z * Z) :=
  let mask_size := if masked (byte_at data 1) then 4 else 0 in
  let payload_len := Z.land (byte_at data 1) 0x7F in
  if zlength data <? 2 then None
  else if payload_len =? 126 then
    if zlength data <? 4 then None
    else Some (4 + mask_size, Z.lor (Z.shiftl (byte_at data 2) 8) (byte_at data 3))
  else if payload_len =? 127 then
    if zlength data <? 10 then None
    else Some (10 + mask_size, length_loop (take 8 (drop 2 data)))
  else Some (2 + mask_size, payload_len).

(** The sum is one of [uint64_t]s. *)
Definition CompleteFrameSize (data : bytes) : Z :=
  match frame_header data with
  | Some (header, payload_len) => u64 (header + payload_len)
  | None => 0
  end.

(** [std::string::substr]. *)
Definition substr (data : bytes) (pos len : Z) : exc bytes :=
  if zlength data <? pos then Throw "basic_string::substr"
  else Ret (take (Z.to_nat (Z.min len (zlength data - pos))) (drop (Z.to_nat pos) data)).

Definition xor_byte (a b : Byte.byte) : Byte.byte := byte.of_Z (Z.lxor (byte.unsigned a) (byte.unsigned b)).
Definition unmask (mask payload : bytes) : bytes :=
  imap (λ i b, xor_byte b (nth (i mod 4) mask Byte.x00)) payload.

Definition opcode_of (data : bytes) : Z := Z.land (byte_at data 0) 0x0F.

Definition ParseWebSocketFrame (data : bytes) : exc bytes :=
  if zlength data <? 2 then Ret []
  else if 8 <=? opcode_of data then Ret []
  else if negb (opcode_of data =? 1) then Ret []
  else match frame_header data with
  | None => Ret []
  | Some (header_size, payload_length) =>
      if zlength data <? u64 (header_size + payload_length) then Ret [] else
      payload ← substr data header_size payload_length;
      Ret (if masked (byte_at data 1) then unmask (take 4 (drop (Z.to_nat (header_size - 4)) data)) payload else payload)
  end.

(** ** Writing a frame: what [SendWebSocketFrame] sends *)

Definition server_frame (message : bytes) : bytes :=
  let n := zlength message in
  (if n <? 126 then [byte.of_Z 0x81; byte.of_Z n]
   else if n <? 65536 then WriteUint16 [byte.of_Z 0x81; byte.of_Z 126] n
   else WriteUint64 [byte.of_Z 0x81; byte.of_Z 127] n) ++ message.

(** ** The loop of a connection *)

Definition kMaxPending : Z := 16 * 1024 * 1024.

Section connection.
Context {S : Type} (handle : bytes → Prog S ()).

(** Draining the complete frames: what is left of the buffer, and whether the
    client asked to close. *)
Fixpoint drain (fuel : nat) (pending : bytes) : Prog S (bytes * bool) :=
  match fuel with
  | O => mret (pending, false)
  | Datatypes.S fuel =>
      let frame_size := CompleteFrameSize pending in
      if (frame_size =? 0) || (zlength pending <? frame_size) then mret (pending, false) else
      let frame_data := take (Z.to_nat frame_size) pending in
      let rest := drop (Z.to_nat frame_size) pending in
      if opcode_of frame_data =? 8 then mret (rest, true) else
      message ← lift_exc (ParseWebSocketFrame frame_data);
      _ ← (if bool_decide (message = []) then mret () else handle message);
      drain fuel rest
  end.

(** The results of [recv] until it fails or the server stops. *)
Fixpoint receive (chunks : list bytes) (pending : bytes) : Prog S () :=
  match chunks with
  | [] => mret ()
  | chunk :: chunks =>
      let pending := pending ++ chunk in
      '(rest, client_closed) ← drain (Datatypes.S (length pending)) pending;
      if client_closed || (kMaxPending <? zlength rest) then mret () else receive chunks rest
  end.

(** *** The fuel is enough *)

Lemma prog_bind_ext {T A B} (m : Prog T A) (f g : A → Prog T B) t :
  (∀ a t, f a t = g a t) → (m ≫= f) t = (m ≫= g) t.
Proof. intros H. unfold mbind, Prog_bind. destruct (m t) as [t' [a| | |]]; [apply H|done..]. Qed.

Lemma drain_fuel fuel : ∀ pending s fuel',
  (length pending < fuel)%nat → (length pending < fuel')%nat → drain fuel pending s = drain fuel' pending s.
Proof.
  induction fuel as [|fuel IH]; intros pending s fuel' H1 H2; [lia|]. destruct fuel' as [|fuel']; [lia|]. cbn [drain].
  destruct ((CompleteFrameSize pending =? 0) || (zlength pending <? CompleteFrameSize pending)) eqn:E; [done|].
  apply orb_false_iff in E as [E1%Z.eqb_neq E2%Z.ltb_ge].
  assert (0 <= CompleteFrameSize pending).
  { unfold CompleteFrameSize. destruct (frame_header pending) as [[h l]|]; [|done]. apply Z.mod_pos_bound. lia. }
  assert (Hrest : (length (drop (Z.to_nat (CompleteFrameSize pending)) pending) < length pending)%nat).
  { rewrite length_drop. unfold zlength in E2. lia. }
  destruct (opcode_of _ =? 8); [done|]. apply prog_bind_ext. intros message s1. apply prog_bind_ext. intros _ s2. apply IH; lia.
Qed.
End connection.

(** ** Frames of clients and servers *)

Inductive length_form := L7 | L16 | L64.

(** A frame as RFC 6455 lays it out: final flag, reserved bits and opcode in the
    first byte, any form that fits for the length, a mask or not. *)
Record frame := { first_byte : Byte.byte; form : length_form; mask : option bytes; payload : bytes }.

Definition extended (form : length_form) (n : Z) : bytes :=
  match form with L7 => [] | L16 => WriteUint16 [] n | L64 => WriteUint64 [] n end.
Definition length_code (form : length_form) (n : Z) : Z := match form with L7 => n | L16 => 126 | L64 => 127 end.

Definition encode (f : frame) : bytes :=
  let n := zlength (payload f) in
  [first_byte f; byte.of_Z (length_code (form f) n + if mask f then 128 else 0)] ++ extended (form f) n ++
  match mask f with Some key => key ++ unmask key (payload f) | None => payload f end.

Definition opcode (f : frame) : Z := Z.land (byte.unsigned (first_byte f)) 0x0F.

Definition frame_ok (f : frame) : Prop :=
  match form f with L7 => zlength (payload f) < 126 | L16 => zlength (payload f) < 2 ^ 16 | L64 => True end ∧
  match mask f with Some key => length key = 4%nat | None => True end ∧
  zlength (encode f) <= kMaxPending.

(** The frame [SendWebSocketFrame] builds. *)
Definition text_frame (message : bytes) : frame :=
  {| first_byte := byte.of_Z 0x81;
     form := if zlength message <? 126 then L7 else if zlength message <? 65536 then L16 else L64;
     mask := None; payload := message |}.

Lemma server_frame_encode message : server_frame message = encode (text_frame message).
Proof.
  unfold server_frame, encode, text_frame. cbn [first_byte form mask payload].
  destruct (zlength message <? 126); [|destruct (zlength message <? 65536)]; cbn [length_code extended].
  - by rewrite Z.add_0_r.
  - by rewrite !WriteUint16_be.
  - by rewrite !WriteUint64_be.
Qed.

(** ** Reading back an encoded frame *)

Lemma length_extended fm n : zlength (extended fm n) = match fm with L7 => 0 | L16 => 2 | L64 => 8 end.
Proof. destruct fm; simpl; rewrite ?WriteUint16_be, ?WriteUint64_be; done. Qed.

Definition header_size (f : frame) : Z :=
  2 + match form f with L7 => 0 | L16 => 2 | L64 => 8 end + (if mask f then 4 else 0).

Lemma unmask_length key l : length (unmask key l) = length l.
Proof. apply length_imap. Qed.

Lemma encode_length f : frame_ok f → zlength (encode f) = header_size f + zlength (payload f).
Proof.
  intros (_ & Hm & _). unfold encode, header_size. rewrite !zlength_app, length_extended.
  destruct (mask f) as [key|]; [rewrite zlength_app; unfold zlength at 3 4; rewrite unmask_length|]; unfold zlength in *; simpl; lia.
Qed.

Lemma payload_bound f : frame_ok f → zlength (payload f) <= kMaxPending.
Proof.
  intros Hf. pose proof (encode_length f Hf) as H. destruct Hf as (_ & _ & Hle).
  unfold header_size in H. destruct (form f), (mask f); lia.
Qed.

(** The second byte: its low bits are the length code, its high bit the mask. *)
Lemma second_byte n (m : bool) : 0 <= n < 128 →
  let b := byte.unsigned (byte.of_Z (n + if m then 128 else 0)) in masked b = m ∧ Z.land b 0x7F = n.
Proof.
  intros Hn. cbv zeta.
  assert (H : forallb (λ k, let n := Z.of_nat k in
    forallb (λ m : bool, let b := byte.unsigned (byte.of_Z (n + if m then 128 else 0)) in
      Bool.eqb (masked b) m && (Z.land b 0x7F =? n)) [true; false]) (seq 0 128) = true) by (vm_compute; reflexivity).
  rewrite forallb_forall in H. specialize (H (Z.to_nat n)). cbv zeta in H. rewrite Z2Nat.id in H by lia.
  pose proof (H ltac:(apply in_seq; lia)) as Hb. rewrite forallb_forall in Hb.
  specialize (Hb m ltac:(destruct m; simpl; tauto)). apply andb_true_iff in Hb as [H1%Bool.eqb_prop H2%Z.eqb_eq]. done.
Qed.

Lemma length_code_range f : frame_ok f → 0 <= length_code (form f) (zlength (payload f)) < 128.
Proof. intros (Hf & _). pose proof (zlength_nonneg (payload f)). destruct (form f); simpl; lia. Qed.

Lemma encode_second f rest : frame_ok f →
  masked (byte_at (encode f ++ rest) 1) = (if mask f then true else false) ∧
  Z.land (byte_at (encode f ++ rest) 1) 0x7F = length_code (form f) (zlength (payload f)).
Proof.
  intros Hf. pose proof (second_byte _ (if mask f then true else false) (length_code_range f Hf)) as H.
  unfold byte_at, encode. cbn [nth app]. destruct (mask f); exact H.
Qed.

Lemma frame_header_encode f rest : frame_ok f → frame_header (encode f ++ rest) = Some (header_size f, zlength (payload f)).
Proof.
  intros Hf. destruct (encode_second f rest Hf) as [Hm Hl]. unfold frame_header. rewrite Hm, Hl.
  pose proof (encode_length f Hf) as Hlen. pose proof (payload_bound f Hf) as Hb. unfold header_size in *.
  pose proof (zlength_nonneg rest). pose proof (zlength_nonneg (payload f)).
  destruct Hf as (Hform & _ & Hmax).
  rewrite zlength_app, Hlen. rewrite (proj2 (Z.ltb_ge _ 2)) by (destruct (form f), (mask f); lia).
  destruct (form f) eqn:Ef; cbn [length_code].
  - rewrite (proj2 (Z.eqb_neq _ 126)), (proj2 (Z.eqb_neq _ 127)) by lia. do 2 f_equal. destruct (mask f); lia.
  - rewrite (proj2 (Z.ltb_ge _ 4)) by (destruct (mask f); lia). cbn [Z.eqb]. do 2 f_equal; [destruct (mask f); lia|].
    unfold byte_at, encode. rewrite Ef. cbn [extended]. rewrite WriteUint16_be.
    assert (Hw : le_word (le_bytes 2 (zlength (payload f))) = zlength (payload f)) by (rewrite le_word_bytes; apply Z.mod_small; lia).
    revert Hw.
    destruct (le_bytes 2 (zlength (payload f))) as [|b0 [|b1 [|]]] eqn:E;
      try (pose proof (length_le_bytes 2 (zlength (payload f))) as Hl2; rewrite E in Hl2; discriminate).
    intros <-. cbn [rev app nth]. rewrite <- (rev_involutive [b0; b1]), <- be_fold. cbn [rev app fold_left]. by rewrite Z.shiftl_0_l, Z.lor_0_l.
  - rewrite (proj2 (Z.ltb_ge _ 10)) by (destruct (mask f); lia). cbn [Z.eqb Z.ltb]. do 2 f_equal; [destruct (mask f); lia|].
    unfold encode. rewrite Ef. cbn [extended]. rewrite WriteUint64_be. cbn [app drop]. rewrite drop_0, <- app_assoc, take_app_length' by (by rewrite length_rev, length_le_bytes).
    unfold length_loop. rewrite be_fold64 by (by rewrite length_rev, length_le_bytes). rewrite rev_involutive, le_word_bytes.
    apply Z.mod_small. unfold kMaxPending in *. lia.
Qed.

Lemma complete_size_encode f rest : frame_ok f → CompleteFrameSize (encode f ++ rest) = zlength (encode f).
Proof.
  intros Hf. unfold CompleteFrameSize. rewrite frame_header_encode, encode_length by done. apply u64_small.
  pose proof (payload_bound f Hf). pose proof (zlength_nonneg (payload f)).
  unfold header_size, kMaxPending, is_u in *. destruct (form f), (mask f); lia.
Qed.

(** Masking twice gives the payload back. *)
Lemma xor_byte_twice a b : xor_byte (xor_byte a b) b = a.
Proof.
  apply byte.unsigned_inj. unfold xor_byte. rewrite !byte.unsigned_of_Z. unfold byte.wrap.
  rewrite <- (Z.mod_small (byte.unsigned a) (2 ^ 8)) at 2 by apply byte.unsigned_range.
  apply Z.bits_inj'. intros n Hn. rewrite !Z.testbit_mod_pow2, Z.lxor_spec, Z.testbit_mod_pow2, Z.lxor_spec by lia.
  destruct (n <? 8); [|done]. simpl. by destruct (Z.testbit _ n), (Z.testbit _ n).
Qed.

Lemma unmask_twice key l : unmask key (unmask key l) = l.
Proof.
  unfold unmask. apply list_eq. intros i. rewrite !list_lookup_imap. destruct (l !! i); [|done].
  simpl. by rewrite xor_byte_twice.
Qed.

Lemma opcode_encode f rest : opcode_of (encode f ++ rest) = opcode f.
Proof. done. Qed.

(** The parts of an encoded frame. *)
Lemma encode_parts f : frame_ok f →
  ∃ head, zlength head = header_size f - (if mask f then 4 else 0) ∧
    encode f = head ++ match mask f with Some key => key ++ unmask key (payload f) | None => payload f end.
Proof.
  intros Hf. unfold encode. eexists. rewrite app_assoc. split; [|done].
  rewrite zlength_app, length_extended. unfold header_size. destruct (mask f); unfold zlength; simpl; lia.
Qed.

(** What the server makes of a frame: the empty text stands for nothing to do. *)
Definition text_of_frame (f : frame) : bytes := if opcode f =? 1 then payload f else [].

Lemma Parse_encode f : frame_ok f → ParseWebSocketFrame (encode f) = Ret (text_of_frame f).
Proof.
  intros Hf. pose proof (frame_header_encode f [] Hf) as Hh. pose proof (complete_size_encode f [] Hf) as Hs.
  pose proof (encode_second f [] Hf) as [Hm _]. rewrite app_nil_r in Hh, Hs, Hm.
  pose proof (encode_length f Hf) as Hlen. pose proof (zlength_nonneg (payload f)).
  destruct (encode_parts f Hf) as (head & Hhead & Hparts). destruct Hf as (_ & Hkey & _).
  unfold ParseWebSocketFrame, text_of_frame. change (opcode_of (encode f)) with (opcode f).
  rewrite (proj2 (Z.ltb_ge _ 2)) by (unfold header_size in Hlen; destruct (form f), (mask f); lia).
  destruct (opcode f =? 1) eqn:E1; [|by destruct (8 <=? opcode f)].
  apply Z.eqb_eq in E1. rewrite E1. cbn [Z.leb Z.compare Pos.compare Pos.compare_cont negb]. rewrite Hh.
  unfold CompleteFrameSize in Hs. rewrite Hh in Hs. rewrite Hs, Z.ltb_irrefl, Hm.
  unfold substr. rewrite (proj2 (Z.ltb_ge _ _)) by lia. rewrite Z.min_l by lia.
  unfold mbind, exc_bind. f_equal. rewrite Hparts. unfold zlength in *. destruct (mask f) as [key|].
  - assert (D1 : drop (Z.to_nat (header_size f)) (head ++ key ++ unmask key (payload f)) = unmask key (payload f)).
    { rewrite app_assoc. apply drop_app_length'. rewrite length_app. lia. }
    assert (D2 : take 4 (drop (Z.to_nat (header_size f - 4)) (head ++ key ++ unmask key (payload f))) = key).
    { rewrite drop_app_length' by lia. by apply take_app_length'. }
    rewrite D1, D2, take_ge by (rewrite unmask_length; lia). apply unmask_twice.
  - rewrite drop_app_length', take_ge by lia. done.
Qed.

(** ** Incomplete frames *)

Definition incomplete (p : bytes) : Prop := ∃ f q, frame_ok f ∧ encode f = p ++ q ∧ q ≠ [].

Lemma frame_header_extends p q x : frame_header p = Some x → frame_header (p ++ q) = Some x.
Proof.
  unfold frame_header. rewrite zlength_app. pose proof (zlength_nonneg q).
  destruct (zlength p <? 2) eqn:E2; [done|]. apply Z.ltb_ge in E2. rewrite (proj2 (Z.ltb_ge _ 2)) by lia.
  assert (Hb : ∀ i, (Z.of_nat i < zlength p) → byte_at (p ++ q) i = byte_at p i).
  { intros i Hi. unfold byte_at. rewrite app_nth1; [done|unfold zlength in Hi; lia]. }
  rewrite Hb by lia. destruct (_ =? 126).
  - destruct (zlength p <? 4) eqn:E4; [done|]. apply Z.ltb_ge in E4. rewrite (proj2 (Z.ltb_ge _ 4)) by lia. by rewrite !Hb by lia.
  - destruct (_ =? 127); [|done].
    destruct (zlength p <? 10) eqn:E10; [done|]. apply Z.ltb_ge in E10. rewrite (proj2 (Z.ltb_ge _ 10)) by lia.
    intros <-. unfold zlength in *. rewrite drop_app_le, take_app_le by (rewrite ?length_drop; lia). done.
Qed.

Lemma incomplete_waits p : incomplete p →
  (CompleteFrameSize p =? 0) || (zlength p <? CompleteFrameSize p) = true ∧ zlength p <= kMaxPending.
Proof.
  intros (f & q & Hf & He & Hq). pose proof (complete_size_encode f [] Hf) as Hs. rewrite app_nil_r in Hs.
  assert (zlength p < zlength (encode f)). { rewrite He, zlength_app. destruct q; [done|]. unfold zlength. simpl. lia. }
  split; [|destruct Hf as (_ & _ & ?); lia]. apply orb_true_iff.
  unfold CompleteFrameSize at 1. destruct (frame_header p) as [x|] eqn:Eh; [|by left]. right.
  pose proof (frame_header_extends p q x Eh) as Hx. rewrite <- He in Hx.
  unfold CompleteFrameSize in Hs. rewrite Hx in Hs. unfold CompleteFrameSize. rewrite Eh, Hs. apply Z.ltb_lt. lia.
Qed.

(** A sequence of frames on the wire. *)
Definition encode_all (fs : list frame) : bytes := concat (encode <$> fs).
Lemma encode_all_cons f fs : encode_all (f :: fs) = encode f ++ encode_all fs.
Proof. done. Qed.

(** A prefix of a sequence of frames is some of the frames and an incomplete one. *)
Lemma prefix_split fs : ∀ tail x y,
  Forall frame_ok fs → incomplete tail → encode_all fs ++ tail = x ++ y →
  ∃ fs1 fs2 p, fs = fs1 ++ fs2 ∧ x = encode_all fs1 ++ p ∧ incomplete p ∧
    p ++ y = encode_all fs2 ++ tail.
Proof.
  induction fs as [|f fs IH]; intros tail x y Hok Ht H.
  - exists [], [], x. split_and!; [done|done| |done]. destruct Ht as (f & q & Hf & He & Hq).
    exists f, (y ++ q). split; [done|]. cbn [app] in H.
    change (encode_all [] ++ tail) with tail in H. subst tail. split; [by rewrite He, <- app_assoc|by intros [-> ->]%app_nil].
  - apply Forall_cons in Hok as [Hf Hok]. rewrite encode_all_cons, <- app_assoc in H.
    destruct (decide (length (encode f) <= length x)%nat) as [Hle|Hgt].
    + assert (x = encode f ++ drop (length (encode f)) x) as Hx.
      { rewrite <- (take_drop (length (encode f)) x) at 1. f_equal.
        assert (take (length (encode f)) (x ++ y) = encode f) as Ht' by (rewrite <- H; by apply take_app_length').
        by rewrite take_app_le in Ht' by done. }
      rewrite Hx in H. rewrite <- app_assoc in H. apply app_inv_head in H.
      destruct (IH tail _ y Hok Ht H) as (fs1 & fs2 & p & -> & Hx1 & Hp & Hy).
      exists (f :: fs1), fs2, p. split_and!; [done| |done|done]. rewrite Hx at 1. rewrite Hx1, encode_all_cons. by rewrite app_assoc.
    + exists [], (f :: fs), x. split_and!; [done|done| |by rewrite <- H, encode_all_cons, app_assoc].
      exists f, (drop (length x) (encode f)). split; [done|]. split.
      * assert (take (length x) (encode f) = x) as Hx.
        { assert (take (length x) (x ++ y) = x) as Ht' by (by apply take_app_length'). rewrite <- H in Ht'.
          by rewrite take_app_le in Ht' by lia. }
        rewrite <- Hx at 1. by rewrite take_drop.
      * intros E. apply (f_equal length) in E. rewrite length_drop in E. cbn [length] in E. lia.
Qed.

(** ** Reassembly *)

Section reassembly.
Context {S : Type} (handle : bytes → Prog S ()).

(** Handling the frames one by one, up to a close frame ([true]). *)
Fixpoint run (fs : list frame) : Prog S bool :=
  match fs with
  | [] => mret false
  | f :: fs =>
      if opcode f =? 8 then mret true else
      _ ← (if bool_decide (text_of_frame f = []) then mret () else handle (text_of_frame f));
      run fs
  end.

Lemma run_app fs1 fs2 s :
  run (fs1 ++ fs2) s = (closed ← run fs1; if closed : bool then mret true else run fs2) s.
Proof.
  revert s. induction fs1 as [|f fs1 IH]; intros s; [done|]. cbn [run app].
  destruct (opcode f =? 8); [done|]. unfold mbind, Prog_bind in *.
  destruct ((if bool_decide _ then mret () else handle _) s) as [s' [[]| | |]]; [apply IH|done..].
Qed.

(** Draining [fs] and an incomplete frame, against [run]. *)
Definition drained (fs : list frame) (p : bytes) (fuel : nat) (s : S) : Prop :=
  let r := drain handle fuel (encode_all fs ++ p) s in
  match run fs s with
  | (s', Done false) => r = (s', Done (p, false))
  | (s', Done true) => ∃ rest, r = (s', Done (rest, true))
  | (s', Trapped t) => r = (s', Trapped t)
  | (s', Escaped w) => r = (s', Escaped w)
  | (s', Undefined) => r = (s', Undefined)
  end.

Lemma drain_frames fs p : ∀ fuel s,
  Forall frame_ok fs → incomplete p → (length (encode_all fs ++ p) < fuel)%nat → drained fs p fuel s.
Proof.
  intros fuel s Hok Hp. revert fuel s. unfold drained. cbv zeta. induction Hok as [|f fs Hf Hok IH]; intros fuel s Hfuel.
  - destruct fuel as [|fuel]; [lia|]. cbn [run drain]. change (encode_all [] ++ p) with p.
    by rewrite (proj1 (incomplete_waits p Hp)).
  - destruct fuel as [|fuel]; [lia|]. rewrite encode_all_cons, <- app_assoc in *. cbn [run drain].
    pose proof (encode_length f Hf) as Hlen. pose proof (payload_bound f Hf).
    rewrite complete_size_encode by done. rewrite (proj2 (Z.eqb_neq _ 0)), zlength_app, (proj2 (Z.ltb_ge _ _)).
    2:{ pose proof (zlength_nonneg (encode_all fs ++ p)). lia. }
    2:{ pose proof (zlength_nonneg (payload f)). unfold header_size in Hlen. destruct (form f), (mask f); lia. }
    cbn [orb]. rewrite take_app_length', drop_app_length' by (unfold zlength; lia).
    assert (Hfuel' : (length (encode_all fs ++ p) < fuel)%nat).
    { rewrite length_app in Hfuel. unfold zlength, header_size in Hlen. destruct (form f), (mask f); lia. }
    change (opcode_of (encode f)) with (opcode f). destruct (opcode f =? 8); [by eexists|].
    rewrite Parse_encode by done. unfold lift_exc, mbind, Prog_bind in *. cbv beta iota.
    destruct ((if bool_decide _ then mret () else handle _) s) as [s' [[]| | |]]; [by apply IH|done..].
Qed.

Lemma receive_frames chunks : ∀ fs pending tail s,
  Forall frame_ok fs → incomplete pending → incomplete tail →
  pending ++ concat chunks = encode_all fs ++ tail →
  receive handle chunks pending s = (_ ← run fs; mret ()) s.
Proof.
  induction chunks as [|c chunks IH]; intros fs pending tail s Hok Hp Ht H.
  - cbn [receive concat] in *. rewrite app_nil_r in H. destruct fs as [|f fs]; [done|]. exfalso.
    apply Forall_cons in Hok as [Hf _]. rewrite encode_all_cons, <- app_assoc in H. subst pending.
    pose proof (incomplete_waits _ Hp) as [[E%Z.eqb_eq|E%Z.ltb_lt]%orb_true_iff _];
      rewrite complete_size_encode in E by done; pose proof (encode_length f Hf) as Hlen.
    + pose proof (zlength_nonneg (payload f)). unfold header_size in Hlen. destruct (form f), (mask f); lia.
    + rewrite zlength_app in E. pose proof (zlength_nonneg (encode_all fs ++ tail)). lia.
  - cbn [receive concat] in *. rewrite app_assoc in H.
    destruct (prefix_split fs tail (pending ++ c) (concat chunks) Hok Ht (eq_sym H)) as (fs1 & fs2 & p & -> & H1 & Hp1 & H2).
    apply Forall_app in Hok as [Hok1 Hok2]. rewrite H1.
    pose proof (drain_frames fs1 p (Datatypes.S (length (encode_all fs1 ++ p))) s Hok1 Hp1 ltac:(lia)) as Hd.
    unfold drained in Hd. cbv zeta in Hd.
    pose proof (run_app fs1 fs2 s) as Hr. unfold mbind, Prog_bind in *. rewrite Hr. clear Hr.
    destruct (run fs1 s) as [s1 [[]|t|w|]]; [destruct Hd as [rest ->]; done| |by rewrite Hd..].
    rewrite Hd. cbv beta iota. rewrite (proj2 (Z.ltb_ge _ _)) by (apply incomplete_waits; done). cbn [orb].
    by apply (IH fs2 p tail).
Qed.

Lemma incomplete_nil : incomplete [].
Proof.
  exists (text_frame []), (encode (text_frame [])). split; [|split; [done|by vm_compute]].
  split; [vm_compute; reflexivity|]. split; [done|vm_compute; discriminate].
Qed.

(** C12.  Messages do not depend on how TCP cuts the stream.  Whatever frames of at
    most 16 MiB a client sends (any opcode, masked or not, any form of the
    length), with an incomplete frame after them, and however [recv] cuts the
    bytes: the connection handles the payloads of the non-empty text frames, in
    order, each once, up to a close frame or an exception of the handler, and
    nothing else.  The frames the server sends are such frames, with the message
    as payload. *)
Theorem messages_reassembled fs tail chunks s
    (Hok : Forall frame_ok fs) (Ht : incomplete tail) (Hcut : concat chunks = encode_all fs ++ tail) :
  receive handle chunks [] s = (_ ← run fs; mret ()) s ∧
  (∀ message, server_frame message = encode (text_frame message) ∧
     (zlength message + 10 <= kMaxPending → frame_ok (text_frame message)) ∧ text_of_frame (text_frame message) = message).
Proof.
  split; [by apply (receive_frames chunks fs [] tail); [|apply incomplete_nil|..]|].
  intros message. split; [apply server_frame_encode|]. split; [|done]. intros Hm.
  assert (H : match form (text_frame message) with L7 => zlength message < 126 | L16 => zlength message < 2 ^ 16 | L64 => True end).
  { unfold text_frame. cbn [form]. destruct (zlength message <? 126) eqn:E1; [by apply Z.ltb_lt|].
    destruct (zlength message <? 65536) eqn:E2; [by apply Z.ltb_lt|done]. }
  split; [exact H|]. split; [done|]. unfold encode. rewrite !zlength_app, length_extended.
  change (zlength (payload (text_frame message))) with (zlength message). cbn [mask text_frame payload].
  destruct (form (text_frame message)); unfold zlength at 1; simpl length; lia.
Qed.
End reassembly.

(** ** Instances *)

(** A handler that collects the messages. *)
Definition collect (m : bytes) : Prog (list bytes) () := λ log, (log ++ [m], Done ()).
Definition demo_frames : list frame :=
  [ {| first_byte := Byte.x81; form := L7; mask := Some [Byte.x01; Byte.x02; Byte.x03; Byte.x04]; payload := str_bytes "hello" |};
    {| first_byte := Byte.x89; form := L7; mask := None; payload := [] |};
    text_frame (str_bytes "world") ].
Definition demo_stream : bytes := encode_all demo_frames ++ [Byte.x81].
Definition demo_chunks : list bytes := [take 3 demo_stream; take 9 (drop 3 demo_stream); drop 12 demo_stream].

Lemma messages_reassembled_witness :
  receive collect demo_chunks [] [] = ([str_bytes "hello"; str_bytes "world"], Done ()).
Proof.
  assert (Hok : Forall frame_ok demo_frames).
  { apply Forall_cons; split; [|apply Forall_cons; split; [|apply Forall_cons; split; [|constructor]]];
      (split; [vm_compute; reflexivity|split; [done|vm_compute; discriminate]]). }
  assert (Ht : incomplete [Byte.x81]).
  { exists (text_frame []), [Byte.x00]. split; [|split; [vm_compute; reflexivity|done]].
    split; [vm_compute; reflexivity|]. split; [done|vm_compute; discriminate]. }
  destruct (messages_reassembled collect demo_frames [Byte.x81] demo_chunks [] Hok Ht) as [-> _];
    [vm_compute; reflexivity|vm_compute; reflexivity].
Defined.

(** The length of a masked frame close to 2^64 wraps around to a total of 10 to
    13 bytes: [substr] is asked for a payload behind the end and throws, and the
    loop does not catch it. *)
Definition wrapping_frame : bytes := [Byte.x81; Byte.xff] ++ replicate 7 Byte.xff ++ [Byte.xfc].
Example wrapping_length : CompleteFrameSize wrapping_frame = 10.
Proof. vm_compute. reflexivity. Qed.
Example wrapping_frame_throws :
  receive collect [wrapping_frame] [] [] = ([], Escaped "basic_string::substr").
Proof. vm_compute. reflexivity. Qed.
