(* ===== verification/Regex.v ===== *)
(** * Regular expressions of the C++ standard library

    The sources match text with [std::regex] in its default ECMAScript grammar.
    This file models what they use of it: a parser of the pattern text
    (literals, escapes, [.], [\s], [\w], [\d], [\n], [\r], character sets, groups,
    alternation, greedy and lazy quantifiers, [$], [icase]) and the backtracking
    matcher with its captures, behind [std::regex_match] and
    [std::regex_search].  Back references, assertions other than [$], counted
    quantifiers and ranges are not used by the sources: the parser answers
    [None] for them, as it does for the patterns the constructor of [std::regex]
    throws on. *)

From Stdlib Require Import Strings.Ascii.
From S2P Require Import Prelude.

Abbreviation chars := (list ascii).

Definition string_chars (s : string) : chars := String.list_ascii_of_string s.
Definition chars_string (l : chars) : string := String.string_of_list_ascii l.

Lemma chars_string_chars s : chars_string (string_chars s) = s.
Proof. apply String.string_of_list_ascii_of_string. Qed.
Lemma string_chars_string l : string_chars (chars_string l) = l.
Proof. apply String.list_ascii_of_string_of_list_ascii. Qed.

Lemma length_chars_string l : String.length (chars_string l) = length l.
Proof. unfold chars_string. induction l as [|c l IH]; [done|]. simpl. by rewrite IH. Qed.

(** ** Characters (the "C" locale) *)

Definition code (c : ascii) : Z := Z.of_N (N_of_ascii c).
Definition between (lo hi : Z) (c : ascii) : bool := (lo <=? code c) && (code c <=? hi).
Definition isdigit : ascii → bool := between 48 57.
Definition isupper : ascii → bool := between 65 90.
Definition islower : ascii → bool := between 97 122.
Definition isalpha (c : ascii) : bool := isupper c || islower c.
Definition isalnum (c : ascii) : bool := isalpha c || isdigit c.
Definition isspace (c : ascii) : bool := (code c =? 32) || between 9 13 c.
Definition tolower (c : ascii) : ascii :=
  if isupper c then ascii_of_N (Z.to_N (code c + 32)) else c.
Definition toupper (c : ascii) : ascii :=
  if islower c then ascii_of_N (Z.to_N (code c - 32)) else c.

Definition eqc (a b : ascii) : bool := bool_decide (a = b).
Definition newline : ascii := ascii_of_N 10.
Definition carriage_return : ascii := ascii_of_N 13.

(** ** Syntax *)

Inductive citem := ILit (c : ascii) | ISpace | IWord | IDigit.

Inductive cls :=
| CItem (i : citem)
| CAny
| CSet (negated : bool) (items : list citem).

Inductive regex :=
| Eps
| Cls (c : cls)
| Seq (a b : regex)
| Alt (a b : regex)
| Star (greedy : bool) (a : regex)
| Opt (greedy : bool) (a : regex)
| Group (n : nat) (a : regex)
| Eol.

Definition citem_match (icase : bool) (i : citem) (c : ascii) : bool :=
  match i with
  | ILit d => if icase then eqc (tolower c) (tolower d) else eqc c d
  | ISpace => isspace c
  | IWord => isalnum c || eqc c "_"
  | IDigit => isdigit c
  end.

Definition cls_match (icase : bool) (k : cls) (c : ascii) : bool :=
  match k with
  | CItem i => citem_match icase i c
  | CAny => negb (eqc c newline || eqc c carriage_return)
  | CSet negated items =>
      let found := existsb (λ i, citem_match icase i c) items in
      if negated then negb found else found
  end.

(** ** Matching *)

(** The captured groups: position and length in the input. *)
Abbreviation captures := (gmap nat (nat * nat)).

(** [k] is what remains to be matched; the first path that succeeds wins. *)
Fixpoint rmatch {R} (icase : bool) (r : regex) (pos : nat) (s : chars) (caps : captures)
    (k : nat → chars → captures → option R) {struct r} : option R :=
  match r with
  | Eps => k pos s caps
  | Cls c =>
      match s with
      | x :: s' => if cls_match icase c x then k (S pos) s' caps else None
      | [] => None
      end
  | Seq a b => rmatch icase a pos s caps (λ pos s caps, rmatch icase b pos s caps k)
  | Alt a b =>
      match rmatch icase a pos s caps k with
      | Some x => Some x
      | None => rmatch icase b pos s caps k
      end
  | Star greedy a =>
      (fix star (n : nat) (pos : nat) (s : chars) (caps : captures) {struct n} : option R :=
         match n with
         | O => k pos s caps
         | S n' =>
             let more := λ _ : (), rmatch icase a pos s caps (λ pos' s' caps',
               if decide (length s' < length s)%nat then star n' pos' s' caps' else None) in
             if greedy
             then match more () with Some x => Some x | None => k pos s caps end
             else match k pos s caps with Some x => Some x | None => more () end
         end) (length s) pos s caps
  | Opt greedy a =>
      if greedy
      then match rmatch icase a pos s caps k with Some x => Some x | None => k pos s caps end
      else match k pos s caps with Some x => Some x | None => rmatch icase a pos s caps k end
  | Group n a =>
      rmatch icase a pos s caps (λ pos' s' caps', k pos' s' (<[n := (pos, pos' - pos)%nat]> caps'))
  | Eol => match s with [] => k pos s caps | _ => None end
  end.

(** ** Parsing a pattern *)

Definition parse_escape (c : ascii) : option citem :=
  if eqc c "s" then Some ISpace
  else if eqc c "w" then Some IWord
  else if eqc c "d" then Some IDigit
  else if eqc c "n" then Some (ILit newline)
  else if eqc c "r" then Some (ILit carriage_return)
  else if isalnum c then None
  else Some (ILit c).

(** The items of a character set up to its closing bracket. *)
Fixpoint parse_set (l : chars) : option (list citem * chars) :=
  match l with
  | [] => None
  | "]"%char :: l => Some ([], l)
  | "\"%char :: c :: l =>
      i ← parse_escape c; '(its, l) ← parse_set l; Some (i :: its, l)
  | c :: l => '(its, l) ← parse_set l; Some (ILit c :: its, l)
  end.

(** Characters that are not an atom by themselves. *)
Definition is_syntax (c : ascii) : bool :=
  existsb (eqc c) (string_chars "\^$.|?*+()[]{}").

(** The quantifiers after an atom. *)
Fixpoint parse_quantifiers (r : regex) (l : chars) : option (regex * chars) :=
  match l with
  | "*"%char :: "?"%char :: l => parse_quantifiers (Star false r) l
  | "*"%char :: l => parse_quantifiers (Star true r) l
  | "+"%char :: "?"%char :: l => parse_quantifiers (Seq r (Star false r)) l
  | "+"%char :: l => parse_quantifiers (Seq r (Star true r)) l
  | "?"%char :: "?"%char :: l => parse_quantifiers (Opt false r) l
  | "?"%char :: l => parse_quantifiers (Opt true r) l
  | "{"%char :: _ => None
  | _ => Some (r, l)
  end.

(** [fuel] bounds the number of atoms and the nesting; [g] counts the groups. *)
Fixpoint parse_alt (fuel : nat) (l : chars) (g : nat) : option (regex * chars * nat) :=
  match fuel with
  | O => None
  | S fuel =>
      '(r, l, g) ← parse_seq fuel l g;
      match l with
      | "|"%char :: l => '(r', l, g) ← parse_alt fuel l g; Some (Alt r r', l, g)
      | _ => Some (r, l, g)
      end
  end
with parse_seq (fuel : nat) (l : chars) (g : nat) : option (regex * chars * nat) :=
  match fuel with
  | O => None
  | S fuel =>
      match l with
      | [] | "|"%char :: _ | ")"%char :: _ => Some (Eps, l, g)
      | _ =>
          '(a, l, g) ← parse_atom fuel l g;
          '(a, l) ← parse_quantifiers a l;
          '(r, l, g) ← parse_seq fuel l g;
          Some (Seq a r, l, g)
      end
  end
with parse_atom (fuel : nat) (l : chars) (g : nat) : option (regex * chars * nat) :=
  match fuel with
  | O => None
  | S fuel =>
      match l with
      | "."%char :: l => Some (Cls CAny, l, g)
      | "$"%char :: l => Some (Eol, l, g)
      | "\"%char :: c :: l => i ← parse_escape c; Some (Cls (CItem i), l, g)
      | "["%char :: "^"%char :: l => '(its, l) ← parse_set l; Some (Cls (CSet true its), l, g)
      | "["%char :: l => '(its, l) ← parse_set l; Some (Cls (CSet false its), l, g)
      | "("%char :: "?"%char :: ":"%char :: l =>
          '(r, l, g) ← parse_alt fuel l g;
          match l with ")"%char :: l => Some (r, l, g) | _ => None end
      | "("%char :: l =>
          '(r, l, g') ← parse_alt fuel l (S g);
          match l with ")"%char :: l => Some (Group (S g) r, l, g') | _ => None end
      | c :: l => if is_syntax c then None else Some (Cls (CItem (ILit c)), l, g)
      | [] => None
      end
  end.

(** The constructor of [std::regex]; [None] when it throws. *)
Definition compile (pattern : string) : option regex :=
  let l := string_chars pattern in
  match parse_alt (2 * length l + 3) l 0 with
  | Some (r, [], _) => Some r
  | _ => None
  end.

(** ** [std::regex_match], [std::regex_search], [std::sregex_iterator] *)

Definition regex_match (icase : bool) (r : regex) (s : string) : option captures :=
  rmatch icase r 0 (string_chars s) ∅ (λ _ rest caps, match rest with [] => Some caps | _ => None end).

(** The leftmost match: its position and length, and its captures. *)
Fixpoint search_from (icase : bool) (r : regex) (pos : nat) (s : chars)
    : option (nat * nat * captures) :=
  match rmatch icase r pos s ∅ (λ pos' _ caps, Some (pos, (pos' - pos)%nat, caps)) with
  | Some x => Some x
  | None => match s with [] => None | _ :: s => search_from icase r (S pos) s end
  end.

Definition regex_search (icase : bool) (r : regex) (s : string) : option (nat * nat * captures) :=
  search_from icase r 0 (string_chars s).

(** The text of a group. *)
Definition capture (s : string) (caps : captures) (n : nat) : option string :=
  '(pos, len) ← caps !! n;
  Some (chars_string (take len (drop pos (string_chars s)))).

(** ** Small checks against the documented behaviour *)

Definition match_texts (icase : bool) (pattern s : string) (groups : list nat)
    : option (list (option string)) :=
  r ← compile pattern; caps ← regex_match icase r s; Some (capture s caps <$> groups).

Example greedy_group : match_texts false "(a*)(a?)b" "aab" [1; 2]%nat = Some [Some "aa"; Some ""].
Proof. vm_compute. reflexivity. Qed.
Example lazy_group :
  match_texts true "select\s+(.*?)\s+from\s+(\w+)(?:\s+where\s+(.*))?"
    "SELECT a, b FROM t1 WHERE a = 1" [1; 2; 3]%nat
  = Some [Some "a, b"; Some "t1"; Some "a = 1"].
Proof. vm_compute. reflexivity. Qed.
Example optional_absent :
  match_texts true "select\s+(.*?)\s+from\s+(\w+)(?:\s+where\s+(.*))?" "select * from t" [1; 2; 3]%nat
  = Some [Some "*"; Some "t"; None].
Proof. vm_compute. reflexivity. Qed.
Example dot_excludes_newline :
  match_texts false ".*" (chars_string ["a"; newline])%char [] = None.
Proof. vm_compute. reflexivity. Qed.
Example bad_patterns : (compile "(", compile "*a", compile "a)", compile "\") = (None, None, None, None).
Proof. vm_compute. reflexivity. Qed.

(** ** What a match means

    The relation between an expression and the ways it can match; the matcher
    only answers such a way. *)

Inductive rmatches (icase : bool) : regex → nat → chars → captures → nat → chars → captures → Prop :=
| M_eps pos s caps : rmatches icase Eps pos s caps pos s caps
| M_cls c pos x s caps :
    cls_match icase c x = true → rmatches icase (Cls c) pos (x :: s) caps (S pos) s caps
| M_seq a b p0 s0 c0 p1 s1 c1 p2 s2 c2 :
    rmatches icase a p0 s0 c0 p1 s1 c1 → rmatches icase b p1 s1 c1 p2 s2 c2 →
    rmatches icase (Seq a b) p0 s0 c0 p2 s2 c2
| M_alt_l a b p0 s0 c0 p1 s1 c1 :
    rmatches icase a p0 s0 c0 p1 s1 c1 → rmatches icase (Alt a b) p0 s0 c0 p1 s1 c1
| M_alt_r a b p0 s0 c0 p1 s1 c1 :
    rmatches icase b p0 s0 c0 p1 s1 c1 → rmatches icase (Alt a b) p0 s0 c0 p1 s1 c1
| M_star_stop g a pos s caps : rmatches icase (Star g a) pos s caps pos s caps
| M_star_more g a p0 s0 c0 p1 s1 c1 p2 s2 c2 :
    rmatches icase a p0 s0 c0 p1 s1 c1 → rmatches icase (Star g a) p1 s1 c1 p2 s2 c2 →
    rmatches icase (Star g a) p0 s0 c0 p2 s2 c2
| M_opt_none g a pos s caps : rmatches icase (Opt g a) pos s caps pos s caps
| M_opt_some g a p0 s0 c0 p1 s1 c1 :
    rmatches icase a p0 s0 c0 p1 s1 c1 → rmatches icase (Opt g a) p0 s0 c0 p1 s1 c1
| M_group n a p0 s0 c0 p1 s1 c1 :
    rmatches icase a p0 s0 c0 p1 s1 c1 →
    rmatches icase (Group n a) p0 s0 c0 p1 s1 (<[n := (p0, p1 - p0)%nat]> c1)
| M_eol pos caps : rmatches icase Eol pos [] caps pos [] caps.

Ltac found := do 3 eexists; split; [|eassumption]; eauto using rmatches.

Lemma rmatch_sound {R} icase r :
  ∀ pos s caps (k : nat → chars → captures → option R) x,
  rmatch icase r pos s caps k = Some x →
  ∃ pos' s' caps', rmatches icase r pos s caps pos' s' caps' ∧ k pos' s' caps' = Some x.
Proof.
  induction r as [|c|a IHa b IHb|a IHa b IHb|g a IHa|g a IHa|n a IHa|]; intros pos s caps k x; simpl.
  - intros H. found.
  - destruct s as [|y s]; [done|]. destruct (cls_match icase c y) eqn:E; [|done]. found.
  - intros (p1 & s1 & c1 & H1 & (p2 & s2 & c2 & H2 & H)%IHb)%IHa. found.
  - destruct (rmatch icase a pos s caps k) as [y|] eqn:E.
    + intros [= ->]. apply IHa in E as (p1 & s1 & c1 & ? & ?). found.
    + intros (p1 & s1 & c1 & ? & ?)%IHb. found.
  - generalize (length s) at 1. intros n. revert pos s caps. induction n as [|n IHn]; intros pos s caps.
    { intros H. exists pos, s, caps. split; [constructor|done]. }
    set (more := rmatch icase a pos s caps _). intros H.
    assert (k pos s caps = Some x ∨ more = Some x) as [E|E].
    { destruct g; [destruct more|destruct (k pos s caps)]; simplify_eq; auto. }
    + exists pos, s, caps. split; [constructor|done].
    + apply IHa in E as (p1 & s1 & c1 & H1 & E). case_decide; [|done].
      apply IHn in E as (p2 & s2 & c2 & H2 & E). found.
  - intros H.
    assert (k pos s caps = Some x ∨ rmatch icase a pos s caps k = Some x) as [E|E].
    { destruct g; [destruct (rmatch icase a pos s caps k)|destruct (k pos s caps)]; simplify_eq; auto. }
    + found.
    + apply IHa in E as (p1 & s1 & c1 & ? & ?). found.
  - intros (p1 & s1 & c1 & ? & ?)%IHa. found.
  - destruct s; [|done]. found.
Qed.

Lemma regex_match_sound icase r s caps :
  regex_match icase r s = Some caps →
  ∃ pos, rmatches icase r 0 (string_chars s) ∅ pos [] caps.
Proof.
  intros (pos & rest & c & H & E)%rmatch_sound. destruct rest; [|done]. injection E as ->. eauto.
Qed.

(** *** Inversion of the shapes that occur *)

Lemma rmatches_star_cls icase g c p0 s0 c0 p1 s1 c1 :
  rmatches icase (Star g (Cls c)) p0 s0 c0 p1 s1 c1 →
  ∃ u, s0 = u ++ s1 ∧ Forall (λ x, cls_match icase c x = true) u ∧ p1 = (p0 + length u)%nat ∧ c1 = c0.
Proof.
  intros H. remember (Star g (Cls c)) as r eqn:Er. induction H; simplify_eq.
  - exists []. simpl. by rewrite Nat.add_0_r.
  - inversion H; subst. destruct IHrmatches2 as (u & -> & Hu & -> & ->); [done|].
    eexists (_ :: u). simpl. split_and!; [done|by constructor|lia|done].
Qed.

(** A word of the pattern: literals one after the other. *)
Definition lits (w : chars) (r : regex) : regex := foldr (λ c, Seq (Cls (CItem (ILit c)))) r w.

Lemma rmatches_lits w r p0 s0 c0 p1 s1 c1 :
  rmatches true (lits w r) p0 s0 c0 p1 s1 c1 →
  ∃ u v, s0 = u ++ v ∧ map tolower u = map tolower w ∧
    rmatches true r (p0 + length u)%nat v c0 p1 s1 c1.
Proof.
  revert p0 s0. induction w as [|c w IH]; simpl; intros p0 s0 H.
  - exists [], s0. by rewrite Nat.add_0_r.
  - inversion H as [| |? ? ? ? ? ? ? ? ? ? ? Ha Hb| | | | | | | |]; subst. inversion Ha; subst.
    apply IH in Hb as (u & v & -> & Hu & Hr). eexists (_ :: u), v. split; [done|].
    split; [|simpl; by rewrite Nat.add_succ_r].
    simpl. rewrite Hu. f_equal. by eapply bool_decide_eq_true_1.
Qed.

Lemma rmatches_seq icase a b p0 s0 c0 p2 s2 c2 :
  rmatches icase (Seq a b) p0 s0 c0 p2 s2 c2 →
  ∃ p1 s1 c1, rmatches icase a p0 s0 c0 p1 s1 c1 ∧ rmatches icase b p1 s1 c1 p2 s2 c2.
Proof. inversion 1; eauto. Qed.

(** [c+]. *)
Lemma rmatches_plus_cls icase g c p0 s0 c0 p1 s1 c1 :
  rmatches icase (Seq (Cls c) (Star g (Cls c))) p0 s0 c0 p1 s1 c1 →
  ∃ u, s0 = u ++ s1 ∧ u ≠ [] ∧ Forall (λ x, cls_match icase c x = true) u ∧
    p1 = (p0 + length u)%nat ∧ c1 = c0.
Proof.
  intros (p & s & c' & Ha & (u & -> & Hu & -> & ->)%rmatches_star_cls)%rmatches_seq.
  inversion Ha; subst. eexists (_ :: u). simpl. split_and!; [done|done|by constructor|lia|done].
Qed.

Lemma rmatches_group icase n a p0 s0 c0 p1 s1 c1 :
  rmatches icase (Group n a) p0 s0 c0 p1 s1 c1 →
  ∃ c, rmatches icase a p0 s0 c0 p1 s1 c ∧ c1 = <[n := (p0, p1 - p0)%nat]> c.
Proof. inversion 1; eauto. Qed.

Lemma rmatches_opt icase g a p0 s0 c0 p1 s1 c1 :
  rmatches icase (Opt g a) p0 s0 c0 p1 s1 c1 →
  (p1 = p0 ∧ s1 = s0 ∧ c1 = c0) ∨ rmatches icase a p0 s0 c0 p1 s1 c1.
Proof. inversion 1; subst; auto. Qed.

(** The text of a group that was set at the end of [pre]. *)
Lemma capture_app pre u post caps n :
  caps !! n = Some (length pre, length u) →
  capture (chars_string (pre ++ u ++ post)) caps n = Some (chars_string u).
Proof.
  intros E. unfold capture. rewrite E. simpl. rewrite string_chars_string.
  by rewrite drop_app_length, take_app_length.
Qed.

(** ** Running the matcher on text of a known shape *)

Section run.
Context {R : Type} (icase : bool).
Implicit Types (k : nat → chars → captures → option R) (x : R).

Lemma rmatch_lits w : ∀ r pos s caps k,
  rmatch false (lits w r) pos (w ++ s) caps k = rmatch false r (pos + length w) s caps k.
Proof.
  induction w as [|c w IH]; intros r pos s caps k; simpl; [by rewrite Nat.add_0_r|].
  unfold eqc. rewrite bool_decide_eq_true_2 by done.
  rewrite IH. f_equal. lia.
Qed.

(** The loop of a star over a class, with [n] rounds left. *)
Definition star_loop (greedy : bool) (c : cls) k :=
  fix star (n : nat) (pos : nat) (s : chars) (caps : captures) {struct n} : option R :=
    match n with
    | O => k pos s caps
    | S n' =>
        let more := λ _ : (), rmatch icase (Cls c) pos s caps (λ pos' s' caps',
          if decide (length s' < length s)%nat then star n' pos' s' caps' else None) in
        if greedy
        then match more () with Some x => Some x | None => k pos s caps end
        else match k pos s caps with Some x => Some x | None => more () end
    end.

Lemma rmatch_star greedy c pos s caps k :
  rmatch icase (Star greedy (Cls c)) pos s caps k = star_loop greedy c k (length s) pos s caps.
Proof. reflexivity. Qed.

Lemma star_loop_none c k caps n : ∀ pos s,
  (∀ u v, s = u ++ v → Forall (λ y, cls_match icase c y = true) u → k (pos + length u)%nat v caps = None) →
  star_loop true c k n pos s caps = None.
Proof.
  induction n as [|n IH]; intros pos s Hk.
  - simpl. rewrite <- (Hk [] s); [|done|constructor]. simpl. by rewrite Nat.add_0_r.
  - assert (Hk0 : k pos s caps = None).
    { rewrite <- (Hk [] s); [|done|constructor]. simpl. by rewrite Nat.add_0_r. }
    simpl. destruct s as [|y s]; [done|]. destruct (cls_match icase c y) eqn:Ey; [|done].
    rewrite decide_True by (simpl; lia). rewrite IH; [done|].
    intros u v -> Hu. rewrite <- (Hk (y :: u) v); [|done|by constructor]. simpl. f_equal. lia.
Qed.

(** A greedy star takes [u] if it can take nothing more with success. *)
Lemma rmatch_star_greedy c u v pos caps k x :
  Forall (λ y, cls_match icase c y = true) u →
  (∀ v1 v2, v = v1 ++ v2 → v1 ≠ [] → Forall (λ y, cls_match icase c y = true) v1 →
     k (pos + length u + length v1)%nat v2 caps = None) →
  k (pos + length u)%nat v caps = Some x →
  rmatch icase (Star true (Cls c)) pos (u ++ v) caps k = Some x.
Proof.
  intros Hu Hmore Hk. rewrite rmatch_star.
  assert (Hn : (length (u ++ v) <= length (u ++ v))%nat) by lia.
  revert Hn. generalize (length (u ++ v)) at 2 3 as n. intros n Hn.
  revert pos u Hu Hmore Hk Hn. induction n as [|n IH]; intros pos u Hu Hmore Hk Hn.
  - destruct u; [|simpl in Hn; lia]. simpl in *. by rewrite Nat.add_0_r in Hk.
  - destruct u as [|y u]; simpl.
    + simpl in Hk. rewrite Nat.add_0_r in Hk. destruct v as [|y v]; [done|].
      destruct (cls_match icase c y) eqn:Ey; [|done]. rewrite decide_True by (simpl; lia).
      rewrite star_loop_none; [done|]. intros v1 v2 -> Hv1.
      rewrite <- (Hmore (y :: v1) v2); [|done|done|by constructor]. simpl. f_equal. lia.
    + apply Forall_cons in Hu as [Hy Hu]. rewrite Hy, decide_True by (simpl; lia).
      rewrite (IH (S pos) u); [done|done| | |simpl in Hn; lia].
      * intros v1 v2 Hv Hne Hv1. rewrite <- (Hmore v1 v2 Hv Hne Hv1). simpl. f_equal. lia.
      * rewrite <- Hk. simpl. f_equal. lia.
Qed.

(** A greedy star over a run that is followed by another character. *)
Lemma rmatch_star_run c u v pos caps k x :
  Forall (λ y, cls_match icase c y = true) u →
  match v with y :: _ => cls_match icase c y = false | [] => True end →
  k (pos + length u)%nat v caps = Some x →
  rmatch icase (Star true (Cls c)) pos (u ++ v) caps k = Some x.
Proof.
  intros Hu Hv Hk. apply rmatch_star_greedy; [done| |done].
  intros [|y v1] v2 Hs Hne Hv1; [done|]. destruct v as [|y' v]; [done|]. injection Hs as <- _.
  apply Forall_cons in Hv1 as [H _]. congruence.
Qed.

(** [c+] on such a run. *)
Lemma rmatch_plus_run c u v pos caps k x :
  u ≠ [] → Forall (λ y, cls_match icase c y = true) u →
  match v with y :: _ => cls_match icase c y = false | [] => True end →
  k (pos + length u)%nat v caps = Some x →
  rmatch icase (Seq (Cls c) (Star true (Cls c))) pos (u ++ v) caps k = Some x.
Proof.
  destruct u as [|y u]; [done|]. intros _ [Hy Hu]%Forall_cons Hv Hk.
  change (rmatch icase (Seq (Cls c) (Star true (Cls c))) pos ((y :: u) ++ v) caps k)
    with (if cls_match icase c y then rmatch icase (Star true (Cls c)) (S pos) (u ++ v) caps k else None).
  rewrite Hy. apply rmatch_star_run; [done|done|]. rewrite <- Hk. simpl. f_equal. lia.
Qed.

(** A lazy star stops where the rest succeeds for the first time. *)
Lemma rmatch_star_lazy c u v pos caps k x :
  Forall (λ y, cls_match icase c y = true) u →
  (∀ u1 u2, u = u1 ++ u2 → u2 ≠ [] → k (pos + length u1)%nat (u2 ++ v) caps = None) →
  k (pos + length u)%nat v caps = Some x →
  rmatch icase (Star false (Cls c)) pos (u ++ v) caps k = Some x.
Proof.
  intros Hu Hless Hk. rewrite rmatch_star.
  assert (Hn : (length (u ++ v) <= length (u ++ v))%nat) by lia.
  revert Hn. generalize (length (u ++ v)) at 2 3 as n. intros n Hn.
  revert pos u Hu Hless Hk Hn. induction n as [|n IH]; intros pos u Hu Hless Hk Hn.
  - destruct u; [|simpl in Hn; lia]. simpl in *. by rewrite Nat.add_0_r in Hk.
  - destruct u as [|y u].
    + simpl in *. rewrite Nat.add_0_r in Hk. by rewrite Hk.
    + pose proof (Hless [] (y :: u) eq_refl) as H0. simpl in H0. rewrite Nat.add_0_r in H0.
      simpl. rewrite H0 by done. apply Forall_cons in Hu as [Hy Hu]. rewrite Hy, decide_True by (simpl; lia).
      apply IH; [done| | |simpl in Hn; lia].
      * intros u1 u2 -> Hne. rewrite <- (Hless (y :: u1) u2 eq_refl Hne). simpl. f_equal. lia.
      * rewrite <- Hk. simpl. f_equal. lia.
Qed.
End run.

Lemma search_from_pos icase r s : ∀ pos p len caps,
  search_from icase r pos s = Some (p, len, caps) → (pos <= p)%nat.
Proof.
  induction s as [|c s IH]; intros pos p len caps; simpl;
    (destruct (rmatch icase r pos _ ∅ _) as [x|] eqn:E;
     [intros [= ->]; apply rmatch_sound in E as (? & ? & ? & _ & [= <- _ _]); done|]); [done|].
  intros H%IH. lia.
Qed.

(** *** Text after upper-casing *)

Lemma char_cases (P : ascii → bool) : forallb P (map ascii_of_nat (seq 0 256)) = true → ∀ c, P c = true.
Proof.
  intros H c. rewrite forallb_forall in H. apply H. apply in_map_iff. exists (nat_of_ascii c).
  split; [apply ascii_nat_embedding|]. apply in_seq. pose proof (nat_ascii_bounded c). lia.
Qed.
