(* ===== verification/Predicate.v ===== *)
(** * Predicates of subscriptions (src/changefeed/predicate_evaluator.cpp)

    The tokenizer, the translation of LIKE patterns to regular expressions, the
    recursive-descent parser and the evaluator of WHERE clauses on JSON rows.

    Specifications: the documented grammar as an inductive definition over
    tokens ([expr_g]), which the parser decides; a printer of tokens, which the
    tokenizer inverts; SQL's LIKE as a relation ([Like]); SQL's three-valued
    logic ([sql3]).

    A [size_t] position is a [nat] bounded by the length of the input.  The
    depth of the C++ stack, and the library's limit on the size of a compiled
    expression, are not modelled. *)

From Stdlib Require Import Strings.Ascii.
From S2P Require Import Prelude Float64 Json Regex.

(** ** Syntax trees (struct PredicateNode) *)

Module Op.
Inductive t := EQ | NE | LT | LE | GT | GE.
End Op.

Inductive literal :=
| LIT_STRING (string_value : string)
| LIT_NUMBER (number_value : Z)
| LIT_BOOLEAN (bool_value : bool)
| LIT_NULL_VALUE.

Inductive PredicateNode :=
| OR (lhs rhs : PredicateNode)
| AND (lhs rhs : PredicateNode)
| NOT (lhs : PredicateNode)
| COMPARISON (column : string) (op : Op.t) (lit : literal)
| LIKE (column : string) (like_regex : regex)
| IS_NULL (column : string) (negated : bool).

(** ** Tokens *)

Inductive TokenType :=
| IDENT | STRING | NUMBER
| KW_AND | KW_OR | KW_NOT | KW_LIKE | KW_IS | KW_NULL | KW_TRUE | KW_FALSE
| EQ | NE | LT | LE | GT | GE
| LPAREN | RPAREN
| END.

#[export] Instance TokenType_eq_dec : EqDecision TokenType.
Proof. solve_decision. Defined.

Record Token := mk_token { type : TokenType; text : string; number : Z; pos : nat }.

Definition ToLowerAscii (s : string) : string := chars_string (map tolower (string_chars s)).

Definition KeywordOrIdent (word : string) : TokenType :=
  let lower := ToLowerAscii word in
  if decide (lower = "and") then KW_AND
  else if decide (lower = "or") then KW_OR
  else if decide (lower = "not") then KW_NOT
  else if decide (lower = "like") then KW_LIKE
  else if decide (lower = "is") then KW_IS
  else if decide (lower = "null") then KW_NULL
  else if decide (lower = "true") then KW_TRUE
  else if decide (lower = "false") then KW_FALSE
  else IDENT.

Definition IsDigit : ascii → bool := isdigit.
Definition ident_start (c : ascii) : bool := isalpha c || eqc c "_".
Definition ident_char (c : ascii) : bool := isalnum c || eqc c "_".
Definition is_sign (c : ascii) : bool := eqc c "+" || eqc c "-".

(** The loops [while (j < n && f(input[j])) ++j]: what they pass over, and the rest. *)
Fixpoint span (f : ascii → bool) (l : chars) : chars * chars :=
  match l with
  | [] => ([], [])
  | c :: l' => if f c then let '(u, r) := span f l' in (c :: u, r) else ([], l)
  end.

(** The test on a prefix of the input: [input[0]] is a digit, or a dot before one. *)
Definition digit_or_dot_digit (l : chars) : bool :=
  match l with
  | c :: l' => IsDigit c || (eqc c "." && match l' with d :: _ => IsDigit d | [] => false end)
  | [] => false
  end.

Definition number_start (l : chars) : bool :=
  match l with
  | c :: l' => digit_or_dot_digit l || (is_sign c && digit_or_dot_digit l')
  | [] => false
  end.

Definition digits_value (ds : chars) : Z := fold_left (λ a d, 10 * a + (code d - 48)) ds 0.

(** [std::stod] of a sign, digits and a fraction. *)
Definition stod (sign digits fraction : chars) : option Z :=
  decimal_to_double (bool_decide (sign = ["-"%char])) (digits_value (digits ++ fraction))
    (length fraction).

Inductive number_scan :=
| NumberError (message : string)
| NumberToken (num_str : chars) (value : Z) (rest : chars).

Definition at_position (pos : nat) : string := "at position " +:+ pretty (N.of_nat pos).

Definition scan_number (l : chars) (start : nat) : number_scan :=
  let '(sign, l1) := match l with c :: l' => if is_sign c then ([c], l') else ([], l) | [] => ([], l) end in
  let '(digits, l2) := span IsDigit l1 in
  let finish dot fraction rest :=
    let num_str := sign ++ digits ++ dot ++ fraction in
    match stod sign digits fraction with
    | Some value => NumberToken num_str value rest
    | None => NumberError ("Malformed number '" +:+ chars_string num_str +:+ "' " +:+ at_position start)
    end in
  match l2 with
  | c :: l3 =>
      if eqc c "." then
        match l3 with
        | d :: _ =>
            if IsDigit d then let '(fraction, rest) := span IsDigit l3 in finish ["."%char] fraction rest
            else NumberError ("Malformed number " +:+ at_position start)
        | [] => NumberError ("Malformed number " +:+ at_position start)
        end
      else finish [] [] l2
  | [] => finish [] [] l2
  end.

(** A string literal after its opening quote: the contents, the rest of the
    input, and the number of characters passed; [None] when unterminated. *)
Fixpoint scan_string (l : chars) : option (chars * chars * nat) :=
  match l with
  | [] => None
  | c :: l' =>
      if eqc c "'" then
        match l' with
        | d :: l'' =>
            if eqc d "'" then '(value, rest, n) ← scan_string l''; Some ("'"%char :: value, rest, S (S n))
            else Some ([], l', 1%nat)
        | [] => Some ([], l', 1%nat)
        end
      else '(value, rest, n) ← scan_string l'; Some (c :: value, rest, S n)
  end.

(** The switch on operators and parentheses: type, text, and what follows. *)
Definition scan_operator (c : ascii) (l' : chars) : option (TokenType * string * chars) :=
  let next := match l' with d :: r => Some (d, r) | [] => None end in
  if eqc c "=" then Some (EQ, "=", l')
  else if eqc c "!" then
    match next with Some (d, r) => if eqc d "=" then Some (NE, "!=", r) else None | None => None end
  else if eqc c "<" then
    match next with
    | Some (d, r) =>
        if eqc d "=" then Some (LE, "<=", r)
        else if eqc d ">" then Some (NE, "<>", r) else Some (LT, "<", l')
    | None => Some (LT, "<", l')
    end
  else if eqc c ">" then
    match next with
    | Some (d, r) => if eqc d "=" then Some (GE, ">=", r) else Some (GT, ">", l')
    | None => Some (GT, ">", l')
    end
  else if eqc c "(" then Some (LPAREN, "(", l')
  else if eqc c ")" then Some (RPAREN, ")", l')
  else None.

Inductive scan_result := Tokens (tokens : list Token) | ScanError (message : string).

Definition push (t : Token) (r : scan_result) : scan_result :=
  match r with Tokens ts => Tokens (t :: ts) | e => e end.

(** The loop of [Tokenize]; [None] when the fuel runs out. *)
Fixpoint tokenize (fuel : nat) (l : chars) (i : nat) : option scan_result :=
  match fuel with
  | O => None
  | S fuel =>
      match l with
      | [] => Some (Tokens [mk_token END "" 0 i])
      | c :: l' =>
          if isspace c then tokenize fuel l' (S i)
          else if ident_start c then
            let '(w, rest) := span ident_char l in
            let word := chars_string w in
            push (mk_token (KeywordOrIdent word) word 0 i) <$> tokenize fuel rest (i + length w)
          else if number_start l then
            match scan_number l i with
            | NumberError message => Some (ScanError message)
            | NumberToken num_str value rest =>
                push (mk_token NUMBER (chars_string num_str) value i)
                  <$> tokenize fuel rest (i + length num_str)
            end
          else if eqc c "'" then
            match scan_string l' with
            | None => Some (ScanError ("Unterminated string literal " +:+ at_position i))
            | Some (value, rest, n) =>
                push (mk_token STRING (chars_string value) 0 i) <$> tokenize fuel rest (i + S n)
            end
          else
            match scan_operator c l' with
            | Some (ty, txt, rest) =>
                push (mk_token ty txt 0 i) <$> tokenize fuel rest (i + String.length txt)
            | None =>
                Some (ScanError ("Unexpected character '" +:+ String c "' " +:+ at_position i))
            end
      end
  end.

Definition Tokenize (input : string) : option scan_result :=
  tokenize (S (String.length input)) (string_chars input) 0.

(** ** LIKE patterns *)

Definition kRegexSpecial : chars := string_chars "\^$.|?*+()[]{}".

Fixpoint LikePatternToRegex_chars (pattern : chars) : chars :=
  match pattern with
  | [] => []
  | c :: pattern =>
      (if eqc c "%" then string_chars ".*"
       else if eqc c "_" then ["."%char]
       else if existsb (eqc c) kRegexSpecial then ["\"%char; c]
       else [c]) ++ LikePatternToRegex_chars pattern
  end.

Definition LikePatternToRegex (pattern : string) : string :=
  chars_string (LikePatternToRegex_chars (string_chars pattern)).

(** ** The parser *)

Record Parser := mk_parser { tokens_ : list Token; index_ : nat; error_ : string }.

Definition advance (p : Parser) : Parser := mk_parser (tokens_ p) (S (index_ p)) (error_ p).

(** A step of the parser; [None] is an access out of the bounds of the token
    vector, or fuel that runs out: [Parse_decides_grammar] shows neither
    happens.  A node that is [None] is a null pointer. *)
Definition P (A : Type) : Type := Parser → option (A * Parser).
Definition node_ptr : Type := option PredicateNode.

#[export] Instance P_ret : MRet P := λ A a p, Some (a, p).
#[export] Instance P_bind : MBind P := λ A B f m p,
  match m p with Some (a, p') => f a p' | None => None end.

Definition Peek : P Token := λ p,
  match tokens_ p !! index_ p with Some t => Some (t, p) | None => None end.
Definition Advance : P Token := λ p,
  match tokens_ p !! index_ p with Some t => Some (t, advance p) | None => None end.
Definition Match (ty : TokenType) : P bool := λ p,
  match tokens_ p !! index_ p with
  | Some t => Some (if decide (type t = ty) then (true, advance p) else (false, p))
  | None => None
  end.
Definition Fail (message : string) : P node_ptr := λ p,
  if decide (error_ p = "") then
    match tokens_ p !! index_ p with
    | Some t => Some (None, mk_parser (tokens_ p) (index_ p) (message +:+ " " +:+ at_position (pos t)))
    | None => None
    end
  else Some (None, p).

Definition token_op (ty : TokenType) : option Op.t :=
  match ty with
  | EQ => Some Op.EQ | NE => Some Op.NE | LT => Some Op.LT
  | LE => Some Op.LE | GT => Some Op.GT | GE => Some Op.GE
  | _ => None
  end.

Definition token_literal (t : Token) : option literal :=
  match type t with
  | STRING => Some (LIT_STRING (text t))
  | NUMBER => Some (LIT_NUMBER (number t))
  | KW_TRUE => Some (LIT_BOOLEAN true)
  | KW_FALSE => Some (LIT_BOOLEAN false)
  | KW_NULL => Some LIT_NULL_VALUE
  | _ => None
  end.

Definition ParseComparison : P node_ptr :=
  t ← Peek;
  if negb (bool_decide (type t = IDENT)) then Fail "Expected column name" else
  t ← Advance;
  let column := text t in
  is_kw ← Match KW_IS;
  if (is_kw : bool) then
    negated ← Match KW_NOT;
    null ← Match KW_NULL;
    if negb null then Fail "Expected NULL after IS" else mret (Some (IS_NULL column negated))
  else
  like ← Match KW_LIKE;
  if (like : bool) then
    t ← Peek;
    if negb (bool_decide (type t = STRING)) then Fail "Expected string pattern after LIKE" else
    t ← Advance;
    match compile (LikePatternToRegex (text t)) with
    | Some like_regex => mret (Some (LIKE column like_regex))
    | None => Fail ("Invalid LIKE pattern '" +:+ text t +:+ "'")
    end
  else
  t ← Peek;
  match token_op (type t) with
  | None => Fail "Expected comparison operator"
  | Some op =>
      _ ← Advance;
      t ← Peek;
      match token_literal t with
      | None => Fail "Expected literal after comparison operator"
      | Some lit => _ ← Advance; mret (Some (COMPARISON column op lit))
      end
  end.

Fixpoint ParseExpr (fuel : nat) : P node_ptr :=
  match fuel with
  | O => λ _, None
  | S fuel =>
      lhs ← ParseTerm fuel;
      match lhs with
      | None => mret None
      | Some lhs => expr_loop fuel lhs
      end
  end
with expr_loop (fuel : nat) (lhs : PredicateNode) : P node_ptr :=
  match fuel with
  | O => λ _, None
  | S fuel =>
      more ← Match KW_OR;
      if (more : bool) then
        rhs ← ParseTerm fuel;
        match rhs with
        | None => mret None
        | Some rhs => expr_loop fuel (OR lhs rhs)
        end
      else mret (Some lhs)
  end
with ParseTerm (fuel : nat) : P node_ptr :=
  match fuel with
  | O => λ _, None
  | S fuel =>
      lhs ← ParseFactor fuel;
      match lhs with
      | None => mret None
      | Some lhs => term_loop fuel lhs
      end
  end
with term_loop (fuel : nat) (lhs : PredicateNode) : P node_ptr :=
  match fuel with
  | O => λ _, None
  | S fuel =>
      more ← Match KW_AND;
      if (more : bool) then
        rhs ← ParseFactor fuel;
        match rhs with
        | None => mret None
        | Some rhs => term_loop fuel (AND lhs rhs)
        end
      else mret (Some lhs)
  end
with ParseFactor (fuel : nat) : P node_ptr :=
  match fuel with
  | O => λ _, None
  | S fuel =>
      paren ← Match LPAREN;
      if (paren : bool) then
        expr ← ParseExpr fuel;
        match expr with
        | None => mret None
        | Some expr =>
            close ← Match RPAREN;
            if negb close then Fail "Expected ')'" else mret (Some expr)
        end
      else
      negation ← Match KW_NOT;
      if (negation : bool) then
        operand ← ParseFactor fuel;
        match operand with
        | None => mret None
        | Some operand => mret (Some (NOT operand))
        end
      else ParseComparison
  end.

(** A parse: the node, or the error message. *)
Inductive parse_result := Parsed (node : PredicateNode) | ParseError (error : string).

(** Fuel that is enough for [n] tokens. *)
Definition parse_fuel (n : nat) : nat := 4 * n + 3.

Definition Parser_Parse (tokens : list Token) : option parse_result :=
  '(expr, p) ← ParseExpr (parse_fuel (length tokens)) (mk_parser tokens 0 "");
  match expr with
  | None => Some (ParseError (error_ p))
  | Some node =>
      t ← tokens_ p !! index_ p;
      if decide (type t = END) then Some (Parsed node)
      else Some (ParseError ("Unexpected trailing input " +:+ at_position (pos t)))
  end.

Definition Parse (where_clause : string) : option parse_result :=
  r ← Tokenize where_clause;
  match r with
  | ScanError message => Some (ParseError message)
  | Tokens tokens => Parser_Parse tokens
  end.

(** ** Evaluation *)

(** The comparison operators of a C++ type. *)
Class Ordered (T : Type) := { op_eq : T → T → bool; op_lt : T → T → bool; op_le : T → T → bool }.

#[export] Instance double_ordered : Ordered Z :=
  {| op_eq := double_eq; op_lt := double_lt; op_le := double_le |}.
#[export] Instance string_ordered : Ordered string :=
  {| op_eq := String.eqb;
     op_lt := λ x y, bool_decide (String.compare x y = Lt);
     op_le := λ x y, bool_decide (String.compare x y ≠ Gt) |}.

Definition CompareOrdered {T} `{Ordered T} (lhs rhs : T) (op : Op.t) : bool :=
  match op with
  | Op.EQ => op_eq lhs rhs
  | Op.NE => negb (op_eq lhs rhs)
  | Op.LT => op_lt lhs rhs
  | Op.LE => op_le lhs rhs
  | Op.GT => op_lt rhs lhs
  | Op.GE => op_le rhs lhs
  end.

(** [it == row.end() || it->is_null()]. *)
Definition null_field (it : option json) : bool :=
  match it with None | Some JNull => true | Some _ => false end.

Definition EvaluateComparison (column : string) (op : Op.t) (lit : literal) (row : json) : bool :=
  match json_field column row with
  | None => false
  | Some value =>
      if null_field (Some value) then false else
      match lit with
      | LIT_NULL_VALUE => false
      | LIT_NUMBER number_value =>
          if is_number value then CompareOrdered (json_double value) number_value op else false
      | LIT_STRING string_value =>
          match value with JString s => CompareOrdered s string_value op | _ => false end
      | LIT_BOOLEAN bool_value =>
          match value with
          | JBool b =>
              match op with
              | Op.EQ => Bool.eqb b bool_value
              | Op.NE => negb (Bool.eqb b bool_value)
              | _ => false
              end
          | _ => false
          end
      end
  end.

Fixpoint EvaluateNode (node : PredicateNode) (row : json) : bool :=
  match node with
  | OR lhs rhs => EvaluateNode lhs row || EvaluateNode rhs row
  | AND lhs rhs => EvaluateNode lhs row && EvaluateNode rhs row
  | NOT lhs => negb (EvaluateNode lhs row)
  | IS_NULL column negated =>
      let is_null := null_field (json_field column row) in
      if negated then negb is_null else is_null
  | LIKE column like_regex =>
      match json_field column row with
      | Some (JString s) => bool_decide (is_Some (regex_match false like_regex s))
      | _ => false
      end
  | COMPARISON column op lit => EvaluateComparison column op lit row
  end.

Definition Evaluate (root_ : PredicateNode) (row : json) : bool :=
  if is_object row then EvaluateNode root_ row else false.

(** ** Concrete runs *)

Definition run (where_clause : string) (row : json) : option (bool + string) :=
  match Parse where_clause with
  | Some (Parsed n) => Some (inl (Evaluate n row))
  | Some (ParseError e) => Some (inr e)
  | None => None
  end.

Definition demo_row : json := object_of (list_to_map
  [("a", JInt 3); ("name", JString "anne"); ("ok", JBool true); ("gone", JNull)]).

Example run_mixed :
  run "NOT (a >= 4 OR gone = 1) and name LIKE 'a%e' AND ok = true" demo_row = Some (inl true).
Proof. vm_compute. reflexivity. Qed.
Example run_escape : run "name = 'an''ne' or a <> +3.0 or gone is not null" demo_row = Some (inl false).
Proof. vm_compute. reflexivity. Qed.
Example run_errors :
  (run "a = " demo_row, run "a = 1 b" demo_row, run "a ! 1" demo_row,
   run "a = 'x" demo_row, run "a = 1." demo_row, run "" demo_row)
  = (Some (inr "Expected literal after comparison operator at position 4"),
     Some (inr "Unexpected trailing input at position 6"),
     Some (inr "Unexpected character '!' at position 2"),
     Some (inr "Unterminated string literal at position 4"),
     Some (inr "Malformed number at position 4"),
     Some (inr "Expected column name at position 0")).
Proof. vm_compute. reflexivity. Qed.
