(* ===== verification/PredicateText.v ===== *)
(** * The tokenizer of predicates inverts printing

    The tokens the tokenizer can produce ([token_ok]), a printer for them, and
    the theorems that the tokenizer ends on every text, answers only such
    tokens, and reads a printed list back. *)

From Stdlib Require Import Strings.Ascii.
From S2P Require Import Prelude Float64 Json Regex Predicate.

(** ** The tokens *)

Definition is_word (w : chars) : Prop :=
  match w with c :: u => ident_start c = true ∧ Forall (λ c, ident_char c = true) u | [] => False end.

(** The text of a number: sign, digits, fraction. *)
Definition number_text (sign digits fraction : chars) : chars :=
  sign ++ digits ++ match fraction with [] => [] | _ => "."%char :: fraction end.

Definition is_number_text (sign digits fraction : chars) : Prop :=
  (sign = [] ∨ sign = ["+"%char] ∨ sign = ["-"%char]) ∧
  Forall (λ c, IsDigit c = true) digits ∧ Forall (λ c, IsDigit c = true) fraction ∧
  (digits ≠ [] ∨ fraction ≠ []).

Definition token_ok (t : Token) : Prop :=
  match type t with
  | STRING => number t = 0
  | NUMBER => ∃ sign digits fraction, is_number_text sign digits fraction ∧
      text t = chars_string (number_text sign digits fraction) ∧
      stod sign digits fraction = Some (number t)
  | EQ => text t = "=" ∧ number t = 0
  | NE => (text t = "!=" ∨ text t = "<>") ∧ number t = 0
  | LT => text t = "<" ∧ number t = 0
  | LE => text t = "<=" ∧ number t = 0
  | GT => text t = ">" ∧ number t = 0
  | GE => text t = ">=" ∧ number t = 0
  | LPAREN => text t = "(" ∧ number t = 0
  | RPAREN => text t = ")" ∧ number t = 0
  | END => False
  | ty => is_word (string_chars (text t)) ∧ KeywordOrIdent (text t) = ty ∧ number t = 0
  end.

(** ** Printing *)

(** The contents of a string literal, quotes doubled. *)
Fixpoint quote (s : chars) : chars :=
  match s with
  | [] => []
  | c :: s => if eqc c "'" then "'"%char :: "'"%char :: quote s else c :: quote s
  end.

Definition show_token (t : Token) : chars :=
  match type t with
  | STRING => "'"%char :: quote (string_chars (text t)) ++ ["'"%char]
  | _ => string_chars (text t)
  end.

Fixpoint show_tokens (ts : list Token) : chars :=
  match ts with [] => [] | t :: ts => show_token t ++ " "%char :: show_tokens ts end.

(** The tokens with the positions they have in the printed text, and the END. *)
Fixpoint placed (i : nat) (ts : list Token) : list Token :=
  match ts with
  | [] => [mk_token END "" 0 i]
  | t :: ts => mk_token (type t) (text t) (number t) i :: placed (i + S (length (show_token t))) ts
  end.

(** ** Characters *)

Ltac ascii_cases c := destruct c as [[] [] [] [] [] [] [] []]; vm_compute; try done.

Lemma ident_start_facts c : ident_start c = true → isspace c = false ∧ ident_char c = true.
Proof. ascii_cases c. Qed.
Lemma IsDigit_facts c :
  IsDigit c = true → isspace c = false ∧ ident_start c = false ∧ is_sign c = false ∧ eqc c "." = false.
Proof. ascii_cases c. Qed.

Lemma eqc_eq a b : eqc a b = true ↔ a = b.
Proof. apply bool_decide_eq_true. Qed.
Lemma eqc_neq a b : eqc a b = false ↔ a ≠ b.
Proof. apply bool_decide_eq_false. Qed.

Lemma length_string_chars s : length (string_chars s) = String.length s.
Proof. induction s; simpl; auto. Qed.

(** ** The scanning loops *)

Lemma span_spec f l u r :
  span f l = (u, r) →
  l = u ++ r ∧ Forall (λ c, f c = true) u ∧ match r with c :: _ => f c = false | [] => True end.
Proof.
  revert u r. induction l as [|c l IH]; simpl; intros u r E; [by simplify_eq|].
  destruct (f c) eqn:Ef; [|by simplify_eq].
  destruct (span f l) as [u' r'] eqn:Es. simplify_eq.
  destruct (IH _ _ eq_refl) as (-> & ? & ?). split; [done|]. split; [by constructor|done].
Qed.

Lemma span_stop f u r :
  Forall (λ c, f c = true) u → (match r with c :: _ => f c = false | [] => True end) →
  span f (u ++ r) = (u, r).
Proof.
  induction 1 as [|c u Hc _ IH]; simpl; intros Hr.
  - destruct r as [|c r]; simpl; [done|]. by rewrite Hr.
  - by rewrite Hc, (IH Hr).
Qed.

Lemma scan_string_quote s rest :
  (match rest with c :: _ => c ≠ "'"%char | [] => True end) →
  scan_string (quote s ++ "'"%char :: rest) = Some (s, rest, S (length (quote s))).
Proof.
  intros Hr. induction s as [|c s IH]; simpl.
  - destruct rest as [|d rest]; [done|]. by rewrite (proj2 (eqc_neq d "'") Hr).
  - destruct (eqc c "'") eqn:Ec; simpl.
    + rewrite IH. simpl. apply eqc_eq in Ec. by subst.
    + by rewrite Ec, IH.
Qed.

Lemma scan_string_length l value rest n :
  scan_string l = Some (value, rest, n) → length l = (n + length rest)%nat.
Proof.
  remember (length l) as k eqn:Ek. revert l value rest n Ek.
  induction k as [k IH] using lt_wf_ind. intros [|c l] value rest n -> E; simplify_eq/=.
  destruct (eqc c "'").
  - destruct l as [|d l]; simplify_eq/=; [done|]. destruct (eqc d "'"); simplify_eq/=; [|done].
    destruct (scan_string l) as [[[v r] m]|] eqn:Es; simplify_eq/=.
    rewrite (IH (length l)) with (l := l) (3 := Es); [lia|simpl; lia|done].
  - destruct (scan_string l) as [[[v r] m]|] eqn:Es; simplify_eq/=.
    rewrite (IH (length l)) with (l := l) (3 := Es); [lia|simpl; lia|done].
Qed.

(** *** Numbers *)

Lemma number_text_start sign digits fraction rest :
  is_number_text sign digits fraction →
  number_start (number_text sign digits fraction ++ rest) = true ∧
  match number_text sign digits fraction with
  | c :: _ => isspace c = false ∧ ident_start c = false
  | [] => False
  end.
Proof.
  intros (Hs & Hd & Hf & Hne).
  assert (digit_or_dot_digit ((digits ++ match fraction with [] => [] | _ => "."%char :: fraction end) ++ rest)
    = true ∧ match digits ++ match fraction with [] => [] | _ => "."%char :: fraction end with
             | c :: _ => isspace c = false ∧ ident_start c = false | [] => False end) as [Hdd Hh].
  { destruct Hd as [|d digits Hd Hds]; simpl.
    - destruct Hf as [|d fraction Hf Hfs]; [by destruct Hne|]. simpl. by rewrite Hf.
    - rewrite Hd. split; [done|]. split; by apply IsDigit_facts. }
  unfold number_text. destruct Hs as [-> | [-> | ->]]; simpl; [|by rewrite Hdd..].
  destruct (digits ++ _) as [|c l] eqn:E; [done|]. simpl in *. by rewrite Hdd.
Qed.

Lemma scan_number_text sign digits fraction value rest start :
  is_number_text sign digits fraction → stod sign digits fraction = Some value →
  (match rest with c :: _ => IsDigit c = false ∧ c ≠ "."%char | [] => True end) →
  scan_number (number_text sign digits fraction ++ rest) start
  = NumberToken (number_text sign digits fraction) value rest.
Proof.
  intros (Hs & Hd & Hf & Hne) Hv Hr.
  set (tail := match fraction with [] => [] | _ => "."%char :: fraction end ++ rest).
  assert (number_text sign digits fraction ++ rest = sign ++ digits ++ tail) as ->.
  { unfold number_text, tail. by rewrite <- !app_assoc. }
  assert (span IsDigit (digits ++ tail) = (digits, tail)) as Hspan.
  { apply span_stop; [done|]. unfold tail. destruct fraction; simpl; [|done].
    destruct rest; [done|apply Hr]. }
  assert (match sign ++ digits ++ tail with
          | c :: l' => if is_sign c then ([c], l') else ([], sign ++ digits ++ tail)
          | [] => ([], sign ++ digits ++ tail) end = (sign, digits ++ tail)) as Hsign.
  { destruct Hs as [-> | [-> | ->]]; simpl; [|done..].
    destruct Hd as [|d ds Hd Hds]; simpl.
    - unfold tail. destruct fraction as [|f fs]; simpl; [by destruct Hne|done].
    - by rewrite (proj1 (proj2 (proj2 (IsDigit_facts _ Hd)))). }
  unfold scan_number. rewrite Hsign, Hspan. unfold tail, number_text.
  destruct fraction as [|f fs] eqn:Ef; simpl.
  - destruct rest as [|c rest]; simpl; [by rewrite Hv|].
    rewrite (proj2 (eqc_neq c ".")) by apply Hr. by rewrite Hv.
  - apply Forall_cons in Hf as [Hf Hfs]. rewrite Hf. 
    rewrite (span_stop IsDigit fs rest Hfs) by (destruct rest; [done|apply Hr]).
    simpl. by rewrite Hv.
Qed.

(** The sign of a number, split off as the code does. *)
Lemma number_start_sign l :
  number_start l = true → ∃ sign l1,
    match l with c :: l' => if is_sign c then ([c], l') else ([], l) | [] => ([], l) end = (sign, l1) ∧
    l = sign ++ l1 ∧ (sign = [] ∨ sign = ["+"%char] ∨ sign = ["-"%char]) ∧
    digit_or_dot_digit l1 = true.
Proof.
  destruct l as [|c l]; simpl; [done|]. intros Hl. destruct (is_sign c) eqn:Ec.
  - exists [c], l. split_and!; [done|done| |].
    + unfold is_sign in Ec. apply orb_true_iff in Ec as [->%eqc_eq| ->%eqc_eq]; auto.
    + destruct (IsDigit c) eqn:Ed; [destruct (IsDigit_facts _ Ed) as (_ & _ & ? & _); congruence|].
      simpl in Hl. destruct (eqc c ".") eqn:E; [apply eqc_eq in E; by subst|done].
  - exists [], (c :: l). split_and!; [done|done|by auto|]. simpl in *. by rewrite orb_false_r in Hl.
Qed.

Lemma scan_number_spec l start num value rest :
  number_start l = true → scan_number l start = NumberToken num value rest →
  l = num ++ rest ∧ num ≠ [] ∧ ∃ sign digits fraction, num = number_text sign digits fraction ∧
    is_number_text sign digits fraction ∧ stod sign digits fraction = Some value.
Proof.
  intros (sign & l1 & Hsplit & -> & Hs & Hl1)%number_start_sign. unfold scan_number.
  rewrite Hsplit. destruct (span IsDigit l1) as [digits l2] eqn:E1.
  apply span_spec in E1 as (-> & Hd & Hl2).
  assert (Hfin : ∀ fraction rest', Forall (λ c, IsDigit c = true) fraction →
    l2 = match fraction with [] => [] | _ => "."%char :: fraction end ++ rest' →
    (fraction = [] → digits ≠ []) →
    stod sign digits fraction = Some value → num = number_text sign digits fraction → rest = rest' →
    sign ++ digits ++ l2 = num ++ rest ∧ num ≠ [] ∧ ∃ sign digits fraction,
      num = number_text sign digits fraction ∧
      is_number_text sign digits fraction ∧ stod sign digits fraction = Some value).
  { intros fraction rest' Hf -> Hne Hv -> ->. unfold number_text. rewrite <- !app_assoc.
    split; [done|]. split.
    - destruct fraction; [|by destruct sign, digits]. destruct digits; [|by destruct sign].
      by destruct Hne.
    - exists sign, digits, fraction. split_and!; [done|..|done]. split_and!; [done..|].
      destruct fraction; auto. }
  destruct l2 as [|c l3]; [|destruct (eqc c ".") eqn:Ec; [destruct l3 as [|d l3]; [done|destruct (IsDigit d) eqn:Ed]|]].
  - destruct (stod sign digits []) eqn:Ev; intros [= <- <- <-].
    apply (Hfin [] []); try done. by intros _ ->.
  - apply eqc_eq in Ec as ->. destruct (span IsDigit (d :: l3)) as [fraction rest'] eqn:Ef.
    simpl in Ef. rewrite Ed in Ef. destruct (span IsDigit l3) as [fr r] eqn:Ef'. simplify_eq.
    apply span_spec in Ef' as (-> & Hfr & _).
    destruct (stod sign digits (d :: fr)) eqn:Ev; intros [= <- <- <-].
    apply (Hfin (d :: fr) rest'); try done. by constructor.
  - done.
  - destruct (stod sign digits []) eqn:Ev; intros [= <- <- <-].
    apply (Hfin [] (c :: l3)); try done.
    intros _ ->. simpl in Hl1. by rewrite Ec, Hl2 in Hl1.
Qed.

(** ** The tokenizer *)

Lemma scan_number_error l start m : scan_number l start = NumberError m → m ≠ "".
Proof.
  unfold scan_number.
  destruct (match l with c :: l' => if is_sign c then ([c], l') else ([], l) | [] => ([], l) end) as [sign l1].
  destruct (span IsDigit l1) as [digits [|c l3]].
  - destruct (stod _ _ _); by intros [= <-].
  - destruct (eqc c "."); [|destruct (stod _ _ _); by intros [= <-]].
    destruct l3 as [|d l3]; [by intros [= <-]|]. destruct (IsDigit d); [|by intros [= <-]].
    destruct (span IsDigit (d :: l3)). destruct (stod _ _ _); by intros [= <-].
Qed.

Lemma scan_operator_spec c l ty txt rest :
  scan_operator c l = Some (ty, txt, rest) →
  token_ok (mk_token ty txt 0 0) ∧ c :: l = string_chars txt ++ rest ∧ (0 < String.length txt)%nat.
Proof.
  unfold scan_operator. intros H.
  repeat match type of H with
  | (if eqc ?a ?b then _ else _) = _ =>
      let E := fresh in destruct (eqc a b) eqn:E; [apply eqc_eq in E; subst|]
  | match match ?l with _ => _ end with _ => _ end = _ => destruct l; simpl in H
  | None = _ => discriminate H
  | Some _ = _ => injection H as <- <- <-; unfold token_ok; simpl; by auto with lia
  end.
Qed.

Lemma token_ok_pos t i : token_ok t → token_ok (mk_token (type t) (text t) (number t) i).
Proof. done. Qed.

(** What a complete scan answers. *)
Definition scan_ok (r : option scan_result) : Prop :=
  match r with
  | Some (Tokens tokens) => ∃ ts n, tokens = ts ++ [mk_token END "" 0 n] ∧ Forall token_ok ts
  | Some (ScanError message) => message ≠ ""
  | None => False
  end.

Lemma scan_ok_push t r : token_ok t → scan_ok r → scan_ok (push t <$> r).
Proof.
  intros Ht. destruct r as [[tokens|m]|]; simpl; [|done..].
  intros (ts & n & -> & Hts). exists (t :: ts), n. split; [done|]. by constructor.
Qed.

Lemma word_ok w i :
  is_word w → token_ok (mk_token (KeywordOrIdent (chars_string w)) (chars_string w) 0 i).
Proof.
  intros Hw.
  assert (∀ ty, ty = KeywordOrIdent (chars_string w) →
    is_word (string_chars (chars_string w)) ∧ KeywordOrIdent (chars_string w) = ty ∧ 0 = 0) as H
    by (intros ? ->; by rewrite string_chars_string).
  unfold token_ok. simpl. unfold KeywordOrIdent in *.
  repeat (case_decide; [by apply H|]). by apply H.
Qed.

Lemma tokenize_ok fuel l i : (length l < fuel)%nat → scan_ok (tokenize fuel l i).
Proof.
  revert l i. induction fuel as [|fuel IH]; intros l i Hl; [lia|].
  destruct l as [|c l]; simpl in Hl; [by exists [], i|]. cbn [tokenize].
  destruct (isspace c); [apply IH; lia|].
  destruct (ident_start c) eqn:Ec.
  { destruct (span ident_char (c :: l)) as [w rest] eqn:Es. pose proof Es as Es'.
    simpl in Es. rewrite (proj2 (ident_start_facts _ Ec)) in Es.
    destruct (span ident_char l) as [u r] eqn:El. simplify_eq.
    apply span_spec in El as (-> & Hu & _). rewrite length_app in Hl.
    apply scan_ok_push; [by apply word_ok|]. apply IH. lia. }
  destruct (number_start (c :: l)) eqn:En.
  { destruct (scan_number (c :: l) i) as [m|num value rest] eqn:Es; [by eapply scan_number_error|].
    apply scan_number_spec in Es as (E & Hne & sg & ds & fr & -> & Hok & Hv); [|done].
    apply scan_ok_push; [by exists sg, ds, fr|]. apply IH.
    apply (f_equal length) in E. rewrite length_app in E. simpl in E.
    destruct (number_text sg ds fr); [done|]. simpl in E. lia. }
  destruct (eqc c "'").
  { destruct (scan_string l) as [[[value rest] n]|] eqn:Es; [|done].
    apply scan_string_length in Es. apply scan_ok_push; [done|]. apply IH. lia. }
  destruct (scan_operator c l) as [[[ty txt] rest]|] eqn:Eo; [|done].
  apply scan_operator_spec in Eo as (Hok & E & Hlen). apply scan_ok_push.
  - by destruct ty.
  - apply IH. apply (f_equal length) in E. rewrite length_app, length_string_chars in E.
    simpl in E. lia.
Qed.

Lemma Tokenize_ok input : scan_ok (Tokenize input).
Proof. apply tokenize_ok. rewrite length_string_chars. lia. Qed.

(** ** Reading a printed token back *)

Lemma tokenize_word fuel w rest i :
  is_word w → (match rest with c :: _ => ident_char c = false | [] => True end) →
  tokenize (S fuel) (w ++ rest) i
  = push (mk_token (KeywordOrIdent (chars_string w)) (chars_string w) 0 i)
      <$> tokenize fuel rest (i + length w).
Proof.
  destruct w as [|c u]; [done|]. intros [Hc Hu] Hr.
  pose proof (ident_start_facts _ Hc) as [Hs Hi].
  pose proof (span_stop ident_char (c :: u) rest (Forall_cons_2 _ _ _ Hi Hu) Hr) as Hspan.
  simpl app in *. cbn [tokenize]. by rewrite Hs, Hc, Hspan.
Qed.

Lemma tokenize_number fuel sign digits fraction value rest i :
  is_number_text sign digits fraction → stod sign digits fraction = Some value →
  (match rest with c :: _ => IsDigit c = false ∧ c ≠ "."%char | [] => True end) →
  tokenize (S fuel) (number_text sign digits fraction ++ rest) i
  = push (mk_token NUMBER (chars_string (number_text sign digits fraction)) value i)
      <$> tokenize fuel rest (i + length (number_text sign digits fraction)).
Proof.
  intros Hok Hv Hr. pose proof (number_text_start _ _ _ rest Hok) as [Hstart Hh].
  pose proof (scan_number_text _ _ _ _ rest i Hok Hv Hr) as Hscan.
  destruct (number_text sign digits fraction) as [|c u]; [done|]. destruct Hh as [Hs Hi].
  simpl app in *. cbn [tokenize]. by rewrite Hs, Hi, Hstart, Hscan.
Qed.

Lemma tokenize_string fuel s rest i :
  (match rest with c :: _ => c ≠ "'"%char | [] => True end) →
  tokenize (S fuel) ("'"%char :: quote s ++ "'"%char :: rest) i
  = push (mk_token STRING (chars_string s) 0 i) <$> tokenize fuel rest (i + S (S (length (quote s)))).
Proof. intros Hr. cbn [tokenize]. by rewrite (scan_string_quote s rest Hr). Qed.

(** A token followed by a space. *)
Lemma tokenize_token fuel t rest i :
  token_ok t →
  tokenize (S (S fuel)) (show_token t ++ " "%char :: rest) i
  = push (mk_token (type t) (text t) (number t) i)
      <$> tokenize fuel rest (i + S (length (show_token t))).
Proof.
  intros Ht.
  assert (tokenize (S (S fuel)) (show_token t ++ " "%char :: rest) i
    = push (mk_token (type t) (text t) (number t) i)
      <$> tokenize (S fuel) (" "%char :: rest) (i + length (show_token t))) as ->.
  { destruct t as [ty txt num p]. unfold token_ok, show_token in *. cbn [type text number] in *.
    destruct ty;
    try (destruct Ht as (Hw & Hk & Hn); subst num;
         rewrite (tokenize_word (S fuel)) by done; rewrite chars_string_chars, Hk; reflexivity);
    try (destruct Ht as [-> ->]; reflexivity); [| | |done].
    - subst num. cbn [app]. rewrite <- app_assoc. cbn [app].
      rewrite (tokenize_string (S fuel)) by done. rewrite chars_string_chars.
      rewrite length_cons, length_app. simpl. do 2 f_equal. lia.
    - destruct Ht as (sg & ds & fr & Hok & -> & Hv). rewrite string_chars_string.
      by rewrite (tokenize_number (S fuel) _ _ _ num) by done.
    - destruct Ht as [[->| ->] ->]; reflexivity. }
  f_equal. cbn [tokenize]. by rewrite Nat.add_succ_r.
Qed.

Lemma show_token_length t : token_ok t → (0 < length (show_token t))%nat.
Proof.
  destruct t as [ty txt num p]. unfold token_ok, show_token. simpl.
  destruct ty; try (intros [Hw _]; destruct (string_chars txt); [done|simpl; lia]);
    try (intros [-> _]; simpl; lia); [simpl; lia| |intros [[-> | ->] _]; simpl; lia|done].
  intros (sg & ds & fr & Hok & -> & _). rewrite string_chars_string.
  pose proof (proj2 (number_text_start _ _ _ [] Hok)) as H.
  destruct (number_text sg ds fr); [done|simpl; lia].
Qed.

Lemma tokenize_shown ts fuel i :
  Forall token_ok ts → (length (show_tokens ts) < fuel)%nat →
  tokenize fuel (show_tokens ts) i = Some (Tokens (placed i ts)).
Proof.
  intros Hts. revert fuel i. induction Hts as [|t ts Ht Hts IH]; intros fuel i Hf; simpl in *.
  - by destruct fuel; [lia|].
  - rewrite length_app in Hf. simpl in Hf. pose proof (show_token_length _ Ht).
    destruct fuel as [|[|fuel]]; [lia..|]. rewrite tokenize_token by done.
    rewrite IH by lia. done.
Qed.

(** The tokenizer reads back what is printed: any list of tokens it can
    produce at all (words, numbers with the value [std::stod] gives them,
    strings with any characters in them, operators), printed with quotes
    doubled and a space after each token, is tokenized to the same list, at the
    positions of the text; and on every text the tokenizer ends, either with
    such a list closed by the END token, or with an error message. *)
Theorem Tokenize_show (ts : list Token) (Hts : Forall token_ok ts) (input : string) :
  Tokenize (chars_string (show_tokens ts)) = Some (Tokens (placed 0 ts)) ∧
  scan_ok (Tokenize input).
Proof.
  split; [|apply Tokenize_ok]. unfold Tokenize. rewrite string_chars_string.
  apply tokenize_shown; [done|]. rewrite <- length_string_chars, string_chars_string. lia.
Qed.

Definition demo_tokens : list Token :=
  [mk_token IDENT "name" 0 0; mk_token KW_LIKE "LiKe" 0 0; mk_token STRING "it's %" 0 0;
   mk_token KW_OR "or" 0 0; mk_token IDENT "a" 0 0; mk_token NE "<>" 0 0;
   mk_token NUMBER "-1.5" (2 ^ 63 + 4609434218613702656) 0].

Lemma demo_tokens_ok : Forall token_ok demo_tokens.
Proof.
  assert (∀ w, Is_true (forallb ident_char w) → Forall (λ c, ident_char c = true) w) as Hw.
  { intros w H. apply forallb_True in H. eapply Forall_impl; [exact H|]. intros c. apply Is_true_true. }
  unfold demo_tokens. repeat apply Forall_cons_2; [| | | | | | |apply Forall_nil_2].
  1,2,4,5: split; [split; [done|by apply Hw]|done].
  1: done.
  1: by split; [right|].
  exists ["-"%char], ["1"%char], ["5"%char].
  split; [|split; vm_compute; reflexivity].
  split_and!; [by auto|by repeat constructor|by repeat constructor|by left].
Qed.

Lemma Tokenize_show_witness :
  Tokenize "name LiKe 'it''s %' or a <> -1.5 " = Some (Tokens (placed 0 demo_tokens)) ∧
  scan_ok (Tokenize "a ~ b").
Proof. exact (Tokenize_show demo_tokens demo_tokens_ok "a ~ b"). Defined.
