(* ===== verification/PredicateGrammar.v ===== *)
(** * The predicate parser decides the documented grammar

    The grammar of include/changefeed/predicate_evaluator.h as an inductive
    definition over token lists with the syntax tree of each sentence, and the
    proof that the recursive-descent parser of [Predicate] accepts exactly its
    sentences, with the fuel it is given and without leaving the token vector. *)

From Stdlib Require Import Strings.Ascii.
From S2P Require Import Prelude Float64 Json Regex Predicate PredicateText.

(** ** The grammar *)

Inductive comparison_g : list Token → PredicateNode → Prop :=
| G_is_null c i n :
    type c = IDENT → type i = KW_IS → type n = KW_NULL →
    comparison_g [c; i; n] (IS_NULL (text c) false)
| G_is_not_null c i m n :
    type c = IDENT → type i = KW_IS → type m = KW_NOT → type n = KW_NULL →
    comparison_g [c; i; m; n] (IS_NULL (text c) true)
| G_like c l s r :
    type c = IDENT → type l = KW_LIKE → type s = STRING →
    compile (LikePatternToRegex (text s)) = Some r →
    comparison_g [c; l; s] (LIKE (text c) r)
| G_op c o v op lit :
    type c = IDENT → token_op (type o) = Some op → token_literal v = Some lit →
    comparison_g [c; o; v] (COMPARISON (text c) op lit).

Inductive expr_g : list Token → PredicateNode → Prop :=
| G_expr ts1 lhs ts2 n : term_g ts1 lhs → or_tail_g lhs ts2 n → expr_g (ts1 ++ ts2) n
with or_tail_g : PredicateNode → list Token → PredicateNode → Prop :=
| G_or_nil lhs : or_tail_g lhs [] lhs
| G_or_cons lhs o ts1 rhs ts2 n :
    type o = KW_OR → term_g ts1 rhs → or_tail_g (OR lhs rhs) ts2 n →
    or_tail_g lhs (o :: ts1 ++ ts2) n
with term_g : list Token → PredicateNode → Prop :=
| G_term ts1 lhs ts2 n : factor_g ts1 lhs → and_tail_g lhs ts2 n → term_g (ts1 ++ ts2) n
with and_tail_g : PredicateNode → list Token → PredicateNode → Prop :=
| G_and_nil lhs : and_tail_g lhs [] lhs
| G_and_cons lhs a ts1 rhs ts2 n :
    type a = KW_AND → factor_g ts1 rhs → and_tail_g (AND lhs rhs) ts2 n →
    and_tail_g lhs (a :: ts1 ++ ts2) n
with factor_g : list Token → PredicateNode → Prop :=
| G_paren o ts c n :
    type o = LPAREN → expr_g ts n → type c = RPAREN → factor_g (o :: ts ++ [c]) n
| G_not k ts n : type k = KW_NOT → factor_g ts n → factor_g (k :: ts) (NOT n)
| G_comparison ts n : comparison_g ts n → factor_g ts n.

Scheme expr_g_ind' := Induction for expr_g Sort Prop
with or_tail_g_ind' := Induction for or_tail_g Sort Prop
with term_g_ind' := Induction for term_g Sort Prop
with and_tail_g_ind' := Induction for and_tail_g Sort Prop
with factor_g_ind' := Induction for factor_g Sort Prop.
Combined Scheme grammar_ind from expr_g_ind', or_tail_g_ind', term_g_ind', and_tail_g_ind', factor_g_ind'.

(** ** Parser states *)

(** The parser has no error yet and [rest] is what it has not read: a list of
    tokens closed by the END token. *)
Definition at_rest (p : Parser) (rest : list Token) : Prop :=
  error_ p = "" ∧ drop (index_ p) (tokens_ p) = rest ∧
  ∃ ts e, rest = ts ++ [e] ∧ type e = END ∧ Forall (λ t, type t ≠ END) ts.

Lemma at_rest_peek p t rest : at_rest p (t :: rest) → tokens_ p !! index_ p = Some t.
Proof.
  intros (_ & E & _). replace (index_ p) with (index_ p + 0)%nat by lia.
  by rewrite <- lookup_drop, E.
Qed.

Lemma at_rest_advance p t rest :
  at_rest p (t :: rest) → type t ≠ END → at_rest (advance p) rest.
Proof.
  intros (He & E & ts & e & Er & Hend & Hts) Ht. split; [done|]. split.
  - simpl. rewrite <- Nat.add_1_r, <- drop_drop, E. done.
  - destruct ts as [|t' ts]; simplify_eq/=. apply Forall_cons in Hts as [_ Hts]. eauto.
Qed.

Lemma at_rest_cons p rest : at_rest p rest → ∃ t rest', rest = t :: rest'.
Proof. intros (_ & _ & ts & e & -> & _). destruct ts; eauto. Qed.

(** ** Results of a parsing function from [rest]

    It stops in a state reached by reading a sentence of [G], or with an error. *)
Definition parses (G : list Token → PredicateNode → Prop) (rest : list Token)
    (r : option (node_ptr * Parser)) : Prop :=
  match r with
  | Some (Some n, p') => ∃ ts rest', rest = ts ++ rest' ∧ G ts n ∧ at_rest p' rest'
  | Some (None, p') => error_ p' ≠ ""
  | None => False
  end.

Lemma parses_weaken (G G' : list Token → PredicateNode → Prop) rest r :
  parses G rest r → (∀ ts n, G ts n → G' ts n) → parses G' rest r.
Proof. destruct r as [[[n|] p']|]; simpl; [|done..]. intros (ts & rest' & -> & ? & ?) HG. eauto 6. Qed.

Lemma parses_cons (G G' : list Token → PredicateNode → Prop) t rest r :
  parses G rest r → (∀ ts n, G ts n → G' (t :: ts) n) → parses G' (t :: rest) r.
Proof.
  destruct r as [[[n|] p']|]; simpl; [|done..]. intros (ts & rest' & -> & ? & ?) HG.
  exists (t :: ts), rest'. eauto.
Qed.

Lemma parses_app (G G' : list Token → PredicateNode → Prop) ts0 rest r :
  parses G rest r → (∀ ts n, G ts n → G' (ts0 ++ ts) n) → parses G' (ts0 ++ rest) r.
Proof.
  destruct r as [[[n|] p']|]; simpl; [|done..]. intros (ts & rest' & -> & ? & ?) HG.
  exists (ts0 ++ ts), rest'. split; [by rewrite app_assoc|eauto].
Qed.

Lemma parses_done (G : list Token → PredicateNode → Prop) p ts n rest rest' :
  at_rest p rest' → rest = ts ++ rest' → G ts n → parses G rest (Some (Some n, p)).
Proof. intros. simpl. eauto. Qed.

Lemma Fail_parses G p rest rest' message :
  at_rest p rest' → message ≠ "" → parses G rest (Fail message p).
Proof.
  intros H Hm. destruct (at_rest_cons _ _ H) as (t & r & ->).
  unfold Fail. rewrite decide_True by apply H. rewrite (at_rest_peek _ _ _ H). simpl.
  by destruct message.
Qed.

Lemma Match_at p t rest ty :
  at_rest p (t :: rest) →
  Match ty p = Some (if decide (type t = ty) then (true, advance p) else (false, p)).
Proof. intros H. unfold Match. by rewrite (at_rest_peek _ _ _ H). Qed.
Lemma Peek_at p t rest : at_rest p (t :: rest) → Peek p = Some (t, p).
Proof. intros H. unfold Peek. by rewrite (at_rest_peek _ _ _ H). Qed.
Lemma Advance_at p t rest : at_rest p (t :: rest) → Advance p = Some (t, advance p).
Proof. intros H. unfold Advance. by rewrite (at_rest_peek _ _ _ H). Qed.

(** Sequencing: behind [pre] a node is read, then what follows is read from there. *)
Lemma parses_bind pre (G G' : list Token → PredicateNode → Prop) rest (m : P node_ptr)
    (k : PredicateNode → P node_ptr) p :
  parses G rest (m p) →
  (∀ ts n p' rest', rest = ts ++ rest' → G ts n → at_rest p' rest' →
     parses G' (pre ++ ts ++ rest') (k n p')) →
  parses G' (pre ++ rest) ((e ← m; match e with None => mret None | Some n => k n end) p).
Proof.
  unfold mbind, P_bind. destruct (m p) as [[[n|] p']|]; simpl; [|done..].
  intros (ts & rest' & -> & ? & ?) HG. eauto.
Qed.

(** Reads the next token of the state [p]: names it, and evaluates the [Peek],
    [Advance] and [Match] that look at it. *)
Ltac look :=
  match goal with
  | H : at_rest ?p (_ :: _) |- _ =>
      rewrite ?(Peek_at _ _ _ H), ?(Advance_at _ _ _ H), ?(Match_at _ _ _ _ H); simpl
  | H : at_rest ?p ?r |- _ =>
      let t := fresh "t" in let r' := fresh "r" in
      destruct (at_rest_cons _ _ H) as (t & r' & ->);
      rewrite ?(Peek_at _ _ _ H), ?(Advance_at _ _ _ H), ?(Match_at _ _ _ _ H); simpl
  end.
(** Moves past the token just read. *)
Ltac pass :=
  match goal with
  | H : at_rest ?p (?t :: ?r) |- _ =>
      let H' := fresh H in
      assert (at_rest (advance p) r) as H' by (apply (at_rest_advance _ _ _ H); congruence); clear H;
      rename H' into H
  end.

Lemma token_op_END o op : token_op (type o) = Some op → type o ≠ END.
Proof. by intros H E; rewrite E in H. Qed.
Lemma token_literal_END v lit : token_literal v = Some lit → type v ≠ END.
Proof. unfold token_literal. by intros H E; rewrite E in H. Qed.

Lemma ParseComparison_parses p rest :
  at_rest p rest → parses comparison_g rest (ParseComparison p).
Proof.
  intros H. unfold ParseComparison, mbind, P_bind. look.
  case_bool_decide as Hc; simpl; [|by eapply Fail_parses]. look. pass. look.
  case_decide as Hi; [|look; case_decide as Hl].
  - pass. look. case_decide as Hm; [pass|]; look; (case_decide as Hn; simpl; [pass|by eapply Fail_parses]).
    + eapply (parses_done _ _ [_; _; _; _]); [done|done|by constructor].
    + eapply (parses_done _ _ [_; _; _]); [done|done|by constructor].
  - pass. look. case_bool_decide as Hs; simpl; [|by eapply Fail_parses]. look.
    pass. destruct (compile _) as [re|] eqn:Er; simpl; [|by eapply Fail_parses].
    eapply (parses_done _ _ [_; _; _]); [done|done|by constructor].
  - look. destruct (token_op _) as [op|] eqn:Eo; simpl; [|by eapply Fail_parses]. look.
    pose proof (token_op_END _ _ Eo). pass. look.
    destruct (token_literal _) as [lit|] eqn:Ev; simpl; [|by eapply Fail_parses]. look.
    pose proof (token_literal_END _ _ Ev). pass.
    eapply (parses_done _ _ [_; _; _]); [done|done|by constructor].
Qed.

(** ** Soundness, safety and termination *)

Lemma at_rest_length p rest ts rest' : rest = ts ++ rest' → at_rest p rest → (length rest' <= length rest)%nat.
Proof. intros -> _. rewrite length_app. lia. Qed.

Lemma comparison_g_length ts n : comparison_g ts n → (0 < length ts)%nat.
Proof. destruct 1; simpl; lia. Qed.

(** What each function of the parser guarantees with enough fuel. *)
Lemma parser_sound fuel :
  (∀ p rest, at_rest p rest → 4 * length rest + 3 <= fuel →
     parses expr_g rest (ParseExpr fuel p))%nat ∧
  (∀ p rest lhs, at_rest p rest → 4 * length rest + 1 <= fuel →
     parses (or_tail_g lhs) rest (expr_loop fuel lhs p))%nat ∧
  (∀ p rest, at_rest p rest → 4 * length rest + 2 <= fuel →
     parses term_g rest (ParseTerm fuel p))%nat ∧
  (∀ p rest lhs, at_rest p rest → 4 * length rest + 1 <= fuel →
     parses (and_tail_g lhs) rest (term_loop fuel lhs p))%nat ∧
  (∀ p rest, at_rest p rest → 4 * length rest + 1 <= fuel →
     parses factor_g rest (ParseFactor fuel p))%nat.
Proof.
  induction fuel as [|fuel (IHe & IHel & IHt & IHtl & IHf)]; [repeat split; intros; lia|].
  split_and!; intros p rest; [|intros lhs|..|intros lhs|]; intros H Hfuel; simpl.
  - apply (parses_bind [] term_g); [apply IHt; [done|lia]|].
    intros ts n p' rest' -> Hts H'. rewrite length_app in Hfuel.
    eapply (parses_app _ _ ts); [apply IHel; [done|lia]|]. eauto using expr_g.
  - unfold mbind at 1, P_bind at 1. look. case_decide as Hor; [|by eapply (parses_done _ _ []); [..|constructor]].
    pass. simpl in Hfuel. apply (parses_bind [t] term_g); [apply IHt; [done|lia]|].
    intros ts n p' rest' -> Hts H'. rewrite length_app in Hfuel.
    apply (parses_app (or_tail_g (OR lhs n)) _ (t :: ts)); [apply IHel; [done|lia]|].
    intros. by eapply G_or_cons.
  - apply (parses_bind [] factor_g); [apply IHf; [done|lia]|].
    intros ts n p' rest' -> Hts H'. rewrite length_app in Hfuel.
    eapply (parses_app _ _ ts); [apply IHtl; [done|lia]|]. eauto using term_g.
  - unfold mbind at 1, P_bind at 1. look. case_decide as Hand; [|by eapply (parses_done _ _ []); [..|constructor]].
    pass. simpl in Hfuel. apply (parses_bind [t] factor_g); [apply IHf; [done|lia]|].
    intros ts n p' rest' -> Hts H'. rewrite length_app in Hfuel.
    apply (parses_app (and_tail_g (AND lhs n)) _ (t :: ts)); [apply IHtl; [done|lia]|].
    intros. by eapply G_and_cons.
  - unfold mbind at 1, P_bind at 1. look. case_decide as Hp; [|].
    + pass. simpl in Hfuel. apply (parses_bind [t] expr_g); [apply IHe; [done|lia]|].
      intros ts n p' rest' -> Hts H'. unfold mbind, P_bind. look.
      case_decide as Hc; simpl; [|by eapply Fail_parses]. pass.
      eapply (parses_done _ _ (t :: ts ++ [_])); [done| |by constructor].
      simpl. by rewrite <- app_assoc.
    + unfold mbind at 1, P_bind at 1. look. case_decide as Hn; simpl in Hfuel.
      * pass. apply (parses_bind [t] factor_g); [apply IHf; [done|lia]|].
        intros ts n p' rest' -> Hts H'. eapply (parses_done _ _ (t :: ts)); [done|done|by constructor].
      * eapply parses_weaken; [by apply ParseComparison_parses|]. by constructor.
Qed.

(** ** Completeness *)

(** The node is returned, and [rest] is left. *)
Definition reads (n : PredicateNode) (rest : list Token) (r : option (node_ptr * Parser)) : Prop :=
  ∃ p', r = Some (Some n, p') ∧ at_rest p' rest.

Definition follow (ty : TokenType) (rest : list Token) : Prop :=
  match rest with t :: _ => type t ≠ ty | [] => True end.

Lemma comparison_complete ts n p rest :
  comparison_g ts n → at_rest p (ts ++ rest) → reads n rest (ParseComparison p).
Proof.
  intros Hg H.
  destruct Hg as [c i m Hc Hi Hm|c i m k Hc Hi Hm Hk|c l s r Hc Hl Hs Hr|c o v op lit Hc Ho Hv];
    unfold ParseComparison, mbind, P_bind; simpl in H; look;
    rewrite bool_decide_eq_true_2 by done; simpl; look; pass; look.
  - rewrite decide_True by done. pass. look. rewrite decide_False by congruence. look.
    rewrite decide_True by done. pass. by eexists.
  - rewrite decide_True by done. pass. look. rewrite decide_True by congruence. pass. look.
    rewrite decide_True by done. pass. by eexists.
  - rewrite decide_False by congruence. look. rewrite decide_True by done. pass. look.
    rewrite bool_decide_eq_true_2 by done. simpl. look. rewrite Hr. pass. by eexists.
  - assert (type o ≠ KW_IS ∧ type o ≠ KW_LIKE ∧ type o ≠ END) as (? & ? & ?)
      by (split_and!; intros E; by rewrite E in Ho).
    pose proof (token_literal_END _ _ Hv).
    rewrite decide_False by done. look. rewrite decide_False by done. look. rewrite Ho. look.
    pass. look. rewrite Hv. look. pass. by eexists.
Qed.

Lemma reads_bind n0 n rest0 rest (m : P node_ptr) (k : PredicateNode → P node_ptr) p :
  reads n0 rest0 (m p) →
  (∀ p', at_rest p' rest0 → reads n rest (k n0 p')) →
  reads n rest ((e ← m; match e with None => mret None | Some n => k n end) p).
Proof. intros (p' & E & H) Hk. unfold mbind, P_bind. rewrite E. eauto. Qed.

Lemma grammar_complete :
  (∀ ts n, expr_g ts n → ∀ p rest fuel, at_rest p (ts ++ rest) →
     follow KW_AND rest → follow KW_OR rest → (4 * length (ts ++ rest) + 3 <= fuel)%nat →
     reads n rest (ParseExpr fuel p)) ∧
  (∀ lhs ts n, or_tail_g lhs ts n → ∀ p rest fuel, at_rest p (ts ++ rest) →
     follow KW_AND rest → follow KW_OR rest → (4 * length (ts ++ rest) + 1 <= fuel)%nat →
     reads n rest (expr_loop fuel lhs p)) ∧
  (∀ ts n, term_g ts n → ∀ p rest fuel, at_rest p (ts ++ rest) →
     follow KW_AND rest → (4 * length (ts ++ rest) + 2 <= fuel)%nat →
     reads n rest (ParseTerm fuel p)) ∧
  (∀ lhs ts n, and_tail_g lhs ts n → ∀ p rest fuel, at_rest p (ts ++ rest) →
     follow KW_AND rest → (4 * length (ts ++ rest) + 1 <= fuel)%nat →
     reads n rest (term_loop fuel lhs p)) ∧
  (∀ ts n, factor_g ts n → ∀ p rest fuel, at_rest p (ts ++ rest) →
     (4 * length (ts ++ rest) + 1 <= fuel)%nat → reads n rest (ParseFactor fuel p)).
Proof.
  assert (∀ lhs ts n rest, or_tail_g lhs ts n → follow KW_AND rest → follow KW_AND (ts ++ rest))
    as Hor.
  { intros lhs ts n rest []; simpl; [done|intros _; congruence]. }
  apply grammar_ind.
  - intros ts1 lhs ts2 n _ IHt Htl IHl p rest [|fuel] H ?? Hf; [lia|].
    rewrite <- app_assoc in H, Hf. simpl.
    eapply reads_bind; [apply (IHt _ (ts2 ++ rest)); eauto; lia|].
    intros p' H'. apply IHl; auto. rewrite length_app in Hf. lia.
  - intros lhs p rest [|fuel] H ? Ho Hf; [lia|]. simpl in *. unfold mbind, P_bind. look.
    rewrite decide_False by done. by eexists.
  - intros lhs o ts1 rhs ts2 n Hto _ IHt Htl IHl p rest [|fuel] H ?? Hf; [lia|].
    simpl in H, Hf. rewrite <- app_assoc in H, Hf. simpl. unfold mbind at 1, P_bind at 1. look.
    rewrite decide_True by done. pass.
    eapply reads_bind; [apply (IHt _ (ts2 ++ rest)); eauto; lia|].
    intros p' H'. apply IHl; auto. rewrite length_app in Hf. lia.
  - intros ts1 lhs ts2 n _ IHt Htl IHl p rest [|fuel] H ? Hf; [lia|].
    rewrite <- app_assoc in H, Hf. simpl.
    eapply reads_bind; [apply (IHt _ (ts2 ++ rest)); auto; lia|].
    intros p' H'. apply IHl; auto. rewrite length_app in Hf. lia.
  - intros lhs p rest [|fuel] H Ha Hf; [lia|]. simpl in *. unfold mbind, P_bind. look.
    rewrite decide_False by done. by eexists.
  - intros lhs o ts1 rhs ts2 n Hto _ IHt Htl IHl p rest [|fuel] H ? Hf; [lia|].
    simpl in H, Hf. rewrite <- app_assoc in H, Hf. simpl. unfold mbind at 1, P_bind at 1. look.
    rewrite decide_True by done. pass.
    eapply reads_bind; [apply (IHt _ (ts2 ++ rest)); auto; lia|].
    intros p' H'. apply IHl; auto. rewrite length_app in Hf. lia.
  - intros o ts c n Ho _ IHe Hc p rest [|fuel] H Hf; [lia|].
    simpl in H, Hf. rewrite <- app_assoc in H, Hf. simpl in *. unfold mbind at 1, P_bind at 1. look.
    rewrite decide_True by done. pass.
    eapply reads_bind; [apply (IHe _ (c :: rest)); [done|simpl; congruence..|simpl; lia]|].
    intros p' H'. unfold mbind, P_bind. look. rewrite decide_True by done. simpl. pass. by eexists.
  - intros k ts n Hk _ IHf p rest [|fuel] H Hf; [lia|]. simpl in *.
    unfold mbind at 1, P_bind at 1. look. rewrite decide_False by congruence.
    unfold mbind at 1, P_bind at 1. look. rewrite decide_True by done. pass.
    eapply reads_bind; [apply (IHf _ rest); [done|simpl; lia]|].
    intros p' H'. by eexists.
  - intros ts n Hg p rest [|fuel] H Hf; [lia|]. simpl.
    assert (∃ c ts', ts = c :: ts' ∧ type c = IDENT) as (c & ts' & Ets & Hc) by (destruct Hg; eauto).
    subst ts. unfold mbind at 1, P_bind at 1. simpl in H. look. rewrite decide_False by congruence.
    unfold mbind at 1, P_bind at 1. look. rewrite decide_False by congruence.
    by apply (comparison_complete (c :: ts')).
Qed.

(** ** The whole parser *)

Lemma at_rest_start ts e :
  type e = END → Forall (λ t, type t ≠ END) ts → at_rest (mk_parser (ts ++ [e]) 0 "") (ts ++ [e]).
Proof. intros He Hts. split; [done|]. split; [by rewrite drop_0|]. by exists ts, e. Qed.

Lemma closed_split ts e ts' t rest :
  type e = END → Forall (λ t, type t ≠ END) ts → ts ++ [e] = ts' ++ t :: rest → type t = END →
  ts' = ts.
Proof.
  intros He Hts E Ht. destruct rest as [|t' rest] using rev_ind; [|clear IHrest].
  - apply app_inj_tail in E as [-> _]. done.
  - rewrite app_comm_cons, app_assoc in E. apply app_inj_tail in E as [-> _].
    apply Forall_app in Hts as [_ Hts]. apply Forall_cons in Hts as [Hts _]. done.
Qed.

(** On a closed token list the parser answers the tree of the sentence, or an
    error when the list is not a sentence. *)
Definition decides (ts : list Token) (r : parse_result) : Prop :=
  match r with
  | Parsed n => ∀ n', expr_g ts n' ↔ n' = n
  | ParseError m => m ≠ "" ∧ ∀ n, ¬ expr_g ts n
  end.

Lemma Parser_Parse_complete ts e n :
  type e = END → Forall (λ t, type t ≠ END) ts → expr_g ts n →
  Parser_Parse (ts ++ [e]) = Some (Parsed n).
Proof.
  intros He Hts Hn. unfold Parser_Parse.
  destruct (proj1 grammar_complete ts n Hn _ [e] (parse_fuel (length (ts ++ [e])))
    (at_rest_start ts e He Hts)) as (p' & E & H'); [simpl; congruence..|done|].
  rewrite E. simpl. rewrite (at_rest_peek _ _ _ H'). simpl. by rewrite decide_True.
Qed.

Lemma Parser_Parse_decides ts e :
  type e = END → Forall (λ t, type t ≠ END) ts →
  ∃ r, Parser_Parse (ts ++ [e]) = Some r ∧ decides ts r.
Proof.
  intros He Hts. pose proof (at_rest_start ts e He Hts) as H.
  pose proof (proj1 (parser_sound (parse_fuel (length (ts ++ [e])))) _ _ H (le_n _)) as Hp.
  assert (Hnot : ∀ r, Parser_Parse (ts ++ [e]) = Some r → (∀ n, r ≠ Parsed n) → ∀ n, ¬ expr_g ts n).
  { intros r Hr Hne n Hn. apply (Parser_Parse_complete ts e) in Hn; [|done..]. naive_solver. }
  destruct (ParseExpr _ _) as [[[n|] p']|] eqn:E; simpl in Hp; [| |done].
  - destruct Hp as (ts' & rest & Erest & Hg & H'). destruct (at_rest_cons _ _ H') as (t & r & ->).
    assert (Parser_Parse (ts ++ [e]) = Some (if decide (type t = END) then Parsed n else
      ParseError ("Unexpected trailing input " +:+ at_position (pos t)))) as EP.
    { unfold Parser_Parse. rewrite E. simpl. rewrite (at_rest_peek _ _ _ H'). simpl. by case_decide. }
    eexists. split; [exact EP|]. case_decide as Ht; [|split; [done|by apply (Hnot _ EP)]].
    rewrite (closed_split ts e ts' t r) in Hg by done. intros n'. split; [|by intros ->].
    intros Hn'. apply (Parser_Parse_complete ts e) in Hn'; [|done..]. congruence.
  - assert (Parser_Parse (ts ++ [e]) = Some (ParseError (error_ p'))) as EP
      by (unfold Parser_Parse; by rewrite E).
    eexists. split; [exact EP|]. split; [done|by apply (Hnot _ EP)].
Qed.

Lemma token_ok_END t : token_ok t → type t ≠ END.
Proof. unfold token_ok. by intros H E; rewrite E in H. Qed.

(** C27.  [Parse] decides the documented grammar.  On every text it returns (its
    recursion ends and it never reads outside the token vector): the tokenizer's
    error when the text cannot be tokenized; otherwise, for the tokens before
    END, the syntax tree the grammar of the header gives them, which is unique,
    or a non-empty error when they are not a sentence of it. *)
Theorem Parse_decides_grammar (where_clause : string) :
  (∃ m, Tokenize where_clause = Some (ScanError m) ∧ m ≠ "" ∧
     Parse where_clause = Some (ParseError m)) ∨
  (∃ ts n r, Tokenize where_clause = Some (Tokens (ts ++ [mk_token END "" 0 n])) ∧
     Forall token_ok ts ∧ Parse where_clause = Some r ∧ decides ts r).
Proof.
  pose proof (Tokenize_ok where_clause) as H. unfold Parse.
  destruct (Tokenize where_clause) as [[tokens|m]|]; simpl in *; [right|left; eauto|done].
  destruct H as (ts & n & -> & Hts). exists ts, n.
  destruct (Parser_Parse_decides ts (mk_token END "" 0 n)) as (r & E & Hr); [done| |by exists r].
  by eapply Forall_impl, token_ok_END.
Qed.

Example unclosed_paren : Parse "(a = 1" = Some (ParseError "Expected ')' at position 6").
Proof. vm_compute. reflexivity. Qed.
