(* ===== verification/PredicateEval.v ===== *)
(** * LIKE and the evaluation of predicates

    SQL's LIKE as a relation and SQL's three-valued logic as a function, and the
    theorems that relate the regular expressions and the two-valued evaluator of
    [Predicate] to them. *)

From Stdlib Require Import Strings.Ascii.
From S2P Require Import Prelude Float64 Json Regex Predicate PredicateText.

(** ** LIKE *)

(** The characters that [.] matches. *)
Definition line_char (c : ascii) : Prop := c ≠ newline ∧ c ≠ carriage_return.

(** SQL's LIKE, with wildcards that do not match line breaks. *)
Inductive Like : chars → chars → Prop :=
| Like_nil : Like [] []
| Like_char c p s : c ≠ "%"%char → c ≠ "_"%char → Like p s → Like (c :: p) (c :: s)
| Like_one c p s : line_char c → Like p s → Like ("_"%char :: p) (c :: s)
| Like_many u p s : Forall line_char u → Like p s → Like ("%"%char :: p) (u ++ s).

(** The expression a pattern compiles to. *)
Definition like_atom (c : ascii) : regex :=
  if eqc c "%" then Star true (Cls CAny)
  else if eqc c "_" then Cls CAny else Cls (CItem (ILit c)).
Definition like_regex (p : chars) : regex := foldr (λ c, Seq (like_atom c)) Eps p.

(** *** Compilation *)

Lemma special_escape c : existsb (eqc c) kRegexSpecial = true → parse_escape c = Some (ILit c).
Proof. ascii_cases c. Qed.

Ltac ascii_split c H :=
  destruct c as [[] [] [] [] [] [] [] []]; first [reflexivity | vm_compute in H; discriminate H].

Lemma atom_literal f c l g :
  existsb (eqc c) kRegexSpecial = false →
  parse_atom (S f) (c :: l) g = Some (Cls (CItem (ILit c)), l, g).
Proof. intros H. ascii_split c H. Qed.

Lemma no_quantifier_literal c l r :
  existsb (eqc c) kRegexSpecial = false → parse_quantifiers r (c :: l) = Some (r, c :: l).
Proof. intros H. ascii_split c H. Qed.

Lemma seq_literal f c l g :
  existsb (eqc c) kRegexSpecial = false →
  parse_seq (S f) (c :: l) g =
    ('(a, l, g) ← parse_atom f (c :: l) g;
     '(a, l) ← parse_quantifiers a l;
     '(r, l, g) ← parse_seq f l g; Some (Seq a r, l, g)).
Proof. intros H. ascii_split c H. Qed.

(** Nothing in a translated pattern is read as a quantifier of what precedes it. *)
Lemma no_quantifier r p :
  parse_quantifiers r (LikePatternToRegex_chars p) = Some (r, LikePatternToRegex_chars p).
Proof.
  destruct p as [|c p]; cbn [LikePatternToRegex_chars]; [done|]. destruct (eqc c "%"); [done|]. destruct (eqc c "_"); [done|].
  destruct (existsb (eqc c) kRegexSpecial) eqn:E; [done|]. by apply no_quantifier_literal.
Qed.

Lemma star_quantifier r p :
  parse_quantifiers r ("*"%char :: LikePatternToRegex_chars p)
  = Some (Star true r, LikePatternToRegex_chars p).
Proof.
  rewrite <- (no_quantifier (Star true r) p). destruct p as [|c p]; cbn [LikePatternToRegex_chars]; [done|].
  destruct (eqc c "%"); [done|]. destruct (eqc c "_"); [done|].
  destruct (existsb (eqc c) kRegexSpecial) eqn:E; [done|]. ascii_split c E.
Qed.

Lemma parse_seq_like fuel p g :
  (2 * length p + 1 <= fuel)%nat →
  parse_seq fuel (LikePatternToRegex_chars p) g = Some (like_regex p, [], g).
Proof.
  revert fuel. induction p as [|c p IH]; intros fuel Hf; cbn [length] in Hf.
  - by destruct fuel; [lia|].
  - destruct fuel as [|[|fuel]]; [lia..|]. cbn [LikePatternToRegex_chars].
    change (like_regex (c :: p)) with (Seq (like_atom c) (like_regex p)). unfold like_atom.
    set (rest := LikePatternToRegex_chars p) in *.
    assert (Hrest : parse_seq (S fuel) rest g = Some (like_regex p, [], g)) by (apply IH; lia).
    destruct (eqc c "%") eqn:Ep; [|destruct (eqc c "_") eqn:Eu];
      [| |destruct (existsb (eqc c) kRegexSpecial) eqn:E].
    + change (('(a, l) ← parse_quantifiers (Cls CAny) ("*"%char :: rest);
        '(r, l, g) ← parse_seq (S fuel) l g; Some (Seq a r, l, g))
        = Some (Seq (Star true (Cls CAny)) (like_regex p), [], g)).
      unfold rest. rewrite star_quantifier. cbn [mbind option_bind].
      fold rest. by rewrite Hrest.
    + change (('(a, l) ← parse_quantifiers (Cls CAny) rest;
        '(r, l, g) ← parse_seq (S fuel) l g; Some (Seq a r, l, g))
        = Some (Seq (Cls CAny) (like_regex p), [], g)).
      unfold rest. rewrite no_quantifier. cbn [mbind option_bind]. fold rest. by rewrite Hrest.
    + change (('(a, l, g) ← (i ← parse_escape c; Some (Cls (CItem i), rest, g));
        '(a, l) ← parse_quantifiers a l;
        '(r, l, g) ← parse_seq (S fuel) l g; Some (Seq a r, l, g))
        = Some (Seq (Cls (CItem (ILit c))) (like_regex p), [], g)).
      rewrite (special_escape _ E). cbn [mbind option_bind].
      unfold rest. rewrite no_quantifier. cbn [mbind option_bind]. fold rest. by rewrite Hrest.
    + cbn [app]. rewrite seq_literal, atom_literal by done. cbn [mbind option_bind].
      unfold rest. rewrite no_quantifier. cbn [mbind option_bind]. fold rest. by rewrite Hrest.
Qed.

Lemma LikePatternToRegex_length p : (length p <= length (LikePatternToRegex_chars p))%nat.
Proof.
  induction p as [|c p IH]; cbn [LikePatternToRegex_chars length]; [lia|]. rewrite length_app.
  destruct (eqc c "%"), (eqc c "_"), (existsb (eqc c) kRegexSpecial); simpl; lia.
Qed.

(** The constructor of the expression never throws. *)
Lemma compile_like p :
  compile (LikePatternToRegex p) = Some (like_regex (string_chars p)).
Proof.
  unfold compile, LikePatternToRegex. rewrite string_chars_string.
  pose proof (LikePatternToRegex_length (string_chars p)).
  replace (2 * length (LikePatternToRegex_chars (string_chars p)) + 3)%nat
    with (S (2 * length (LikePatternToRegex_chars (string_chars p)) + 2)) by lia.
  cbn [parse_alt]. rewrite parse_seq_like by lia. done.
Qed.

(** *** Matching *)

Definition any_star {R} (k : nat → chars → captures → option R) :=
  fix star (n : nat) (pos : nat) (s : chars) (caps : captures) {struct n} : option R :=
    match n with
    | O => k pos s caps
    | S n' =>
        match match s with
              | x :: s' => if cls_match false CAny x then
                  (if decide (length s' < length s)%nat then star n' (S pos) s' caps else None) else None
              | [] => None
              end with
        | Some x => Some x
        | None => k pos s caps
        end
    end.

Lemma any_star_spec {R} (k : nat → chars → captures → option R) n pos s caps :
  (length s <= n)%nat →
  is_Some (any_star k n pos s caps) ↔
  ∃ u v, s = u ++ v ∧ Forall line_char u ∧ is_Some (k (pos + length u)%nat v caps).
Proof.
  revert pos s. induction n as [|n IH]; intros pos s Hn.
  - destruct s; [|simpl in Hn; lia]. simpl. split.
    + intros Hk. exists [], []. by rewrite Nat.add_0_r.
    + intros ([] & [] & ? & _ & Hk); simplify_eq. simpl in Hk. by rewrite Nat.add_0_r in Hk.
  - assert (Hany : ∀ c, cls_match false CAny c = true ↔ line_char c).
    { intros c. unfold line_char. simpl. rewrite negb_true_iff, orb_false_iff, !eqc_neq. done. }
    assert (Hstop : is_Some (k pos s caps) → ∃ u v, s = u ++ v ∧ Forall line_char u ∧ is_Some (k (pos + length u)%nat v caps)).
    { intros Hk. exists [], s. by rewrite Nat.add_0_r. }
    assert (Hmore : is_Some (match s with
              | x :: s' => if cls_match false CAny x then
                  (if decide (length s' < length s)%nat then any_star k n (S pos) s' caps else None) else None
              | [] => None end) ↔
       ∃ c u v, s = c :: u ++ v ∧ line_char c ∧ Forall line_char u ∧ is_Some (k (pos + S (length u))%nat v caps)).
    { destruct s as [|c s]; [split; [by intros []|by intros (?&?&?&?&?)]|].
      rewrite decide_True by (simpl; lia).
      destruct (cls_match false CAny c) eqn:Ec.
      - rewrite IH by (simpl in Hn; lia). apply Hany in Ec. setoid_rewrite Nat.add_succ_r.
        split; [intros (u & v & -> & ? & ?); by exists c, u, v|].
        intros (c' & u & v & ? & ? & ? & ?); simplify_eq. by exists u, v.
      - split; [by intros []|]. intros (c' & u & v & ? & Hc & _); simplify_eq.
        apply Hany in Hc. congruence. }
    simpl any_star. destruct (match s with [] => None | _ => _ end) as [x|] eqn:E.
    + split; [intros _|done]. destruct Hmore as [Hm _].
      destruct Hm as (c & u & v & -> & ? & ? & ?); [by eexists|]. exists (c :: u), v.
      split; [done|]. split; [by constructor|done].
    + split; [done|]. intros ([|c u] & v & -> & Hu & Hk); [by rewrite Nat.add_0_r in Hk|].
      apply Forall_cons in Hu as [Hc Hu]. destruct Hmore as [_ Hm].
      apply is_Some_None in Hm; [done|]. by exists c, u, v.
Qed.

Lemma rmatch_like {R} p (k : nat → chars → captures → option R) pos s caps :
  is_Some (rmatch false (like_regex p) pos s caps k) ↔
  ∃ u v, s = u ++ v ∧ Like p u ∧ is_Some (k (pos + length u)%nat v caps).
Proof.
  revert pos s. induction p as [|c p IH]; intros pos s.
  - simpl. split.
    + intros Hk. exists [], s. rewrite Nat.add_0_r. split_and!; [done|constructor|done].
    + intros (u & v & -> & H & Hk). inversion H; subst. by rewrite Nat.add_0_r in Hk.
  - assert (Hone : ∀ i, (∀ x, cls_match false i x = true ∨ cls_match false i x = false) →
      (∀ x u, Like (c :: p) (x :: u) ↔ cls_match false i x = true ∧ Like p u) →
      ¬ Like (c :: p) [] →
      is_Some (rmatch false (Seq (Cls i) (like_regex p)) pos s caps k) ↔
      ∃ u v, s = u ++ v ∧ Like (c :: p) u ∧ is_Some (k (pos + length u)%nat v caps)).
    { intros i _ Hi Hnil. simpl. destruct s as [|x s].
      { split; [by intros []|]. intros ([] & v & ? & ? & _); by simplify_eq. }
      destruct (cls_match false i x) eqn:Ex.
      - rewrite IH. split.
        + intros (u & v & -> & Hu & Hk). exists (x :: u), v. rewrite Hi. simpl.
          by rewrite Nat.add_succ_r.
        + intros ([|y u] & v & E & Hu & Hk); [done|]. injection E as -> ->.
          apply Hi in Hu as [_ Hu]. exists u, v. simpl in Hk. by rewrite Nat.add_succ_r in Hk.
      - split; [by intros []|]. intros ([|y u] & v & E & Hu & Hk); [done|]. injection E as -> ->.
        apply Hi in Hu as [Hu _]. congruence. }
    change (like_regex (c :: p)) with (Seq (like_atom c) (like_regex p)). unfold like_atom.
    destruct (eqc c "%") eqn:Ep; [|destruct (eqc c "_") eqn:Eu].
    + apply eqc_eq in Ep as ->. clear Hone.
      change (rmatch false (Seq (Star true (Cls CAny)) (like_regex p)) pos s caps k)
        with (any_star (λ pos s caps, rmatch false (like_regex p) pos s caps k) (length s) pos s caps).
      rewrite any_star_spec by done. setoid_rewrite IH. split.
      * intros (u & v & -> & Hu & u' & v' & -> & Hu' & Hk). exists (u ++ u'), v'.
        rewrite app_assoc, length_app, Nat.add_assoc. split_and!; [done|by constructor|done].
      * intros (u & v & -> & H & Hk). inversion H; simplify_eq.
        rewrite length_app, Nat.add_assoc, <- app_assoc in *. eauto 10.
    + apply eqc_eq in Eu as ->. apply (Hone CAny); [|intros x u|by inversion 1].
      { intros x. destruct (cls_match _ _ _); auto. }
      assert (cls_match false CAny x = true ↔ line_char x) as ->.
      { unfold line_char. simpl. rewrite negb_true_iff, orb_false_iff, !eqc_neq. done. }
      split; [inversion 1; by simplify_eq|]. intros []. by constructor.
    + apply eqc_neq in Ep, Eu. apply (Hone (CItem (ILit c))); [|intros x u|by inversion 1].
      { intros x. destruct (cls_match _ _ _); auto. }
      simpl. rewrite eqc_eq. split; [inversion 1; by simplify_eq|]. intros [-> ?]. by constructor.
Qed.

(** C29.  LIKE is SQL's LIKE, as long as no line break is to be matched by a
    wildcard.  Every pattern compiles (the parser's "Invalid LIKE pattern" error
    does not occur), whatever special characters it holds, and the compiled
    expression accepts a row exactly when the column is a string that the
    pattern matches: percent matches any run of characters other than line
    breaks, the underscore one of them, every other character itself. *)
Theorem LIKE_is_sql_like (pattern column : string) :
  ∃ re, compile (LikePatternToRegex pattern) = Some re ∧
    ∀ row, EvaluateNode (LIKE column re) row = true ↔
      ∃ s, json_field column row = Some (JString s) ∧ Like (string_chars pattern) (string_chars s).
Proof.
  exists (like_regex (string_chars pattern)). split; [apply compile_like|]. intros row. simpl.
  destruct (json_field column row) as [j|]; [|naive_solver].
  destruct j; try naive_solver. rewrite bool_decide_eq_true. unfold regex_match.
  rewrite rmatch_like. split.
  - intros (u & v & E & Hu & Hv). destruct v; [|by destruct Hv].
    rewrite app_nil_r in E. subst. eauto.
  - intros (s' & [= <-] & H). exists (string_chars s), []. by rewrite app_nil_r.
Qed.

(** ** Three-valued logic *)

(** The order of a value and a literal of its kind: [Some None] for an
    unordered pair (a NaN), [None] when they cannot be compared. *)
Definition sql_compare (v : json) (lit : literal) : option (option comparison) :=
  match lit, v with
  | LIT_NUMBER y, JInt n => Some (SpecFloat.SFcompare (double_sf (double_of_int n)) (double_sf y))
  | LIT_NUMBER y, JFloat x => Some (SpecFloat.SFcompare (double_sf x) (double_sf y))
  | LIT_STRING y, JString x => Some (Some (String.compare x y))
  | _, _ => None
  end.

Definition op_holds (op : Op.t) (c : option comparison) : bool :=
  match op, c with
  | Op.EQ, Some Eq | Op.LT, Some Lt | Op.GT, Some Gt => true
  | Op.LE, Some (Lt | Eq) | Op.GE, Some (Gt | Eq) => true
  | Op.NE, Some Eq => false
  | Op.NE, _ => true
  | _, _ => false
  end.

(** A comparison in SQL: unknown on a missing or null column, a null literal,
    or values that cannot be compared. *)
Definition sql_comparison (op : Op.t) (lit : literal) (v : option json) : option bool :=
  match v, lit, op with
  | Some (JBool x), LIT_BOOLEAN y, Op.EQ => Some (bool_decide (x = y))
  | Some (JBool x), LIT_BOOLEAN y, Op.NE => Some (bool_decide (x ≠ y))
  | Some v, _, _ => op_holds op <$> sql_compare v lit
  | None, _, _ => None
  end.

(** Kleene's connectives. *)
Definition and3 (a b : option bool) : option bool :=
  match a, b with
  | Some false, _ | _, Some false => Some false
  | Some true, Some true => Some true
  | _, _ => None
  end.
Definition not3 (a : option bool) : option bool := negb <$> a.
Definition or3 (a b : option bool) : option bool := not3 (and3 (not3 a) (not3 b)).

Fixpoint sql3 (n : PredicateNode) (row : json) : option bool :=
  match n with
  | OR l r => or3 (sql3 l row) (sql3 r row)
  | AND l r => and3 (sql3 l row) (sql3 r row)
  | NOT l => not3 (sql3 l row)
  | COMPARISON column op lit => sql_comparison op lit (json_field column row)
  | LIKE column re =>
      match json_field column row with
      | Some (JString s) => Some (bool_decide (is_Some (regex_match false re s)))
      | _ => None
      end
  | IS_NULL column negated => Some (xorb negated (null_field (json_field column row)))
  end.

(** Predicates without NOT. *)
Fixpoint positive (n : PredicateNode) : bool :=
  match n with
  | OR l r | AND l r => positive l && positive r
  | NOT _ => false
  | _ => true
  end.

Lemma string_compare_refl x : String.compare x x = Eq.
Proof.
  induction x as [|c x IH]; simpl; [done|]. unfold Ascii.compare. by rewrite N.compare_refl.
Qed.

Lemma string_compare_holds op x y :
  CompareOrdered x y op = op_holds op (Some (String.compare x y)).
Proof.
  assert (String.eqb x y = match String.compare x y with Eq => true | _ => false end) as E.
  { destruct (String.compare x y) eqn:E.
    - apply String.compare_eq_iff in E as ->. apply String.eqb_refl.
    - apply String.eqb_neq. intros ->. by rewrite string_compare_refl in E.
    - apply String.eqb_neq. intros ->. by rewrite string_compare_refl in E. }
  destruct op; simpl; rewrite ?E;
    [| | | |rewrite (String.compare_antisym y x)|rewrite (String.compare_antisym y x)];
    by destruct (String.compare _ _).
Qed.

Lemma SFcompare_swap a b :
  SpecFloat.SFcompare b a = CompOpp <$> SpecFloat.SFcompare a b.
Proof.
  destruct a as [s|s| |s m e], b as [s'|s'| |s' m' e']; simpl; try done; destruct s, s'; simpl; try done;
    rewrite (Z.compare_antisym e e'); destruct (e ?= e')%Z; simpl; try done;
    fold (Pos.compare m m') (Pos.compare m' m); rewrite (Pos.compare_antisym m m'); by destruct (m ?= m')%positive.
Qed.

Lemma double_compare_holds op x y :
  CompareOrdered (T := Z) x y op = op_holds op (SpecFloat.SFcompare (double_sf x) (double_sf y)).
Proof.
  unfold CompareOrdered, op_eq, op_lt, op_le, double_ordered, double_eq, double_lt, double_le,
    SpecFloat.SFeqb, SpecFloat.SFltb, SpecFloat.SFleb.
  generalize (double_sf x) (double_sf y). intros a b. rewrite (SFcompare_swap a b).
  by destruct (SpecFloat.SFcompare a b) as [[]|], op.
Qed.

Lemma EvaluateComparison_sql column op lit row :
  EvaluateComparison column op lit row
  = default false (sql_comparison op lit (json_field column row)).
Proof.
  unfold EvaluateComparison. destruct (json_field column row) as [v|]; [|done].
  assert (∀ x y, Some (op_holds op (SpecFloat.SFcompare (double_sf x) (double_sf y)))
    = Some (CompareOrdered x y op)) as Hd by (intros; by rewrite double_compare_holds).
  assert (∀ x y, Some (op_holds op (Some (String.compare x y))) = Some (CompareOrdered x y op))
    as Hs by (intros; by rewrite string_compare_holds).
  destruct v, lit; cbn [null_field is_number json_double]; try (destruct op; reflexivity);
    unfold sql_comparison, sql_compare; cbn [fmap option_fmap option_map]; rewrite ?Hd, ?Hs;
    try (destruct op; reflexivity).
  destruct op; try done; by destruct b, bool_value.
Qed.

(** C28.  The evaluator and SQL's three-valued logic.  Whenever SQL gives a
    predicate the value true or false, the evaluator answers that value, for
    every predicate and row object (comparison operators follow the order of
    doubles, integers converted, NaN unordered, and the byte order of strings).
    Where SQL says unknown, a predicate without NOT is answered false. *)
Theorem Evaluate_sql3 (n : PredicateNode) (fields : list (string * json)) :
  match sql3 n (JObject fields) with
  | Some b => Evaluate n (JObject fields) = b
  | None => positive n = true → Evaluate n (JObject fields) = false
  end.
Proof.
  unfold Evaluate. simpl is_object. cbv iota. set (row := JObject fields). clearbody row.
  induction n as [l IHl r IHr|l IHl r IHr|l IHl|column op lit|column re|column negated]; simpl.
  - revert IHl IHr. generalize (EvaluateNode l row), (EvaluateNode r row). intros [] [];
      destruct (sql3 l row) as [[]|], (sql3 r row) as [[]|], (positive l), (positive r); naive_solver.
  - revert IHl IHr. generalize (EvaluateNode l row), (EvaluateNode r row). intros [] [];
      destruct (sql3 l row) as [[]|], (sql3 r row) as [[]|], (positive l), (positive r); naive_solver.
  - revert IHl. generalize (EvaluateNode l row). intros []; destruct (sql3 l row) as [[]|]; naive_solver.
  - rewrite EvaluateComparison_sql. by destruct (sql_comparison _ _ _).
  - destruct (json_field column row) as [[]|]; done.
  - by destruct negated, (null_field (json_field column row)).
Qed.

Definition demo_fields : list (string * json) :=
  [("a", JInt 3); ("gone", JNull); ("name", JString "anne")].
Definition demo_unknown : PredicateNode :=
  OR (COMPARISON "gone" Op.LT (LIT_NUMBER 0)) (COMPARISON "name" Op.GT (LIT_NUMBER 0)).

Lemma Evaluate_sql3_witness :
  sql3 demo_unknown (JObject demo_fields) = None ∧ Evaluate demo_unknown (JObject demo_fields) = false.
Proof.
  assert (sql3 demo_unknown (JObject demo_fields) = None) as E by (vm_compute; reflexivity).
  split; [exact E|]. pose proof (Evaluate_sql3 demo_unknown demo_fields) as H.
  rewrite E in H. apply H. vm_compute. reflexivity.
Defined.

(** With NOT the two differ: on a null column the comparison is false, and its
    negation, unknown in SQL, is true. *)
Example not_of_unknown :
  let n := NOT (COMPARISON "gone" Op.EQ (LIT_NUMBER 0)) in
  sql3 n demo_row = None ∧ Evaluate n demo_row = true.
Proof. vm_compute. done. Qed.
