(* ===== verification/StdNumbers.v ===== *)
(** * Numbers as text in the C++ standard library

    [std::stoll] and [std::stod] on arbitrary text (they read the longest prefix
    that is a number and ignore the rest), and [std::to_string].  A NaN is read
    without the payload glibc takes from parentheses. *)

From Stdlib Require Import Strings.Ascii Floats.SpecFloat.
From S2P Require Import Prelude Float64 Regex.

(** ** Reading *)

Fixpoint skip_space (l : chars) : chars :=
  match l with c :: l' => if isspace c then skip_space l' else l | [] => [] end.

(** An optional sign; [true] is minus. *)
Definition read_sign (l : chars) : bool * chars :=
  match l with
  | "-"%char :: l => (true, l)
  | "+"%char :: l => (false, l)
  | _ => (false, l)
  end.

(** The longest prefix of characters of a kind, and the rest. *)
Fixpoint read_run (p : ascii → bool) (l : chars) : chars * chars :=
  match l with
  | c :: l' => if p c then let '(u, v) := read_run p l' in (c :: u, v) else ([], l)
  | [] => ([], [])
  end.

Definition digit_value (c : ascii) : Z :=
  if isdigit c then code c - 48 else if isupper c then code c - 55 else code c - 87.
Definition digits_value (base : Z) (l : chars) : Z := fold_left (λ n c, n * base + digit_value c) l 0.
Definition isxdigit (c : ascii) : bool := isdigit c || between 65 70 c || between 97 102 c.

(** [std::stoll]; [None] when it throws. *)
Definition stoll (s : string) : option Z :=
  let '(neg, l) := read_sign (skip_space (string_chars s)) in
  let digits := (read_run isdigit l).1 in
  if decide (digits = []) then None else
  let n := if neg : bool then - digits_value 10 digits else digits_value 10 digits in
  if decide (is_i 64 n) then Some n else None.

(** A mantissa: its digits before and after the point, and the rest. *)
Definition read_mantissa (p : ascii → bool) (l : chars) : chars * chars * chars :=
  let '(whole, l) := read_run p l in
  match l with
  | "."%char :: l' => let '(fraction, l) := read_run p l' in (whole, fraction, l)
  | _ => (whole, [], l)
  end.

(** An exponent after its letter; 0 when there are no digits. *)
Definition read_exponent (letter : ascii) (l : chars) : Z :=
  match l with
  | c :: l => if eqc (tolower c) letter then
                let '(neg, l) := read_sign l in
                let n := digits_value 10 (read_run isdigit l).1 in if neg : bool then - n else n
              else 0
  | [] => 0
  end.

(** [± m * b^x] *)
Definition scaled_to_double (neg : bool) (m b x : Z) : option Z :=
  if 0 <=? x then ratio_to_double neg (m * b ^ x) 1 else ratio_to_double neg m (b ^ (- x)).

Definition has_prefix (w : string) (l : chars) : bool :=
  bool_decide (map tolower (take (String.length w) l) = string_chars w).

(** [std::stod]; [None] when it throws. *)
Definition stod (s : string) : option Z :=
  let '(neg, l) := read_sign (skip_space (string_chars s)) in
  if has_prefix "inf" l then Some (sign_bit neg + 2047 * 2 ^ 52)
  else if has_prefix "nan" l then Some (sign_bit neg + 2047 * 2 ^ 52 + 2 ^ 51)
  else
    let '(whole, fraction, rest) := read_mantissa isxdigit (drop 2 l) in
    if has_prefix "0x" l && negb (bool_decide (whole ++ fraction = [])) then
      scaled_to_double neg (digits_value 16 (whole ++ fraction)) 2
                       (read_exponent "p" rest - 4 * zlength fraction)
    else
      let '(whole, fraction, rest) := read_mantissa isdigit l in
      if decide (whole ++ fraction = []) then None
      else scaled_to_double neg (digits_value 10 (whole ++ fraction)) 10
                            (read_exponent "e" rest - zlength fraction).

(** ** Printing *)

(** [std::to_string] of an integer is [pretty]; of a double it is "%f": the
    value rounded to six decimals, ties to even. *)
Definition round_half_even (num den : Z) : Z :=
  let q := num / den in
  let r := num mod den in
  if 2 * r <? den then q else if den <? 2 * r then q + 1 else if Z.even q then q else q + 1.

Definition digit (n : Z) : ascii := ascii_of_N (Z.to_N (48 + n mod 10)).
Definition six_digits (n : Z) : string :=
  chars_string [digit (n / 10 ^ 5); digit (n / 10 ^ 4); digit (n / 10 ^ 3); digit (n / 100); digit (n / 10); digit n].

Definition to_string_double (bits : Z) : string :=
  (if bits_sign 52 11 bits then "-" else "") +:+
  match double_sf bits with
  | S754_nan => "nan"
  | S754_infinity _ => "inf"
  | S754_zero _ => "0.000000"
  | S754_finite _ m e =>
      let n := if 0 <=? e then Zpos m * 2 ^ e * 10 ^ 6 else round_half_even (Zpos m * 10 ^ 6) (2 ^ (- e)) in
      pretty (n / 10 ^ 6) +:+ "." +:+ six_digits n
  end.

(** ** Checks against the documented behaviour *)

Example stoll_prefix : (stoll "12abc", stoll "-7", stoll "+3", stoll "x1", stoll "1e5", stoll "9223372036854775808")
  = (Some 12, Some (-7), Some 3, None, Some 1, None).
Proof. vm_compute. reflexivity. Qed.
Example stod_prefix :
  to_string_double <$> [default 0 (stod "1.5"); default 0 (stod "-.25"); default 0 (stod "1.5e3x"); default 0 (stod "0x1.8p1");
                        default 0 (stod "1.2.3"); default 0 (stod "0.0000005"); default 0 (stod "-inf.")]
  = ["1.500000"; "-0.250000"; "1500.000000"; "3.000000"; "1.200000"; "0.000000"; "-inf"].
Proof. vm_compute. reflexivity. Qed.
Example stod_throws : (stod ".", stod "abc.", stod "1.0e999") = (None, None, None).
Proof. vm_compute. reflexivity. Qed.

(** ** Integers are read back from their text *)

Lemma digits_value_snoc base l c : digits_value base (l ++ [c]) = digits_value base l * base + digit_value c.
Proof. unfold digits_value. by rewrite fold_left_app. Qed.

Lemma pretty_N_char_digit n :
  (n < 10)%N → isdigit (pretty_N_char n) = true ∧ digit_value (pretty_N_char n) = Z.of_N n.
Proof.
  intros H. assert (n = 0 ∨ n = 1 ∨ n = 2 ∨ n = 3 ∨ n = 4 ∨ n = 5 ∨ n = 6 ∨ n = 7 ∨ n = 8 ∨ n = 9)%N as Hn by lia.
  by repeat destruct Hn as [->|Hn]; [..|subst].
Qed.

Lemma pretty_N_go_digits n : ∀ s, ∃ ds,
  string_chars (pretty_N_go n s) = ds ++ string_chars s ∧ Forall (λ c, isdigit c = true) ds ∧
  digits_value 10 ds = Z.of_N n ∧ (n ≠ 0%N → ds ≠ []).
Proof.
  induction (N.lt_wf_0 n) as [n _ IH]. intros s. destruct (decide (n = 0%N)) as [->|Hn].
  - exists []. by rewrite pretty_N_go_0.
  - rewrite pretty_N_go_step by lia.
    destruct (IH (n `div` 10)%N ltac:(apply N.div_lt; lia) (String (pretty_N_char (n `mod` 10)) s))
      as (ds & Hs & Hd & Hv & _).
    destruct (pretty_N_char_digit (n `mod` 10)%N) as [Hc Hcv]; [by apply N.mod_lt|].
    exists (ds ++ [pretty_N_char (n `mod` 10)]). split_and!.
    + rewrite Hs, <- app_assoc. done.
    + apply Forall_app. split; [done|]. by repeat constructor.
    + rewrite digits_value_snoc, Hv, Hcv, N2Z.inj_div, N2Z.inj_mod. pose proof (Z.div_mod (Z.of_N n) 10). lia.
    + intros _ H. by apply app_eq_nil in H as [_ ?].
Qed.

Lemma pretty_N_digits n : ∃ ds,
  string_chars (pretty n) = ds ∧ ds ≠ [] ∧ Forall (λ c, isdigit c = true) ds ∧ digits_value 10 ds = Z.of_N n.
Proof.
  unfold pretty, pretty_N. case_decide as H.
  - subst n. exists ["0"%char]. by repeat split; repeat constructor.
  - destruct (pretty_N_go_digits n "") as (ds & Hs & Hd & Hv & Hne). exists ds.
    rewrite app_nil_r in Hs. by split_and!; [|apply Hne| |].
Qed.

(** The text of an integer: a sign and digits. *)
Lemma pretty_Z_digits (n : Z) : ∃ ds,
  string_chars (pretty n) = (if decide (n < 0) then "-"%char :: ds else ds) ∧ ds ≠ [] ∧
  Forall (λ c, isdigit c = true) ds ∧ digits_value 10 ds = Z.abs n.
Proof.
  destruct n as [|p|p].
  - exists ["0"%char]. by repeat split; repeat constructor.
  - destruct (pretty_N_digits (Npos p)) as (ds & Hs & ?). exists ds. done.
  - destruct (pretty_N_digits (Npos p)) as (ds & Hs & ?). exists ds. split; [|done].
    rewrite <- Hs. done.
Qed.

Lemma read_run_all p l : Forall (λ c, p c = true) l → read_run p l = (l, []).
Proof. induction 1 as [|c l Hc _ IH]; [done|]. simpl. by rewrite Hc, IH. Qed.

Lemma isdigit_facts c :
  isdigit c = true → isspace c = false ∧ c ≠ "-"%char ∧ c ≠ "+"%char ∧ c ≠ "."%char ∧ c ≠ ","%char ∧ c ≠ "'"%char.
Proof.
  intros H. pose proof (char_cases (λ c, negb (isdigit c) || negb (isspace c || eqc c "-" || eqc c "+" || eqc c "."
    || eqc c "," || eqc c "'")) eq_refl c) as Hc.
  simpl in Hc. rewrite H in Hc. simpl in Hc. unfold eqc in Hc. revert Hc.
  destruct (isspace c); [done|]. repeat case_bool_decide; try done.
Qed.

Lemma stoll_pretty n : is_i 64 n → stoll (pretty n) = Some n.
Proof.
  intros Hn. destruct (pretty_Z_digits n) as (ds & Hs & Hne & Hd & Hv). unfold stoll. rewrite Hs.
  destruct ds as [|d ds]; [done|]. pose proof Hd as [Hd0 _]%Forall_cons.
  destruct (isdigit_facts d Hd0) as (Hsp & Hm & Hp & _).
  case_decide as Hneg.
  - simpl skip_space. unfold read_sign. rewrite read_run_all by done. simpl fst. rewrite decide_False by done.
    rewrite Hv. rewrite decide_True; [f_equal; lia|]. by replace (- Z.abs n) with n by lia.
  - simpl skip_space. rewrite Hsp.
    assert (read_sign (d :: ds) = (false, d :: ds)) as ->.
    { unfold read_sign. destruct d as [[] [] [] [] [] [] [] []]; congruence. }
    rewrite read_run_all by done. simpl fst. rewrite decide_False by done. rewrite Hv.
    rewrite decide_True; [f_equal; lia|]. by replace (Z.abs n) with n by lia.
Qed.
