(* ===== verification/SqlEngine.v ===== *)
(** * The SQL engine (src/sql/sql_engine.cpp)

    The statement parser, made of regular expressions over the text and its
    upper-cased copy, and the executor on the storage engine, with the registry
    of transactions.  [Parse] and [Execute] also say where the C++ has no
    defined behaviour: [front] of an empty string, [values[0]] of an empty
    vector.  The query planner and executor classes of the header have no code. *)

From Stdlib Require Import Strings.Ascii.
From S2P Require Import Prelude Table Codec RowCodec Float64 Json MemTable Txn WalStore Changefeed StorageJson Storage.
From S2P Require Import Regex StdNumbers.

(** ** Statements and results *)

Module StatementType.
Inductive t :=
| SELECT | INSERT | UPDATE | DELETE | CREATE_TABLE | DROP_TABLE | CREATE_INDEX | DROP_INDEX
| CREATE_MODULE | DROP_MODULE | CALL_MODULE | CREATE_SUBSCRIPTION | DROP_SUBSCRIPTION
| BEGIN | COMMIT | ROLLBACK.
End StatementType.

(** [module_name], [module_args] and [index_schema] are never set. *)
Record SqlStatement := {
  type : StatementType.t;
  table_name : string;
  columns : list string;
  values : list Value;
  where_clause : string;
  table_schema : TableSchema;
  raw_sql : string
}.

Definition no_schema : TableSchema :=
  {| sch_name := ""; sch_columns := []; primary_key := []; sch_options := ∅ |}.

Record ResultColumn := { rc_name : string; rc_type : string; rc_nullable : bool }.

Record SqlResult := {
  success : bool;
  error : string;
  result_columns : list ResultColumn;
  rows : list Row;
  rows_affected : Z;
  execution_time_ms : Z;
  needs_redirect : bool;
  leader_address : string
}.

Definition failed (message : string) : SqlResult :=
  {| success := false; error := message; result_columns := []; rows := []; rows_affected := 0;
     execution_time_ms := 0; needs_redirect := false; leader_address := "" |}.

(** [{true, "", {}, {}, affected, ms}] *)
Definition done_with (affected ms : Z) : SqlResult :=
  {| success := true; error := ""; result_columns := []; rows := []; rows_affected := affected;
     execution_time_ms := ms; needs_redirect := false; leader_address := "" |}.

(** ** Text *)

Definition insert_pattern : string := "INSERT\s+INTO\s+(\w+)\s*(?:\((.*?)\))?\s*VALUES\s*\((.*)\)".
Definition create_pattern : string := "CREATE\s+TABLE\s+(\w+)\s*\((.*)\)".
Definition select_pattern : string := "SELECT\s+.*\s+FROM\s+(\w+)".
Definition update_pattern : string := "UPDATE\s+(\w+)\s+SET\s+(.*?)(?:\s+WHERE\s+(.*))?$".
Definition column_pattern : string := "\w+".
Definition value_pattern : string := "'([^']*)'|([^,\s]+)".
Definition set_pattern : string := "(\w+)\s*=\s*([^,]+)".
Definition where_pattern : string := "(\w+)\s*=\s*([^,\s]+)".

(** The constructor of [std::regex] throws on none of them. *)
Definition regex_of (pattern : string) : regex := default Eps (compile pattern).

Example patterns_compile :
  Forall (λ p, is_Some (compile p))
    [insert_pattern; create_pattern; select_pattern; update_pattern; column_pattern; value_pattern;
     set_pattern; where_pattern].
Proof. repeat constructor; vm_compute; eexists; reflexivity. Qed.

Definition upper (s : string) : string := chars_string (map toupper (string_chars s)).

(** The successive matches of [std::sregex_iterator], for an expression that does
    not match the empty text: their captures. *)
Fixpoint matches_from (fuel : nat) (r : regex) (pos : nat) (s : chars) : list captures :=
  match fuel with
  | O => []
  | S fuel =>
      match search_from false r pos s with
      | None => []
      | Some (p, len, caps) =>
          (<[0%nat := (p, len)]> caps) :: matches_from fuel r (p + len) (drop (p + len - pos) s)
      end
  end.
Definition all_matches (r : regex) (s : string) : list captures :=
  matches_from (S (String.length s)) r 0 (string_chars s).

(** [m[n].str()] *)
Definition group_str (s : string) (caps : captures) (n : nat) : string := default "" (capture s caps n).

(** [if (value.find('.') != npos) stod else stoll], text when they throw. *)
Definition unquoted_value (value : string) : Value :=
  if existsb (eqc ".") (string_chars value)
  then match stod value with Some d => VDouble d | None => VString value end
  else match stoll value with Some n => VInt64 n | None => VString value end.

(** A match of [value_regex]. *)
Definition insert_value (values_str : string) (caps : captures) : Value :=
  match caps !! 1%nat with
  | Some _ => VString (group_str values_str caps 1)
  | None => unquoted_value (group_str values_str caps 2)
  end.

Definition is_blank (c : ascii) : bool := eqc c " " || (code c =? 9).
Fixpoint drop_blank (l : chars) : chars :=
  match l with c :: l' => if is_blank c then drop_blank l' else l | [] => [] end.
(** The two [erase] calls. *)
Definition trim_blank (s : string) : string :=
  chars_string (rev (drop_blank (rev (drop_blank (string_chars s))))).

(** The value between two single quotes, which may be the same character; [front]
    of an empty text is undefined. *)
Definition front (s : string) : option ascii := head (string_chars s).
Definition back (s : string) : option ascii := last (string_chars s).
Definition unquote (s : string) : string :=
  chars_string (if decide (String.length s = 1%nat) then [] else take (String.length s - 2) (drop 1 (string_chars s))).

Definition set_value (text : string) : option Value :=
  let value_str := trim_blank text in
  f ← front value_str; b ← back value_str;
  Some (if eqc f "'" && eqc b "'" then VString (unquote value_str) else unquoted_value value_str).

(** ** The parser *)

Definition id_col : Column :=
  {| col_name := "id"; col_type := INT64; nullable := false; is_primary_key := true; default_value := DefNone |}.
Definition name_col : Column :=
  {| col_name := "name"; col_type := STRING; nullable := false; is_primary_key := false; default_value := DefNone |}.
Definition email_col : Column :=
  {| col_name := "email"; col_type := STRING; nullable := false; is_primary_key := false; default_value := DefNone |}.

Definition search (pattern s : string) : option captures :=
  '(p, len, caps) ← regex_search false (regex_of pattern) s; Some (<[0%nat := (p, len)]> caps).

Definition parse_insert (sql : string) (caps : captures) : SqlStatement :=
  let columns_str := group_str (upper sql) caps 2 in
  {| type := StatementType.INSERT;
     table_name := group_str sql caps 1;
     columns := if bool_decide (is_Some (caps !! 2%nat)) && negb (bool_decide (columns_str = ""))
                then map (λ m, group_str columns_str m 0) (all_matches (regex_of column_pattern) columns_str)
                else ["id"; "name"; "email"];
     values := match search insert_pattern sql with
               | None => []
               | Some original => let values_str := group_str sql original 3 in
                   map (insert_value values_str) (all_matches (regex_of value_pattern) values_str)
               end;
     where_clause := ""; table_schema := no_schema; raw_sql := sql |}.

Definition parse_create (sql : string) (caps : captures) : SqlStatement :=
  {| type := StatementType.CREATE_TABLE; table_name := ""; columns := []; values := []; where_clause := "";
     table_schema := {| sch_name := group_str sql caps 1; sch_columns := [id_col; name_col; email_col];
                        primary_key := ["id"]; sch_options := ∅ |};
     raw_sql := sql |}.

Definition parse_select (sql : string) (caps : captures) : SqlStatement :=
  {| type := StatementType.SELECT; table_name := group_str sql caps 1; columns := []; values := [];
     where_clause := ""; table_schema := no_schema; raw_sql := sql |}.

(** The assignments of a SET clause. *)
Definition set_clause_of (sql : string) : list (string * option Value) :=
  match search update_pattern sql with
  | None => []
  | Some original =>
      let set_clause := group_str sql original 2 in
      map (λ m, (group_str set_clause m 1, set_value (group_str set_clause m 2)))
          (all_matches (regex_of set_pattern) set_clause)
  end.

Definition parse_update (sql : string) (caps : captures) : option SqlStatement :=
  vs ← mapM snd (set_clause_of sql);
  Some {| type := StatementType.UPDATE; table_name := group_str sql caps 1; columns := map fst (set_clause_of sql);
          values := vs; where_clause := group_str (upper sql) caps 3; table_schema := no_schema; raw_sql := sql |}.

(** [Parse]: [None] is undefined behaviour, [Some None] is [std::nullopt]. *)
Definition Parse (sql : string) : option (option SqlStatement) :=
  match search insert_pattern (upper sql) with
  | Some caps => Some (Some (parse_insert sql caps))
  | None =>
  match search create_pattern (upper sql) with
  | Some caps => Some (Some (parse_create sql caps))
  | None =>
  match search select_pattern (upper sql) with
  | Some caps => Some (Some (parse_select sql caps))
  | None =>
  match search update_pattern (upper sql) with
  | Some caps => stmt ← parse_update sql caps; Some (Some stmt)
  | None => Some None
  end end end end.

Definition FormatError (message : string) (position : Z) : string :=
  "Parse error at position " +:+ pretty position +:+ ": " +:+ message.

(** ** The executor *)

(** How a call ends. *)
Inductive ending (A : Type) :=
| Returns (a : A)
| Throws (what : string)
| Undefined.
Arguments Returns {A} a.
Arguments Throws {A} what.
Arguments Undefined {A}.

Definition ends {A} (r : exc A) : ending A := match r with Ret a => Returns a | Throw what => Throws what end.

Definition DataTypeToString (t : DataType) : string :=
  match t with
  | INT32 => "INT32" | INT64 => "INT64" | FLOAT => "FLOAT" | DOUBLE => "DOUBLE" | STRING => "STRING"
  | BYTES => "BYTES" | BOOLEAN => "BOOLEAN" | TIMESTAMP => "TIMESTAMP" | JSON => "JSON"
  | DT_other _ => "UNKNOWN"
  end.

(** The visitor that makes a row key of the first value. *)
Definition key_of (v : Value) : string :=
  match v with
  | VString s => s
  | VInt64 n => pretty n
  | VDouble d => to_string_double d
  | _ => "unknown"
  end.

(** [for (i ...) row.columns[stmt.columns[i]] = stmt.values[i]] *)
Definition assign (cs : list string) (vs : list Value) (m : gmap string Value) : gmap string Value :=
  fold_left (λ m cv, <[cv.1 := cv.2]> m) (zip cs vs) m.

Definition assign_row (stmt : SqlStatement) (r : Row) : Row :=
  {| row_key := row_key r; row_columns := assign (columns stmt) (values stmt) (row_columns r);
     row_version := row_version r; row_timestamp := row_timestamp r |}.

Definition column_of (c : Column) : ResultColumn :=
  {| rc_name := col_name c; rc_type := DataTypeToString (col_type c); rc_nullable := nullable c |}.

Section engine.
Context {W : Type} `{WA : WalApi W} `{JL : JsonLib} `{HO : HashOrder}.
Abbreviation storage := (StorageEngine W).

Definition ExecuteCreateTable (stmt : SqlStatement) (st : storage) : storage * exc SqlResult :=
  let '(st1, r) := CreateTable (table_schema stmt) st in
  (st1, created ← r; Ret (if created : bool then done_with 0 0 else failed "Failed to create table")).

(** The second attempt of [ExecuteInsert], when [Insert] has answered false. *)
Definition insert_as_update (now : Z) (stmt : SqlStatement) (row : Row) (st : storage) : storage * exc SqlResult :=
  let updated_row := match Get (table_name stmt) (row_key row) st with
                     | Some existing_row => assign_row stmt existing_row
                     | None => row
                     end in
  let '(st1, r) := Update now (table_name stmt) (row_key row) updated_row st in
  (st1, updated ← r;
        Ret (if updated : bool then done_with 0 1 else failed "Failed to convert INSERT to UPDATE")).

Definition ExecuteInsert (now : Z) (stmt : SqlStatement) (st : storage) : storage * ending SqlResult :=
  match values stmt with
  | [] => (st, Undefined)
  | v :: _ =>
      match GetTable (table_name stmt) st with
      | None => (st, Returns (failed ("Table not found: " +:+ table_name stmt)))
      | Some _ =>
          let row := assign_row stmt (mkRow (key_of v) ∅) in
          match Insert now (table_name stmt) row st with
          | (st1, Throw what) => (st1, Throws what)
          | (st1, Ret true) => (st1, Returns (done_with 1 0))
          | (st1, Ret false) => let '(st2, r) := insert_as_update now stmt row st1 in (st2, ends r)
          end
      end
  end.

(** The rows of the scan, in the order of the callback. *)
Definition ExecuteSelect (stmt : SqlStatement) (st : storage) : exc SqlResult :=
  match GetTable (table_name stmt) st with
  | None => Ret (failed ("Table not found: " +:+ table_name stmt))
  | Some table =>
      rows ← MemTable.Scan table "" "" (λ rows _ row, (rows ++ [row], true)) [];
      Ret {| success := true; error := ""; result_columns := map column_of (sch_columns (schema_ table));
             rows := rows; rows_affected := 0; execution_time_ms := 0; needs_redirect := false; leader_address := "" |}
  end.

(** The column and the key of a WHERE clause; the second group is not empty. *)
Definition where_key (where_clause : string) : option (string * string) :=
  m ← search where_pattern where_clause;
  let key_value := group_str where_clause m 2 in
  Some (group_str where_clause m 1,
        if bool_decide (front key_value = Some "'"%char) && bool_decide (back key_value = Some "'"%char)
        then unquote key_value else key_value).

Definition ExecuteUpdate (now : Z) (stmt : SqlStatement) (st : storage) : storage * exc SqlResult :=
  match GetTable (table_name stmt) st with
  | None => (st, Ret (failed ("Table not found: " +:+ table_name stmt)))
  | Some _ =>
      if bool_decide (where_clause stmt = "")
      then (st, Ret (failed "UPDATE requires WHERE clause to specify which rows to update"))
      else match where_key (where_clause stmt) with
      | None => (st, Ret (failed "Invalid WHERE clause format. Expected: column=value"))
      | Some (key_column, key_value) =>
          match Get (table_name stmt) key_value st with
          | None => (st, Ret (failed ("No row found with " +:+ key_column +:+ "=" +:+ key_value)))
          | Some existing_row =>
              let '(st1, r) := Update now (table_name stmt) key_value (assign_row stmt existing_row) st in
              (st1, updated ← r;
                    Ret (if updated : bool then done_with 1 0 else failed "Failed to update row"))
          end
      end
  end.

Definition ExecuteDelete (stmt : SqlStatement) : SqlResult := failed "DELETE not implemented in prototype".

(** [Execute]; its parameters [params] and [transaction_id] are not used. *)
Definition execute (now : Z) (sql : string) (st : storage) : storage * ending SqlResult :=
  match Parse sql with
  | None => (st, Undefined)
  | Some None => (st, Returns (failed "Failed to parse SQL statement"))
  | Some (Some stmt) =>
      match type stmt with
      | StatementType.CREATE_TABLE => let '(st1, r) := ExecuteCreateTable stmt st in (st1, ends r)
      | StatementType.INSERT => ExecuteInsert now stmt st
      | StatementType.SELECT => (st, ends (ExecuteSelect stmt st))
      | StatementType.UPDATE => let '(st1, r) := ExecuteUpdate now stmt st in (st1, ends r)
      | StatementType.DELETE => (st, Returns (ExecuteDelete stmt))
      | _ => (st, Returns (failed "Statement type not supported in prototype"))
      end
  end.

(** ** The engine and its transactions *)

Record SqlEngine := {
  storage_ : storage;
  sql_transactions : gmap string Transaction;
  next_txn_id : Z
}.

Definition new_SqlEngine (st : storage) : SqlEngine :=
  {| storage_ := st; sql_transactions := ∅; next_txn_id := 1 |}.

Definition Execute (now : Z) (sql : string) (params : list Value) (transaction_id : string) (e : SqlEngine)
    : SqlEngine * ending SqlResult :=
  let '(st, r) := execute now sql (storage_ e) in
  ({| storage_ := st; sql_transactions := sql_transactions e; next_txn_id := next_txn_id e |}, r).

Definition BeginTransaction (level : IsolationLevel) (e : SqlEngine) : SqlEngine * string :=
  let txn_id := "txn-" +:+ pretty (next_txn_id e) in
  let '(st, txn) := Storage.BeginTransaction level (storage_ e) in
  ({| storage_ := st; sql_transactions := <[txn_id := txn]> (sql_transactions e);
      next_txn_id := u64 (next_txn_id e + 1) |}, txn_id).

(** An exception of [Commit] leaves the transaction in the registry. *)
Definition CommitTransaction (now : Z) (txn_id : string) (e : SqlEngine) : SqlEngine * exc bool :=
  match sql_transactions e !! txn_id with
  | None => (e, Ret false)
  | Some txn =>
      let '(st, txn1, r) := Commit now txn (storage_ e) in
      ({| storage_ := st; next_txn_id := next_txn_id e;
          sql_transactions := match r with
                              | Ret _ => delete txn_id (sql_transactions e)
                              | Throw _ => <[txn_id := txn1]> (sql_transactions e)
                              end |}, r)
  end.

Definition RollbackTransaction (txn_id : string) (e : SqlEngine) : SqlEngine * bool :=
  match sql_transactions e !! txn_id with
  | None => (e, false)
  | Some txn =>
      let '(st, _, ok) := Rollback txn (storage_ e) in
      ({| storage_ := st; sql_transactions := delete txn_id (sql_transactions e); next_txn_id := next_txn_id e |}, ok)
  end.

Definition CallModule (module_name : string) (args : list Value) (transaction_id : string) : SqlResult :=
  failed "Module calling not implemented in prototype".
Definition CreateSubscription (name sql_filter : string) : bool := false.
Definition DropSubscription (name : string) : bool := false.
Definition ListSubscriptions : list string := [].
End engine.
Arguments SqlEngine : clear implicits.

(** ** Statements of the documentation *)

Definition sample (sql : string) : option (StatementType.t * string * list string * list Value * string) :=
  stmt ← Parse sql; s ← stmt; Some (type s, table_name s, columns s, values s, where_clause s).

Example parse_insert_sample :
  sample "INSERT INTO Users (id, name) VALUES (7, 'Ada, B.', 1.5)"
  = Some (StatementType.INSERT, "Users", ["ID"; "NAME"], [VInt64 7; VString "Ada, B."; VDouble 4609434218613702656], "").
Proof. vm_compute. reflexivity. Qed.
Example parse_select_sample :
  sample "select a, b from T where x = 1" = Some (StatementType.SELECT, "T", [], [], "").
Proof. vm_compute. reflexivity. Qed.
Example parse_update_sample :
  sample "UPDATE t SET name='Ada', n=3 WHERE id='abc'"
  = Some (StatementType.UPDATE, "t", ["name"; "n"], [VString "Ada"; VInt64 3], "ID='ABC'").
Proof. vm_compute. reflexivity. Qed.
(** Keywords in lower case lose the values, and an empty value is undefined. *)
Example parse_lower_case : sample "insert into t values (1)" = Some (StatementType.INSERT, "t", ["id"; "name"; "email"], [], "").
Proof. vm_compute. reflexivity. Qed.
Example parse_empty_value : Parse "UPDATE t SET a= WHERE id=1" = Some None ∨ Parse "UPDATE t SET a= , b=2 WHERE id=1" = None.
Proof. right. vm_compute. reflexivity. Qed.
