(* ===== verification/SqlExec.v ===== *)
(** * What executing a statement does

    Statements as effects on the abstract store of [StorageCommit]: tables as
    maps from keys to columns. *)

From S2P Require Import Prelude Table Codec RowCodec Json MemTable Txn Wal WalWriter WalStore Changefeed StorageJson Storage StorageCommit.
From S2P Require Import Regex StdNumbers SqlEngine.

(** ** Assignments *)

Lemma assign_lookup cs vs :
  ∃ f : string → option Value, ∀ m k, assign cs vs m !! k = match f k with Some v => Some v | None => m !! k end.
Proof.
  unfold assign. induction (zip cs vs) as [|[c v] l [f Hf]]; [by exists (λ _, None)|].
  exists (λ k, match f k with Some w => Some w | None => if decide (c = k) then Some v else None end).
  intros m k. simpl. rewrite Hf. destruct (f k); [done|].
  case_decide as Hk; [subst; by rewrite lookup_insert_eq|by rewrite lookup_insert_ne].
Qed.

Lemma assign_idem cs vs m : assign cs vs (assign cs vs m) = assign cs vs m.
Proof.
  destruct (assign_lookup cs vs) as [f Hf]. apply map_eq. intros k. rewrite !Hf. by destruct (f k).
Qed.

(** ** Scans and direct writes *)

Lemma scan_all (l : list (string * Row)) : ∀ acc,
  scan_loop "" (λ s k r, Ret ((λ rows (_ : string) row, (rows ++ [row], true)) s k r)) l acc = Ret (acc ++ l.*2).
Proof.
  induction l as [|[k r] l IH]; intros acc; simpl; [by rewrite app_nil_r|].
  rewrite IH. by rewrite <- app_assoc.
Qed.

Section exec.
Context {W : Type} `{WA : WalApi W} `{JL : JsonLib} `{HO : HashOrder}.
Abbreviation storage := (StorageEngine W).

Lemma direct_view now w (stage : Transaction → Transaction * bool) (st st' : storage) t m b :
  (∀ txn, t_state txn = ACTIVE → t_write_set txn = [] →
     stage txn = (Txn.stage w txn, true)) →
  tables_ st !! w_table w = Some t → spec_op w (view t) = Some m →
  direct now stage st = (st', Ret b) → views (tables_ st') = <[w_table w := m]> (views (tables_ st)).
Proof.
  intros Hs Ht Hm. unfold direct. destruct (Storage.BeginTransaction READ_COMMITTED st) as [e1 txn] eqn:Hb.
  unfold Storage.BeginTransaction in Hb. injection Hb as <- <-. rewrite Hs by done.
  destruct (Commit _ _ _) as [[e2 txn2] r] eqn:Hc. intros [= -> ->].
  apply Commit_outcome in Hc as [Hv _]; [|done]. rewrite Hv. simpl.
  assert (Hw : spec_write w (views (tables_ st)) = Some (<[w_table w := m]> (views (tables_ st)))).
  { unfold spec_write. assert (views (tables_ st) !! w_table w = Some (view t)) as ->.
    { unfold views. by rewrite lookup_fmap, Ht. }
    simpl. by rewrite Hm. }
  by rewrite Hw.
Qed.

Lemma Insert_view_store now table row (st st' : storage) t b :
  tables_ st !! table = Some t → Insert now table row st = (st', Ret b) →
  views (tables_ st') = <[table := <[row_key row := row_columns row]> (view t)]> (views (tables_ st)).
Proof.
  intros Ht. eapply (direct_view now {| w_op := WINSERT; w_table := table; w_row := row |}); [|exact Ht|done].
  intros txn Ha _. unfold Txn.Insert, IsActive. by rewrite bool_decide_eq_true_2.
Qed.

Lemma Update_view_store now table key row (st st' : storage) t b :
  tables_ st !! table = Some t → is_Some (view t !! key) → Update now table key row st = (st', Ret b) →
  views (tables_ st') = <[table := <[key := row_columns row]> (view t)]> (views (tables_ st)).
Proof.
  intros Ht Hk.
  eapply (direct_view now {| w_op := WUPDATE; w_table := table; w_row := with_key key row |}); [|exact Ht|].
  - intros txn Ha _. unfold Txn.Update, IsActive. by rewrite bool_decide_eq_true_2.
  - unfold spec_op. simpl. by rewrite decide_True.
Qed.

Lemma Get_view table key (st : storage) :
  row_columns <$> Get table key st = views (tables_ st) !! table ≫= λ m, m !! key.
Proof.
  unfold Get, GetTable, views. rewrite lookup_fmap. destruct (tables_ st !! table) as [t|]; [|done].
  simpl. by rewrite view_lookup.
Qed.
(** ** Statements as effects on the store *)

(** INSERT replaces the whole row of its key, whatever the log answers. *)
Definition inserts (stmt : SqlStatement) (st st' : storage) (res : SqlResult) : Prop :=
  match values stmt, tables_ st !! table_name stmt with
  | [], _ => False
  | _, None => st' = st ∧ success res = false
  | v :: _, Some t =>
      views (tables_ st')
      = <[table_name stmt := <[key_of v := assign (columns stmt) (values stmt) ∅]> (view t)]> (views (tables_ st))
  end.

(** UPDATE merges the assignments into the one row its WHERE clause names. *)
Definition updates (stmt : SqlStatement) (st st' : storage) (res : SqlResult) : Prop :=
  match tables_ st !! table_name stmt ≫= λ t, kv ← where_key (where_clause stmt);
        old ← view t !! kv.2; Some (view t, kv.2, old) with
  | Some (m, key, old) =>
      views (tables_ st')
      = <[table_name stmt := <[key := assign (columns stmt) (values stmt) old]> m]> (views (tables_ st)) ∧
      (success res = true → rows_affected res = 1)
  | None => st' = st ∧ success res = false
  end.

(** SELECT answers every row of the table, in key order. *)
Definition selects (stmt : SqlStatement) (st st' : storage) (res : SqlResult) : Prop :=
  st' = st ∧
  match tables_ st !! table_name stmt with
  | Some t => success res = true ∧ rows res = (map_iter (rows_ t)).*2 ∧
              result_columns res = map column_of (sch_columns (schema_ t))
  | None => success res = false
  end.

(** CREATE TABLE adds an empty table under a free name. *)
Definition creates (stmt : SqlStatement) (st st' : storage) (res : SqlResult) : Prop :=
  let name := sch_name (table_schema stmt) in
  match tables_ st !! name with
  | None => success res = true ∧ tables_ st' = <[name := new_MemTable (table_schema stmt)]> (tables_ st)
  | Some _ => success res = false ∧ st' = st
  end.

Definition executes (stmt : SqlStatement) (st st' : storage) (res : SqlResult) : Prop :=
  match type stmt with
  | StatementType.INSERT => inserts stmt st st' res
  | StatementType.UPDATE => updates stmt st st' res
  | StatementType.SELECT => selects stmt st st' res
  | StatementType.CREATE_TABLE => creates stmt st st' res
  | _ => st' = st ∧ success res = false
  end.

Lemma ends_returns {A} (r : exc A) a : ends r = Returns a → r = Ret a.
Proof. destruct r; intros [= ->]; done. Qed.

Lemma ExecuteInsert_inserts now stmt (st st' : storage) res :
  ExecuteInsert now stmt st = (st', Returns res) → inserts stmt st st' res.
Proof.
  unfold ExecuteInsert, inserts. destruct (values stmt) as [|v vs] eqn:Hvs; [done|]. rewrite <- Hvs.
  unfold GetTable at 1. destruct (tables_ st !! table_name stmt) as [t|] eqn:Ht; [|by intros [= <- <-]].
  set (row := assign_row stmt (mkRow (key_of v) ∅)).
  destruct (Insert now (table_name stmt) row st) as [st1 [b|what]] eqn:Hi; [|done].
  pose proof (Insert_view_store _ _ _ _ _ _ _ Ht Hi) as H1. simpl in H1. destruct b.
  { intros [= <- <-]. exact H1. }
  unfold insert_as_update. change (row_key row) with (key_of v).
  pose proof (Get_view (table_name stmt) (key_of v) st1) as Hg.
  rewrite H1 in Hg. rewrite lookup_insert_eq in Hg. simpl in Hg. rewrite lookup_insert_eq in Hg.
  destruct (Get (table_name stmt) (key_of v) st1) as [existing|]; [|done]. injection Hg as Hg.
  destruct (Update now (table_name stmt) (key_of v) _ st1) as [st2 r] eqn:Hu.
  intros [= <- Hr%ends_returns]. destruct r as [ok|]; [|done].
  assert (∃ t1, tables_ st1 !! table_name stmt = Some t1
                ∧ view t1 = <[key_of v := assign (columns stmt) (values stmt) ∅]> (view t)) as (t1 & Ht1 & Hv1).
  { assert (views (tables_ st1) !! table_name stmt
            = Some (<[key_of v := assign (columns stmt) (values stmt) ∅]> (view t))) as Hl
      by (rewrite H1; apply lookup_insert_eq).
    unfold views in Hl. rewrite lookup_fmap in Hl. destruct (tables_ st1 !! table_name stmt) as [t1|]; [|done].
    exists t1. split; [done|]. by injection Hl. }
  apply (Update_view_store _ _ _ _ _ _ t1) in Hu; [|done|rewrite Hv1; by rewrite lookup_insert_eq].
  rewrite Hu, H1, Hv1. simpl. rewrite Hg, assign_idem, insert_insert_eq. by rewrite insert_insert_eq.
Qed.

Lemma ExecuteUpdate_updates now stmt (st st' : storage) res :
  ExecuteUpdate now stmt st = (st', Ret res) → updates stmt st st' res.
Proof.
  unfold ExecuteUpdate, updates, Get, GetTable.
  destruct (tables_ st !! table_name stmt) as [t|] eqn:Ht; [|by intros [= <- <-]]. simpl.
  case_bool_decide as Hw.
  { intros [= <- <-]. rewrite Hw. assert (where_key "" = None) as -> by (vm_compute; reflexivity). done. }
  destruct (where_key (where_clause stmt)) as [[kc k]|]; [|by intros [= <- <-]]. simpl. rewrite view_lookup.
  unfold MemTable.Get. destruct (rows_ t !! k) as [old|] eqn:Ek; [|by intros [= <- <-]]. simpl.
  destruct (Update now (table_name stmt) k (assign_row stmt old) st) as [st1 r] eqn:Hu. intros [= <- Hr].
  destruct r as [ok|]; [|done]. injection Hr as <-.
  apply (Update_view_store _ _ _ _ _ _ t) in Hu; [|done|rewrite view_lookup, Ek; by eexists].
  split; [exact Hu|]. by destruct ok.
Qed.

Lemma ExecuteSelect_selects stmt (st : storage) res :
  ExecuteSelect stmt st = Ret res → selects stmt st st res.
Proof.
  unfold ExecuteSelect, selects, GetTable. destruct (tables_ st !! table_name stmt) as [t|]; [|by intros [= <-]].
  unfold MemTable.Scan, scan_begin. rewrite bool_decide_eq_true_2, scan_all by done. by intros [= <-].
Qed.

Lemma ExecuteCreateTable_creates stmt (st st' : storage) res :
  ExecuteCreateTable stmt st = (st', Ret res) → creates stmt st st' res.
Proof.
  unfold ExecuteCreateTable, creates, CreateTable.
  destruct (tables_ st !! sch_name (table_schema stmt)); [by intros [= <- <-]|].
  destruct (SerializeSchema _); [|done]. intros [= <- <-]. done.
Qed.

(** C21.  Executing a statement that returns has exactly the effect of the
    statement on the tables.  INSERT makes the row of its key exactly the given
    columns, new or not, whatever the log answers and also on the path that
    converts it to an update; UPDATE merges its assignments into the one row its
    WHERE clause names and touches nothing else; SELECT answers every row of the
    table in key order; CREATE TABLE adds an empty table under a free name; a
    missing table, a statement that is not understood or not supported changes
    nothing and fails. *)
Theorem Execute_refines now sql params txn_id (e e' : SqlEngine W) res
    (Hrun : Execute now sql params txn_id e = (e', Returns res)) :
  sql_transactions e' = sql_transactions e ∧
  match Parse sql with
  | Some (Some stmt) => executes stmt (storage_ e) (storage_ e') res
  | _ => storage_ e' = storage_ e ∧ res = failed "Failed to parse SQL statement"
  end.
Proof.
  unfold Execute in Hrun. destruct (execute now sql (storage_ e)) as [st r] eqn:He.
  injection Hrun as <- ->. split; [done|]. simpl. revert He. unfold execute.
  destruct (Parse sql) as [[stmt|]|]; [|by intros [= <- <-]|done].
  unfold executes. destruct (type stmt); try by intros [= <- <-].
  - intros [= <- H%ends_returns]. by apply ExecuteSelect_selects.
  - apply ExecuteInsert_inserts.
  - destruct (ExecuteUpdate now stmt (storage_ e)) as [st1 r] eqn:Hu. intros [= <- H%ends_returns]. subst r.
    by apply ExecuteUpdate_updates in Hu.
  - destruct (ExecuteCreateTable stmt (storage_ e)) as [st1 r] eqn:Hu. intros [= <- H%ends_returns]. subst r.
    by apply ExecuteCreateTable_creates in Hu.
Qed.
End exec.

(** ** A session *)

#[local] Existing Instance std_json.
#[local] Existing Instance std_order.

Definition demo_api : WalApi WalHost := host_api SyncFsync.
#[local] Existing Instance demo_api.

Definition demo_engine : SqlEngine WalHost :=
  new_SqlEngine (new_StorageEngine (new_host [] 100) None).
Definition created := (Execute 1 "CREATE TABLE Users (id INT, name TEXT, email TEXT)" [] "" demo_engine).1.
Definition inserted := (Execute 2 "INSERT INTO Users (id, name) VALUES ('ada', 'Ada')" [] "" created).1.
Definition replaced := (Execute 3 "INSERT INTO Users (id, email) VALUES ('ada', 'a@x')" [] "" inserted).1.

(** A second INSERT to a key replaces the row: the name is gone.  An UPDATE of the
    key looks for the upper-cased key and finds no row. *)
Example session :
  views (tables_ (storage_ replaced)) !! "Users"
  = Some {[ "ada" := {[ "ID" := VString "ada"; "EMAIL" := VString "a@x" ]} ]} ∧
  (Execute 4 "UPDATE Users SET name='B' WHERE id='ada'" [] "" replaced).2
  = Returns (failed "No row found with ID=ADA").
Proof. split_and!; vm_compute; reflexivity. Qed.

(** A statement in lower case is undefined behaviour. *)
Example lower_case_insert :
  (Execute 2 "insert into Users (id) values (1)" [] "" created).2 = Undefined.
Proof. vm_compute. reflexivity. Qed.

Lemma Execute_refines_witness :
  views (tables_ (storage_ inserted))
  = <["Users" := <["ada" := {[ "ID" := VString "ada"; "NAME" := VString "Ada" ]}]> ∅]> (views (tables_ (storage_ created))).
Proof.
  assert (Hr : (Execute 2 "INSERT INTO Users (id, name) VALUES ('ada', 'Ada')" [] "" created).2
               = Returns (done_with 1 0)) by (vm_compute; reflexivity).
  pose proof (Execute_refines 2 "INSERT INTO Users (id, name) VALUES ('ada', 'Ada')" [] "" created inserted
                (done_with 1 0)) as H.
  destruct H as [_ H]. { unfold inserted. rewrite <- Hr. apply surjective_pairing. }
  revert H. vm_compute. intros H. exact H.
Defined.
