(* ===== verification/SqlText.v ===== *)
(** * Reading back INSERT statements

    The parser on printed INSERT statements with a column list: it gives back
    the table and the literals exactly, and the columns in upper case. *)

From Stdlib Require Import Strings.Ascii.
From S2P Require Import Prelude Table Float64 Regex StdNumbers SqlEngine.

(** ** Successive matches of a comma separated list *)

Fixpoint joined (items : list chars) : chars :=
  match items with
  | [] => []
  | [x] => x
  | x :: items => x ++ string_chars ", " ++ joined items
  end.

(** The positions of the items from a position on. *)
Fixpoint placed (pos : nat) (items : list chars) : list (nat * chars) :=
  match items with
  | [] => []
  | x :: items => (pos, x) :: placed (pos + length x + 2) items
  end.

Section items.
Variables (r : regex) (item : chars → Prop) (caps_of : nat → chars → captures).
(** The expression takes an item whole, and matches nothing at a separator. *)
Hypothesis at_item : ∀ {R} x v pos (k : nat → chars → captures → option R) y,
  item x → match v with c :: _ => c = ","%char | [] => True end →
  k (pos + length x)%nat v (caps_of pos x) = Some y → rmatch false r pos (x ++ v) ∅ k = Some y.
Hypothesis at_separator : ∀ {R} c v pos (k : nat → chars → captures → option R),
  c = ","%char ∨ c = " "%char → rmatch false r pos (c :: v) ∅ k = None.
Hypothesis at_end : ∀ {R} pos (k : nat → chars → captures → option R), rmatch false r pos [] ∅ k = None.

Definition item_caps (px : nat * chars) : captures := <[0%nat := (px.1, length px.2)]> (caps_of px.1 px.2).

Lemma search_item x v pos :
  item x → match v with c :: _ => c = ","%char | [] => True end →
  search_from false r pos (x ++ v) = Some (pos, length x, caps_of pos x).
Proof.
  intros Hx Hv. assert (search_from false r pos (x ++ v) =
    match rmatch false r pos (x ++ v) ∅ (λ pos' _ caps, Some (pos, (pos' - pos)%nat, caps)) with
    | Some y => Some y
    | None => match x ++ v with [] => None | _ :: s => search_from false r (S pos) s end
    end) as -> by (by destruct (x ++ v)).
  rewrite (at_item x v pos _ (pos, length x, caps_of pos x)); [done|done|done|].
  do 3 f_equal. lia.
Qed.

Lemma matches_items n : ∀ pos items,
  (length (joined items) < n)%nat → Forall item items →
  matches_from n r pos (joined items) = map item_caps (placed pos items).
Proof.
  induction n as [|n IH]; intros pos items Hn Hi; [lia|].
  destruct items as [|x items].
  - simpl. by rewrite at_end.
  - apply Forall_cons in Hi as [Hx Hi].
    destruct items as [|y items].
    + cbn [matches_from joined]. rewrite <- (app_nil_r x) at 1. rewrite search_item by done.
      cbn [placed map]. f_equal. rewrite drop_ge by lia. destruct n; [done|]. simpl. by rewrite at_end.
    + assert (Hj : joined (x :: y :: items) = x ++ ","%char :: " "%char :: joined (y :: items)) by done.
      rewrite Hj in *. cbn [matches_from]. rewrite search_item by done.
      change (placed pos (x :: y :: items)) with ((pos, x) :: placed (pos + length x + 2) (y :: items)).
      cbn [map]. f_equal.
      replace (pos + length x - pos)%nat with (length x) by lia. rewrite drop_app_length.
      destruct n as [|n]; [rewrite length_app in Hn; simpl in Hn; lia|].
      assert (Hsep : ∀ p, search_from false r p (","%char :: " "%char :: joined (y :: items))
                          = search_from false r (p + 2) (joined (y :: items))).
      { intros p. simpl. rewrite at_separator by (by left). rewrite at_separator by (by right).
        f_equal. lia. }
      specialize (IH (pos + length x + 2)%nat (y :: items)).
      cbn [matches_from] in IH |- *. rewrite Hsep. rewrite <- IH; [| |done].
      * destruct (search_from false r _ _) as [[[p len] caps]|] eqn:E; [|done]. f_equal.
        assert (Hp : (pos + length x + 2 <= p)%nat).
        { apply search_from_pos in E. lia. }
        f_equal. replace (p + len - (pos + length x))%nat with (S (S (p + len - (pos + length x + 2)))) by lia.
        done.
      * rewrite length_app in Hn. simpl in Hn. simpl. lia.
Qed.
End items.

(** ** The expressions *)

Definition lit (c : ascii) : regex := Cls (CItem (ILit c)).
Definition one_or_more (c : cls) : regex := Seq (Cls c) (Star true (Cls c)).
Definition spaces0 : regex := Star true (Cls (CItem ISpace)).
Definition quote : ascii := "'"%char.

Lemma column_regex : regex_of column_pattern = Seq (one_or_more (CItem IWord)) Eps.
Proof. vm_compute. reflexivity. Qed.

Definition not_quote : cls := CSet true [ILit quote].
Definition not_separator : cls := CSet true [ILit ","%char; ISpace].

Lemma value_regex :
  regex_of value_pattern
  = Alt (Seq (lit quote) (Seq (Group 1 (Seq (Star true (Cls not_quote)) Eps)) (Seq (lit quote) Eps)))
        (Seq (Group 2 (Seq (one_or_more not_separator) Eps)) Eps).
Proof. vm_compute. reflexivity. Qed.

Definition values_tail : regex :=
  Seq (lit "("%char) (Seq (Group 3 (Seq (Star true (Cls CAny)) Eps)) (Seq (lit ")"%char) Eps)).
Definition column_list : regex :=
  Seq (lit "("%char) (Seq (Group 2 (Seq (Star false (Cls CAny)) Eps)) (Seq (lit ")"%char) Eps)).
Definition after_table : regex :=
  Seq spaces0 (Seq (Opt true column_list)
    (Seq spaces0 (lits (string_chars "VALUES") (Seq spaces0 values_tail)))).

Lemma insert_regex :
  regex_of insert_pattern
  = lits (string_chars "INSERT") (Seq (one_or_more (CItem ISpace))
      (lits (string_chars "INTO") (Seq (one_or_more (CItem ISpace))
        (Seq (Group 1 (Seq (one_or_more (CItem IWord)) Eps)) after_table)))).
Proof. vm_compute. reflexivity. Qed.

(** One step of the matcher, by the shape of the expression. *)
Section steps.
Context {R : Type} (pos : nat) (s : chars) (caps : captures) (k : nat → chars → captures → option R).

Lemma rmatch_seq a b : rmatch false (Seq a b) pos s caps k = rmatch false a pos s caps (λ p s c, rmatch false b p s c k).
Proof. reflexivity. Qed.
Lemma rmatch_eps : rmatch false Eps pos s caps k = k pos s caps.
Proof. reflexivity. Qed.
Lemma rmatch_group n a :
  rmatch false (Group n a) pos s caps k
  = rmatch false a pos s caps (λ pos' s' caps', k pos' s' (<[n := (pos, pos' - pos)%nat]> caps')).
Proof. reflexivity. Qed.
Lemma rmatch_alt a b :
  rmatch false (Alt a b) pos s caps k
  = match rmatch false a pos s caps k with Some x => Some x | None => rmatch false b pos s caps k end.
Proof. reflexivity. Qed.
Lemma rmatch_opt a :
  rmatch false (Opt true a) pos s caps k
  = match rmatch false a pos s caps k with Some x => Some x | None => k pos s caps end.
Proof. reflexivity. Qed.
Lemma rmatch_lit c : rmatch false (lit c) pos (c :: s) caps k = k (S pos) s caps.
Proof. unfold lit. simpl. unfold eqc. by rewrite bool_decide_eq_true_2. Qed.
Lemma rmatch_lit_ne c d : c ≠ d → rmatch false (lit c) pos (d :: s) caps k = None.
Proof. intros H. unfold lit. simpl. unfold eqc. by rewrite bool_decide_eq_false_2. Qed.
End steps.

(** ** Identifiers and literals *)

Definition is_word (c : ascii) : bool := isalnum c || eqc c "_".
Definition identifier (x : chars) : Prop := x ≠ [] ∧ Forall (λ c, is_word c = true) x.

Definition plain (c : ascii) : bool := negb (eqc c newline || eqc c carriage_return).
Definition quoted (x : chars) : Prop := ∃ q, x = quote :: q ++ [quote] ∧ Forall (λ c, c ≠ quote) q.
Definition token (x : chars) : Prop :=
  x ≠ [] ∧ head x ≠ Some quote ∧ Forall (λ c, cls_match false not_separator c = true) x.
Definition literal (x : chars) : Prop := quoted x ∨ token x.

Lemma column_at {R} x v pos (k : nat → chars → captures → option R) y :
  identifier x → match v with c :: _ => c = ","%char | [] => True end →
  k (pos + length x)%nat v ∅ = Some y → rmatch false (regex_of column_pattern) pos (x ++ v) ∅ k = Some y.
Proof.
  intros [Hne Hx] Hv Hk. rewrite column_regex, rmatch_seq. unfold one_or_more.
  apply rmatch_plus_run; [done|done| |exact Hk]. destruct v; [done|]. by subst.
Qed.

Definition value_caps (pos : nat) (x : chars) : captures :=
  if decide (head x = Some quote) then {[1%nat := (S pos, (length x - 2)%nat)]} else {[2%nat := (pos, length x)]}.

Lemma value_at {R} x v pos (k : nat → chars → captures → option R) y :
  literal x → match v with c :: _ => c = ","%char | [] => True end →
  k (pos + length x)%nat v (value_caps pos x) = Some y → rmatch false (regex_of value_pattern) pos (x ++ v) ∅ k = Some y.
Proof.
  intros [(q & -> & Hq)|(Hne & Hh & Hx)] Hv Hk; rewrite value_regex, rmatch_alt.
  - assert (rmatch false (Seq (lit quote) (Seq (Group 1 (Seq (Star true (Cls not_quote)) Eps)) (Seq (lit quote) Eps)))
              pos ((quote :: q ++ [quote]) ++ v) ∅ k = Some y) as ->; [|done].
    simpl app. rewrite rmatch_seq, rmatch_lit, rmatch_seq, rmatch_group, rmatch_seq, <- app_assoc.
    apply rmatch_star_run; [|done|].
    + apply (Forall_impl _ _ _ Hq). intros c Hc. simpl. unfold eqc. by rewrite bool_decide_eq_false_2.
    + rewrite rmatch_eps. cbv beta. rewrite rmatch_seq. simpl app. rewrite rmatch_lit, rmatch_eps. rewrite <- Hk. unfold value_caps.
      rewrite decide_True by done. simpl. rewrite length_app. simpl.
      f_equal; [lia|]. unfold singletonM, map_singleton. do 2 f_equal. lia.
  - destruct x as [|c x]; [done|].
    assert (Hc : c ≠ quote) by (by intros ->).
    simpl app. rewrite rmatch_seq, rmatch_lit_ne by done.
    change (c :: x ++ v) with ((c :: x) ++ v).
    rewrite rmatch_seq, rmatch_group, rmatch_seq. unfold one_or_more. apply rmatch_plus_run; [done|done| |].
    + destruct v; [done|]. by subst.
    + rewrite rmatch_eps. cbv beta. rewrite rmatch_eps. rewrite <- Hk. unfold value_caps. rewrite decide_False by (simpl; congruence).
      f_equal. unfold singletonM, map_singleton. do 2 f_equal. lia.
Qed.

Lemma column_separator {R} c v pos (k : nat → chars → captures → option R) :
  c = ","%char ∨ c = " "%char → rmatch false (regex_of column_pattern) pos (c :: v) ∅ k = None.
Proof. intros [-> | ->]; by rewrite column_regex. Qed.
Lemma value_separator {R} c v pos (k : nat → chars → captures → option R) :
  c = ","%char ∨ c = " "%char → rmatch false (regex_of value_pattern) pos (c :: v) ∅ k = None.
Proof. intros [-> | ->]; by rewrite value_regex. Qed.

(** ** The whole statement *)

Definition insert_text (t c l : chars) : chars :=
  string_chars "INSERT INTO " ++ t ++ string_chars " (" ++ c ++ string_chars ") VALUES (" ++ l ++ [")"%char].

Definition in_list (c : ascii) : bool := plain c && negb (eqc c ")").

Lemma values_tail_run {R} l pos caps (k : nat → chars → captures → option R) y :
  Forall (λ c, plain c = true) l →
  k (pos + length l + 2)%nat [] (<[3%nat := (S pos, length l)]> caps) = Some y →
  rmatch false values_tail pos ("("%char :: l ++ [")"%char]) caps k = Some y.
Proof.
  intros Hl Hk. unfold values_tail. rewrite rmatch_seq, rmatch_lit, rmatch_seq, rmatch_group, rmatch_seq.
  apply rmatch_star_greedy; [exact Hl| |].
  - intros [|c v1] v2 Hv Hne _; [done|]. injection Hv as <- Hv. symmetry in Hv. apply app_eq_nil in Hv as [-> ->].
    rewrite rmatch_eps. cbv beta. by rewrite rmatch_seq.
  - rewrite rmatch_eps. cbv beta. rewrite rmatch_seq, rmatch_lit, rmatch_eps. rewrite <- Hk.
    f_equal; [lia|]. do 2 f_equal. lia.
Qed.

Lemma column_list_run {R} c v pos caps (k : nat → chars → captures → option R) y :
  Forall (λ x, in_list x = true) c →
  k (pos + length c + 2)%nat v (<[2%nat := (S pos, length c)]> caps) = Some y →
  rmatch false column_list pos ("("%char :: c ++ ")"%char :: v) caps k = Some y.
Proof.
  intros Hc Hk. unfold column_list. rewrite rmatch_seq, rmatch_lit, rmatch_seq, rmatch_group, rmatch_seq.
  apply rmatch_star_lazy.
  - apply (Forall_impl _ _ _ Hc). intros x [H _]%andb_true_iff. exact H.
  - intros u1 [|x u2] -> Hne; [done|]. rewrite rmatch_eps. cbv beta. rewrite rmatch_seq. simpl app.
    rewrite rmatch_lit_ne; [done|]. apply Forall_app in Hc as [_ [Hx _]%Forall_cons].
    apply andb_true_iff in Hx as [_ Hx]. unfold eqc in Hx. case_bool_decide; [done|congruence].
  - rewrite rmatch_eps. cbv beta. rewrite rmatch_seq, rmatch_lit, rmatch_eps. rewrite <- Hk.
    f_equal; [lia|]. do 2 f_equal. lia.
Qed.

Lemma rmatch_space {R} s pos caps (k : nat → chars → captures → option R) y :
  match s with x :: _ => isspace x = false | [] => True end → k (S pos) s caps = Some y →
  rmatch false spaces0 pos (" "%char :: s) caps k = Some y.
Proof.
  intros Hs Hk. change (" "%char :: s) with ([" "%char] ++ s). apply rmatch_star_run.
  - by repeat constructor.
  - by destruct s.
  - rewrite <- Hk. f_equal. simpl. lia.
Qed.

Lemma rmatch_no_space {R} s pos caps (k : nat → chars → captures → option R) y :
  match s with x :: _ => isspace x = false | [] => True end → k pos s caps = Some y →
  rmatch false spaces0 pos s caps k = Some y.
Proof.
  intros Hs Hk. change s with ([] ++ s) at 1. apply rmatch_star_run; [constructor|by destruct s|].
  rewrite <- Hk. f_equal. simpl. lia.
Qed.

Lemma rmatch_spaces {R} s pos caps (k : nat → chars → captures → option R) y :
  match s with x :: _ => isspace x = false | [] => True end → k (S pos) s caps = Some y →
  rmatch false (one_or_more (CItem ISpace)) pos (" "%char :: s) caps k = Some y.
Proof.
  intros Hs Hk. change (" "%char :: s) with ([" "%char] ++ s). apply rmatch_plus_run.
  - done.
  - by repeat constructor.
  - by destruct s.
  - rewrite <- Hk. f_equal. simpl. lia.
Qed.

(** The groups of the match: table, columns, values. *)
Definition insert_caps (t c l : chars) : captures :=
  <[3%nat := ((length t + length c + 24)%nat, length l)]>
    (<[2%nat := ((length t + 14)%nat, length c)]> {[1%nat := (12%nat, length t)]}).

Lemma word_not_space c : is_word c = true → isspace c = false.
Proof.
  intros H. pose proof (char_cases (λ c, negb (is_word c && isspace c)) eq_refl c) as Hc. simpl in Hc.
  rewrite H in Hc. by destruct (isspace c).
Qed.

Lemma after_table_run {R} c l pos caps (k : nat → chars → captures → option R) y :
  Forall (λ x, in_list x = true) c → Forall (λ x, plain x = true) l →
  k (pos + length c + length l + 13)%nat []
    (<[3%nat := ((pos + length c + 12)%nat, length l)]> (<[2%nat := ((pos + 2)%nat, length c)]> caps)) = Some y →
  rmatch false after_table pos (string_chars " (" ++ c ++ string_chars ") VALUES (" ++ l ++ [")"%char]) caps k = Some y.
Proof.
  intros Hc Hl Hk. unfold after_table. rewrite rmatch_seq.
  change (string_chars " (" ++ c ++ string_chars ") VALUES (" ++ l ++ [")"%char])
    with (" "%char :: "("%char :: c ++ ")"%char :: " "%char :: string_chars "VALUES" ++ " "%char :: "("%char :: l ++ [")"%char]).
  apply rmatch_space; [done|]. rewrite rmatch_seq, rmatch_opt.
  erewrite column_list_run; [reflexivity|exact Hc|]. rewrite rmatch_seq. apply rmatch_space; [done|].
  rewrite rmatch_lits, rmatch_seq. apply rmatch_space; [done|].
  apply values_tail_run; [exact Hl|]. rewrite <- Hk. simpl length. f_equal; [lia|].
  f_equal; [f_equal; lia|]. f_equal. f_equal. lia.
Qed.

Lemma insert_search t c l :
  identifier t → Forall (λ x, in_list x = true) c → Forall (λ x, plain x = true) l →
  ∃ whole, search insert_pattern (chars_string (insert_text t c l)) = Some (<[0%nat := whole]> (insert_caps t c l)).
Proof.
  intros [Hne Ht] Hc Hl. exists (0%nat, (length t + length c + length l + 25)%nat). unfold search, regex_search.
  rewrite string_chars_string. set (s := insert_text t c l).
  assert (rmatch false (regex_of insert_pattern) 0 s ∅ (λ pos' _ caps, Some (0%nat, (pos' - 0)%nat, caps))
          = Some (0%nat, (length t + length c + length l + 25)%nat, insert_caps t c l)) as H.
  { rewrite insert_regex. unfold s, insert_text.
    change (string_chars "INSERT INTO " ++ ?x)
      with (string_chars "INSERT" ++ " "%char :: string_chars "INTO" ++ " "%char :: x).
    rewrite rmatch_lits, rmatch_seq. apply rmatch_spaces; [done|].
    rewrite rmatch_lits, rmatch_seq. apply rmatch_spaces.
    { destruct t as [|x t]; [done|]. apply Forall_cons in Ht as [Hx _]. by apply word_not_space. }
    rewrite rmatch_seq, rmatch_group, rmatch_seq. apply rmatch_plus_run; [done|exact Ht|done|].
    rewrite rmatch_eps. cbv beta. apply after_table_run; [done|done|]. unfold insert_caps.
    unfold singletonM, map_singleton. simpl length.
    match goal with
    | |- Some (_, ?n, <[_ := (?p3, _)]> (<[_ := (?p2, _)]> (<[_ := (?p1, ?n1)]> _))) = _ =>
        replace n1 with (length t) by lia; replace n with (length t + length c + length l + 25)%nat by lia;
        replace p3 with (length t + length c + 24)%nat by lia; replace p2 with (length t + 14)%nat by lia;
        replace p1 with 12%nat by lia
    end.
    reflexivity. }
  destruct s as [|x s'] eqn:Es; cbn [search_from]; rewrite H; done.
Qed.

(** ** Printed statements *)

Inductive sql_literal := LInt (n : Z) | LText (s : string) | LToken (s : string).

Definition show_literal (l : sql_literal) : chars :=
  match l with
  | LInt n => string_chars (pretty n)
  | LText s => quote :: string_chars s ++ [quote]
  | LToken s => string_chars s
  end.

(** A text without quotes and line breaks; a token without separators and quotes. *)
Definition literal_wf (l : sql_literal) : Prop :=
  match l with
  | LInt n => is_i 64 n
  | LText s => Forall (λ c, plain c = true ∧ c ≠ quote) (string_chars s)
  | LToken s => token (string_chars s)
  end.

Definition literal_value (l : sql_literal) : Value :=
  match l with LInt n => VInt64 n | LText s => VString s | LToken s => unquoted_value s end.

Definition show_insert (table : string) (cols : list string) (ls : list sql_literal) : string :=
  chars_string (insert_text (string_chars table) (joined (map string_chars cols)) (joined (map show_literal ls))).

Example show_insert_sample :
  show_insert "Users" ["id"; "name"] [LInt 7; LText "Ada, B."; LToken "1.5"]
  = "INSERT INTO Users (id, name) VALUES (7, 'Ada, B.', 1.5)".
Proof. vm_compute. reflexivity. Qed.

(** *** The literals are literals *)

Lemma int_token (n : Z) : token (string_chars (pretty n)).
Proof.
  destruct (pretty_Z_digits n) as (ds & -> & Hne & Hd & _).
  assert (Hall : Forall (λ c, cls_match false not_separator c = true) ds).
  { apply (Forall_impl _ _ _ Hd). intros c Hc. destruct (isdigit_facts c Hc) as (Hs & _ & _ & _ & Hcomma & _).
    simpl. unfold eqc. by rewrite bool_decide_eq_false_2, Hs. }
  case_decide.
  - split; [done|]. split; [done|]. by constructor.
  - split; [done|]. split; [|done]. destruct ds as [|d ds]; [done|]. apply Forall_cons in Hd as [Hd _].
    destruct (isdigit_facts d Hd) as (_ & _ & _ & _ & _ & Hq). simpl. intros [= ->]. done.
Qed.

Lemma show_literal_literal l : literal_wf l → literal (show_literal l).
Proof.
  destruct l as [n|s|s]; intros H; [right; apply int_token| |by right].
  left. exists (string_chars s). split; [done|]. by apply (Forall_impl _ _ _ H); intros c [_ ?].
Qed.

Lemma token_plain x : token x → Forall (λ c, plain c = true) x.
Proof.
  intros (_ & _ & H). apply (Forall_impl _ _ _ H). intros c Hc.
  pose proof (char_cases (λ c, negb (cls_match false not_separator c) || plain c) eq_refl c) as Hp.
  cbv beta in Hp. by rewrite Hc in Hp.
Qed.

Lemma show_literal_plain l : literal_wf l → Forall (λ c, plain c = true) (show_literal l).
Proof.
  destruct l as [n|s|s]; intros H; [apply token_plain, int_token| |by apply token_plain].
  simpl. constructor; [done|]. apply Forall_app. split; [|by repeat constructor].
  apply (Forall_impl _ _ _ H). by intros c [? _].
Qed.

Lemma joined_forall (P : ascii → Prop) items :
  P ","%char → P " "%char → Forall (Forall P) items → Forall P (joined items).
Proof.
  intros H1 H2. induction 1 as [|x items Hx H IH]; [constructor|]. destruct items; [done|].
  change (joined (x :: l :: items)) with (x ++ ","%char :: " "%char :: joined (l :: items)).
  apply Forall_app. split; [done|]. by repeat constructor.
Qed.

Lemma joined_map (f : ascii → ascii) items :
  f ","%char = ","%char → f " "%char = " "%char → map f (joined items) = joined (map (map f) items).
Proof.
  intros H1 H2. induction items as [|x items IH]; [done|]. destruct items as [|y items]; [done|].
  change (joined (x :: y :: items)) with (x ++ ","%char :: " "%char :: joined (y :: items)).
  change (map (map f) (x :: y :: items)) with (map f x :: map (map f) (y :: items)).
  rewrite map_app.
  change (map f (","%char :: " "%char :: joined (y :: items)))
    with (f ","%char :: f " "%char :: map f (joined (y :: items))).
  rewrite H1, H2, IH. done.
Qed.

(** *** Upper case keeps the kinds of characters *)

Lemma word_upper c : is_word c = true → is_word (toupper c) = true ∧ in_list (toupper c) = true.
Proof.
  intros H. pose proof (char_cases (λ c, negb (is_word c) || (is_word (toupper c) && in_list (toupper c))) eq_refl c) as Hc.
  simpl in Hc. rewrite H in Hc. by apply andb_true_iff in Hc.
Qed.
Lemma word_in_list c : is_word c = true → in_list c = true.
Proof.
  intros H. pose proof (char_cases (λ c, negb (is_word c) || in_list c) eq_refl c) as Hc.
  simpl in Hc. by rewrite H in Hc.
Qed.
Lemma plain_upper c : plain c = true → plain (toupper c) = true.
Proof.
  intros H. pose proof (char_cases (λ c, negb (plain c) || plain (toupper c)) eq_refl c) as Hc.
  simpl in Hc. by rewrite H in Hc.
Qed.

Lemma identifier_upper x : identifier x → identifier (map toupper x).
Proof.
  intros [Hne Hx]. split; [by destruct x|]. apply Forall_fmap. apply (Forall_impl _ _ _ Hx). intros c Hc. by apply word_upper.
Qed.

Lemma insert_text_upper t c l :
  upper (chars_string (insert_text t c l)) = chars_string (insert_text (map toupper t) (map toupper c) (map toupper l)).
Proof. unfold upper, insert_text. rewrite string_chars_string, !map_app. done. Qed.

(** *** The groups *)

Lemma insert_groups t c l whole :
  let s := chars_string (insert_text t c l) in
  let caps := <[0%nat := whole]> (insert_caps t c l) in
  group_str s caps 1 = chars_string t ∧ group_str s caps 2 = chars_string c ∧ group_str s caps 3 = chars_string l ∧
  is_Some (caps !! 2%nat).
Proof.
  intros s caps. unfold group_str, s.
  assert (H1 : insert_text t c l = string_chars "INSERT INTO " ++ t ++
    (string_chars " (" ++ c ++ string_chars ") VALUES (" ++ l ++ [")"%char])) by done.
  assert (H2 : insert_text t c l = (string_chars "INSERT INTO " ++ t ++ string_chars " (") ++ c ++
    (string_chars ") VALUES (" ++ l ++ [")"%char])) by (rewrite H1, <- !app_assoc; done).
  assert (H3 : insert_text t c l = (string_chars "INSERT INTO " ++ t ++ string_chars " (" ++ c ++ string_chars ") VALUES (")
    ++ l ++ [")"%char]) by (rewrite H1, <- !app_assoc; done).
  split_and!.
  - rewrite H1. by rewrite (capture_app (string_chars "INSERT INTO ") t _ caps 1).
  - rewrite H2, capture_app; [done|]. change (caps !! 2%nat) with (Some ((length t + 14)%nat, length c)).
    do 2 f_equal. rewrite !length_app. simpl. lia.
  - rewrite H3, capture_app; [done|]. change (caps !! 3%nat) with (Some ((length t + length c + 24)%nat, length l)).
    do 2 f_equal. rewrite !length_app. simpl. lia.
  - by eexists.
Qed.

(** *** The items *)

Lemma placed_texts items : ∀ pre s,
  s = pre ++ joined items →
  Forall (λ px, ∃ before after, s = before ++ px.2 ++ after ∧ length before = px.1) (placed (length pre) items).
Proof.
  induction items as [|x items IH]; intros pre s Hs; [constructor|]. simpl. constructor.
  - destruct items as [|y items].
    + exists pre, []. by rewrite app_nil_r.
    + by exists pre, (","%char :: " "%char :: joined (y :: items)).
  - destruct items as [|y items]; [constructor|].
    replace (length pre + length x + 2)%nat with (length (pre ++ x ++ string_chars ", ")) by (rewrite !length_app; simpl; lia).
    apply IH. rewrite Hs, <- !app_assoc. done.
Qed.

Lemma placed_snd pos items : (placed pos items).*2 = items.
Proof. revert pos. induction items as [|x items IH]; intros pos; [done|]. simpl. by rewrite IH. Qed.

(** Reading a group of every match of the list. *)
Lemma map_items {B} (f : captures → B) (g : chars → B) caps_of items :
  (∀ before x after, joined items = before ++ x ++ after → x ∈ items →
     f (item_caps caps_of (length before, x)) = g x) →
  map f (map (item_caps caps_of) (placed 0 items)) = map g items.
Proof.
  intros Hf. pose proof (placed_texts items [] (joined items) eq_refl) as Hp. simpl in Hp.
  rewrite <- (placed_snd 0 items) at 2. rewrite !map_map. apply map_ext_in.
  intros [pos x] Hin%list_elem_of_In. rewrite Forall_forall in Hp. destruct (Hp _ Hin) as (before & after & Hs & Hpos).
  simpl in *. subst pos. apply (Hf before x after); [done|]. rewrite <- (placed_snd 0 items).
  apply list_elem_of_fmap. by exists (length before, x).
Qed.

Lemma columns_read cols :
  Forall (λ x, identifier x) cols →
  map (λ m, group_str (chars_string (joined cols)) m 0) (all_matches (regex_of column_pattern) (chars_string (joined cols)))
  = map chars_string cols.
Proof.
  intros Hc. unfold all_matches. rewrite string_chars_string.
  rewrite (matches_items _ identifier (λ _ _, ∅)).
  - apply map_items. intros before x after Hs _. unfold group_str. rewrite Hs. by rewrite capture_app.
  - intros R x v pos k y. apply column_at.
  - intros R c v pos k. apply column_separator.
  - intros R pos k. by rewrite column_regex.
  - rewrite length_chars_string. lia.
  - done.
Qed.

Lemma int_value (n : Z) : is_i 64 n → unquoted_value (pretty n) = VInt64 n.
Proof.
  intros Hn. unfold unquoted_value. rewrite stoll_pretty by done.
  assert (existsb (eqc ".") (string_chars (pretty n)) = false) as ->; [|done].
  apply not_true_is_false. intros (c & Hc & Hdot)%existsb_exists. apply bool_decide_eq_true_1 in Hdot as <-.
  destruct (pretty_Z_digits n) as (ds & Hs & _ & Hd & _). rewrite Hs in Hc. rewrite Forall_forall in Hd.
  case_decide; [destruct Hc as [Hc|Hc]; [done|]|]; apply list_elem_of_In, Hd in Hc; done.
Qed.

Lemma value_of_item before x after :
  literal x →
  insert_value (chars_string (before ++ x ++ after)) (item_caps value_caps (length before, x))
  = if decide (head x = Some quote) then VString (chars_string (take (length x - 2) (drop 1 x)))
    else unquoted_value (chars_string x).
Proof.
  intros [(q & -> & _)|(Hne & Hh & _)]; unfold insert_value, item_caps, value_caps; cbn [fst snd].
  - rewrite !decide_True by done.
    change ((<[0%nat := _]> {[1%nat := ?v]} : captures) !! 1%nat) with (Some v). cbv iota. f_equal. unfold group_str.
    assert (Hs : before ++ (quote :: q ++ [quote]) ++ after = (before ++ [quote]) ++ q ++ ([quote] ++ after))
      by (rewrite <- !app_assoc; simpl; by rewrite <- app_assoc).
    rewrite Hs, capture_app.
    + simpl. f_equal. rewrite length_app. simpl. replace (length q + 1 - 1)%nat with (length q) by lia.
      by rewrite drop_0, take_app_length.
    + simpl. change ((<[0%nat := _]> {[1%nat := ?v]} : captures) !! 1%nat) with (Some v).
      rewrite !length_app. simpl. do 2 f_equal; lia.
  - rewrite !decide_False by done.
    change ((<[0%nat := _]> {[2%nat := ?v]} : captures) !! 1%nat) with (@None (nat * nat)). cbv iota.
    unfold group_str. by rewrite capture_app.
Qed.

Lemma values_read ls :
  Forall literal_wf ls →
  let text := chars_string (joined (map show_literal ls)) in
  map (insert_value text) (all_matches (regex_of value_pattern) text) = map literal_value ls.
Proof.
  intros Hl text. unfold all_matches, text. rewrite string_chars_string.
  assert (Hlit : Forall literal (map show_literal ls)).
  { apply Forall_fmap. apply (Forall_impl _ _ _ Hl). apply show_literal_literal. }
  rewrite (matches_items _ literal value_caps).
  - rewrite (map_items _ (λ x, if decide (head x = Some quote)
                               then VString (chars_string (take (length x - 2) (drop 1 x)))
                               else unquoted_value (chars_string x))).
    + rewrite map_map. apply map_ext_in. intros l Hin%list_elem_of_In. rewrite Forall_forall in Hl. specialize (Hl l Hin).
      destruct l as [n|s|s]; cbn [show_literal literal_value].
      * rewrite decide_False by apply int_token. rewrite chars_string_chars. by apply int_value.
      * rewrite decide_True by done. cbn [length drop]. rewrite length_app. cbn [length].
        replace (S (length (string_chars s) + 1) - 2)%nat with (length (string_chars s)) by lia.
        by rewrite ?drop_0, take_app_length, chars_string_chars.
      * rewrite decide_False by apply Hl. by rewrite chars_string_chars.
    + intros before x after -> Hx. apply value_of_item. rewrite Forall_forall in Hlit. by apply Hlit.
  - intros R x v pos k y. apply value_at.
  - intros R c v pos k. apply value_separator.
  - intros R pos k. by rewrite value_regex.
  - rewrite length_chars_string. lia.
  - done.
Qed.

(** The parser reads back INSERT statements.  Of a printed statement with a
    column list (a table and columns of word characters, and as values integers
    of 64 bits, quoted texts and other tokens) it returns the table name and
    every value exactly as written, with the columns in upper case, whatever
    commas, brackets and keywords the texts hold. *)
Theorem Parse_show_insert table cols ls
    (Htable : identifier (string_chars table)) (Hcols : Forall (λ c, identifier (string_chars c)) cols)
    (Hne : cols ≠ []) (Hls : Forall literal_wf ls) :
  Parse (show_insert table cols ls)
  = Some (Some {| type := StatementType.INSERT; table_name := table; columns := map upper cols;
                  values := map literal_value ls; where_clause := ""; table_schema := no_schema;
                  raw_sql := show_insert table cols ls |}).
Proof.
  set (t := string_chars table). set (c := joined (map string_chars cols)). set (l := joined (map show_literal ls)).
  assert (Hids : Forall identifier (map string_chars cols)) by by apply Forall_fmap.
  assert (Hc : Forall (λ x, in_list x = true) c).
  { apply joined_forall; [done|done|]. apply (Forall_impl _ _ _ Hids). intros x [_ Hx].
    apply (Forall_impl _ _ _ Hx). apply word_in_list. }
  assert (Hl : Forall (λ x, plain x = true) l).
  { apply joined_forall; [done|done|]. apply Forall_fmap. apply (Forall_impl _ _ _ Hls). apply show_literal_plain. }
  assert (Hcu : map toupper c = joined (map (map toupper) (map string_chars cols))) by by apply joined_map.
  assert (Hids' : Forall identifier (map (map toupper) (map string_chars cols))).
  { apply Forall_fmap. apply (Forall_impl _ _ _ Hids). apply identifier_upper. }
  destruct (insert_search t c l Htable Hc Hl) as [whole Hsearch].
  destruct (insert_search (map toupper t) (map toupper c) (map toupper l)) as [whole' Hsearch'].
  { by apply identifier_upper. }
  { rewrite Hcu. apply joined_forall; [done|done|]. apply (Forall_impl _ _ _ Hids'). intros x [_ Hx].
    apply (Forall_impl _ _ _ Hx). apply word_in_list. }
  { apply Forall_fmap. apply (Forall_impl _ _ _ Hl). apply plain_upper. }
  unfold Parse. assert (Hu : upper (show_insert table cols ls)
    = chars_string (insert_text (map toupper t) (map toupper c) (map toupper l))) by apply insert_text_upper.
  rewrite Hu, Hsearch'. do 2 f_equal. unfold parse_insert. rewrite Hu.
  destruct (insert_groups (map toupper t) (map toupper c) (map toupper l) whole') as (_ & G2 & _ & GS).
  destruct (insert_groups t c l whole) as (_ & _ & G3 & _).
  cbv zeta in G2, G3, GS. rewrite G2, (bool_decide_eq_true_2 _ GS).
  unfold show_insert. fold t c l. rewrite Hsearch, G3.
  assert (Hne' : chars_string (map toupper c) ≠ "").
  { rewrite Hcu. destruct cols as [|x cols]; [done|]. simpl in Hids'. apply Forall_cons in Hids' as [[Hx _] _]. simpl.
    destruct (map toupper (string_chars x)) as [|y w]; [done|]. by destruct (map (map toupper) (map string_chars cols)). }
  rewrite bool_decide_eq_false_2 by done. simpl andb. cbv iota.
  f_equal.
  - destruct (insert_groups t c l whole') as (G1 & _). rewrite <- (chars_string_chars table). fold t. rewrite <- G1.
    unfold group_str, capture. f_equal. unfold insert_caps. by rewrite !length_map.
  - rewrite Hcu, columns_read by done. rewrite !map_map. apply map_ext. done.
  - by apply values_read.
Qed.

Lemma Parse_show_insert_witness :
  identifier (string_chars "Users") ∧
  Parse "INSERT INTO Users (id, name) VALUES (-7, 'VALUES (1), x', 1.5)"
  = Some (Some {| type := StatementType.INSERT; table_name := "Users"; columns := ["ID"; "NAME"];
                  values := [VInt64 (-7); VString "VALUES (1), x"; VDouble 4609434218613702656];
                  where_clause := ""; table_schema := no_schema;
                  raw_sql := "INSERT INTO Users (id, name) VALUES (-7, 'VALUES (1), x', 1.5)" |}).
Proof.
  assert (Hid : identifier (string_chars "Users")) by (split; [done|repeat constructor]).
  split; [exact Hid|].
  apply (Parse_show_insert "Users" ["id"; "name"] [LInt (-7); LText "VALUES (1), x"; LToken "1.5"]).
  - exact Hid.
  - repeat constructor; done.
  - done.
  - constructor; [unfold literal_wf, is_i; lia|].
    constructor; [apply (bool_decide_unpack _); vm_compute; exact I|].
    constructor; [|constructor]. split; [done|]. split; [done|]. repeat constructor.
Defined.
