(* ===== verification/SqlSub.v ===== *)
(** * SQL subscriptions (src/changefeed/sql_subscription.cpp)

    [SqlSubscription]: matching an event against a subscription's table and WHERE
    clause, and projecting it on the subscription's columns;
    [SqlSubscriptionParser]: the SELECT statement of a subscription;
    [SqlSubscriptionManager]: the registry of subscriptions with its routing
    index.  Every public method of the manager holds [subscriptions_mutex_]
    while it reads or writes the registry, so each is one function; the
    identifier is drawn from the atomic counter before.

    An unordered set is a [gset]; a loop over it goes in the order of an
    arbitrary [HashOrder].  Log messages are left out. *)

From Stdlib Require Import Strings.Ascii.
From S2P Require Import Prelude Json Regex Predicate Changefeed.

(** ** Subscriptions *)

Inductive SubscriptionType := SELECT_ALL | SELECT_COLUMNS | ALL_TABLES.

#[export] Instance SubscriptionType_eq_dec : EqDecision SubscriptionType.
Proof. solve_decision. Defined.

Record SqlSubscription := {
  id : string;
  client_id : string;
  sub_type : SubscriptionType;
  table_name : string;
  columns : list string;
  where_clause : option string;
  predicate : option PredicateNode;
  is_active : bool
}.

Section matching.
Context `{JsonLib}.

(** [std::string(v.begin(), v.end())] parsed. *)
Definition parse_bytes (value : bytes) : option json := parse (bytes_str value).

Definition ExtractRowColumns (value : bytes) : option json :=
  match parse_bytes value with
  | None => None
  | Some parsed =>
      match json_field "columns" parsed with
      | Some cols => if is_object cols then Some cols else Some parsed
      | None => Some parsed
      end
  end.

(** [!value.empty() && ExtractRowColumns(value, columns)]: the pointer to the
    parsed columns. *)
Definition columns_ptr (value : bytes) : option json :=
  match value with [] => None | _ => ExtractRowColumns value end.

(** The overload that is given the parsed rows. *)
Definition MatchesEvent_parsed (s : SqlSubscription) (event : ChangefeedEvent)
    (new_columns old_columns : option json) : bool :=
  if negb (is_active s) then false
  else if decide (sub_type s = ALL_TABLES) then true
  else if decide (table_name s ≠ "" ∧ ev_table event ≠ table_name s) then false
  else match predicate s with
  | None => true
  | Some p =>
      if decide (ev_operation event = "DELETE") then
        match old_columns with None => false | Some row => Evaluate p row end
      else if decide (ev_operation event = "UPDATE") then
        match new_columns with
        | Some row => if Evaluate p row then true else
            match old_columns with Some row => Evaluate p row | None => false end
        | None => match old_columns with Some row => Evaluate p row | None => false end
        end
      else match new_columns with None => false | Some row => Evaluate p row end
  end.

Definition MatchesEvent (s : SqlSubscription) (event : ChangefeedEvent) : bool :=
  MatchesEvent_parsed s event (columns_ptr (ev_new_value event)) (columns_ptr (ev_old_value event)).

(** The columns found in the parsed value; with none the result stays null. *)
Definition filtered_json (cols : list string) (json_obj : json) : json :=
  let filtered_obj := fold_left (λ m col,
    match json_field col json_obj with Some v => <[col := v]> m | None => m end) cols ∅ in
  if decide (filtered_obj = ∅) then JNull else object_of filtered_obj.

Definition filter_value (cols : list string) (value : bytes) : exc bytes :=
  match value with
  | [] => Ret []
  | _ =>
      match parse_bytes value with
      | None => Throw "parse error"
      | Some json_obj => filtered_str ← dump (filtered_json cols json_obj); Ret (str_bytes filtered_str)
      end
  end.

Definition set_values (event : ChangefeedEvent) (new_value old_value : bytes) : ChangefeedEvent :=
  {| ev_offset := ev_offset event; ev_transaction_id := ev_transaction_id event;
     ev_table := ev_table event; ev_operation := ev_operation event; ev_key := ev_key event;
     ev_old_value := old_value; ev_new_value := new_value; ev_timestamp := ev_timestamp event |}.

Definition FilterEvent (s : SqlSubscription) (event : ChangefeedEvent) : ChangefeedEvent :=
  if decide (sub_type s = SELECT_ALL ∨ sub_type s = ALL_TABLES) then event
  else if decide (columns s ≠ [] ∧ sub_type s = SELECT_COLUMNS) then
    match (new_value ← filter_value (columns s) (ev_new_value event);
           old_value ← filter_value (columns s) (ev_old_value event);
           Ret (set_values event new_value old_value)) with
    | Ret filtered => filtered
    | Throw _ => event
    end
  else event.

End matching.

(** ** The parser of subscriptions *)

Definition trim_char (c : ascii) : bool :=
  eqc c " " || eqc c (ascii_of_N 9) || eqc c newline || eqc c carriage_return.

Fixpoint drop_while (f : ascii → bool) (l : chars) : chars :=
  match l with c :: l' => if f c then drop_while f l' else l | [] => [] end.

Definition trim_chars (l : chars) : chars := rev (drop_while trim_char (rev (drop_while trim_char l))).
Definition Trim (str : string) : string := chars_string (trim_chars (string_chars str)).

(** The items [std::getline] reads: the last one only when it is not empty. *)
Fixpoint getlines (delimiter : ascii) (l item : chars) : list chars :=
  match l with
  | [] => match item with [] => [] | _ => [item] end
  | c :: l =>
      if eqc c delimiter then item :: getlines delimiter l []
      else getlines delimiter l (item ++ [c])
  end.

Definition Split (str : string) (delimiter : ascii) : list string :=
  filter (λ s, s ≠ "") (map (λ item, Trim (chars_string item)) (getlines delimiter (string_chars str) [])).

Definition ParseColumns (select_clause : string) : list string := Split select_clause ",".

Definition select_pattern : string := "select\s+(.*?)\s+from\s+(\w+)(?:\s+where\s+(.*))?".

(** [matches[n].str()] of a group; empty when it is not matched. *)
Definition group_str (s : string) (caps : captures) (n : nat) : string := default "" (capture s caps n).

(** [PredicateEvaluator::Parse] as a pointer; its recursion always ends. *)
Definition compile_predicate (where_clause : string) : option PredicateNode :=
  match Predicate.Parse where_clause with Some (Parsed node) => Some node | _ => None end.

Definition Parse (query subscription_id client : string) : option SqlSubscription :=
  let normalized_query := Trim query in
  re ← compile select_pattern;
  caps ← regex_match true re normalized_query;
  let select_clause := Trim (group_str normalized_query caps 1) in
  let table := Trim (group_str normalized_query caps 2) in
  let cond := if caps !! 3%nat is Some _ then Trim (group_str normalized_query caps 3) else "" in
  let with_where wh p :=
    {| id := subscription_id; client_id := client;
       sub_type := if decide (select_clause = "*") then SELECT_ALL else SELECT_COLUMNS;
       table_name := table;
       columns := if decide (select_clause = "*") then [] else ParseColumns select_clause;
       where_clause := wh; predicate := p; is_active := true |} in
  if decide (cond = "") then Some (with_where None None)
  else match compile_predicate cond with
  | None => None
  | Some p => Some (with_where (Some cond) (Some p))
  end.

(** ** The manager *)

Record Manager := {
  subscriptions_ : gmap string SqlSubscription;
  client_subscriptions_ : gmap string (list string);
  table_index_ : gmap string (gset string);
  all_tables_index_ : gset string;
  next_subscription_id_ : Z
}.

Definition new_Manager : Manager :=
  {| subscriptions_ := ∅; client_subscriptions_ := ∅; table_index_ := ∅; all_tables_index_ := ∅;
     next_subscription_id_ := 1 |}.

Definition subscription_name (n : Z) : string := "sql_sub_" +:+ pretty n.

Definition GenerateSubscriptionId (m : Manager) : string * Manager :=
  (subscription_name (next_subscription_id_ m),
   {| subscriptions_ := subscriptions_ m; client_subscriptions_ := client_subscriptions_ m;
      table_index_ := table_index_ m; all_tables_index_ := all_tables_index_ m;
      next_subscription_id_ := u64 (next_subscription_id_ m + 1) |}).

Definition set_index (tables : gmap string (gset string)) (all : gset string) (m : Manager) : Manager :=
  {| subscriptions_ := subscriptions_ m; client_subscriptions_ := client_subscriptions_ m;
     table_index_ := tables; all_tables_index_ := all;
     next_subscription_id_ := next_subscription_id_ m |}.
Definition set_subscriptions (subs : gmap string SqlSubscription) (m : Manager) : Manager :=
  {| subscriptions_ := subs; client_subscriptions_ := client_subscriptions_ m;
     table_index_ := table_index_ m; all_tables_index_ := all_tables_index_ m;
     next_subscription_id_ := next_subscription_id_ m |}.
Definition set_clients (clients : gmap string (list string)) (m : Manager) : Manager :=
  {| subscriptions_ := subscriptions_ m; client_subscriptions_ := clients;
     table_index_ := table_index_ m; all_tables_index_ := all_tables_index_ m;
     next_subscription_id_ := next_subscription_id_ m |}.

Definition IndexSubscription (s : SqlSubscription) (m : Manager) : Manager :=
  if decide (sub_type s = ALL_TABLES) then
    set_index (table_index_ m) ({[id s]} ∪ all_tables_index_ m) m
  else
    set_index (<[table_name s := {[id s]} ∪ default ∅ (table_index_ m !! table_name s)]> (table_index_ m))
              (all_tables_index_ m) m.

Definition UnindexSubscription (s : SqlSubscription) (m : Manager) : Manager :=
  if decide (sub_type s = ALL_TABLES) then
    set_index (table_index_ m) (all_tables_index_ m ∖ {[id s]}) m
  else match table_index_ m !! table_name s with
  | None => m
  | Some ids =>
      let ids' := ids ∖ {[id s]} in
      set_index (if decide (ids' = ∅) then delete (table_name s) (table_index_ m)
                 else <[table_name s := ids']> (table_index_ m)) (all_tables_index_ m) m
  end.

(** What both ways to subscribe do under the mutex. *)
Definition store_subscription (s : SqlSubscription) (m : Manager) : Manager :=
  let m1 := IndexSubscription s m in
  let m2 := set_subscriptions (<[id s := s]> (subscriptions_ m1)) m1 in
  set_clients (<[client_id s := default [] (client_subscriptions_ m2 !! client_id s) ++ [id s]]>
                 (client_subscriptions_ m2)) m2.

Definition Subscribe (client sql_query : string) (m : Manager) : Manager * exc string :=
  let '(subscription_id, m1) := GenerateSubscriptionId m in
  match Parse sql_query subscription_id client with
  | None => (m1, Throw ("Invalid SQL subscription query: " +:+ sql_query))
  | Some s => (store_subscription s m1, Ret subscription_id)
  end.

Definition SubscribeToAllTables (client : string) (m : Manager) : Manager * string :=
  let '(subscription_id, m1) := GenerateSubscriptionId m in
  let s := {| id := subscription_id; client_id := client; sub_type := ALL_TABLES; table_name := "";
              columns := []; where_clause := None; predicate := None; is_active := true |} in
  (store_subscription s m1, subscription_id).

Definition Unsubscribe (subscription_id : string) (m : Manager) : Manager :=
  match subscriptions_ m !! subscription_id with
  | None => m
  | Some s =>
      let m1 := UnindexSubscription s m in
      let m2 := set_subscriptions (delete subscription_id (subscriptions_ m1)) m1 in
      let client_subs := filter (λ x, x ≠ subscription_id)
                           (default [] (client_subscriptions_ m2 !! client_id s)) in
      set_clients (if decide (client_subs = []) then delete (client_id s) (client_subscriptions_ m2)
                   else <[client_id s := client_subs]> (client_subscriptions_ m2)) m2
  end.

(** The body of the loop of [UnsubscribeAll]. *)
Definition remove_one (m : Manager) (sub_id : string) : Manager :=
  match subscriptions_ m !! sub_id with
  | None => m
  | Some s =>
      let m1 := UnindexSubscription s m in
      set_subscriptions (delete sub_id (subscriptions_ m1)) m1
  end.

Definition UnsubscribeAll (client : string) (m : Manager) : Manager :=
  match client_subscriptions_ m !! client with
  | None => m
  | Some ids =>
      let m1 := fold_left remove_one ids m in
      set_clients (delete client (client_subscriptions_ m1)) m1
  end.

Definition GetClientSubscriptions (client : string) (m : Manager) : list SqlSubscription :=
  omap (λ sub_id, subscriptions_ m !! sub_id) (default [] (client_subscriptions_ m !! client)).

Record Stats := {
  total_subscriptions : Z;
  active_subscriptions : Z;
  catch_all_subscriptions : Z;
  subscriptions_per_table : gmap string Z
}.

Definition count_subscription (st : Stats) (s : SqlSubscription) : Stats :=
  let active := if is_active s then active_subscriptions st + 1 else active_subscriptions st in
  if decide (sub_type s = ALL_TABLES) then
    {| total_subscriptions := total_subscriptions st; active_subscriptions := active;
       catch_all_subscriptions := catch_all_subscriptions st + 1;
       subscriptions_per_table := subscriptions_per_table st |}
  else
    {| total_subscriptions := total_subscriptions st; active_subscriptions := active;
       catch_all_subscriptions := catch_all_subscriptions st;
       subscriptions_per_table :=
         if decide (table_name s ≠ "") then
           <[table_name s := default 0 (subscriptions_per_table st !! table_name s) + 1]>
             (subscriptions_per_table st)
         else subscriptions_per_table st |}.

Section manager.
Context `{HashOrder} `{JsonLib}.

(** The order in which an unordered set is traversed. *)
Definition set_iter (X : gset string) : list string := (hash_iter (gset_to_gmap () X)).*1.

Definition GetStats (m : Manager) : Stats :=
  fold_left count_subscription (hash_iter (subscriptions_ m)).*2
    {| total_subscriptions := Z.of_nat (size (subscriptions_ m)); active_subscriptions := 0;
       catch_all_subscriptions := 0; subscriptions_per_table := ∅ |}.

(** The closure [evaluate] of [ProcessEvent]: the result it appends, if any. *)
Definition evaluate (m : Manager) (event : ChangefeedEvent) (new_columns old_columns : option json)
    (sub_id : string) : option (string * ChangefeedEvent) :=
  s ← subscriptions_ m !! sub_id;
  if MatchesEvent_parsed s event new_columns old_columns
  then Some (client_id s, FilterEvent s event) else None.

Definition ProcessEvent (event : ChangefeedEvent) (m : Manager) : list (string * ChangefeedEvent) :=
  let new_ptr := columns_ptr (ev_new_value event) in
  let old_ptr := columns_ptr (ev_old_value event) in
  let candidates := default ∅ (table_index_ m !! ev_table event) in
  omap (evaluate m event new_ptr old_ptr) (set_iter candidates)
  ++ omap (evaluate m event new_ptr old_ptr) (set_iter (all_tables_index_ m)).

End manager.

(** ** Small checks *)

Example parse_where :
  (λ s, (sub_type s, table_name s, columns s, where_clause s))
    <$> Parse "  Select id , name,,  FROM users  where age >= 18 " "s1" "c1"
  = Some (SELECT_COLUMNS, "users", ["id"; "name"], Some "age >= 18").
Proof. vm_compute. reflexivity. Qed.
Example parse_star : Parse "select * from t" "s" "c" =
  Some {| id := "s"; client_id := "c"; sub_type := SELECT_ALL; table_name := "t"; columns := [];
          where_clause := None; predicate := None; is_active := true |}.
Proof. vm_compute. reflexivity. Qed.
Example parse_bad : Parse "select * from t where" "s" "c" = None ∧
  Parse "select * from t where a >" "s" "c" = None ∧ Parse "delete from t" "s" "c" = None.
Proof. vm_compute. done. Qed.
