(* ===== verification/SqlSubParse.v ===== *)
(** * What the subscription parser accepts

    The queries that [SqlSub.Parse] accepts, as a relation on their text, and
    the subscription it makes of them. *)

From Stdlib Require Import Strings.Ascii.
From S2P Require Import Prelude Json Regex Predicate PredicateText PredicateGrammar PredicateEval Changefeed SqlSub.

(** ** The shape of a query *)

(** A keyword in any case. *)
Definition keyword (w : string) (l : chars) : Prop := map tolower l = string_chars w.
Definition spaces (l : chars) : Prop := l ≠ [] ∧ Forall (λ c, isspace c = true) l.
Definition table_word (l : chars) : Prop := l ≠ [] ∧ Forall (λ c, ident_char c = true) l.

(** [SELECT sel FROM tab \[WHERE cond\]]. *)
Definition query_shape (q sel tab : chars) (cond : option chars) : Prop :=
  ∃ kw1 ws1 ws2 kw2 ws3 post,
    q = kw1 ++ ws1 ++ sel ++ ws2 ++ kw2 ++ ws3 ++ tab ++ post ∧
    keyword "select" kw1 ∧ spaces ws1 ∧ Forall line_char sel ∧ spaces ws2 ∧
    keyword "from" kw2 ∧ spaces ws3 ∧ table_word tab ∧
    match cond with
    | None => post = []
    | Some c => ∃ ws4 kw3 ws5, post = ws4 ++ kw3 ++ ws5 ++ c ∧ spaces ws4 ∧ keyword "where" kw3 ∧
        spaces ws5 ∧ Forall line_char c
    end.

Definition blanks : regex := Seq (Cls (CItem ISpace)) (Star true (Cls (CItem ISpace))).
Definition where_regex : regex :=
  Seq blanks (lits (string_chars "where") (Seq blanks (Seq (Group 3 (Seq (Star true (Cls CAny)) Eps)) Eps))).
Definition from_regex : regex :=
  lits (string_chars "from") (Seq blanks
    (Seq (Group 2 (Seq (Seq (Cls (CItem IWord)) (Star true (Cls (CItem IWord)))) Eps))
      (Seq (Opt true where_regex) Eps))).
Definition select_regex : regex :=
  lits (string_chars "select") (Seq blanks
    (Seq (Group 1 (Seq (Star false (Cls CAny)) Eps)) (Seq blanks from_regex))).

Lemma compile_select : compile select_pattern = Some select_regex.
Proof. vm_compute. reflexivity. Qed.

Lemma line_char_any c : cls_match true CAny c = true ↔ line_char c.
Proof. unfold line_char. simpl. rewrite negb_true_iff, orb_false_iff, !eqc_neq. done. Qed.

Lemma rmatches_blanks p0 s0 c0 p1 s1 c1 :
  rmatches true blanks p0 s0 c0 p1 s1 c1 →
  ∃ u, s0 = u ++ s1 ∧ spaces u ∧ p1 = (p0 + length u)%nat ∧ c1 = c0.
Proof. intros (u & -> & ? & ? & -> & ->)%rmatches_plus_cls. by exists u. Qed.

Lemma rmatches_eps icase p0 s0 c0 p1 s1 c1 :
  rmatches icase Eps p0 s0 c0 p1 s1 c1 → p1 = p0 ∧ s1 = s0 ∧ c1 = c0.
Proof. by inversion 1. Qed.

(** A group over a class repeated. *)
Lemma rmatches_group_any n g p0 s0 c0 p1 s1 c1 :
  rmatches true (Group n (Seq (Star g (Cls CAny)) Eps)) p0 s0 c0 p1 s1 c1 →
  ∃ u, s0 = u ++ s1 ∧ Forall line_char u ∧ p1 = (p0 + length u)%nat ∧
    c1 = <[n := (p0, length u)]> c0.
Proof.
  intros (c & (p & s & c' & (u & -> & Hu & -> & ->)%rmatches_star_cls & (-> & -> & ->)%rmatches_eps)
    %rmatches_seq & ->)%rmatches_group.
  exists u. split_and!; [done| |done|do 2 f_equal; lia].
  eapply Forall_impl; [exact Hu|]. intros x. apply line_char_any.
Qed.

Lemma rmatches_group_word n p0 s0 c0 p1 s1 c1 :
  rmatches true (Group n (Seq (Seq (Cls (CItem IWord)) (Star true (Cls (CItem IWord)))) Eps))
    p0 s0 c0 p1 s1 c1 →
  ∃ u, s0 = u ++ s1 ∧ table_word u ∧ p1 = (p0 + length u)%nat ∧ c1 = <[n := (p0, length u)]> c0.
Proof.
  intros (c & (p & s & c' & (u & -> & Hne & Hu & -> & ->)%rmatches_plus_cls & (-> & -> & ->)%rmatches_eps)
    %rmatches_seq & ->)%rmatches_group.
  exists u. split_and!; [done| |done|do 2 f_equal; lia]. by split.
Qed.

Lemma rmatches_word w r p0 s0 c0 p1 s1 c1 :
  map tolower (string_chars w) = string_chars w →
  rmatches true (lits (string_chars w) r) p0 s0 c0 p1 s1 c1 →
  ∃ u v, s0 = u ++ v ∧ keyword w u ∧ rmatches true r (p0 + length u)%nat v c0 p1 s1 c1.
Proof. intros Hw (u & v & -> & E & H)%rmatches_lits. exists u, v. by rewrite Hw in E. Qed.

(** The optional condition. *)
Lemma rmatches_where p0 s0 c0 p1 s1 c1 :
  rmatches true (Seq (Opt true where_regex) Eps) p0 s0 c0 p1 s1 c1 →
  (s0 = s1 ∧ c1 = c0) ∨
  ∃ ws4 kw3 ws5 c, s0 = ws4 ++ kw3 ++ ws5 ++ c ++ s1 ∧ spaces ws4 ∧ keyword "where" kw3 ∧
    spaces ws5 ∧ Forall line_char c ∧
    c1 = <[3%nat := (p0 + length (ws4 ++ kw3 ++ ws5), length c)%nat]> c0.
Proof.
  intros (p & s & c & H & (-> & -> & ->)%rmatches_eps)%rmatches_seq.
  apply rmatches_opt in H as [(-> & -> & ->)|H]; [by left|right].
  apply rmatches_seq in H as (? & ? & ? & (ws4 & -> & Hws4 & -> & ->)%rmatches_blanks & H).
  apply rmatches_word in H as (kw3 & v & -> & Hkw3 & H); [|done].
  apply rmatches_seq in H as (? & ? & ? & (ws5 & -> & Hws5 & -> & ->)%rmatches_blanks & H).
  apply rmatches_seq in H as (? & ? & ? & (u & -> & Hu & -> & ->)%rmatches_group_any & H).
  apply rmatches_eps in H as (-> & -> & ->).
  exists ws4, kw3, ws5, u. rewrite !length_app, !Nat.add_assoc. done.
Qed.

(** The captures of a match of the whole query. *)
Lemma select_match s caps :
  regex_match true select_regex s = Some caps →
  ∃ sel tab cond, query_shape (string_chars s) sel tab cond ∧
    capture s caps 1 = Some (chars_string sel) ∧ capture s caps 2 = Some (chars_string tab) ∧
    match cond with
    | None => caps !! 3%nat = None
    | Some c => is_Some (caps !! 3%nat) ∧ capture s caps 3 = Some (chars_string c)
    end.
Proof.
  intros (p' & H)%regex_match_sound. rewrite <- (chars_string_chars s).
  revert H. generalize (string_chars s). clear s. intros s. rewrite string_chars_string. intros H.
  apply rmatches_word in H as (kw1 & v & -> & Hkw1 & H); [|done].
  apply rmatches_seq in H as (? & ? & ? & (ws1 & -> & Hws1 & -> & ->)%rmatches_blanks & H).
  apply rmatches_seq in H as (? & ? & ? & (sel & -> & Hsel & -> & ->)%rmatches_group_any & H).
  apply rmatches_seq in H as (? & ? & ? & (ws2 & -> & Hws2 & -> & ->)%rmatches_blanks & H).
  apply rmatches_word in H as (kw2 & v & -> & Hkw2 & H); [|done].
  apply rmatches_seq in H as (? & ? & ? & (ws3 & -> & Hws3 & -> & ->)%rmatches_blanks & H).
  apply rmatches_seq in H as (? & ? & ? & (tab & -> & Htab & -> & ->)%rmatches_group_word & H).
  rewrite !Nat.add_0_l in H.
  assert (Hcap : ∀ post caps, caps !! 1%nat = Some ((length kw1 + length ws1)%nat, length sel) →
    caps !! 2%nat = Some ((length kw1 + length ws1 + length sel + length ws2 + length kw2 + length ws3)%nat, length tab) →
    let s := kw1 ++ ws1 ++ sel ++ ws2 ++ kw2 ++ ws3 ++ tab ++ post in
    capture (chars_string s) caps 1 = Some (chars_string sel) ∧
    capture (chars_string s) caps 2 = Some (chars_string tab)).
  { intros post cs E1 E2 s. split.
    - replace s with ((kw1 ++ ws1) ++ sel ++ (ws2 ++ kw2 ++ ws3 ++ tab ++ post))
        by (unfold s; by rewrite <- !app_assoc).
      apply capture_app. by rewrite length_app.
    - replace s with ((kw1 ++ ws1 ++ sel ++ ws2 ++ kw2 ++ ws3) ++ tab ++ post)
        by (unfold s; by rewrite <- !app_assoc).
      apply capture_app. by rewrite !length_app, !Nat.add_assoc. }
  apply rmatches_where in H as [[-> ->]|(ws4 & kw3 & ws5 & c & -> & Hws4 & Hkw3 & Hws5 & Hc & ->)].
  - exists sel, tab, None. split; [by exists kw1, ws1, ws2, kw2, ws3, []|].
    destruct (Hcap [] (<[2%nat := ((length kw1 + length ws1 + length sel + length ws2 + length kw2 + length ws3)%nat, length tab)]>
      (<[1%nat := ((length kw1 + length ws1)%nat, length sel)]> ∅))) as [? ?]; [by simplify_map_eq..|].
    by simplify_map_eq.
  - exists sel, tab, (Some c). rewrite app_nil_r.
    split; [exists kw1, ws1, ws2, kw2, ws3, (ws4 ++ kw3 ++ ws5 ++ c); split_and!; try done;
            by exists ws4, kw3, ws5|].
    match goal with |- context [capture _ ?cs 1] =>
      destruct (Hcap (ws4 ++ kw3 ++ ws5 ++ c) cs) as [? ?]; [by simplify_map_eq..|] end.
    split; [done|]. split; [done|]. split; [simplify_map_eq; by eexists|].
    replace (kw1 ++ ws1 ++ sel ++ ws2 ++ kw2 ++ ws3 ++ tab ++ ws4 ++ kw3 ++ ws5 ++ c) with
      ((kw1 ++ ws1 ++ sel ++ ws2 ++ kw2 ++ ws3 ++ tab ++ ws4 ++ kw3 ++ ws5) ++ c ++ [])
      by (rewrite app_nil_r, <- !app_assoc; done).
    apply capture_app. simplify_map_eq. f_equal. by rewrite !length_app, !Nat.add_assoc.
Qed.

Lemma drop_while_none f l : Forall (λ c, f c = false) l → drop_while f l = l.
Proof. destruct 1 as [|c l Hc]; simpl; [done|]. by rewrite Hc. Qed.

Lemma ident_char_not_trim c : ident_char c = true → trim_char c = false.
Proof. ascii_cases c. Qed.

Lemma trim_word tab : table_word tab → Trim (chars_string tab) = chars_string tab.
Proof.
  intros [_ H]. unfold Trim, trim_chars. rewrite string_chars_string.
  assert (Forall (λ c, trim_char c = false) tab) as Ht
    by (eapply Forall_impl; [exact H|exact ident_char_not_trim]).
  rewrite (drop_while_none _ tab) by done. rewrite drop_while_none by (by apply Forall_rev).
  by rewrite rev_involutive.
Qed.

(** A subscription made of the parts of a query. *)
Definition from_query (s : SqlSubscription) (sel tab : chars) (cond : option chars) : Prop :=
  is_active s = true ∧ table_name s = chars_string tab ∧
  sub_type s = (if decide (Trim (chars_string sel) = "*") then SELECT_ALL else SELECT_COLUMNS) ∧
  columns s = (if decide (Trim (chars_string sel) = "*") then []
               else ParseColumns (Trim (chars_string sel))) ∧
  match where_clause s, predicate s with
  | None, None => Trim (chars_string (default [] cond)) = ""
  | Some w, Some p => w = Trim (chars_string (default [] cond)) ∧ w ≠ "" ∧
      Predicate.Parse w = Some (Parsed p)
  | _, _ => False
  end.

Lemma Parse_from_query q i c s :
  Parse q i c = Some s →
  ∃ sel tab cond, query_shape (trim_chars (string_chars q)) sel tab cond ∧
    id s = i ∧ client_id s = c ∧ from_query s sel tab cond.
Proof.
  unfold Parse. rewrite compile_select. cbn [mbind option_bind].
  destruct (regex_match true select_regex (Trim q)) as [caps|] eqn:Em; [|done]. cbn [mbind option_bind].
  apply select_match in Em as (sel & tab & cond & Hq & E1 & E2 & E3).
  unfold Trim in Hq at 1. rewrite string_chars_string in Hq.
  assert (table_word tab) as Htab by (by destruct Hq as (?&?&?&?&?&?&?&?&?&?&?&?&?&?&?)).
  unfold group_str. rewrite E1, E2. cbn [from_option Datatypes.id].
  set (w := if caps !! 3%nat is Some _ then _ else "").
  assert (w = Trim (chars_string (default [] cond))) as Ew.
  { unfold w. destruct cond as [cd|]; [|by rewrite E3]. destruct E3 as [[x Ex] E3].
    by rewrite Ex, E3. }
  intros H. exists sel, tab, cond. split; [done|]. unfold from_query. rewrite <- Ew.
  rewrite (trim_word tab Htab) in H.
  clearbody w. case_decide as Hw; [injection H as <-; by split_and!|].
  destruct (compile_predicate w) as [p|] eqn:Ep; [|done]. injection H as <-.
  unfold compile_predicate in Ep.
  destruct (Predicate.Parse w) as [[n|]|] eqn:EP; [|done..]. injection Ep as ->. by split_and!.
Qed.

(** Subscription queries.  Every accepted query has the form SELECT list
    FROM table [WHERE condition], keywords in any case, after trimming; the
    subscription made of it is active, on exactly that table (a non-empty word),
    for all columns when the list is a star and else for its trimmed
    comma-separated parts, with the predicate the condition parses to.  In
    particular a WHERE clause that does not parse rejects the query: it never
    becomes a subscription that matches everything. *)
Theorem Parse_sound (query subscription_id client : string) :
  match Parse query subscription_id client with
  | None => True
  | Some s =>
      id s = subscription_id ∧ client_id s = client ∧ table_name s ≠ "" ∧ sub_type s ≠ ALL_TABLES ∧
      ∃ sel tab cond, query_shape (trim_chars (string_chars query)) sel tab cond ∧
        from_query s sel tab cond
  end.
Proof.
  destruct (Parse query subscription_id client) as [s|] eqn:E; [|done].
  apply Parse_from_query in E as (sel & tab & cond & Hq & Hi & Hc & Hs).
  split_and!; [done|done| | |by eauto].
  - destruct Hq as (?&?&?&?&?&?&?&?&?&?&?&?&?&[Ht _]&?). destruct Hs as (_ & -> & _).
    by destruct tab.
  - destruct Hs as (_ & _ & -> & _). by case_decide.
Qed.
