(* ===== verification/SqlSubManager.v ===== *)
(** * The registry of SQL subscriptions keeps its index right

    The invariant that ties the routing index and the per-client lists to the
    registered subscriptions, the abstract registry without any index, and the
    proof that the manager of [SqlSub] implements it after any calls. *)

From Stdlib Require Import Strings.Ascii.
From S2P Require Import Prelude Json Regex Predicate Changefeed SqlSub SqlSubParse.

(** ** The abstract registry *)

(** The registered subscriptions and the next number of an identifier; events
    are matched against every subscription. *)
Record Registry := { registered : gmap string SqlSubscription; next_number : Z }.

Inductive call :=
| CSubscribe (client sql_query : string)
| CSubscribeAll (client : string)
| CUnsubscribe (subscription_id : string)
| CUnsubscribeAll (client : string).

Definition all_tables (i client : string) : SqlSubscription :=
  {| id := i; client_id := client; sub_type := ALL_TABLES; table_name := ""; columns := [];
     where_clause := None; predicate := None; is_active := true |}.

Definition spec_call (r : Registry) (c : call) : Registry :=
  let i := subscription_name (next_number r) in
  match c with
  | CSubscribe client q =>
      {| registered := match Parse q i client with
                       | Some s => <[i := s]> (registered r) | None => registered r end;
         next_number := next_number r + 1 |}
  | CSubscribeAll client =>
      {| registered := <[i := all_tables i client]> (registered r); next_number := next_number r + 1 |}
  | CUnsubscribe i => {| registered := delete i (registered r); next_number := next_number r |}
  | CUnsubscribeAll client =>
      {| registered := filter (λ kv, client_id kv.2 ≠ client) (registered r);
         next_number := next_number r |}
  end.

Definition manager_call (m : Manager) (c : call) : Manager :=
  match c with
  | CSubscribe client q => (Subscribe client q m).1
  | CSubscribeAll client => (SubscribeToAllTables client m).1
  | CUnsubscribe i => Unsubscribe i m
  | CUnsubscribeAll client => UnsubscribeAll client m
  end.

Definition new_Registry : Registry := {| registered := ∅; next_number := 1 |}.
Definition spec_run (calls : list call) : Registry := fold_left spec_call calls new_Registry.
Definition manager_run (calls : list call) : Manager := fold_left manager_call calls new_Manager.

(** ** The invariant *)

(** [X] indexes the subscriptions that satisfy [Q]. *)
Definition indexes (subs : gmap string SqlSubscription) (X : string → Prop)
    (Q : SqlSubscription → Prop) : Prop :=
  ∀ i, X i ↔ ∃ s, subs !! i = Some s ∧ Q s.

(** Registered subscriptions carry their key as identifier, drawn before
    [next]; they are active, and name a table unless they are catch-alls. *)
Record subs_ok (subs : gmap string SqlSubscription) (next : Z) : Prop := {
  ok_id i s : subs !! i = Some s → id s = i;
  ok_fresh i s : subs !! i = Some s → ∃ n, 1 <= n < next ∧ i = subscription_name n;
  ok_named i s : subs !! i = Some s → sub_type s ≠ ALL_TABLES → table_name s ≠ "";
  ok_active i s : subs !! i = Some s → is_active s = true
}.

(** The routing index. *)
Record index_ok (subs : gmap string SqlSubscription) (tables : gmap string (gset string))
    (all : gset string) : Prop := {
  ok_table t : indexes subs (.∈ default ∅ (tables !! t))
    (λ s, sub_type s ≠ ALL_TABLES ∧ table_name s = t);
  ok_table_ne t : tables !! t ≠ Some ∅;
  ok_all : indexes subs (.∈ all) (λ s, sub_type s = ALL_TABLES)
}.

(** The identifiers of each client. *)
Record clients_ok (subs : gmap string SqlSubscription) (clients : gmap string (list string)) : Prop := {
  ok_client c : indexes subs (.∈ default [] (clients !! c)) (λ s, client_id s = c);
  ok_nodup c : NoDup (default [] (clients !! c));
  ok_client_ne c : clients !! c ≠ Some []
}.

Record wf (m : Manager) : Prop := {
  wf_next : 1 <= next_subscription_id_ m;
  wf_subs : subs_ok (subscriptions_ m) (next_subscription_id_ m);
  wf_index : index_ok (subscriptions_ m) (table_index_ m) (all_tables_index_ m);
  wf_clients : clients_ok (subscriptions_ m) (client_subscriptions_ m)
}.

Lemma new_wf : wf new_Manager.
Proof.
  split; [done|split..]; simpl; unfold indexes; intros; simplify_map_eq; try set_solver. apply NoDup_nil_2.
Qed.

(** *** Changes of an index *)

Lemma indexes_insert subs X Y Q i s :
  indexes subs X Q → subs !! i = None → (∀ j, Y j ↔ (j = i ∧ Q s) ∨ X j) →
  indexes (<[i := s]> subs) Y Q.
Proof.
  intros HX Hi HY j. rewrite HY, (HX j). split.
  - intros [[-> ?]|(s' & ? & ?)]; [exists s; by simplify_map_eq|].
    exists s'. by rewrite lookup_insert_ne by congruence.
  - intros (s' & Hs' & ?). apply lookup_insert_Some in Hs' as [[-> ->]|[? ?]]; eauto.
Qed.

Lemma indexes_delete subs X Y Q i :
  indexes subs X Q → (∀ j, Y j ↔ j ≠ i ∧ X j) → indexes (delete i subs) Y Q.
Proof.
  intros HX HY j. rewrite HY, (HX j). split.
  - intros (? & s & ? & ?). exists s. by rewrite lookup_delete_ne by congruence.
  - intros (s & [? ?]%lookup_delete_Some & ?). split; [congruence|eauto].
Qed.

Lemma subscription_name_inj n k : subscription_name n = subscription_name k → n = k.
Proof. unfold subscription_name. intros E. by apply (inj (String.app "sql_sub_")), (inj pretty) in E. Qed.

(** *** Registering *)

Lemma subs_ok_insert subs next s :
  subs_ok subs next → (∃ n, 1 <= n < next ∧ id s = subscription_name n) →
  (sub_type s ≠ ALL_TABLES → table_name s ≠ "") → is_active s = true →
  subs_ok (<[id s := s]> subs) next.
Proof. intros [] ? ? ?. split; intros i s' [[<- <-]|[_ Hs]]%lookup_insert_Some; eauto. Qed.

Lemma index_ok_insert m s :
  index_ok (subscriptions_ m) (table_index_ m) (all_tables_index_ m) → subscriptions_ m !! id s = None →
  index_ok (<[id s := s]> (subscriptions_ m))
    (table_index_ (IndexSubscription s m)) (all_tables_index_ (IndexSubscription s m)).
Proof.
  intros [Ht Hne Ha] Hi. unfold IndexSubscription. case_decide as E; split; simpl; try done.
  - intros t. eapply indexes_insert; [apply Ht|done|]. intros j. simpl. naive_solver.
  - eapply indexes_insert; [apply Ha|done|]. intros j. simpl. set_solver.
  - intros t. eapply indexes_insert; [apply Ht|done|]. intros j. simpl.
    destruct (decide (t = table_name s)) as [->|]; simplify_map_eq; simpl; set_solver.
  - intros t. destruct (decide (t = table_name s)) as [->|]; simplify_map_eq; [|done].
    intros [= H]. set_solver.
  - eapply indexes_insert; [apply Ha|done|]. intros j. simpl. naive_solver.
Qed.

Lemma clients_ok_insert subs clients s :
  clients_ok subs clients → subs !! id s = None →
  clients_ok (<[id s := s]> subs)
    (<[client_id s := default [] (clients !! client_id s) ++ [id s]]> clients).
Proof.
  intros [Hc Hn Hne] Hi. split; intros c.
  - eapply indexes_insert; [apply Hc|done|]. intros j. simpl.
    destruct (decide (c = client_id s)) as [->|]; simplify_map_eq; simpl; set_solver.
  - destruct (decide (c = client_id s)) as [->|]; simplify_map_eq; simpl; [|done].
    apply NoDup_app. split; [done|]. split; [|apply NoDup_singleton].
    intros j Hj ->%list_elem_of_singleton. apply Hc in Hj as (? & ? & _). congruence.
  - destruct (decide (c = client_id s)) as [->|]; simplify_map_eq; [|done].
    intros [= []%app_eq_nil]. done.
Qed.

(** *** Removing *)

Lemma subs_ok_delete subs next i : subs_ok subs next → subs_ok (delete i subs) next.
Proof. intros []. split; intros j s [_ Hs]%lookup_delete_Some; eauto. Qed.

Lemma index_ok_delete m s :
  index_ok (subscriptions_ m) (table_index_ m) (all_tables_index_ m) →
  subscriptions_ m !! id s = Some s →
  index_ok (delete (id s) (subscriptions_ m))
    (table_index_ (UnindexSubscription s m)) (all_tables_index_ (UnindexSubscription s m)).
Proof.
  intros [Ht Hne Ha] Hi. unfold UnindexSubscription.
  assert (∀ t, table_name s ≠ t ∨ sub_type s = ALL_TABLES → id s ∉ default ∅ (table_index_ m !! t)) as Hnt.
  { intros t Hor (s' & ? & ? & ?)%Ht. naive_solver. }
  assert (sub_type s ≠ ALL_TABLES → id s ∉ all_tables_index_ m) as Hna.
  { intros ? (s' & ? & ?)%Ha. naive_solver. }
  case_decide as E.
  { split; simpl; [|done|].
    - intros t. eapply indexes_delete; [apply Ht|]. intros j. specialize (Hnt t). simpl. naive_solver.
    - eapply indexes_delete; [apply Ha|]. intros j. simpl. set_solver. }
  destruct (table_index_ m !! table_name s) as [ids|] eqn:Eids.
  - split; simpl.
    + intros t. eapply indexes_delete; [apply Ht|]. intros j. specialize (Hnt t). simpl.
      destruct (decide (t = table_name s)) as [->|]; case_decide; simplify_map_eq; simpl; set_solver.
    + intros t. destruct (decide (t = table_name s)) as [->|]; case_decide; simplify_map_eq; first [done|congruence].
    + eapply indexes_delete; [apply Ha|]. intros j. simpl. set_solver.
  - exfalso. assert (id s ∈ default ∅ (table_index_ m !! table_name s)) as Hin by (apply Ht; eauto).
    rewrite Eids in Hin. set_solver.
Qed.

Lemma clients_ok_delete subs clients s :
  clients_ok subs clients → subs !! id s = Some s →
  clients_ok (delete (id s) subs)
    (let rest := filter (λ x, x ≠ id s) (default [] (clients !! client_id s)) in
     if decide (rest = []) then delete (client_id s) clients else <[client_id s := rest]> clients).
Proof.
  intros [Hc Hn Hne] Hi. cbv zeta.
  assert (∀ c, default [] ((if decide (filter (λ x, x ≠ id s) (default [] (clients !! client_id s)) = [])
     then delete (client_id s) clients
     else <[client_id s := filter (λ x, x ≠ id s) (default [] (clients !! client_id s))]> clients) !! c)
    = if decide (c = client_id s) then filter (λ x, x ≠ id s) (default [] (clients !! client_id s))
      else default [] (clients !! c)) as Hlook.
  { intros c. destruct (decide (c = client_id s)) as [->|]; case_decide as E; by simplify_map_eq. }
  split; intros c.
  - eapply indexes_delete; [apply Hc|]. intros j. simpl. rewrite Hlook.
    destruct (decide (c = client_id s)) as [->|]; [by rewrite list_elem_of_filter|].
    split; [|naive_solver]. intros Hj. split; [|done]. intros ->.
    apply Hc in Hj as (s' & ? & ?). congruence.
  - rewrite Hlook. destruct (decide (c = client_id s)); [by apply NoDup_filter|done].
  - destruct (decide (c = client_id s)) as [->|]; case_decide as E; simplify_map_eq; [done|congruence|done..].
Qed.

(** ** The calls *)

Lemma subs_ok_mono subs n n' : subs_ok subs n → n <= n' → subs_ok subs n'.
Proof.
  intros [] ?. split; eauto. intros i s Hs.
  destruct (ok_fresh0 _ _ Hs) as (k & ? & ?). exists k. split; [lia|done].
Qed.

Lemma fresh_name m : wf m → subscriptions_ m !! subscription_name (next_subscription_id_ m) = None.
Proof.
  intros Hm. destruct (subscriptions_ m !! _) as [s|] eqn:E; [|done].
  apply (ok_fresh _ _ (wf_subs _ Hm)) in E as (n & ? & E%subscription_name_inj). lia.
Qed.

Lemma IndexSubscription_subs s m :
  subscriptions_ (IndexSubscription s m) = subscriptions_ m ∧
  client_subscriptions_ (IndexSubscription s m) = client_subscriptions_ m ∧
  next_subscription_id_ (IndexSubscription s m) = next_subscription_id_ m.
Proof. unfold IndexSubscription. by case_decide. Qed.

Lemma UnindexSubscription_subs s m :
  subscriptions_ (UnindexSubscription s m) = subscriptions_ m ∧
  client_subscriptions_ (UnindexSubscription s m) = client_subscriptions_ m ∧
  next_subscription_id_ (UnindexSubscription s m) = next_subscription_id_ m.
Proof.
  unfold UnindexSubscription. case_decide; [done|]. by destruct (table_index_ m !! table_name s).
Qed.

(** Registering a new subscription under the identifier just drawn. *)
Lemma store_ok m s :
  wf m → next_subscription_id_ m + 1 < 2 ^ 64 → id s = subscription_name (next_subscription_id_ m) →
  (sub_type s ≠ ALL_TABLES → table_name s ≠ "") → is_active s = true →
  let m' := store_subscription s (GenerateSubscriptionId m).2 in
  wf m' ∧ subscriptions_ m' = <[id s := s]> (subscriptions_ m) ∧
  next_subscription_id_ m' = next_subscription_id_ m + 1.
Proof.
  intros Hm Hlt Hi Hn Ha. pose proof (fresh_name m Hm) as Hf. rewrite <- Hi in Hf.
  destruct Hm as [H1 Hs Hx Hc].
  set (m0 := (GenerateSubscriptionId m).2).
  assert (Hu : next_subscription_id_ m0 = next_subscription_id_ m + 1)
    by (simpl; apply u64_small; unfold is_u; lia).
  destruct (IndexSubscription_subs s m0) as (E1 & E2 & E3).
  pose proof (index_ok_insert m0 s Hx Hf) as Hx'.
  unfold store_subscription. rewrite E1. split; [|split; [done|by simpl; rewrite E3]].
  split; simpl; rewrite ?E2, ?E3, ?Hu.
  - lia.
  - apply subs_ok_insert; [|by eexists (next_subscription_id_ m); split; [lia|]|done..].
    eapply subs_ok_mono; [exact Hs|lia].
  - done.
  - by apply clients_ok_insert.
Qed.

(** Removal from the registry and the index, as both ways to unsubscribe do. *)
Lemma remove_one_ok m i :
  subs_ok (subscriptions_ m) (next_subscription_id_ m) →
  index_ok (subscriptions_ m) (table_index_ m) (all_tables_index_ m) →
  let m' := remove_one m i in
  index_ok (subscriptions_ m') (table_index_ m') (all_tables_index_ m') ∧
  subscriptions_ m' = delete i (subscriptions_ m) ∧
  client_subscriptions_ m' = client_subscriptions_ m ∧
  next_subscription_id_ m' = next_subscription_id_ m.
Proof.
  intros Hs Hx. unfold remove_one. destruct (subscriptions_ m !! i) as [s|] eqn:E.
  - destruct (UnindexSubscription_subs s m) as (E1 & E2 & E3). simpl. rewrite E1, E2, E3.
    pose proof (ok_id _ _ Hs _ _ E) as <-. split; [by apply index_ok_delete|done].
  - rewrite delete_id by done. done.
Qed.

Lemma remove_fold_ok ids m :
  subs_ok (subscriptions_ m) (next_subscription_id_ m) →
  index_ok (subscriptions_ m) (table_index_ m) (all_tables_index_ m) →
  let m' := fold_left remove_one ids m in
  index_ok (subscriptions_ m') (table_index_ m') (all_tables_index_ m') ∧
  subs_ok (subscriptions_ m') (next_subscription_id_ m') ∧
  subscriptions_ m' = filter (λ kv, kv.1 ∉ ids) (subscriptions_ m) ∧
  client_subscriptions_ m' = client_subscriptions_ m ∧
  next_subscription_id_ m' = next_subscription_id_ m.
Proof.
  revert m. induction ids as [|i ids IH]; intros m Hs Hx; cbn [fold_left].
  - split_and!; try done. symmetry. apply map_filter_id. intros. apply not_elem_of_nil.
  - destruct (remove_one_ok m i Hs Hx) as (Hx' & E1 & E2 & E3).
    assert (subs_ok (subscriptions_ (remove_one m i)) (next_subscription_id_ (remove_one m i))) as Hs'.
    { rewrite E1, E3. by apply subs_ok_delete. }
    destruct (IH _ Hs' Hx') as (? & ? & E4 & E5 & E6).
    split_and!; [done|done| |by rewrite E5|by rewrite E6].
    rewrite E4, E1. apply map_eq. intros j. apply option_eq. intros s.
    rewrite !map_lookup_filter_Some, lookup_delete_Some. simpl. set_solver.
Qed.

Lemma Unsubscribe_remove m i :
  subs_ok (subscriptions_ m) (next_subscription_id_ m) →
  Unsubscribe i m = match subscriptions_ m !! i with
  | None => m
  | Some s =>
      let rest := filter (λ x, x ≠ id s) (default [] (client_subscriptions_ m !! client_id s)) in
      set_clients (if decide (rest = []) then delete (client_id s) (client_subscriptions_ m)
                   else <[client_id s := rest]> (client_subscriptions_ m)) (remove_one m i)
  end.
Proof.
  intros Hs. unfold Unsubscribe, remove_one. destruct (subscriptions_ m !! i) as [s|] eqn:E; [|done].
  simpl. destruct (UnindexSubscription_subs s m) as (_ & -> & _).
  by rewrite (ok_id _ _ Hs _ _ E).
Qed.

Definition abstract (m : Manager) : Registry :=
  {| registered := subscriptions_ m; next_number := next_subscription_id_ m |}.

Lemma Unsubscribe_ok m i :
  wf m → wf (Unsubscribe i m) ∧ abstract (Unsubscribe i m) = spec_call (abstract m) (CUnsubscribe i).
Proof.
  intros [H1 Hs Hx Hc]. rewrite Unsubscribe_remove by done. unfold abstract. simpl.
  destruct (subscriptions_ m !! i) as [s|] eqn:E; [|by rewrite delete_id].
  destruct (remove_one_ok m i Hs Hx) as (Hx' & E1 & E2 & E3). simpl. rewrite E1, E3.
  split; [|done]. pose proof (ok_id _ _ Hs _ _ E) as Ei.
  split; simpl; rewrite ?E3, ?E1; [done|by apply subs_ok_delete|by rewrite <- E1|].
  rewrite <- Ei. apply clients_ok_delete; [done|by rewrite Ei].
Qed.

Lemma client_iff subs clients c i :
  clients_ok subs clients → i ∈ default [] (clients !! c) ↔ ∃ s, subs !! i = Some s ∧ client_id s = c.
Proof. intros H. apply (ok_client _ _ H c i). Qed.

Lemma UnsubscribeAll_ok m c :
  wf m → wf (UnsubscribeAll c m) ∧ abstract (UnsubscribeAll c m) = spec_call (abstract m) (CUnsubscribeAll c).
Proof.
  intros Hm. pose proof Hm as [H1 Hs Hx Hc]. unfold UnsubscribeAll, abstract. simpl.
  set (ids := client_subscriptions_ m !! c).
  assert (∀ i s, subscriptions_ m !! i = Some s → client_id s = c ↔ i ∈ default [] ids) as Hids.
  { intros i s E. unfold ids. rewrite (client_iff _ _ c i Hc). naive_solver. }
  destruct ids as [l|]; simpl in Hids.
  - destruct (remove_fold_ok l m Hs Hx) as (Hx' & Hs' & E1 & E2 & E3). simpl. rewrite E1, E3.
    assert (filter (λ kv, kv.1 ∉ l) (subscriptions_ m)
      = filter (λ kv, client_id kv.2 ≠ c) (subscriptions_ m)) as Ef.
    { apply map_filter_ext. intros i s E. simpl. by rewrite (Hids _ _ E). }
    rewrite Ef. split; [|done]. split; simpl; rewrite ?E3; [done|by rewrite <- E3|done|].
    rewrite E1, Ef, E2. split; intros d.
    + intros i. destruct (decide (d = c)) as [->|Hd]; simplify_map_eq; simpl.
      * split; [by intros ?%not_elem_of_nil|]. intros (s & [? ?]%map_lookup_filter_Some & ?). done.
      * rewrite (client_iff _ _ d i Hc). setoid_rewrite map_lookup_filter_Some. naive_solver.
    + destruct (decide (d = c)) as [->|Hd]; simplify_map_eq; [apply NoDup_nil_2|apply Hc].
    + destruct (decide (d = c)) as [->|Hd]; simplify_map_eq; [done|apply Hc].
  - split; [done|]. f_equal. symmetry. apply map_filter_id. intros i s E. simpl.
    rewrite (Hids _ _ E). apply not_elem_of_nil.
Qed.

(** One call: the invariant is kept and the abstract registry follows. *)
Lemma manager_call_ok m c :
  wf m → next_subscription_id_ m + 1 < 2 ^ 64 →
  wf (manager_call m c) ∧ abstract (manager_call m c) = spec_call (abstract m) c.
Proof.
  intros Hm Hlt. destruct c as [client q|client|i|client]; simpl.
  - unfold Subscribe. simpl. pose proof (Parse_from_query q (subscription_name (next_subscription_id_ m)) client) as HP.
    destruct (Parse q _ client) as [s|].
    + destruct (HP s eq_refl) as (sel & tab & cond & Hq & Hi & _ & Ha & Ht & _).
      destruct (store_ok m s Hm Hlt Hi) as (? & E1 & E2); [|done|].
      * intros _. rewrite Ht. destruct Hq as (?&?&?&?&?&?&?&?&?&?&?&?&?&[Hne _]&?). by destruct tab.
      * split; [done|]. unfold abstract. simpl in *. by rewrite E1, E2, Hi.
    + destruct Hm as [H1 Hs Hx Hc]. unfold abstract. simpl.
      assert (u64 (next_subscription_id_ m + 1) = next_subscription_id_ m + 1) as Eu
        by (apply u64_small; unfold is_u; lia).
      split; [|by rewrite Eu]. split; simpl; [lia| |done|done]. eapply subs_ok_mono; [exact Hs|lia].
  - destruct (store_ok m (all_tables (subscription_name (next_subscription_id_ m)) client) Hm Hlt)
      as (? & E1 & E2); [done..|]. split; [done|]. unfold abstract. f_equal; first [exact E1|exact E2].
  - by apply Unsubscribe_ok.
  - by apply UnsubscribeAll_ok.
Qed.

Lemma manager_run_ok calls m :
  wf m → next_subscription_id_ m + zlength calls < 2 ^ 64 →
  wf (fold_left manager_call calls m) ∧
  abstract (fold_left manager_call calls m) = fold_left spec_call calls (abstract m).
Proof.
  revert m. induction calls as [|c calls IH]; intros m Hm Hlt; simpl; [done|].
  unfold zlength in *. simpl in Hlt.
  destruct (manager_call_ok m c Hm) as [Hm' E]; [lia|]. rewrite <- E. apply IH; [done|].
  assert (next_subscription_id_ (manager_call m c) <= next_subscription_id_ m + 1); [|lia].
  change (next_number (abstract (manager_call m c)) <= next_subscription_id_ m + 1).
  rewrite E. destruct c; simpl; lia.
Qed.

(** ** What clients observe *)

Section observe.
Context `{HO : HashOrder} `{JL : JsonLib}.

(** Every registered subscription is matched against the event. *)
Definition spec_deliver (event : ChangefeedEvent) (r : Registry) : list (string * ChangefeedEvent) :=
  omap (λ kv, if MatchesEvent kv.2 event then Some (client_id kv.2, FilterEvent kv.2 event) else None)
    (map_to_list (registered r)).

Definition spec_client (c : string) (r : Registry) : list SqlSubscription :=
  filter (λ s, client_id s = c) (map_to_list (registered r)).*2.

Definition count (f : SqlSubscription → bool) (r : Registry) : Z :=
  Z.of_nat (length (filter (λ s, f s = true) (map_to_list (registered r)).*2)).

Lemma set_iter_elements X : set_iter X ≡ₚ elements X.
Proof.
  unfold set_iter. apply NoDup_Permutation; [apply hash_iter_NoDup|apply NoDup_elements|].
  intros x. rewrite elem_of_elements, list_elem_of_fmap. split.
  - intros ([y []] & -> & Hy%elem_of_hash_iter). by apply lookup_gset_to_gmap_Some in Hy as [? _].
  - intros Hx. exists (x, ()). split; [done|]. apply elem_of_hash_iter.
    by apply lookup_gset_to_gmap_Some.
Qed.

(** Two lists that agree where [f] is defined give the same results. *)
Lemma omap_permutation {A B} `{EqDecision A} (f : A → option B) (l1 l2 : list A) :
  NoDup l1 → NoDup l2 → (∀ x, is_Some (f x) → x ∈ l1 ↔ x ∈ l2) → omap f l1 ≡ₚ omap f l2.
Proof.
  intros H1 H2 Hf.
  assert (∀ l : list A, omap f l = omap f (filter (λ x, is_Some (f x)) l)) as Hfil.
  { induction l as [|x l IH]; [done|]. destruct (f x) eqn:E.
    - rewrite filter_cons_True by (by eexists). simpl. rewrite E. f_equal. exact IH.
    - rewrite filter_cons_False by (rewrite E; by intros []). simpl. rewrite E. exact IH. }
  rewrite (Hfil l1), (Hfil l2). apply omap_Permutation.
  apply NoDup_Permutation; [by apply NoDup_filter..|]. intros x. rewrite !list_elem_of_filter. naive_solver.
Qed.

Lemma omap_list_fmap {A B C} (f : B → option C) (g : A → B) (l : list A) : omap f (g <$> l) = omap (f ∘ g) l.
Proof. induction l as [|x l IH]; simpl; [done|]. destruct (f (g x)); [f_equal|]; exact IH. Qed.

Lemma omap_ext_elem {A B} (f g : A → option B) (l : list A) : (∀ x, x ∈ l → f x = g x) → omap f l = omap g l.
Proof.
  induction l as [|x l IH]; intros H; simpl; [done|]. rewrite (H x) by set_solver.
  assert (omap f l = omap g l) as E by (apply IH; set_solver). destruct (g x); [f_equal|]; exact E.
Qed.

(** Routing by the index reaches the same subscriptions as the full scan. *)
Lemma ProcessEvent_scan m event : wf m → ProcessEvent event m ≡ₚ spec_deliver event (abstract m).
Proof.
  intros [_ Hs Hx _]. unfold ProcessEvent, spec_deliver. rewrite <- omap_app.
  set (f := evaluate m event _ _).
  assert (omap (λ kv, if MatchesEvent kv.2 event then Some (client_id kv.2, FilterEvent kv.2 event) else None)
      (map_to_list (registered (abstract m))) = omap f (map_to_list (subscriptions_ m)).*1) as ->.
  { rewrite omap_list_fmap. apply omap_ext_elem. intros [i s] Hi%elem_of_map_to_list. simpl.
    unfold f, evaluate. by rewrite Hi. }
  rewrite !set_iter_elements. apply omap_permutation; [|apply NoDup_fst_map_to_list|].
  - apply NoDup_app. split; [apply NoDup_elements|]. split; [|apply NoDup_elements].
    intros i Hi Ha. apply elem_of_elements in Hi, Ha.
    apply (ok_table _ _ _ Hx) in Hi as (s & ? & ? & _). apply (ok_all _ _ _ Hx) in Ha as (s' & ? & ?).
    congruence.
  - intros i [r Hr]. unfold f, evaluate in Hr.
    destruct (subscriptions_ m !! i) as [s|] eqn:Ei; simplify_eq/=.
    rewrite elem_of_app, !elem_of_elements. split; intros _.
    + apply list_elem_of_fmap. exists (i, s). by rewrite elem_of_map_to_list.
    + destruct (decide (sub_type s = ALL_TABLES)) as [E|E].
      * right. apply (ok_all _ _ _ Hx). eauto.
      * left. apply (ok_table _ _ _ Hx (ev_table event)). exists s. split; [done|]. split; [done|].
        unfold MatchesEvent_parsed in Hr. rewrite (decide_False (P := sub_type s = ALL_TABLES)) in Hr by done.
        destruct (negb (is_active s)); [done|]. case_decide as Ht; [done|].
        pose proof (ok_named _ _ Hs _ _ Ei E). destruct (decide (table_name s = ev_table event)); naive_solver.
Qed.
Lemma GetClientSubscriptions_scan m c :
  wf m → GetClientSubscriptions c m ≡ₚ spec_client c (abstract m).
Proof.
  intros [_ Hs _ Hc]. unfold GetClientSubscriptions, spec_client.
  set (g i := s ← subscriptions_ m !! i; if decide (client_id s = c) then Some s else None).
  assert (omap (λ i, subscriptions_ m !! i) (default [] (client_subscriptions_ m !! c))
    = omap g (default [] (client_subscriptions_ m !! c))) as ->.
  { apply omap_ext_elem. intros i (s & E & Ec)%(client_iff _ _ c i Hc). unfold g.
    rewrite E. simpl. by rewrite decide_True. }
  assert (filter (λ s, client_id s = c) (map_to_list (registered (abstract m))).*2
    = omap g (map_to_list (subscriptions_ m)).*1) as ->.
  { rewrite omap_list_fmap. simpl.
    assert (∀ l, (∀ kv, kv ∈ l → subscriptions_ m !! kv.1 = Some kv.2) →
      filter (λ s, client_id s = c) l.*2 = omap (g ∘ fst) l) as H.
    { induction l as [|[i s] l IH]; intros Hl; [done|]. csimpl.
      assert (g i = if decide (client_id s = c) then Some s else None) as ->
        by (unfold g; assert (subscriptions_ m !! i = Some s) as -> by (apply (Hl (i, s)); set_solver); done).
      assert (filter (λ s, client_id s = c) l.*2 = omap (g ∘ fst) l) as E by (apply IH; set_solver).
      case_decide; [rewrite filter_cons_True by done; f_equal|rewrite filter_cons_False by done]; exact E. }
    apply H. by intros [i s] ?%elem_of_map_to_list. }
  apply omap_permutation; [apply Hc|apply NoDup_fst_map_to_list|].
  intros i [s Hi]. unfold g in Hi. destruct (subscriptions_ m !! i) as [s'|] eqn:Ei; simplify_eq/=.
  case_decide as E; simplify_eq. rewrite (client_iff _ _ _ i Hc). split; intros _; [|by eauto].
  apply list_elem_of_fmap. exists (i, s). by rewrite elem_of_map_to_list.
Qed.

(** The subscriptions [GetStats] counts for a table. *)
Definition on_table (t : string) (s : SqlSubscription) : bool :=
  negb (bool_decide (sub_type s = ALL_TABLES)) && bool_decide (table_name s = t) && negb (bool_decide (t = "")).
Definition catch_all (s : SqlSubscription) : bool := bool_decide (sub_type s = ALL_TABLES).

Definition count_list (f : SqlSubscription → bool) (l : list SqlSubscription) : Z :=
  Z.of_nat (length (filter (λ s, f s = true) l)).

Lemma count_list_cons f s l : count_list f (s :: l) = (if f s then 1 else 0) + count_list f l.
Proof. unfold count_list. rewrite filter_cons. case_decide as E; [rewrite E|destruct (f s)]; simpl; lia || done. Qed.

Lemma count_fold l st :
  let st' := fold_left count_subscription l st in
  total_subscriptions st' = total_subscriptions st ∧
  active_subscriptions st' = active_subscriptions st + count_list is_active l ∧
  catch_all_subscriptions st' = catch_all_subscriptions st + count_list catch_all l ∧
  ∀ t, default 0 (subscriptions_per_table st' !! t)
       = default 0 (subscriptions_per_table st !! t) + count_list (on_table t) l.
Proof.
  revert st. induction l as [|s l IH]; intros st; cbn [fold_left].
  - unfold count_list. simpl. split_and!; [done|lia|lia|]. intros t. lia.
  - destruct (IH (count_subscription st s)) as (E1 & E2 & E3 & E4). cbv zeta in *.
    rewrite E1, E2, E3. setoid_rewrite E4. rewrite !count_list_cons.
    unfold count_subscription, catch_all. split_and!.
    + by case_decide.
    + case_decide; simpl; destruct (is_active s); lia.
    + case_decide as E; simpl; [rewrite bool_decide_eq_true_2 by done|rewrite bool_decide_eq_false_2 by done]; lia.
    + intros t. rewrite count_list_cons. unfold on_table at 2.
      case_decide as E; simpl; [by rewrite bool_decide_eq_true_2 by done|].
      destruct (decide (table_name s = t)) as [<-|Ht]; case_decide as En; simplify_map_eq; simpl;
        repeat case_bool_decide; simpl; first [lia|congruence].
Qed.

Lemma GetStats_scan m :
  total_subscriptions (GetStats m) = count (λ _, true) (abstract m) ∧
  active_subscriptions (GetStats m) = count is_active (abstract m) ∧
  catch_all_subscriptions (GetStats m) = count catch_all (abstract m) ∧
  ∀ t, default 0 (subscriptions_per_table (GetStats m) !! t) = count (on_table t) (abstract m).
Proof.
  unfold GetStats.
  destruct (count_fold (hash_iter (subscriptions_ m)).*2
    {| total_subscriptions := Z.of_nat (size (subscriptions_ m)); active_subscriptions := 0;
       catch_all_subscriptions := 0; subscriptions_per_table := ∅ |}) as (E1 & E2 & E3 & E4).
  cbv zeta in *. rewrite E1, E2, E3. setoid_rewrite E4. clear. cbn [total_subscriptions active_subscriptions
    catch_all_subscriptions subscriptions_per_table].
  assert (∀ f, count_list f (hash_iter (subscriptions_ m)).*2 = count f (abstract m)) as Hc.
  { intros f. unfold count_list, count. f_equal.
    apply Permutation_length. by rewrite hash_iter_perm. }
  rewrite !Hc. split_and!; [|lia|lia|intros t; rewrite lookup_empty; simpl; rewrite Hc; lia].
  unfold count. rewrite list_filter_all by (by apply Forall_true). simpl.
  by rewrite length_fmap, length_map_to_list.
Qed.

(** C26.  The subscription manager refines a registry without indexes.  After any
    sequence of fewer than 2^64 - 1 calls (subscribe by query, accepted or not,
    subscribe to all tables, unsubscribe, drop a client), it holds the same
    subscriptions as the plain registry, and answers the same: an event reaches
    exactly the subscriptions that match it, each once and with the event
    projected for it, although only the event's table and the catch-alls are
    looked at; a client's list holds exactly its subscriptions; the statistics
    are the counts.  Only the order may differ. *)
Theorem manager_refines_registry (calls : list call) (Hlen : zlength calls < 2 ^ 64 - 1) :
  let m := manager_run calls in
  let r := spec_run calls in
  subscriptions_ m = registered r ∧
  (∀ event, ProcessEvent event m ≡ₚ spec_deliver event r) ∧
  (∀ c, GetClientSubscriptions c m ≡ₚ spec_client c r) ∧
  total_subscriptions (GetStats m) = count (λ _, true) r ∧
  active_subscriptions (GetStats m) = total_subscriptions (GetStats m) ∧
  catch_all_subscriptions (GetStats m) = count catch_all r ∧
  ∀ t, default 0 (subscriptions_per_table (GetStats m) !! t) = count (on_table t) r.
Proof.
  destruct (manager_run_ok calls new_Manager new_wf) as [Hm E]; [simpl; lia|].
  change (fold_left spec_call calls (abstract new_Manager)) with (spec_run calls) in E.
  fold (manager_run calls) in Hm, E. cbv zeta. rewrite <- E.
  destruct (GetStats_scan (manager_run calls)) as (E1 & E2 & E3 & E4).
  split_and!; [done|..|exact E1| |exact E3|exact E4].
  - intros event. by apply ProcessEvent_scan.
  - intros c. by apply GetClientSubscriptions_scan.
  - rewrite E1, E2. unfold count.
    rewrite !list_filter_all; [done|by apply Forall_true|].
    apply Forall_fmap, Forall_forall. intros [i s] Hi%elem_of_map_to_list. simpl.
    apply (ok_active _ _ (wf_subs _ Hm) _ _ Hi).
Qed.
End observe.

Definition demo_calls : list call :=
  [CSubscribe "ann" "SELECT * FROM users WHERE age >= 18"; CSubscribe "bob" "select name from users";
   CSubscribeAll "eve"; CSubscribe "ann" "SELECT FROM"; CUnsubscribe "sql_sub_2"; CUnsubscribeAll "nobody"].

Lemma manager_refines_registry_witness :
  zlength demo_calls < 2 ^ 64 - 1 ∧
  (elements (dom (registered (spec_run demo_calls)))) ≡ₚ ["sql_sub_1"; "sql_sub_3"] ∧
  subscriptions_ (manager_run demo_calls) = registered (spec_run demo_calls).
Proof.
  split; [vm_compute; reflexivity|]. split; [by vm_compute; rewrite ?(Permutation_swap "sql_sub_1")|].
  exact (proj1 (manager_refines_registry (HO:=std_order) (JL:=std_json) demo_calls eq_refl)).
Defined.
