(* ===== verification/SqlSubEvents.v ===== *)
(** * Subscriptions on the events of committed writes

    The storage engine publishes a write with its rows as JSON texts; these
    theorems state what [SqlSub.MatchesEvent] and [SqlSub.FilterEvent] make of
    such an event, in terms of the row that was written. *)

From S2P Require Import Prelude Table Float64 Json Regex Predicate PredicateEval Txn Changefeed StorageJson Storage SqlSub.

(** ** The row as a predicate sees it *)

Definition row_view (row : Row) : json := json_text (object_of (value_json <$> row_columns row)).

(** What a subscription selects: active, all tables or the table of the write,
    and the predicate on the new row of an INSERT, on the new or the old row of
    an UPDATE, on the old row of a DELETE. *)
Definition row_matches (s : SqlSubscription) (w : WriteOperation) (old_row : option Row) : bool :=
  let on_old p := match old_row with Some r => Evaluate p (row_view r) | None => false end in
  is_active s &&
  (bool_decide (sub_type s = ALL_TABLES) ||
   bool_decide (table_name s = "" ∨ w_table w = table_name s) &&
   match predicate s with
   | None => true
   | Some p =>
       match w_op w with
       | WINSERT => Evaluate p (row_view (w_row w))
       | WUPDATE => Evaluate p (row_view (w_row w)) || on_old p
       | WDELETE => on_old p
       end
   end).

Definition old_utf8 (old_row : option Row) : Prop :=
  match old_row with Some r => row_utf8 r | None => True end.

Section events.
Context `{JL : JsonLib}.

Lemma SerializeRow_text row :
  row_utf8 row → ∃ data, SerializeRow row = Ret data ∧ data ≠ [] ∧
    parse_bytes data = Some (json_text (row_json row)).
Proof.
  intros Hrow. destruct (dump_text _ (row_json_ok _ Hrow)) as (t & Hd & Hp & _ & Hne).
  exists (str_bytes t). unfold SerializeRow, parse_bytes. rewrite Hd, bytes_str_bytes. done.
Qed.

Lemma row_text_field row k :
  json_field k (json_text (row_json row)) =
  if decide (k = "key") then Some (JString (row_key row))
  else if decide (k = "columns") then Some (row_view row) else None.
Proof.
  unfold row_json. rewrite json_field_text_object.
  destruct (decide (k = "key")) as [->|]; [by simplify_map_eq|].
  destruct (decide (k = "columns")) as [->|]; by simplify_map_eq.
Qed.

Lemma columns_ptr_row row data :
  SerializeRow row = Ret data → data ≠ [] → parse_bytes data = Some (json_text (row_json row)) →
  columns_ptr data = Some (row_view row).
Proof.
  intros _ Hne Hp. unfold columns_ptr, ExtractRowColumns. rewrite Hp, row_text_field. simpl.
  by destruct data.
Qed.

(** The event of a write, with its values and what they parse to. *)
Lemma write_event_values now txn w old_row :
  row_utf8 (w_row w) → old_utf8 old_row →
  ∃ ev, write_event now txn w old_row = Ret ev ∧ ev_table ev = w_table w ∧
    ev_operation ev = op_name (w_op w) ∧
    (if decide (w_op w = WDELETE) then ev_new_value ev = []
     else ev_new_value ev ≠ [] ∧ parse_bytes (ev_new_value ev) = Some (json_text (row_json (w_row w)))) ∧
    match old_row with
    | None => ev_old_value ev = []
    | Some r => ev_old_value ev ≠ [] ∧ parse_bytes (ev_old_value ev) = Some (json_text (row_json r))
    end.
Proof.
  intros Hw Ho. unfold write_event. destruct (SerializeRow_text _ Hw) as (dn & En & Hn).
  rewrite En. destruct old_row as [r|].
  - destruct (SerializeRow_text _ Ho) as (d & Eo & Hod). rewrite Eo. case_decide; simpl; by eexists.
  - case_decide; simpl; by eexists.
Qed.

Lemma columns_ptr_values (v : bytes) row :
  v ≠ [] → parse_bytes v = Some (json_text (row_json row)) → columns_ptr v = Some (row_view row).
Proof.
  intros Hne Hp. unfold columns_ptr, ExtractRowColumns. rewrite Hp, row_text_field. by destruct v.
Qed.

(** A SQL subscription sees committed writes.  The event published for a
    write of UTF-8 rows matches a subscription exactly when the subscription is
    active, is on all tables or on the table written, and its predicate holds of
    the row inserted, of the row before or after an update, or of the row
    deleted, where the predicate reads the row's columns as JSON expresses them. *)
Theorem subscription_sees_write (now : Z) (txn : Transaction) (w : WriteOperation) (old_row : option Row)
    (Hw : row_utf8 (w_row w)) (Ho : old_utf8 old_row) :
  ∃ ev, write_event now txn w old_row = Ret ev ∧ ∀ s, MatchesEvent s ev = row_matches s w old_row.
Proof.
  destruct (write_event_values now txn w old_row Hw Ho) as (ev & E & Et & Eo & Hn & Hold).
  exists ev. split; [done|]. intros s. unfold MatchesEvent, MatchesEvent_parsed, row_matches.
  destruct (is_active s); [|done]. simpl.
  destruct (decide (sub_type s = ALL_TABLES)) as [E0|E0];
    [by rewrite (bool_decide_eq_true_2 _ E0)|rewrite (bool_decide_eq_false_2 _ E0)]. rewrite Et. simpl.
  destruct (decide (table_name s ≠ "" ∧ w_table w ≠ table_name s)) as [Ht|Ht].
  { rewrite bool_decide_eq_false_2; [done|]. naive_solver. }
  rewrite bool_decide_eq_true_2 by (destruct (decide (table_name s = "")); [auto|];
    destruct (decide (w_table w = table_name s)); [auto|]; by destruct Ht). simpl.
  destruct (predicate s) as [p|]; [|done]. rewrite Eo.
  assert (columns_ptr (ev_old_value ev) = row_view <$> old_row) as ->.
  { destruct old_row as [r|]; simpl; [destruct Hold; by apply columns_ptr_values|by rewrite Hold]. }
  destruct (w_op w); cbn [op_name] in *; simpl in Hn.
  - destruct Hn. by rewrite (columns_ptr_values _ (w_row w)).
  - destruct Hn. rewrite (columns_ptr_values _ (w_row w)) by done. simpl.
    destruct (Evaluate p (row_view (w_row w))); [done|]. by destruct old_row.
  - by destruct old_row.
Qed.

Lemma filtered_row_none cols row :
  "key" ∉ cols → "columns" ∉ cols → filtered_json cols (json_text (row_json row)) = JNull.
Proof.
  intros Hk Hc. unfold filtered_json.
  assert (∀ m : gmap string json, fold_left (λ m col, match json_field col (json_text (row_json row)) with
    Some v => <[col := v]> m | None => m end) cols m = m) as ->; [|by rewrite decide_True].
  induction cols as [|c cols IH]; intros m; cbn [fold_left]; [done|].
  rewrite not_elem_of_cons in Hk, Hc. rewrite row_text_field, !decide_False by naive_solver.
  apply IH; naive_solver.
Qed.

Lemma filter_value_row cols v row d :
  v ≠ [] → parse_bytes v = Some (json_text (row_json row)) → "key" ∉ cols → "columns" ∉ cols →
  dump JNull = Ret d → filter_value cols v = Ret (str_bytes d).
Proof.
  intros Hne Hp Hk Hc Hd. unfold filter_value. rewrite Hp, (filtered_row_none cols row Hk Hc), Hd.
  by destruct v.
Qed.

(** Column projection loses the columns.  For a subscription to named
    columns, the events of committed rows are delivered with [null] in place of
    each row: the projection looks the names up in the row's outer object, whose
    members are [key] and [columns], and not among the columns. *)
Theorem projection_loses_columns (now : Z) (txn : Transaction) (w : WriteOperation)
    (old_row : option Row) (Hw : row_utf8 (w_row w)) (Ho : old_utf8 old_row) (s : SqlSubscription)
    (Hs : sub_type s = SELECT_COLUMNS) (Hcols : columns s ≠ [])
    (Hkey : "key" ∉ columns s) (Hcolumns : "columns" ∉ columns s) :
  ∃ ev d, write_event now txn w old_row = Ret ev ∧ parse d = Some JNull ∧
    FilterEvent s ev =
      set_values ev (if decide (w_op w = WDELETE) then [] else str_bytes d)
                    (match old_row with Some _ => str_bytes d | None => [] end).
Proof.
  destruct (write_event_values now txn w old_row Hw Ho) as (ev & E & _ & _ & Hn & Hold).
  destruct (parse_dump JNull eq_refl) as (d & Hd & Hp & _).
  exists ev, d. split; [done|]. split; [done|]. unfold FilterEvent. rewrite Hs.
  rewrite decide_False by (by intros [|]). rewrite decide_True by done.
  assert (filter_value (columns s) (ev_new_value ev)
    = Ret (if decide (w_op w = WDELETE) then [] else str_bytes d)) as ->.
  { case_decide; [by rewrite Hn|]. destruct Hn. by apply (filter_value_row _ _ (w_row w)). }
  assert (filter_value (columns s) (ev_old_value ev)
    = Ret (match old_row with Some _ => str_bytes d | None => [] end)) as ->; [|done].
  destruct old_row as [r|]; [destruct Hold; by apply (filter_value_row _ _ r)|by rewrite Hold].
Qed.
End events.

(** ** A concrete write *)

Definition demo_write : WriteOperation :=
  {| w_op := WUPDATE; w_table := "users"; w_row := mkRow "u1" {[ "age" := VInt32 20; "name" := VString "Ada" ]} |}.
Definition demo_old : Row := mkRow "u1" {[ "age" := VInt32 17; "name" := VString "Ada" ]}.
Definition demo_txn : Transaction :=
  {| t_id := 1; t_timestamp := 5; t_level := READ_COMMITTED; t_state := ACTIVE; t_read_only := false;
     t_write_set := [demo_write] |}.
Definition demo_sub : SqlSubscription :=
  {| id := "sql_sub_1"; client_id := "ann"; sub_type := SELECT_COLUMNS; table_name := "users";
     columns := ["name"]; where_clause := Some "age < 18";
     predicate := Some (COMPARISON "age" Op.LT (LIT_NUMBER (double_of_int 18))); is_active := true |}.

Lemma subscription_sees_write_witness :
  row_utf8 (w_row demo_write) ∧ old_utf8 (Some demo_old) ∧
  row_matches demo_sub demo_write (Some demo_old) = true ∧
  ∃ ev, write_event (JL:=std_json) 0 demo_txn demo_write (Some demo_old) = Ret ev ∧
    ∀ s, MatchesEvent (H:=std_json) s ev = row_matches s demo_write (Some demo_old).
Proof.
  assert (row_utf8 (w_row demo_write)) as Hw by (apply (bool_decide_unpack _); vm_compute; exact I).
  assert (row_utf8 demo_old) as Ho by (apply (bool_decide_unpack _); vm_compute; exact I).
  split; [exact Hw|]. split; [exact Ho|]. split; [vm_compute; reflexivity|].
  exact (subscription_sees_write (JL:=std_json) 0 demo_txn demo_write (Some demo_old) Hw Ho).
Defined.

Lemma projection_loses_columns_witness :
  ∃ ev d, write_event (JL:=std_json) 0 demo_txn demo_write (Some demo_old) = Ret ev ∧
    std_parse d = Some JNull ∧
    FilterEvent (H:=std_json) demo_sub ev = set_values ev (str_bytes d) (str_bytes d).
Proof.
  assert (row_utf8 (w_row demo_write)) as Hw by (apply (bool_decide_unpack _); vm_compute; exact I).
  assert (row_utf8 demo_old) as Ho by (apply (bool_decide_unpack _); vm_compute; exact I).
  assert ("key" ∉ columns demo_sub) as Hk by (apply (bool_decide_unpack _); vm_compute; exact I).
  assert ("columns" ∉ columns demo_sub) as Hc by (apply (bool_decide_unpack _); vm_compute; exact I).
  exact (projection_loses_columns (JL:=std_json) 0 demo_txn demo_write (Some demo_old) Hw Ho demo_sub
    eq_refl ltac:(discriminate) Hk Hc).
Defined.
