(* ===== verification/WsServer.v ===== *)
(** * The WebSocket server (src/websocket/websocket_server.cpp)

    A connection's handshake and message loop, the handlers of the messages, and
    the delivery of changefeed and module events to the sockets.  The server is
    a state; what it asks of the network is in [sent_], with its outcome.  The
    components it shares with the rest of the process are part of the state: the
    WebAssembly subscriptions with their engine and the storage behind it, and
    the SQL subscriptions.  An exception is [Escaped].  SHA-1, the messages of JSON exceptions, the network, the clocks
    and the order of the hash table of sockets are parameters. *)

From Stdlib Require Import Strings.Ascii.
From S2P Require Import Prelude Table Codec RowCodec Float64 Json MemTable Txn WalStore Changefeed StorageJson Storage RowJson HostFunctions WasmEngine WasmSub ModuleStore Auth Regex Predicate SqlEngine SqlSub WsFrame.

(** ** Parameters *)

(** A call of [send]: the socket, the bytes, whether all of them were sent. *)
Abbreviation attempt := (Z * bytes * bool)%type.

(** What the process cannot choose, as functions of the calls of [send] so far:
    their outcomes, the clock in nanoseconds, and what uninitialised members
    hold. *)
Class Environment := {
  send_ok : list attempt → Z → bytes → bool;
  clock : list attempt → Z;
  garbage_time : list attempt → Z;
  garbage_flag : list attempt → bool
}.

(** [SHA1] of OpenSSL. *)
Class Sha1 := SHA1 : bytes → bytes.

(** [what()] of the exception that [json::parse] throws on a text. *)
Class ParseWhat := parse_what : string → string.

(** The order of an [unordered_map<int, std::string>]. *)
Class SocketOrder := {
  socket_iter : gmap Z string → list (Z * string);
  socket_iter_perm : ∀ m, socket_iter m ≡ₚ map_to_list m
}.

(** ** State *)

Record Server (W : Type) := {
  wasm_ : WasmSub.Manager W;
  has_wasm_manager : bool;
  has_wasm_engine : bool;
  has_sql_engine : bool;
  has_storage_engine : bool;
  sql_manager_ : option SqlSub.Manager;
  auth_ : option AuthManager;
  active_clients_ : list Z;
  client_ids_ : gmap Z string;
  sent_ : list attempt;
  closed_ : list Z
}.
Arguments wasm_ {W} _.
Arguments has_wasm_manager {W} _.
Arguments has_wasm_engine {W} _.
Arguments has_sql_engine {W} _.
Arguments has_storage_engine {W} _.
Arguments sql_manager_ {W} _.
Arguments auth_ {W} _.
Arguments active_clients_ {W} _.
Arguments client_ids_ {W} _.
Arguments sent_ {W} _.
Arguments closed_ {W} _.

Definition GetActiveConnections {W} (s : Server W) : Z := zlength (active_clients_ s).

(** ** JSON *)

(** An object with these fields. *)
Definition obj (fields : list (string * json)) : json := object_of (list_to_map fields).

Definition error_reply (message : string) : json := obj [("type", JString "error"); ("message", JString message)].

(** The columns and rows of a query result. *)
Definition column_json (c : SqlEngine.ResultColumn) : json :=
  obj [("name", JString (rc_name c)); ("type", JString (rc_type c)); ("nullable", JBool (rc_nullable c))].

(** [to_time_t] counts seconds. *)
Definition state_value (v : Value) : json :=
  match v with
  | VNull => JNull
  | VBool b => JBool b
  | VInt32 n | VInt64 n => JInt n
  | VFloat bits => JFloat (double_of_float bits)
  | VDouble bits => JFloat bits
  | VString s => JString s
  | VBytes b => JString (hex_string b)
  | VTime ns => JInt (Z.quot ns 1000000000)
  end.

(** A row without columns stays null. *)
Definition row_data (row : Row) : json :=
  if bool_decide (row_columns row = ∅) then JNull else object_of (state_value <$> row_columns row).
Definition state_row (row : Row) : json :=
  obj [("key", JString (row_key row)); ("version", JInt (row_version row)); ("timestamp", JInt (row_timestamp row));
       ("data", row_data row)].

(** ** The WHERE clause of an initial state

    [regex_search] of \bWHERE\b\s+(.+?)(?:\bORDER\s+BY\b|\bLIMIT\b|$), without
    regard to case.  [prev] is the character before the rest of the text. *)

Definition is_word (c : option ascii) : bool :=
  match c with Some c => Regex.isalnum c || eqc c "_"%char | None => false end.
Definition boundary (prev : option ascii) (rest : chars) : bool := xorb (is_word prev) (is_word (head rest)).

(** Literal text, and the character before what follows it. *)
Fixpoint eat (word rest : chars) : option chars :=
  match word, rest with
  | [], _ => Some rest
  | w :: word, c :: rest => if eqc (tolower w) (tolower c) then eat word rest else None
  | _ :: _, [] => None
  end.
Definition word_at (word : string) (prev : option ascii) (rest : chars) : option chars :=
  if boundary prev rest then
    after ← eat (string_chars word) rest;
    if boundary (last (string_chars word)) after then Some after else None
  else None.

Fixpoint skip_spaces (rest : chars) : chars :=
  match rest with c :: rest' => if Regex.isspace c then skip_spaces rest' else rest | [] => [] end.
Definition spaces (rest : chars) : nat := length rest - length (skip_spaces rest).

(** The alternatives that may end the clause.  No white space is a letter, so
    only the longest run of spaces can be followed by BY. *)
Definition clause_end (prev : option ascii) (rest : chars) : bool :=
  bool_decide (rest = [])
  || bool_decide (is_Some (word_at "LIMIT" prev rest))
  || match (if boundary prev rest then eat (string_chars "ORDER") rest else None) with
     | Some after => bool_decide (0 < spaces after)%nat
                     && match eat (string_chars "BY") (skip_spaces after) with
                        | Some after => boundary (Some "Y"%char) after
                        | None => false
                        end
     | None => false
     end.

(** The shortest clause from here; [.] matches no line break. *)
Fixpoint shortest_clause (rest : chars) : option chars :=
  match rest with
  | [] => None
  | c :: rest =>
      if cls_match true CAny c then
        if clause_end (Some c) rest then Some [c] else cons c <$> shortest_clause rest
      else None
  end.

(** [\s+] gives back spaces until a clause follows. *)
Fixpoint after_spaces (n : nat) (rest : chars) : option chars :=
  match n with
  | O => None
  | S n => match shortest_clause (drop (S n) rest) with Some c => Some c | None => after_spaces n rest end
  end.

Fixpoint search_where (prev : option ascii) (rest : chars) : option chars :=
  match (after ← word_at "WHERE" prev rest; after_spaces (spaces after) after) with
  | Some clause => Some clause
  | None => match rest with [] => None | c :: rest => search_where (Some c) rest end
  end.
Definition initial_where (sql_query : string) : option string := chars_string <$> search_where None (string_chars sql_query).

Example where_found : initial_where "SELECT * FROM t WHERE x > 1 AND y < 2 ORDER  BY x" = Some "x > 1 AND y < 2 ".
Proof. vm_compute. reflexivity. Qed.
Example where_limit : initial_where "select * from t where somewhere = 1 limit 3" = Some "somewhere = 1 ".
Proof. vm_compute. reflexivity. Qed.
Example where_absent : initial_where "SELECT * FROM somewhere x" = None.
Proof. vm_compute. reflexivity. Qed.

Section server.
Context {W : Type} `{WA : WalApi W} `{JL : JsonLib} `{HO : HashOrder} `{WT : Wasmtime W}.
Context {EV : Environment} {S1 : Sha1} {PW : ParseWhat} {SO : SocketOrder}.
Abbreviation server := (Server W).
Abbreviation Srv := (Prog (Server W)).

(** ** Steps *)

Definition set_wasm (m : WasmSub.Manager W) (s : server) : server :=
  {| wasm_ := m; has_wasm_manager := has_wasm_manager s; has_wasm_engine := has_wasm_engine s;
     has_sql_engine := has_sql_engine s; has_storage_engine := has_storage_engine s; sql_manager_ := sql_manager_ s;
     auth_ := auth_ s; active_clients_ := active_clients_ s; client_ids_ := client_ids_ s; sent_ := sent_ s; closed_ := closed_ s |}.
Definition set_sql (m : option SqlSub.Manager) (s : server) : server :=
  {| wasm_ := wasm_ s; has_wasm_manager := has_wasm_manager s; has_wasm_engine := has_wasm_engine s;
     has_sql_engine := has_sql_engine s; has_storage_engine := has_storage_engine s; sql_manager_ := m;
     auth_ := auth_ s; active_clients_ := active_clients_ s; client_ids_ := client_ids_ s; sent_ := sent_ s; closed_ := closed_ s |}.
Definition set_clients (active : list Z) (ids : gmap Z string) (s : server) : server :=
  {| wasm_ := wasm_ s; has_wasm_manager := has_wasm_manager s; has_wasm_engine := has_wasm_engine s;
     has_sql_engine := has_sql_engine s; has_storage_engine := has_storage_engine s; sql_manager_ := sql_manager_ s;
     auth_ := auth_ s; active_clients_ := active; client_ids_ := ids; sent_ := sent_ s; closed_ := closed_ s |}.
Definition set_network (sent : list attempt) (closed : list Z) (s : server) : server :=
  {| wasm_ := wasm_ s; has_wasm_manager := has_wasm_manager s; has_wasm_engine := has_wasm_engine s;
     has_sql_engine := has_sql_engine s; has_storage_engine := has_storage_engine s; sql_manager_ := sql_manager_ s;
     auth_ := auth_ s; active_clients_ := active_clients_ s; client_ids_ := client_ids_ s; sent_ := sent; closed_ := closed |}.

Definition server_state : Srv server := λ s, (s, Done s).
Definition update (f : server → server) : Srv () := λ s, (f s, Done ()).

(** A call of a method of the WebAssembly subscription manager. *)
Definition on_wasm {A} (p : Prog (WasmSub.Manager W) A) : Srv A := λ s,
  let '(m, r) := p (wasm_ s) in (set_wasm m s, r).
(** A call of a method of the engine. *)
Definition on_engine {A} (p : Prog (WasmEngine W) A) : Srv A :=
  on_wasm (λ m, let '(e, r) := p (engine m) in (set_engine e m, r)).

(** The storage engine all components share. *)
Definition storage_of (s : server) : option (StorageEngine W) := WasmEngine.storage_ (engine (wasm_ s)).
Definition set_storage_of (st : StorageEngine W) (s : server) : server :=
  set_wasm (set_engine (set_store (Some st) (WasmEngine.id_counter (engine (wasm_ s))) (engine (wasm_ s))) (wasm_ s)) s.

(** [sql_engine_->Execute(sql)]. *)
Definition run_sql (sql : string) : Srv SqlEngine.SqlResult := λ s,
  match storage_of s with
  | None => (s, HostFunctions.Undefined)
  | Some st =>
      let '(e, r) := SqlEngine.Execute (clock (sent_ s)) sql [] "" (new_SqlEngine st) in
      (set_storage_of (SqlEngine.storage_ e) s,
       match r with
       | Returns result => Done result
       | Throws what => Escaped what
       | SqlEngine.Undefined => HostFunctions.Undefined
       end)
  end.

(** [send]: whether everything was sent. *)
Definition send (socket : Z) (data : bytes) : Srv bool := λ s,
  let ok := send_ok (sent_ s) socket data in
  (set_network (sent_ s ++ [(socket, data, ok)]) (closed_ s) s, Done ok).
Definition close (socket : Z) : Srv () := update (λ s, set_network (sent_ s) (closed_ s ++ [socket]) s).

Definition SendWebSocketFrame (client_socket : Z) (message : string) : Srv () :=
  ok ← send client_socket (server_frame (str_bytes message));
  if ok : bool then mret () else λ s, (s, Escaped "WebSocket send failed").

(** [SendWebSocketFrame(client_socket, j.dump())]. *)
Definition send_json (client_socket : Z) (j : json) : Srv () :=
  text ← lift_exc (dump j); SendWebSocketFrame client_socket text.

Definition parse_json (message : string) : exc json :=
  match parse message with Some j => Ret j | None => Throw (parse_what message) end.

(** The client ID of a socket, empty if it has none. *)
Definition client_of (client_socket : Z) (s : server) : string := default "" (client_ids_ s !! client_socket).
(** The loop that finds the socket of a client ID. *)
Definition find_socket (client : string) (s : server) : option Z :=
  fst <$> List.find (λ p, bool_decide (p.2 = client)) (socket_iter (client_ids_ s)).

(** ** Reducer calls *)

Definition arg_value (a : json) : WasmValue :=
  match a with
  | JBool b => WBool b
  | JInt n => WInt64 (i64 n)
  | JFloat bits => WDouble bits
  | JString s => WString s
  | _ => WNull
  end.

Definition result_field (v : WasmValue) : list (string * json) :=
  match v with
  | WNull => []
  | WBool b => [("result", JBool b)]
  | WInt32 n | WInt64 n => [("result", JInt n)]
  | WFloat bits => [("result", JFloat (double_of_float bits))]
  | WDouble bits => [("result", JFloat bits)]
  | WString s => [("result", JString s)]
  | WBytes b => [("result", JString (bytes_str b))]
  end.

(** The reply with the fields set after its type. *)
Definition call_reply (fields : list (string * json)) : json := obj (("type", JString "call_result") :: fields).

Definition call_args (request : json) : list WasmValue :=
  match json_field "args" request with Some (JArray l) => arg_value <$> l | _ => [] end.

(** The sender is the client ID of the connection. *)
Definition call_context (client_socket : Z) (module : string) (s : server) : ReducerContext :=
  let sender := client_of client_socket s in
  let ctx := WasmEngine.CreateReducerContext (clock (sent_ s)) sender sender (engine (wasm_ s)) in
  {| sender_identity := sender_identity ctx; module_identity := module; connection_id := connection_id ctx;
     timestamp_micros := timestamp_micros ctx; has_changefeed := has_changefeed ctx |}.

(** The reply to a call that ran. *)
Definition call_result (call_id : string) (result : WasmResult) : json :=
  call_reply (("id", JString call_id) :: ("success", JBool (WasmEngine.success result)) ::
    if WasmEngine.success result then match WasmEngine.values result with v :: _ => result_field v | [] => [] end
    else [("error", JString (WasmEngine.error result))]).

(** The rest of the try block once the ID is known: the success flag and the
    reply, unless the reply is on its way. *)
Definition call_body (client_socket : Z) (request : json) (call_id : string) : Srv (option (bool * json)) :=
  s ← server_state;
  if negb (has_wasm_engine s) then
    _ ← send_json client_socket (call_reply [("id", JString call_id);
          ("error", JString "reducer calls over websocket are disabled")]);
    mret None
  else
  module ← lift_exc (value_or_empty "module" request);
  reducer ← lift_exc (value_or_empty "reducer" request);
  if bool_decide (module = "") || bool_decide (reducer = "") then
    _ ← send_json client_socket (call_reply [("id", JString call_id); ("success", JBool false);
          ("error", JString "module and reducer are required")]);
    mret None
  else
  result ← on_engine (ExecuteReducer (clock (sent_ s)) module reducer (call_context client_socket module s) (call_args request));
  mret (Some (WasmEngine.success result, call_result call_id result)).

(** What the catch block sends. *)
Definition call_failed (id_field : list (string * json)) (what : string) : json :=
  call_reply (id_field ++ [("success", JBool false); ("error", JString ("call_reducer error: " +:+ what))]).

Definition HandleCallReducer (client_socket : Z) (message : string) : Srv () :=
  match (request ← parse_json message; call_id ← value_or_empty "id" request; Ret (request, call_id)) with
  | Throw what => send_json client_socket (call_failed [] what)
  | Ret (request, call_id) =>
      r ← try_catch (call_body client_socket request call_id)
            (λ what, _ ← send_json client_socket (call_failed [("id", JString call_id)] what); mret None);
      match r with
      | None => mret ()
      | Some (success, response) =>
          if negb success || negb (bool_decide (call_id = "")) then send_json client_socket response else mret ()
      end
  end.
(** ** Initial states *)

(** The rows of a result that the clause, where it compiles, keeps. *)
Definition state_rows (predicate : option PredicateNode) (rs : list Row) : list Row :=
  match predicate with Some p => filter (λ r, Is_true (Evaluate p (row_data r))) rs | None => rs end.

(** The predicate of an initial state. *)
Definition aoi_predicate (sql_query : string) : option PredicateNode := initial_where sql_query ≫= compile_predicate.

Definition initial_state (sql_query subscription_id : string) (result : SqlEngine.SqlResult) : json :=
  let kept := state_rows (aoi_predicate sql_query) (SqlEngine.rows result) in
  obj [("type", JString "initial_state"); ("subscription_id", JString subscription_id); ("sql", JString sql_query);
       ("columns", JArray (column_json <$> result_columns result)); ("rows", JArray (state_row <$> kept));
       ("rows_count", JInt (zlength kept)); ("execution_time_ms", JInt (execution_time_ms result))].

Definition initial_state_error (subscription_id message : string) : json :=
  obj [("type", JString "initial_state_error"); ("subscription_id", JString subscription_id); ("message", JString message)].

Definition SendInitialState (client_socket : Z) (sql_query subscription_id : string) : Srv () :=
  s ← server_state;
  if negb (has_sql_engine s) then mret () else
  try_catch
    (result ← run_sql sql_query;
     if negb (SqlEngine.success result) then
       send_json client_socket (initial_state_error subscription_id ("Failed to fetch initial state: " +:+ SqlEngine.error result))
     else send_json client_socket (initial_state sql_query subscription_id result))
    (λ what, send_json client_socket (initial_state_error subscription_id ("Exception while fetching initial state: " +:+ what))).

Definition table_state (result : SqlEngine.SqlResult) : json :=
  if SqlEngine.success result then
    obj [("columns", JArray (column_json <$> result_columns result));
         ("rows", JArray (state_row <$> SqlEngine.rows result)); ("rows_count", JInt (zlength (SqlEngine.rows result)))]
  else obj [("error", JString (SqlEngine.error result)); ("rows_count", JInt 0)].

(** The loop over the tables. *)
Fixpoint table_states (tables : list string) (data : gmap string json) : Srv (gmap string json) :=
  match tables with
  | [] => mret data
  | t :: tables =>
      result ← run_sql ("SELECT * FROM " +:+ t);
      table_states tables (<[t := table_state result]> data)
  end.

Definition SendInitialStateAllTables (client_socket : Z) (subscription_id : string) : Srv () :=
  s ← server_state;
  if negb (has_storage_engine s) || negb (has_sql_engine s) then mret () else
  match storage_of s with
  | None => λ s, (s, HostFunctions.Undefined)
  | Some st =>
      try_catch
        (let tables := Storage.ListTables st in
         data ← table_states tables ∅;
         send_json client_socket (obj [("type", JString "initial_state_all_tables"); ("subscription_id", JString subscription_id);
           ("tables", object_of data); ("tables_count", JInt (zlength tables))]))
        (λ what, send_json client_socket
           (initial_state_error subscription_id ("Exception while fetching initial state for all tables: " +:+ what)))
  end.

(** ** SQL subscriptions *)

Definition HandleSqlSubscriptionRequest (client_socket : Z) (message : string) : Srv () :=
  s ← server_state;
  if bool_decide (sql_manager_ s = None) then send_json client_socket (error_reply "SQL subscription manager not available") else
  try_catch
    (request ← lift_exc (parse_json message);
     let client := client_of client_socket s in
     if bool_decide (client = "") then send_json client_socket (error_reply "Client ID not found") else
     match json_field "sql" request with
     | None => send_json client_socket (error_reply "sql field is required")
     | Some sql =>
         sql_query ← lift_exc (as_string sql);
         subscription_id ← (λ s, match sql_manager_ s with
                                 | None => (s, HostFunctions.Undefined)
                                 | Some m => let '(m, r) := SqlSub.Subscribe client sql_query m in lift_exc r (set_sql (Some m) s)
                                 end);
         _ ← send_json client_socket (obj [("type", JString "sql_subscription_created"); ("subscription_id", JString subscription_id);
               ("client_id", JString client); ("sql", JString sql_query)]);
         SendInitialState client_socket sql_query subscription_id
     end)
    (λ what, send_json client_socket (error_reply ("Failed to create SQL subscription: " +:+ what))).

Definition HandleSubscribeToAllTablesRequest (client_socket : Z) (message : string) : Srv () :=
  s ← server_state;
  match sql_manager_ s with
  | None => send_json client_socket (error_reply "SQL subscription manager not available")
  | Some m =>
      try_catch
        (let client := client_of client_socket s in
         if bool_decide (client = "") then send_json client_socket (error_reply "Client ID not found") else
         let '(m, subscription_id) := SqlSub.SubscribeToAllTables client m in
         _ ← update (set_sql (Some m));
         _ ← send_json client_socket (obj [("type", JString "all_tables_subscription_created");
               ("subscription_id", JString subscription_id); ("client_id", JString client); ("scope", JString "all_tables")]);
         SendInitialStateAllTables client_socket subscription_id)
        (λ what, send_json client_socket (error_reply ("Failed to create ALL_TABLES subscription: " +:+ what)))
  end.

(** ** Events to clients *)

Fixpoint for_each {A} (f : A → Srv ()) (l : list A) : Srv () :=
  match l with [] => mret () | a :: l => _ ← f a; for_each f l end.

(** The fields of an event; empty byte strings are left out.  The timestamp is
    in milliseconds. *)
Definition event_fields (type subscription_id : string) (ev : ChangefeedEvent) : json :=
  let bytes_field name (b : bytes) := if bool_decide (b = []) then [] else [(name, JString (bytes_str b))] in
  obj ([("type", JString type); ("subscription_id", JString subscription_id); ("offset", JInt (ev_offset ev));
        ("table", JString (ev_table ev)); ("operation", JString (ev_operation ev));
        ("transaction_id", JString (ev_transaction_id ev)); ("timestamp", JInt (Z.quot (ev_timestamp ev) 1000000))]
       ++ bytes_field "key" (ev_key ev) ++ bytes_field "new_value" (ev_new_value ev) ++ bytes_field "old_value" (ev_old_value ev)).

(** One result of [ProcessEvent]. *)
Definition send_filtered (subscription_id : string) (result : string * ChangefeedEvent) : Srv () :=
  s ← server_state;
  match find_socket result.1 s with
  | None => mret ()
  | Some target_socket =>
      try_catch (send_json target_socket (event_fields "sql_changefeed_event" subscription_id result.2)) (λ _, mret ())
  end.

(** The loop of the broadcast: the sockets that failed. *)
Fixpoint broadcast (message : string) (sockets : list Z) : Srv (list Z) :=
  match sockets with
  | [] => mret []
  | socket :: sockets =>
      failed ← try_catch (_ ← SendWebSocketFrame socket message; mret false) (λ _, mret true);
      rest ← broadcast message sockets;
      mret (if failed : bool then socket :: rest else rest)
  end.

Definition BroadcastToAllClients (message : string) : Srv () :=
  s ← server_state;
  disconnected ← broadcast message (active_clients_ s);
  for_each (λ socket,
    _ ← update (λ s, set_clients (filter (λ c, c ≠ socket) (active_clients_ s)) (client_ids_ s) s); close socket) disconnected.

Definition OnChangefeedEvent (subscription_id : string) (event : ChangefeedEvent) : Srv () :=
  s ← server_state;
  match sql_manager_ s with
  | Some m => for_each (send_filtered subscription_id) (ProcessEvent event m)
  | None =>
      message ← lift_exc (dump (event_fields "changefeed_event" subscription_id event));
      BroadcastToAllClients message
  end.

Definition wasm_data (data : WasmValue) : list (string * json) :=
  match data with
  | WNull => [("data", JNull)]
  | WBool b => [("data", JBool b)]
  | WInt32 n | WInt64 n => [("data", JInt n)]
  | WFloat bits => [("data", JFloat (double_of_float bits))]
  | WDouble bits => [("data", JFloat bits)]
  | WString s => [("data", JString s)]
  | WBytes b => [("data", JString (bytes_str b)); ("data_type", JString "binary")]
  end.

Definition OnWasmSubscriptionEvent (d : string * string * WasmValue) : Srv () :=
  let '(subscription_id, client, data) := d in
  s ← server_state;
  match find_socket client s with
  | None => mret ()
  | Some target_socket =>
      try_catch (send_json target_socket (obj ([("type", JString "wasm_subscription_event");
        ("subscription_id", JString subscription_id); ("client_id", JString client)] ++ wasm_data data))) (λ _, mret ())
  end.

(** A call of the subscription manager with the calls it makes to its callback;
    the callback leaves the manager alone. *)
Definition with_callbacks {A} (p : Prog (WasmSub.Manager W) A) : Srv A := λ s,
  let '(s1, r) := on_wasm p s in
  match for_each OnWasmSubscriptionEvent (drop (length (delivered (wasm_ s))) (delivered (wasm_ s1))) s1 with
  | (s2, Done _) => (s2, r)
  | (s2, HostFunctions.Trapped t) => (s2, HostFunctions.Trapped t)
  | (s2, Escaped what) => (s2, Escaped what)
  | (s2, HostFunctions.Undefined) => (s2, HostFunctions.Undefined)
  end.
(** ** Subscriptions with module functions *)

(** [get_to] of a [uint64_t]. *)
Definition as_uint64 (j : json) : exc Z :=
  match j with
  | JInt n => Ret (u64 n)
  | JFloat bits => Ret (double_trunc bits)
  | _ => Throw "json: type must be number"
  end.

(** [items()] of any value. *)
Definition items (j : json) : list (string * json) :=
  match j with
  | JNull => []
  | JObject fields => fields
  | JArray l => imap (λ i v, (pretty i, v)) l
  | _ => [("", j)]
  end.

(** A step of the builder, if the request has the field. *)
Definition optional (key : string) (request : json) {A} (get : json → exc A)
    (step : A → WasmSubscriptionQuery → WasmSubscriptionQuery) (q : WasmSubscriptionQuery) : exc WasmSubscriptionQuery :=
  match json_field key request with
  | None => Ret q
  | Some v => a ← get v; Ret (step a q)
  end.

(** A fresh builder: two members of its query are not initialised. *)
Definition new_builder (flag : bool) (offset : Z) : WasmSubscriptionQuery :=
  {| WasmSub.id := ""; module_name := ""; filter_function := ""; transform_function := ""; query_spec := None;
     WasmSub.client_id := ""; start_offset := offset; include_initial_data := flag; created_at := 0 |}.

Definition build_query (client : string) (module : json) (request : json) (q : WasmSubscriptionQuery) : exc WasmSubscriptionQuery :=
  m ← as_string module;
  let q := WithModule m (ForClient client q) in
  q ← optional "filter_function" request as_string WithFilter q;
  q ← optional "transform_function" request as_string WithTransform q;
  q ← optional "tables" request as_strings FromTables q;
  q ← optional "where_clause" request as_string Where q;
  q ← optional "columns" request as_strings Select q;
  q ← optional "parameters" request (λ params, Ret (items params))
        (λ params q, foldl (λ q kv, WithParameter kv.1 (arg_value kv.2) q) q params) q;
  q ← optional "include_initial_data" request as_bool IncludeInitialData q;
  optional "start_offset" request as_uint64 StartingAt q.

Definition HandleSubscriptionRequest (client_socket : Z) (message : string) : Srv () :=
  s ← server_state;
  if negb (has_wasm_manager s) then send_json client_socket (error_reply "WASM subscription manager not available") else
  try_catch
    (request ← lift_exc (parse_json message);
     let client := client_of client_socket s in
     if bool_decide (client = "") then send_json client_socket (error_reply "Client ID not found") else
     match json_field "module_name" request with
     | None => send_json client_socket (error_reply "module_name is required")
     | Some module =>
         query ← lift_exc (build_query client module request (new_builder (garbage_flag (sent_ s)) (u64 (garbage_time (sent_ s)))));
         subscription_id ← with_callbacks (WasmSub.CreateSubscription (clock (sent_ s)) (garbage_time (sent_ s)) query);
         send_json client_socket (obj [("type", JString "wasm_subscription_created"); ("subscription_id", JString subscription_id);
           ("client_id", JString client); ("module_name", JString (module_name query))])
     end)
    (λ what, send_json client_socket (error_reply ("Failed to create WASM subscription: " +:+ what))).

(** ** Messages *)

(** The branches of [HandleWebSocketMessage]; the handlers parse the message
    again. *)
Definition dispatch (client_socket : Z) (message : string) (request : json) (type : string) : Srv () :=
  if bool_decide (type = "subscribe") then
    send_json client_socket (obj [("type", JString "subscription_created"); ("subscription_id", JString "auto-all-tables");
      ("table_pattern", JString "*"); ("message", JString "Subscribed to all table changes")])
  else if bool_decide (type = "sql_subscribe") then HandleSqlSubscriptionRequest client_socket message
  else if bool_decide (type = "sql_unsubscribe") then
    sub_id ← lift_exc (value_or_empty "subscription_id" request);
    s ← server_state;
    _ ← (match sql_manager_ s with
         | Some m => if bool_decide (sub_id = "") then mret () else update (set_sql (Some (SqlSub.Unsubscribe sub_id m)))
         | None => mret ()
         end);
    send_json client_socket (obj [("type", JString "sql_unsubscribed"); ("subscription_id", JString sub_id)])
  else if bool_decide (type = "subscribe_to_all_tables") then HandleSubscribeToAllTablesRequest client_socket message
  else if bool_decide (type = "wasm_subscribe") then HandleSubscriptionRequest client_socket message
  else if bool_decide (type = "call_reducer") then HandleCallReducer client_socket message
  else if bool_decide (type = "ping") then send_json client_socket (obj [("type", JString "pong")])
  else send_json client_socket (error_reply ("Unknown message type: " +:+ type)).

Definition HandleWebSocketMessage (client_socket : Z) (message : string) : Srv () :=
  try_catch
    (request ← lift_exc (parse_json message);
     type ← lift_exc (value_or_empty "type" request);
     dispatch client_socket message request type)
    (λ what, send_json client_socket (error_reply ("Invalid JSON: " +:+ what))).

(** ** Connections *)

(** A carriage return and a line feed. *)
Definition crlf : string := chars_string [carriage_return; newline].

(** The text of the first group of a search. *)
Definition search_group (icase : bool) (pattern text : string) : option string :=
  r ← compile pattern;
  m ← regex_search icase r text;
  capture text m.2 1.

Definition ExtractRequestToken (request : string) : string :=
  match search_group true "Authorization:\s*([^\r\n]+)" request with
  | Some value => StripBearer value
  | None => default "" (search_group false "[?&]token=([^&\s]+)" request)
  end.

Definition GenerateWebSocketAccept (key : string) : string :=
  Base64Encode (SHA1 (str_bytes (key +:+ "258EAFA5-E914-47DA-95CA-C5AB0DC85B11"))).

Definition HandleWebSocketHandshake (client_socket : Z) (request : string) : Srv bool :=
  match search_group true "Sec-WebSocket-Key:\s*([^\r\n]+)" request with
  | None => mret false
  | Some websocket_key =>
      send client_socket (str_bytes ("HTTP/1.1 101 Switching Protocols" +:+ crlf +:+ "Upgrade: websocket" +:+ crlf +:+
        "Connection: Upgrade" +:+ crlf +:+ "Sec-WebSocket-Accept: " +:+ GenerateWebSocketAccept websocket_key +:+ crlf +:+ crlf))
  end.

Definition unauthorized : string :=
  "HTTP/1.1 401 Unauthorized" +:+ crlf +:+ "Content-Length: 0" +:+ crlf +:+ "Connection: close" +:+ crlf +:+ crlf.
Definition upgrade_required : string :=
  "HTTP/1.1 426 Upgrade Required" +:+ crlf +:+ "Content-Type: text/plain" +:+ crlf +:+ "Connection: close" +:+ crlf +:+
  crlf +:+ "WebSocket upgrade required".

(** A C string ends at the first zero byte. *)
Fixpoint c_string (buffer : bytes) : bytes :=
  match buffer with [] => [] | b :: buffer => if bool_decide (b = Byte.x00) then [] else b :: c_string buffer end.

(** [find] of a text. *)
Fixpoint contains (needle : string) (l : chars) : bool :=
  (if eat (string_chars needle) l is Some _ then true else false) ||
  match l with [] => false | _ :: l => contains needle l end.

Definition welcome (client : string) : json :=
  obj [("type", JString "welcome"); ("message", JString "Connected to OriginDB changefeed"); ("server_version", JString "0.1.0");
       ("client_id", JString client); ("features", JArray [JString "changefeed"; JString "wasm_subscriptions"])].

(** Entering a client once the handshake is done, up to the welcome message. *)
Definition connect (client_socket : Z) : Srv () :=
  s ← server_state;
  let client := "client_" +:+ pretty client_socket +:+ "_" +:+ pretty (clock (sent_ s)) in
  _ ← update (λ s, set_clients (active_clients_ s ++ [client_socket]) (<[client_socket := client]> (client_ids_ s)) s);
  _ ← (if has_wasm_manager s
       then with_callbacks (WasmSub.OnClientConnected (clock (sent_ s)) (garbage_time (sent_ s)) client) else mret ());
  send_json client_socket (welcome client).

(** The end of a session. *)
Definition disconnect (client_socket : Z) : Srv () :=
  s ← server_state;
  let client := client_of client_socket s in
  _ ← update (λ s, set_clients (filter (λ c, c ≠ client_socket) (active_clients_ s)) (delete client_socket (client_ids_ s)) s);
  _ ← (if has_wasm_manager s && negb (bool_decide (client = ""))
       then with_callbacks (WasmSub.OnClientDisconnected (clock (sent_ s)) (garbage_time (sent_ s)) client) else mret ());
  if negb (bool_decide (client = "")) then update (λ s, set_sql (UnsubscribeAll client <$> sql_manager_ s) s) else mret ().

(** [HandleClient]: the first [recv], if it returns anything, and the later
    ones. *)
Definition HandleClient (client_socket : Z) (first : option bytes) (chunks : list bytes) : Srv () :=
  match first with
  | None => close client_socket
  | Some buffer =>
      let request := bytes_str (c_string buffer) in
      s ← server_state;
      if negb (contains "upgrade: websocket" (string_chars request)) then
        _ ← send client_socket (str_bytes upgrade_required); close client_socket
      else if match auth_ s with Some m => negb (Check (ExtractRequestToken request) CLIENT m) | None => false end then
        _ ← send client_socket (str_bytes unauthorized); close client_socket
      else
      accepted ← HandleWebSocketHandshake client_socket request;
      _ ← (if accepted : bool then
             _ ← connect client_socket;
             _ ← receive (λ message, HandleWebSocketMessage client_socket (bytes_str message)) chunks [];
             disconnect client_socket
           else mret ());
      close client_socket
  end.
End server.
