(* ===== verification/WsAdmission.v ===== *)
(** * What the texts of a WebSocket request mean

    The server finds the upgrade, the token and the key of a request with
    substring search and regular expressions.  Here the parts of a request are
    described without them, and the searches are shown to find exactly these. *)

From Stdlib Require Import Strings.Ascii.
From S2P Require Import Prelude Regex Auth WsServer.

(** ** The parts of a request *)

(** [rest] does not go on with a [keep] character. *)
Definition run_ends (keep : ascii → bool) (rest : chars) : Prop :=
  match rest with c :: _ => keep c = false | [] => True end.
Definition all (p : ascii → bool) (l : chars) : Prop := Forall (λ c, p c = true) l.

(** A value that starts here: some [keep] characters, and all that follow. *)
Definition full_run (keep : ascii → bool) (v rest : chars) : Prop := v ≠ [] ∧ all keep v ∧ run_ends keep rest.

(** A text starts with a name, in any case, and its value after white space (line
    ends included): the rest of the line.  As much white space is skipped as
    leaves a value. *)
Definition line_char (c : ascii) : bool := negb (eqc c carriage_return || eqc c newline).
Definition value_after (name : string) (l v : chars) : Prop :=
  ∃ u w rest, l = u ++ w ++ v ++ rest ∧ map tolower u = map tolower (string_chars name) ∧
    all isspace w ∧ full_run line_char v rest ∧
    ∀ w' v' rest', w ++ v ++ rest = w' ++ v' ++ rest' → all isspace w' → v' ≠ [] → all line_char v' →
      (length w' <= length w)%nat.

(** A text starts with the token of a request target. *)
Definition token_char (c : ascii) : bool := negb (eqc c "&" || isspace c).
Definition token_of_target (l v : chars) : Prop :=
  ∃ c rest, l = c :: string_chars "token=" ++ v ++ rest ∧ (c = "?"%char ∨ c = "&"%char) ∧ full_run token_char v rest.

(** What holds at the first place where it holds anywhere. *)
Definition first_in (P : chars → chars → Prop) (text v : chars) : Prop :=
  ∃ pre l, text = pre ++ l ∧ P l v ∧
    ∀ pre' l' v', text = pre' ++ l' → (length pre' < length pre)%nat → ¬ P l' v'.

(** The value of a header of a request. *)
Definition header (name : string) (request value : string) : Prop :=
  first_in (value_after name) (string_chars request) (string_chars value).

(** The token a request presents: that of its authorization header, without
    "Bearer ", or else that of its target, or else none. *)
Inductive presents (request : string) : string → Prop :=
| presents_bearer token : header "Authorization:" request ("Bearer " +:+ token) → presents request token
| presents_plain token :
    header "Authorization:" request token → (∀ t, token ≠ "Bearer " +:+ t) → presents request token
| presents_target token :
    (∀ v, ¬ header "Authorization:" request v) →
    first_in token_of_target (string_chars request) (string_chars token) → presents request token
| presents_none :
    (∀ v, ¬ header "Authorization:" request v) →
    (∀ v, ¬ first_in token_of_target (string_chars request) v) → presents request "".

(** The request asks for the upgrade, in any case. *)
Definition asks_upgrade (request : string) : Prop :=
  ∃ pre u post, string_chars request = pre ++ u ++ post ∧ map tolower u = string_chars "upgrade: websocket".

(** ** The matcher on these shapes *)

Section shapes.
Context {R : Type} (icase : bool).
Implicit Types (k : nat → chars → captures → option R) (x : R).

Lemma star_none_inv c k caps n : ∀ pos s,
  (length s <= n)%nat → star_loop icase true c k n pos s caps = None →
  ∀ u v, s = u ++ v → all (cls_match icase c) u → k (pos + length u)%nat v caps = None.
Proof.
  induction n as [|n IH]; intros pos s Hn; simpl.
  - destruct s; [|simpl in Hn; lia]. intros Hk u v [-> ->]%eq_sym%app_nil _. by rewrite Nat.add_0_r.
  - destruct s as [|y s].
    { intros Hk u v [-> ->]%eq_sym%app_nil _. by rewrite Nat.add_0_r. }
    simpl in Hn. destruct (cls_match icase c y) eqn:Ey.
    + rewrite decide_True by (simpl; lia). destruct (star_loop _ _ _ _ _ _ _ _) eqn:E; [done|].
      intros Hk [|y' u] v Hs Hu; simpl in Hs.
      * subst v. by rewrite Nat.add_0_r.
      * injection Hs as <- ->. apply Forall_cons in Hu as [_ Hu]. simpl. rewrite <- plus_n_Sm.
        by apply (IH (S pos) (u ++ v)); [lia|..].
    + intros Hk [|y' u] v Hs Hu; simpl in Hs.
      * subst v. by rewrite Nat.add_0_r.
      * injection Hs as <- ->. apply Forall_cons in Hu as [Hy _]. congruence.
Qed.

(** A greedy star takes the longest run after which the rest succeeds. *)
Lemma star_some_inv c k caps n : ∀ pos s x,
  (length s <= n)%nat → star_loop icase true c k n pos s caps = Some x →
  ∃ u v, s = u ++ v ∧ all (cls_match icase c) u ∧ k (pos + length u)%nat v caps = Some x ∧
    ∀ u' v', s = u' ++ v' → all (cls_match icase c) u' → (length u < length u')%nat → k (pos + length u')%nat v' caps = None.
Proof.
  induction n as [|n IH]; intros pos s x Hn; simpl.
  - destruct s; [|simpl in Hn; lia]. intros Hk. exists [], []. simpl. rewrite Nat.add_0_r. split_and!; [done|constructor|done|].
    intros u' v' [-> ->]%eq_sym%app_nil _. simpl. lia.
  - destruct s as [|y s].
    { intros Hk. exists [], []. simpl. rewrite Nat.add_0_r. split_and!; [done|constructor|done|].
      intros u' v' [-> ->]%eq_sym%app_nil _. simpl. lia. }
    simpl in Hn. destruct (cls_match icase c y) eqn:Ey.
    + rewrite decide_True by (simpl; lia). destruct (star_loop _ _ _ _ _ _ _ _) as [x'|] eqn:E.
      * intros [= ->]. apply IH in E as (u & v & -> & Hu & Hk & Hmax); [|lia].
        exists (y :: u), v. simpl. rewrite <- plus_n_Sm. split_and!; [done|by constructor|done|].
        intros [|y' u'] v' Hs Hu' Hlt; simpl in *; [lia|]. injection Hs as <- Hs. apply Forall_cons in Hu' as [_ Hu'].
        rewrite <- plus_n_Sm. apply Hmax; [done|done|lia].
      * intros Hk. exists [], (y :: s). simpl. rewrite Nat.add_0_r. split_and!; [done|constructor|done|].
        intros [|y' u'] v' Hs Hu' Hlt; simpl in *; [lia|]. injection Hs as <- ->. apply Forall_cons in Hu' as [_ Hu'].
        rewrite <- plus_n_Sm. by apply (star_none_inv c k caps n (S pos) (u' ++ v')); [lia|..].
    + intros Hk. exists [], (y :: s). simpl. rewrite Nat.add_0_r. split_and!; [done|constructor|done|].
      intros [|y' u'] v' Hs Hu' Hlt; simpl in *; [lia|]. injection Hs as <- ->. apply Forall_cons in Hu' as [Hy _]. congruence.
Qed.

(** The captured run at the end of the patterns. *)
Definition capture_run (c : cls) : regex := Seq (Group 1 (Seq (Seq (Cls c) (Star true (Cls c))) Eps)) Eps.

Lemma capture_run_match c pos s caps k :
  (∀ p t c', k p t c' ≠ None) →
  match rmatch icase (capture_run c) pos s caps k with
  | Some x => ∃ v rest, s = v ++ rest ∧ full_run (cls_match icase c) v rest ∧
                k (pos + length v)%nat rest (<[1%nat := (pos, length v)]> caps) = Some x
  | None => ∀ v rest, s = v ++ rest → v ≠ [] → ¬ all (cls_match icase c) v
  end.
Proof.
  intros Hk. unfold capture_run. cbn [rmatch]. destruct s as [|y s].
  { by intros v rest [-> ->]%eq_sym%app_nil. }
  destruct (cls_match icase c y) eqn:Ey.
  2:{ intros [|y' v] rest Hs Hv Ha; [done|]. injection Hs as <- _. apply Forall_cons in Ha as [Hy _]. congruence. }
  set (k1 := λ (p : nat) (t : chars) (c' : captures), k p t (<[1%nat := (pos, (p - pos)%nat)]> c')).
  change (match star_loop icase true c k1 (length s) (S pos) s caps with
          | Some x => ∃ v rest, y :: s = v ++ rest ∧ full_run (cls_match icase c) v rest ∧
                k (pos + length v)%nat rest (<[1%nat := (pos, length v)]> caps) = Some x
          | None => ∀ v rest, y :: s = v ++ rest → v ≠ [] → ¬ all (cls_match icase c) v
          end).
  destruct (star_loop _ _ _ _ _ _ _ _) as [x|] eqn:E.
  - apply star_some_inv in E as (u & v & -> & Hu & Hx & Hmax); [|done].
    exists (y :: u), v. split; [done|]. split.
    + split_and!; [done|by constructor|]. destruct v as [|z v]; [done|]. simpl. apply not_true_is_false. intros Hz.
      specialize (Hmax (u ++ [z]) v). rewrite length_app in Hmax. unfold k1 in Hmax. eapply Hk, Hmax; [by rewrite <- app_assoc| |simpl; lia].
      apply Forall_app. by split; [|constructor].
    + unfold k1 in Hx. rewrite <- Hx. simpl. do 2 f_equal; [lia|f_equal; f_equal; lia].
  - exfalso. pose proof (star_none_inv c k1 caps _ _ _ (le_n _) E [] s eq_refl) as H.
    unfold k1 in H. simpl in H. eapply Hk, H. constructor.
Qed.

Lemma lits_match w : ∀ r pos s caps k,
  match rmatch true (lits w r) pos s caps k with
  | Some x => ∃ u v, s = u ++ v ∧ map tolower u = map tolower w ∧ rmatch true r (pos + length w)%nat v caps k = Some x
  | None => ∀ u v, s = u ++ v → map tolower u = map tolower w → rmatch true r (pos + length w)%nat v caps k = None
  end.
Proof.
  induction w as [|c w IH]; intros r pos s caps k; simpl.
  - rewrite Nat.add_0_r. destruct (rmatch true r pos s caps k) as [x|] eqn:E; [by exists [], s|].
    intros [|? u] v -> Hu; [done|done].
  - destruct s as [|y s]; [by intros [|? u] v|]. unfold eqc. case_bool_decide as Ec.
    + specialize (IH r (S pos) s caps k). rewrite <- plus_n_Sm.
      destruct (rmatch true (lits w r) _ _ _ _) as [x|].
      * destruct IH as (u & v & -> & Hu & Hx). exists (y :: u), v. simpl. by rewrite Hu, Ec.
      * intros [|y' u] v Hs Hu; simpl in Hs, Hu; [done|]. injection Hs as <- ->. injection Hu as _ Hu. by apply (IH u).
    + intros [|y' u] v Hs Hu; simpl in Hs, Hu; [done|]. injection Hs as <- ->. by injection Hu.
Qed.
End shapes.

(** ** The two searches *)

(** What a search for an expression that captures its only group finds: the
    value [P] describes, at the first place. *)
Definition captures_value (icase : bool) (r : regex) (P : chars → chars → Prop) : Prop :=
  ∀ pos s, match rmatch icase r pos s ∅ (λ pos' _ caps, Some (pos, (pos' - pos)%nat, caps)) with
           | Some x => ∃ u v rest, s = u ++ v ++ rest ∧ P s v ∧ x.2 !! 1%nat = Some ((pos + length u)%nat, length v)
           | None => ∀ v, ¬ P s v
           end.

Lemma search_finds icase r P (Hr : captures_value icase r P) : ∀ s pre,
  match search_from icase r (length pre) s with
  | Some x => ∃ u v rest, pre ++ s = u ++ v ++ rest ∧ x.2 !! 1%nat = Some (length u, length v) ∧ first_in P s v
  | None => ∀ l u v, s = u ++ l → ¬ P l v
  end.
Proof.
  induction s as [|c s IH]; intros pre; cbn [search_from]; pose proof (Hr (length pre)) as H.
  - specialize (H []). destruct (rmatch _ _ _ _ _ _) as [x|].
    + destruct H as (u & v & rest & Hs & HP & Hc). exists (pre ++ u), v, rest. rewrite Hs, <- app_assoc, length_app.
      split_and!; [done|done|]. rewrite <- Hs. exists [], []. split_and!; [done|done|]. simpl. lia.
    + intros l u v [-> ->]%eq_sym%app_nil. apply H.
  - specialize (H (c :: s)). destruct (rmatch _ _ _ _ _ _) as [x|].
    + destruct H as (u & v & rest & Hs & HP & Hc). exists (pre ++ u), v, rest. rewrite Hs, <- app_assoc, length_app.
      split_and!; [done|done|]. rewrite <- Hs. exists [], (c :: s). split_and!; [done|done|]. simpl. lia.
    + specialize (IH (pre ++ [c])). rewrite length_app in IH. simpl in IH. rewrite Nat.add_1_r in IH.
      destruct (search_from _ _ _ _) as [x|].
      * destruct IH as (u & v & rest & Hs & Hc & (pre1 & l & -> & HP & Hmin)). exists u, v, rest.
        rewrite <- app_assoc in Hs. split_and!; [done|done|]. exists (c :: pre1), l. split_and!; [done|done|].
        intros [|c' pre2] l' v' Hl Hlt; simpl in *; [by subst|]. injection Hl as <- Hl. apply (Hmin pre2); [done|lia].
      * intros l [|c' u] v Hs; simpl in Hs; [subst l; apply H|]. injection Hs as _ ->. by apply (IH l u).
Qed.

(** *** A header *)

Definition header_regex (name : string) : regex :=
  lits (string_chars name) (Seq (Star true (Cls (CItem ISpace)))
    (capture_run (CSet true [ILit carriage_return; ILit newline]))).

Lemma line_class c : cls_match true (CSet true [ILit carriage_return; ILit newline]) c = line_char c.
Proof.
  apply eqb_prop. revert c. apply (char_cases (λ c, eqb (cls_match true (CSet true [ILit carriage_return; ILit newline]) c) (line_char c))).
  vm_compute. reflexivity.
Qed.

Lemma all_ext p q l : (∀ c, p c = q c) → all p l ↔ all q l.
Proof. intros H. unfold all. split; intros Ha; (eapply Forall_impl; [exact Ha|]); intros c Hc; simpl in *; congruence. Qed.
Lemma full_run_ext p q v rest : (∀ c, p c = q c) → full_run p v rest ↔ full_run q v rest.
Proof.
  intros H. unfold full_run. rewrite (all_ext p q) by done.
  assert (run_ends p rest ↔ run_ends q rest) as ->; [|done]. destruct rest; [done|]. simpl. by rewrite H.
Qed.

(** White space and the rest of the line. *)
Definition line_class_set : cls := CSet true [ILit carriage_return; ILit newline].
Definition value_regex : regex := Seq (Star true (Cls (CItem ISpace))) (capture_run line_class_set).

Lemma line_match pos t (k : nat → chars → captures → option (nat * nat * captures)) :
  (∀ p t c, ∃ q n, k p t c = Some (q, n, c)) →
  match rmatch true (capture_run line_class_set) pos t ∅ k with
  | Some x => ∃ v rest, t = v ++ rest ∧ full_run line_char v rest ∧ x.2 !! 1%nat = Some (pos, length v)
  | None => ∀ v rest, t = v ++ rest → v ≠ [] → ¬ all line_char v
  end.
Proof.
  intros Hk. assert (Hk' : ∀ p t c', k p t c' ≠ None) by (intros p t' c'; by destruct (Hk p t' c') as (? & ? & ->)).
  pose proof (capture_run_match true line_class_set pos t ∅ k Hk') as H. destruct (rmatch _ _ _ _ _ _) as [x|].
  - destruct H as (v & rest & -> & Hv & Hx). exists v, rest. rewrite <- (full_run_ext _ _ _ _ line_class).
    split_and!; [done|done|]. destruct (Hk (pos + length v)%nat rest (<[1%nat := (pos, length v)]> ∅)) as (q & n & E).
    rewrite E in Hx. injection Hx as <-. apply lookup_insert_eq.
  - intros v rest Hs Hv. rewrite <- (all_ext _ _ _ line_class). by apply (H v rest).
Qed.

Lemma value_match pos t (k : nat → chars → captures → option (nat * nat * captures)) :
  (∀ p t c, ∃ q n, k p t c = Some (q, n, c)) →
  match rmatch true value_regex pos t ∅ k with
  | Some x => ∃ w v rest, t = w ++ v ++ rest ∧ all isspace w ∧ full_run line_char v rest ∧
      x.2 !! 1%nat = Some ((pos + length w)%nat, length v) ∧
      ∀ w' v' rest', t = w' ++ v' ++ rest' → all isspace w' → v' ≠ [] → all line_char v' → (length w' <= length w)%nat
  | None => ∀ w v rest, t = w ++ v ++ rest → all isspace w → v ≠ [] → ¬ all line_char v
  end.
Proof.
  intros Hk. unfold value_regex. cbn [rmatch].
  set (k2 := λ pos s caps, rmatch true (capture_run line_class_set) pos s caps k).
  match goal with |- match ?m with Some _ => _ | None => _ end =>
    change m with (star_loop true true (CItem ISpace) k2 (length t) pos t ∅) end.
  destruct (star_loop _ _ _ _ _ _ _ _) as [x|] eqn:E.
  - apply star_some_inv in E as (w & t1 & -> & Hw & Hx & Hmax); [|done].
    pose proof (line_match (pos + length w) t1 k Hk) as H. unfold k2 in Hx. rewrite Hx in H.
    destruct H as (v & rest & -> & Hv & Hc). exists w, v, rest. split_and!; [done|done|done|done|].
    intros w' v' rest' Ht Hw' Hv' Hl. destruct (decide (length w' <= length w)%nat); [done|]. exfalso.
    specialize (Hmax w' (v' ++ rest') Ht Hw' ltac:(lia)).
    pose proof (line_match (pos + length w') (v' ++ rest') k Hk) as H. unfold k2 in Hmax. rewrite Hmax in H. by apply (H v' rest').
  - intros w v rest Ht Hw Hv. pose proof (star_none_inv true _ _ _ _ _ _ (le_n _) E w (v ++ rest) Ht Hw) as Hn.
    pose proof (line_match (pos + length w) (v ++ rest) k Hk) as H. unfold k2 in Hn. rewrite Hn in H. by apply (H v rest).
Qed.

Lemma header_captures name : captures_value true (header_regex name) (value_after name).
Proof.
  intros pos s. unfold header_regex. fold line_class_set. fold value_regex.
  set (k := λ pos' _ caps, Some (pos, (pos' - pos)%nat, caps)).
  pose proof (λ p t, value_match p t k ltac:(eauto)) as Htail.
  pose proof (lits_match (string_chars name) value_regex pos s ∅ k) as H.
  destruct (rmatch true (lits _ _) _ _ _ _) as [x|].
  - destruct H as (u & t & -> & Hu & Hx). specialize (Htail (pos + length (string_chars name))%nat t). rewrite Hx in Htail.
    destruct Htail as (w & v & rest & -> & Hw & Hv & Hc & Hmax). exists (u ++ w), v, rest.
    assert (Hlen : length u = length (string_chars name)) by (apply (f_equal length) in Hu; by rewrite !length_map in Hu).
    split_and!; [by rewrite <- app_assoc|by exists u, w, rest|].
    rewrite Hc, length_app, Hlen. by rewrite Nat.add_assoc.
  - intros v (u & w & rest & -> & Hu & Hw & (Hv & Hl & _) & _).
    specialize (Htail (pos + length (string_chars name))%nat (w ++ v ++ rest)). rewrite (H u) in Htail by done.
    by apply (Htail w v rest).
Qed.

(** *** The token of a target *)

Definition target_regex : regex :=
  Seq (Cls (CSet false [ILit "?"; ILit "&"])) (foldr (λ c, Seq (Cls (CItem (ILit c)))) (capture_run (CSet true [ILit "&"; ISpace]))
    (string_chars "token=")).

Lemma token_class c : cls_match false (CSet true [ILit "&"; ISpace]) c = token_char c.
Proof.
  apply eqb_prop. revert c. apply (char_cases (λ c, eqb (cls_match false (CSet true [ILit "&"; ISpace]) c) (token_char c))).
  vm_compute. reflexivity.
Qed.

Lemma lits_exact {R} w : ∀ r pos s caps (k : nat → chars → captures → option R),
  match rmatch false (lits w r) pos s caps k with
  | Some x => ∃ v, s = w ++ v ∧ rmatch false r (pos + length w)%nat v caps k = Some x
  | None => ∀ v, s = w ++ v → rmatch false r (pos + length w)%nat v caps k = None
  end.
Proof.
  induction w as [|c w IH]; intros r pos s caps k; simpl.
  - rewrite Nat.add_0_r. destruct (rmatch _ _ _ _ _ _) as [x|] eqn:E; [by exists s|]. by intros v ->.
  - destruct s as [|y s]; [done|]. unfold eqc. case_bool_decide as Ec; [subst y|by intros v [= -> _]].
    specialize (IH r (S pos) s caps k). rewrite <- plus_n_Sm. destruct (rmatch false (lits w r) _ _ _ _) as [x|].
    + destruct IH as (v & -> & Hx). by exists v.
    + intros v [= ->]. by apply IH.
Qed.

Lemma target_captures : captures_value false target_regex token_of_target.
Proof.
  intros pos s. set (k := λ pos' _ caps, Some (pos, (pos' - pos)%nat, caps)). unfold target_regex. cbn [rmatch].
  destruct s as [|y s]; [by intros v (c & rest & [=] & _)|].
  destruct (cls_match false (CSet false [ILit "?"; ILit "&"]) y) eqn:Ey.
  2:{ intros v (c & rest & [= -> _] & [->| ->] & _); by vm_compute in Ey. }
  assert (Hy : y = "?"%char ∨ y = "&"%char).
  { simpl in Ey. unfold eqc in Ey. rewrite orb_false_r in Ey. apply orb_true_iff in Ey as [H|H]; apply bool_decide_eq_true in H; auto. }
  pose proof (lits_exact (string_chars "token=") (capture_run (CSet true [ILit "&"; ISpace])) (S pos) s ∅ k) as H.
  unfold lits in H. destruct (rmatch _ _ _ _ _ _) as [x|].
  - destruct H as (t & -> & Hx). pose proof (capture_run_match false (CSet true [ILit "&"; ISpace]) (S pos + 6)%nat t ∅ k ltac:(done)) as H.
    change (length (string_chars "token=")) with 6%nat in Hx. rewrite Hx in H. destruct H as (v & rest & -> & Hv & [= <-]).
    exists (y :: string_chars "token="), v, rest. split; [done|]. split.
    + exists y, rest. split_and!; [done|done|]. by apply (full_run_ext _ _ _ _ token_class).
    + simpl. rewrite lookup_insert_eq. do 2 f_equal; lia.
  - intros v (c & rest & [= <- ->] & _ & Hv & Ha & _). specialize (H (v ++ rest) eq_refl).
    pose proof (capture_run_match false (CSet true [ILit "&"; ISpace]) (S pos + 6)%nat (v ++ rest) ∅ k ltac:(done)) as Hr.
    change (length (string_chars "token=")) with 6%nat in H. rewrite H in Hr. apply (Hr v rest); [done|done|].
    by apply (all_ext _ _ _ token_class).
Qed.

(** *** What the searches answer *)

Lemma run_unique keep v : ∀ rest v' rest',
  v ++ rest = v' ++ rest' → all keep v → all keep v' → run_ends keep rest → run_ends keep rest' → v = v'.
Proof.
  induction v as [|c v IH]; intros rest [|c' v'] rest' H Hv Hv' Hr Hr'; [done|..]; simpl in H.
  - subst rest. apply Forall_cons in Hv' as [Hc _]. simpl in Hr. congruence.
  - subst rest'. apply Forall_cons in Hv as [Hc _]. simpl in Hr'. congruence.
  - injection H as <- H. f_equal. apply Forall_cons in Hv as [_ Hv]. apply Forall_cons in Hv' as [_ Hv'].
    by apply (IH rest v' rest').
Qed.

Definition determined (P : chars → chars → Prop) : Prop := ∀ l v v', P l v → P l v' → v = v'.

Lemma value_after_determined name : determined (value_after name).
Proof.
  intros l v v' (u & w & rest & -> & Hu & Hw & (Hv & Hl & Hr) & Hmax) (u' & w' & rest' & H & Hu' & Hw' & (Hv' & Hl' & Hr') & Hmax').
  assert (Hlen : length u = length u').
  { rewrite <- (length_map tolower u), Hu, <- Hu'. apply length_map. }
  apply app_inj_1 in H as [<- H]; [|done].
  assert (length w = length w').
  { pose proof (Hmax _ _ _ H Hw' Hv' Hl'). pose proof (Hmax' _ _ _ (eq_sym H) Hw Hv Hl). lia. }
  apply app_inj_1 in H as [<- H]; [|done]. by apply (run_unique line_char _ _ _ _ H).
Qed.

Lemma token_of_target_determined : determined token_of_target.
Proof.
  intros l v v' (c & rest & -> & _ & _ & Ha & Hr) (c' & rest' & H & _ & _ & Ha' & Hr'). injection H as _ H.
  by apply (run_unique token_char _ _ _ _ H).
Qed.

Lemma first_in_determined P : determined P → determined (first_in P).
Proof.
  intros HP l v v' (pre & t & -> & Hv & Hmin) (pre' & t' & H & Hv' & Hmin').
  assert (length pre = length pre') as Hlen.
  { destruct (decide (length pre' < length pre)%nat) as [Hlt|]; [by destruct (Hmin pre' t' v' H Hlt)|].
    destruct (decide (length pre < length pre')%nat) as [Hlt|]; [by destruct (Hmin' pre t v eq_refl Hlt)|]. lia. }
  apply app_inj_1 in H as [_ <-]; [|done]. by eapply HP.
Qed.

Lemma search_group_spec icase pattern r P text :
  compile pattern = Some r → captures_value icase r P → determined P →
  (∀ v, search_group icase pattern text = Some v ↔ first_in P (string_chars text) (string_chars v)) ∧
  (search_group icase pattern text = None → ∀ v, ¬ first_in P (string_chars text) v).
Proof.
  intros Hc Hr HP. pose proof (search_finds icase r P Hr (string_chars text) []) as H. simpl in H.
  unfold search_group. rewrite Hc. simpl. unfold regex_search.
  destruct (search_from icase r 0 (string_chars text)) as [[[p n] caps]|].
  - destruct H as (u & v & rest & Hs & Hcap & Hf). simpl in Hcap. simpl.
    assert (Hcapture : capture text caps 1 = Some (chars_string v)).
    { rewrite <- (chars_string_chars text), Hs. by apply capture_app. }
    rewrite Hcapture. split; [|done]. intros v'. split.
    + intros [= <-]. by rewrite string_chars_string.
    + intros Hf'. f_equal. rewrite <- (chars_string_chars v'). f_equal. by eapply (first_in_determined P HP).
  - assert (Hnone : ∀ v, ¬ first_in P (string_chars text) v).
    { intros v (pre & l & Hs & Hv & _). by apply (H l pre v). }
    split; [|done]. intros v. split; [done|]. intros Hv. by apply Hnone in Hv.
Qed.

Lemma header_found name request r :
  compile (name +:+ "\s*([^\r\n]+)") = Some r → r = header_regex name →
  (∀ v, search_group true (name +:+ "\s*([^\r\n]+)") request = Some v ↔ header name request v) ∧
  (search_group true (name +:+ "\s*([^\r\n]+)") request = None → ∀ v, ¬ header name request v).
Proof.
  intros Hc ->. destruct (search_group_spec true _ _ _ request Hc (header_captures name) (value_after_determined name)) as [H1 H2].
  split; [exact H1|]. intros Hn v. by apply H2.
Qed.

Lemma prefix_text p : ∀ s, String.prefix p s = true ↔ ∃ t, s = p +:+ t.
Proof.
  induction p as [|c p IH]; intros s; [split; [by exists s|by destruct s]|].
  destruct s as [|c' s]; cbn [String.prefix]; [split; [done|by intros [t [=]]]|].
  destruct (ascii_dec c c') as [<-|Hne].
  - rewrite IH. split; intros [t Ht]; exists t; [by rewrite Ht|by injection Ht].
  - split; [done|]. intros [t Ht]. injection Ht as -> _. done.
Qed.

(** The server takes the token that the request presents. *)
Lemma ExtractRequestToken_presents request token : presents request token ↔ ExtractRequestToken request = token.
Proof.
  destruct (header_found "Authorization:" request _ ltac:(vm_compute; reflexivity) eq_refl) as [Ha Hn].
  change ("Authorization:" +:+ "\s*([^\r\n]+)") with "Authorization:\s*([^\r\n]+)" in Ha, Hn.
  destruct (search_group_spec false "[?&]token=([^&\s]+)" target_regex _ request ltac:(vm_compute; reflexivity)
    target_captures token_of_target_determined) as [Ht Htn].
  unfold ExtractRequestToken. split.
  - assert (Hnone : (∀ v, ¬ header "Authorization:" request v) → search_group true "Authorization:\s*([^\r\n]+)" request = None).
    { intros Hno. destruct (search_group _ _ _) as [v|]; [|done]. by destruct (Hno v (proj1 (Ha v) eq_refl)). }
    intros [t H|t H Hp|t Hno H|Hno H].
    + apply Ha in H. rewrite H. apply StripBearer_prefixed.
    + apply Ha in H. rewrite H. unfold StripBearer. destruct (String.prefix kPrefix t) eqn:E; [|done].
      apply prefix_text in E as [t' ->]. by destruct (Hp t').
    + rewrite Hnone by done. apply Ht in H. by rewrite H.
    + rewrite Hnone by done. destruct (search_group false _ _) as [v|]; [|done]. by destruct (H _ (proj1 (Ht v) eq_refl)).
  - intros <-. destruct (search_group true _ request) as [value|] eqn:Ea.
    + assert (Hv : header "Authorization:" request value) by by apply Ha. destruct (String.prefix kPrefix value) eqn:Ep.
      * apply prefix_text in Ep as [t ->]. rewrite StripBearer_prefixed. by apply presents_bearer.
      * unfold StripBearer. rewrite Ep. apply presents_plain; [done|]. intros t ->.
        rewrite (proj2 (prefix_text kPrefix _)) in Ep; [done|]. by exists t.
    + destruct (search_group false _ request) as [value|] eqn:Et; simpl.
      * apply presents_target; [by apply Hn|]. by apply Ht.
      * apply presents_none; [by apply Hn|by apply Htn].
Qed.

(** *** The upgrade *)

Lemma eat_spec needle : ∀ l,
  (∃ rest, eat needle l = Some rest) ↔ ∃ u rest, l = u ++ rest ∧ map tolower u = map tolower needle.
Proof.
  induction needle as [|c needle IH]; intros l; simpl.
  - split; [by exists [], l|by exists l].
  - destruct l as [|c' l].
    + split; [by intros [? [=]]|]. intros ([|? ?] & rest & H & Hu); [by simpl in Hu|done].
    + unfold eqc. case_bool_decide as Ec.
      * rewrite IH. split.
        { intros (u & rest & -> & Hu). exists (c' :: u), rest. simpl. by rewrite Hu, Ec. }
        { intros ([|? u] & rest & H & Hu); [by simpl in Hu|]. injection H as <- ->. injection Hu as _ Hu. by exists u, rest. }
      * split; [by intros [? [=]]|]. intros ([|? u] & rest & H & Hu); [by simpl in Hu|].
        injection H as <- ->. by injection Hu.
Qed.

Lemma contains_upgrade request : contains "upgrade: websocket" (string_chars request) = true ↔ asks_upgrade request.
Proof.
  unfold asks_upgrade. change (string_chars "upgrade: websocket") with (map tolower (string_chars "upgrade: websocket")).
  induction (string_chars request) as [|c l IH]; cbn [contains].
  - split; [by vm_compute|]. intros (pre & u & post & H & Hu). symmetry in H. apply app_nil in H as [_ [-> _]%app_nil]. done.
  - rewrite orb_true_iff, IH. pose proof (eat_spec (string_chars "upgrade: websocket") (c :: l)) as He.
    destruct (eat (string_chars "upgrade: websocket") (c :: l)) as [r|]; split.
    + intros _. destruct (proj1 He) as (u & rest & H & Hu); [by exists r|]. by exists [], u, rest.
    + by left.
    + intros [?|(pre & u & post & -> & Hu)]; [done|]. by exists (c :: pre), u, post.
    + intros ([|c' pre] & u & post & H & Hu); simpl in H.
      * destruct (proj2 He) as [? ?]; [by exists u, post|done].
      * injection H as _ H. right. by exists pre, u, post.
Qed.
