(* ===== verification/WsEvents.v ===== *)
(** * What the WebSocket server sends *)

From Stdlib Require Import Strings.Ascii.
From S2P Require Import Prelude Table Codec RowCodec Float64 Json MemTable Txn WalStore Changefeed StorageJson Storage RowJson StorageCommit HostFunctions HostReads WasmEngine WasmExec WasmSub WasmSubEvents ModuleStore Auth Regex Predicate SqlEngine SqlSub SqlSubManager WsFrame WsServer.

Section theorems.
Context {W : Type} `{WA : WalApi W} `{JL : JsonLib} `{HO : HashOrder} `{WT : Wasmtime W}.
Context {EV : Environment} {S1 : Sha1} {PW : ParseWhat} {SO : SocketOrder}.
Abbreviation server := (Server W).
Abbreviation Srv := (Prog (Server W)).

(** ** Sending *)

(** The state after some calls of [send]. *)
Definition after_sends (new : list attempt) (s : server) : server := set_network (sent_ s ++ new) (closed_ s) s.

Lemma after_sends_nil s : after_sends [] s = s.
Proof. unfold after_sends, set_network. rewrite app_nil_r. by destruct s. Qed.
Lemma after_sends_app a b s : after_sends b (after_sends a s) = after_sends (a ++ b) s.
Proof. unfold after_sends, set_network. simpl. by rewrite app_assoc. Qed.

Lemma send_json_run socket j s :
  send_json socket j s =
  match dump j with
  | Throw what => (s, Escaped what)
  | Ret text =>
      let frame := server_frame (str_bytes text) in
      let ok := send_ok (sent_ s) socket frame in
      (after_sends [(socket, frame, ok)] s, if ok then Done () else Escaped "WebSocket send failed")
  end.
Proof.
  unfold send_json, lift_exc, mbind, Prog_bind. destruct (dump j) as [text|w]; [|done].
  unfold SendWebSocketFrame, send, mbind, Prog_bind. by destruct (send_ok _ _ _).
Qed.

(** The try blocks around a single message swallow everything. *)
Lemma quiet_send socket j s :
  ∃ new, try_catch (send_json socket j) (λ _, mret ()) s = (after_sends new s, Done ()) ∧
    new.*1 = match dump j with Ret text => [(socket, server_frame (str_bytes text))] | Throw _ => [] end.
Proof.
  unfold try_catch. rewrite send_json_run. destruct (dump j) as [text|w].
  - exists [(socket, server_frame (str_bytes text), send_ok (sent_ s) socket (server_frame (str_bytes text)))].
    split; [|done]. cbv zeta. by destruct (send_ok _ _ _).
  - exists []. by rewrite after_sends_nil.
Qed.

(** ** Finding a client *)

Lemma find_socket_some client (s : server) socket :
  find_socket client s = Some socket → client_ids_ s !! socket = Some client.
Proof.
  unfold find_socket. intros ([k v] & Hf & ->)%fmap_Some. apply find_some in Hf as [Hin Hv].
  simpl in Hv. apply bool_decide_eq_true in Hv as ->. apply list_elem_of_In in Hin.
  rewrite socket_iter_perm in Hin. by apply elem_of_map_to_list in Hin.
Qed.

Lemma find_socket_none client (s : server) : find_socket client s = None ↔ ∀ socket, client_ids_ s !! socket ≠ Some client.
Proof.
  unfold find_socket. split.
  - intros Hf%fmap_None socket Hs. apply elem_of_map_to_list in Hs. rewrite <- socket_iter_perm in Hs.
    apply list_elem_of_In in Hs. pose proof (find_none _ _ Hf _ Hs) as Hn. simpl in Hn. by rewrite bool_decide_eq_true_2 in Hn.
  - intros Hn. apply fmap_None. destruct (List.find _ _) as [[k v]|] eqn:E; [|done]. exfalso.
    apply find_some in E as [Hin Hv]. simpl in Hv. apply bool_decide_eq_true in Hv as ->.
    apply list_elem_of_In in Hin. rewrite socket_iter_perm in Hin. apply elem_of_map_to_list in Hin. by eapply Hn.
Qed.

(** ** Changefeed events *)

(** The frame for one result of the subscription manager. *)
Definition frame_for (s : server) (subscription_id : string) (r : string * ChangefeedEvent) : option (Z * bytes) :=
  socket ← find_socket r.1 s;
  text ← exc_value (dump (event_fields "sql_changefeed_event" subscription_id r.2));
  Some (socket, server_frame (str_bytes text)).

Lemma send_filtered_run subscription_id r s :
  ∃ new, send_filtered subscription_id r s = (after_sends new s, Done ()) ∧
    new.*1 = match frame_for s subscription_id r with Some f => [f] | None => [] end.
Proof.
  unfold send_filtered, frame_for, server_state, mbind at 1, Prog_bind.
  destruct (find_socket r.1 s) as [socket|].
  - destruct (quiet_send socket (event_fields "sql_changefeed_event" subscription_id r.2) s) as (new & H & Hn).
    exists new. split; [exact H|]. rewrite Hn. simpl. by destruct (dump _).
  - exists []. by rewrite after_sends_nil.
Qed.

Lemma send_all_run subscription_id l : ∀ s,
  ∃ new, for_each (send_filtered subscription_id) l s = (after_sends new s, Done ()) ∧
    new.*1 = omap (frame_for s subscription_id) l.
Proof.
  induction l as [|r l IH]; intros s; cbn [for_each].
  - exists []. by rewrite after_sends_nil.
  - destruct (send_filtered_run subscription_id r s) as (n1 & H1 & F1). rewrite (host_bind_done _ _ _ _ _ H1).
    destruct (IH (after_sends n1 s)) as (n2 & H2 & F2). rewrite H2. exists (n1 ++ n2).
    split; [by rewrite after_sends_app|]. rewrite fmap_app, F1, F2. simpl.
    change (frame_for (after_sends n1 s) subscription_id) with (frame_for s subscription_id).
    by destruct (frame_for s subscription_id r).
Qed.

(** With the SQL subscription manager the handling of an event is its sends. *)
Lemma OnChangefeedEvent_run subscription_id event (s : server) m :
  sql_manager_ s = Some m → SqlSubManager.wf m →
  ∃ new, OnChangefeedEvent subscription_id event s = (after_sends new s, Done ()) ∧
    new.*1 ≡ₚ omap (frame_for s subscription_id) (spec_deliver event (abstract m)).
Proof.
  intros Hm Hwf. destruct (send_all_run subscription_id (ProcessEvent event m) s) as (new & Hrun & Hnew).
  exists new. split.
  - unfold OnChangefeedEvent, server_state, mbind at 1, Prog_bind. rewrite Hm. exact Hrun.
  - rewrite Hnew. by rewrite (ProcessEvent_scan m event Hwf).
Qed.

(** C19.  A changefeed event reaches exactly the clients with a matching
    subscription.  With the SQL subscription manager, whatever [send] answers, the
    server ends normally and changes nothing but the network: it calls [send]
    once for every registered subscription that matches the event and whose
    client is connected, on that client's socket, with one text frame that holds
    the filtered event as JSON; nobody else is sent anything. *)
Theorem changefeed_fan_out subscription_id event (s : server) m
    (Hm : sql_manager_ s = Some m) (Hwf : SqlSubManager.wf m) :
  ∃ new, OnChangefeedEvent subscription_id event s = (after_sends new s, Done ()) ∧
    new.*1 ≡ₚ omap (frame_for s subscription_id) (spec_deliver event (abstract m)) ∧
    (∀ socket frame, (socket, frame) ∈ new.*1 ↔
       ∃ i q text, SqlSub.subscriptions_ m !! i = Some q ∧ MatchesEvent q event = true ∧
         find_socket (SqlSub.client_id q) s = Some socket ∧
         dump (event_fields "sql_changefeed_event" subscription_id (FilterEvent q event)) = Ret text ∧
         frame = server_frame (str_bytes text)) ∧
    (∀ socket frame, (socket, frame) ∈ new.*1 → is_Some (client_ids_ s !! socket)).
Proof.
  destruct (OnChangefeedEvent_run subscription_id event s m Hm Hwf) as (new & Hrun & Hperm).
  assert (Hiff : ∀ socket frame, (socket, frame) ∈ new.*1 ↔
       ∃ i q text, SqlSub.subscriptions_ m !! i = Some q ∧ MatchesEvent q event = true ∧
         find_socket (SqlSub.client_id q) s = Some socket ∧
         dump (event_fields "sql_changefeed_event" subscription_id (FilterEvent q event)) = Ret text ∧
         frame = server_frame (str_bytes text)).
  { intros socket frame. rewrite Hperm, list_elem_of_omap. split.
    - intros (r & Hr & Hf). unfold spec_deliver in Hr. apply list_elem_of_omap in Hr as ([i q] & Hi%elem_of_map_to_list & Hr).
      simpl in Hr. destruct (MatchesEvent q event) eqn:Em; [|done]. injection Hr as <-.
      unfold frame_for in Hf. cbn [fst snd] in Hf. destruct (find_socket _ s) as [k|] eqn:Ek; [|done]. simpl in Hf.
      destruct (dump _) as [text|] eqn:Ed; [|done]. injection Hf as <- <-. by exists i, q, text.
    - intros (i & q & text & Hi & Hq & Hk & Hd & ->). exists (SqlSub.client_id q, FilterEvent q event). split.
      + unfold spec_deliver. apply list_elem_of_omap. exists (i, q). split; [by apply elem_of_map_to_list|]. simpl. by rewrite Hq.
      + unfold frame_for. cbn [fst snd]. rewrite Hk. simpl. by rewrite Hd. }
  exists new. split; [exact Hrun|]. split; [exact Hperm|]. split; [exact Hiff|].
  intros socket frame (i & q & text & _ & _ & Hk & _)%Hiff. apply find_socket_some in Hk. by eexists.
Qed.
(** ** Every message gets an answer *)

(** Whatever the outcome, sending only adds to the record. *)
Definition grows {A} (p : Srv A) : Prop := ∀ s, ∃ new, sent_ (p s).1 = sent_ s ++ new.

(** From [s] to [s'] a frame was sent to the socket, all of it. *)
Definition served (socket : Z) (s s' : server) : Prop :=
  ∃ new frame, sent_ s' = sent_ s ++ new ∧ (socket, frame, true) ∈ new.

Definition answers (socket : Z) {A} (p : Srv A) : Prop := ∀ s s' a, p s = (s', Done a) → served socket s s'.

Lemma grows_same {A} (p : Srv A) : (∀ s, sent_ (p s).1 = sent_ s) → grows p.
Proof. intros H s. exists []. by rewrite app_nil_r. Qed.
Lemma grows_ret {A} (a : A) : grows (mret a).
Proof. by apply grows_same. Qed.
Lemma grows_state : grows server_state.
Proof. by apply grows_same. Qed.
Lemma grows_undefined {A} : grows (λ s, (s, HostFunctions.Undefined (A := A))).
Proof. by apply grows_same. Qed.
Lemma grows_update f : (∀ s, sent_ (f s) = sent_ s) → grows (update f).
Proof. intros H. by apply grows_same. Qed.
Lemma grows_lift {A} (m : exc A) : grows (lift_exc m).
Proof. apply grows_same. intros s. by destruct m. Qed.
Lemma grows_bind {A B} (p : Srv A) (f : A → Srv B) : grows p → (∀ a, grows (f a)) → grows (p ≫= f).
Proof.
  intros Hp Hf s. destruct (Hp s) as [n1 H1]. unfold mbind, Prog_bind.
  destruct (p s) as [s1 [a| | |]]; simpl in H1; [|by exists n1..].
  destruct (Hf a s1) as [n2 H2]. exists (n1 ++ n2). by rewrite H2, H1, app_assoc.
Qed.
Lemma grows_try {A} (p : Srv A) h : grows p → (∀ w, grows (h w)) → grows (try_catch p h).
Proof.
  intros Hp Hh s. destruct (Hp s) as [n1 H1]. unfold try_catch.
  destruct (p s) as [s1 [a| |w|]]; simpl in H1; [by exists n1..| |by exists n1].
  destruct (Hh w s1) as [n2 H2]. exists (n1 ++ n2). by rewrite H2, H1, app_assoc.
Qed.
Lemma grows_send_json socket j : grows (send_json socket j).
Proof.
  intros s. rewrite send_json_run. destruct (dump j); [by eexists|exists []; by rewrite app_nil_r].
Qed.
Lemma grows_on_wasm {A} (p : Prog (WasmSub.Manager W) A) : grows (on_wasm p).
Proof. apply grows_same. intros s. unfold on_wasm. by destruct (p _). Qed.
Lemma grows_on_engine {A} (p : Prog (WasmEngine W) A) : grows (on_engine p).
Proof. apply grows_on_wasm. Qed.
Lemma grows_run_sql sql : grows (run_sql sql).
Proof.
  apply grows_same. intros s. unfold run_sql. destruct (storage_of s); [|done].
  by destruct (SqlEngine.Execute _ _ _ _ _).
Qed.
Lemma grows_for_each {A} (f : A → Srv ()) l : (∀ a, grows (f a)) → grows (for_each f l).
Proof. intros H. induction l; simpl; [apply grows_ret|]. apply grows_bind; [apply H|done]. Qed.

#[local] Hint Resolve grows_ret grows_state grows_undefined grows_lift grows_send_json grows_on_wasm grows_on_engine grows_run_sql : grows.
Ltac solve_grows :=
  repeat first
    [ progress eauto 2 with grows | done
    | apply grows_update; by intros ?
    | apply grows_bind; [|intros ?] | apply grows_try; [|intros ?] | apply grows_for_each; intros ? | case_match ].

Lemma grows_callback d : grows (OnWasmSubscriptionEvent d).
Proof. unfold OnWasmSubscriptionEvent. solve_grows. Qed.
Lemma grows_with_callbacks {A} (p : Prog (WasmSub.Manager W) A) : grows (with_callbacks p).
Proof.
  intros s. unfold with_callbacks. destruct (grows_on_wasm p s) as [n1 H1]. destruct (on_wasm p s) as [s1 r]. simpl in H1.
  set (l := drop _ _). destruct (grows_for_each OnWasmSubscriptionEvent l grows_callback s1) as [n2 H2].
  exists (n1 ++ n2). destruct (for_each _ l s1) as [s2 [[]| | |]]; simpl in *; by rewrite H2, H1, app_assoc.
Qed.
Lemma grows_initial socket sql i : grows (SendInitialState socket sql i).
Proof. unfold SendInitialState. solve_grows. Qed.
Lemma grows_tables ts : ∀ data, grows (table_states ts data).
Proof. induction ts as [|t ts IH]; intros data; simpl; [apply grows_ret|]. apply grows_bind; [apply grows_run_sql|]. intros r. apply IH. Qed.
Lemma grows_initial_all socket i : grows (SendInitialStateAllTables socket i).
Proof. pose proof grows_tables. unfold SendInitialStateAllTables. solve_grows. Qed.

(** *** Answers *)

Lemma answers_bind_l socket {A B} (p : Srv A) (f : A → Srv B) : answers socket p → (∀ a, grows (f a)) → answers socket (p ≫= f).
Proof.
  intros Hp Hf s s' b (s1 & a & H1 & H2)%host_bind_inv. destruct (Hp _ _ _ H1) as (n1 & frame & E1 & Hin).
  destruct (Hf a s1) as [n2 E2]. rewrite H2 in E2. exists (n1 ++ n2), frame. simpl in E2.
  split; [by rewrite E2, E1, app_assoc|]. apply elem_of_app. by left.
Qed.
Lemma answers_bind_r socket {A B} (p : Srv A) (f : A → Srv B) : grows p → (∀ a, answers socket (f a)) → answers socket (p ≫= f).
Proof.
  intros Hp Hf s s' b (s1 & a & H1 & H2)%host_bind_inv. destruct (Hp s) as [n1 E1]. rewrite H1 in E1. simpl in E1.
  destruct (Hf _ _ _ _ H2) as (n2 & frame & E2 & Hin). exists (n1 ++ n2), frame.
  split; [by rewrite E2, E1, app_assoc|]. apply elem_of_app. by right.
Qed.
Lemma answers_try socket {A} (p : Srv A) h : answers socket p → grows p → (∀ w, answers socket (h w)) → answers socket (try_catch p h).
Proof.
  intros Hp Hg Hh s s' b. unfold try_catch. destruct (p s) as [s1 [a| |w|]] eqn:E; try done.
  - intros [= <- <-]. by eapply Hp.
  - intros H. destruct (Hg s) as [n1 E1]. rewrite E in E1. simpl in E1.
    destruct (Hh w _ _ _ H) as (n2 & frame & E2 & Hin). exists (n1 ++ n2), frame.
    split; [by rewrite E2, E1, app_assoc|]. apply elem_of_app. by right.
Qed.
Lemma answers_send_json socket j : answers socket (send_json socket j).
Proof.
  intros s s' a. rewrite send_json_run. destruct (dump j) as [text|]; [|done]. cbv zeta.
  destruct (send_ok _ _ _) eqn:E; [|done]. intros [= <- _]. eexists _, _. split; [done|]. by left.
Qed.
Lemma answers_undefined socket {A} : answers socket (λ s, (s, HostFunctions.Undefined (A := A))).
Proof. by intros s s' a. Qed.

Ltac solve_answers :=
  repeat first
    [ solve [auto 2] | apply answers_send_json | apply answers_undefined
    | apply answers_try; [|solve [solve_grows]|intros ?]
    | apply answers_bind_l; [apply answers_send_json|intros ?; solve [solve_grows]]
    | apply answers_bind_r; [solve [solve_grows]|intros ?]
    | case_match ].

Lemma grows_subscribe client sql :
  grows (λ s, match sql_manager_ s with
              | None => (s, HostFunctions.Undefined)
              | Some m => let '(m, r) := SqlSub.Subscribe client sql m in lift_exc r (set_sql (Some m) s)
              end).
Proof. apply grows_same. intros s. destruct (sql_manager_ s); [|done]. destruct (SqlSub.Subscribe _ _ _) as [? [?|?]]; done. Qed.

Lemma grows_sql_request socket message : grows (HandleSqlSubscriptionRequest socket message).
Proof. pose proof grows_subscribe. pose proof grows_initial. unfold HandleSqlSubscriptionRequest. solve_grows. Qed.
Lemma answers_sql_request socket message : answers socket (HandleSqlSubscriptionRequest socket message).
Proof. pose proof grows_subscribe. pose proof grows_initial. unfold HandleSqlSubscriptionRequest. solve_answers. Qed.

Lemma grows_all_request socket message : grows (HandleSubscribeToAllTablesRequest socket message).
Proof. pose proof grows_initial_all. unfold HandleSubscribeToAllTablesRequest. solve_grows. Qed.
Lemma answers_all_request socket message : answers socket (HandleSubscribeToAllTablesRequest socket message).
Proof. pose proof grows_initial_all. unfold HandleSubscribeToAllTablesRequest. solve_answers. Qed.

Lemma grows_wasm_request socket message : grows (HandleSubscriptionRequest socket message).
Proof. pose proof @grows_with_callbacks. unfold HandleSubscriptionRequest. solve_grows. Qed.
Lemma answers_wasm_request socket message : answers socket (HandleSubscriptionRequest socket message).
Proof. pose proof @grows_with_callbacks. unfold HandleSubscriptionRequest. solve_answers. Qed.

Lemma grows_call_body socket request i : grows (call_body socket request i).
Proof. unfold call_body. solve_grows. Qed.
Lemma grows_call socket message : grows (HandleCallReducer socket message).
Proof. pose proof grows_call_body. unfold HandleCallReducer. solve_grows. Qed.

(** *** Reducer calls *)

(** A call that names a module and a reducer, and its run. *)
Definition call_runs (socket : Z) (message : string) (s : server) (call_id : string) (e' : WasmEngine W) (r : outcome WasmResult) : Prop :=
  ∃ request module reducer, parse message = Some request ∧ value_or_empty "id" request = Ret call_id ∧
    value_or_empty "module" request = Ret module ∧ value_or_empty "reducer" request = Ret reducer ∧
    module ≠ "" ∧ reducer ≠ "" ∧ has_wasm_engine s = true ∧
    ExecuteReducer (clock (sent_ s)) module reducer (call_context socket module s) (call_args request) (engine (wasm_ s)) = (e', r).

Definition with_engine (e : WasmEngine W) (s : server) : server := set_wasm (set_engine e (wasm_ s)) s.

Lemma call_runs_handled socket message s call_id e' r :
  call_runs socket message s call_id e' r →
  HandleCallReducer socket message s =
  match r with
  | Done res =>
      if WasmEngine.success res && bool_decide (call_id = "") then (with_engine e' s, Done ())
      else send_json socket (call_result call_id res) (with_engine e' s)
  | Escaped what => (_ ← send_json socket (call_failed [("id", JString call_id)] what); mret ()) (with_engine e' s)
  | HostFunctions.Trapped t => (with_engine e' s, HostFunctions.Trapped t)
  | HostFunctions.Undefined => (with_engine e' s, HostFunctions.Undefined)
  end.
Proof.
  intros (request & module & reducer & Hp & Hid & Hmod & Hred & Nm & Nr & He & Hrun).
  unfold HandleCallReducer, parse_json. rewrite Hp. unfold mbind at 1 2, exc_bind. rewrite Hid.
  assert (Hbody : call_body socket request call_id s =
    (with_engine e' s, match r with
                       | Done res => Done (Some (WasmEngine.success res, call_result call_id res))
                       | HostFunctions.Trapped t => HostFunctions.Trapped t
                       | Escaped w => Escaped w
                       | HostFunctions.Undefined => HostFunctions.Undefined end)).
  { unfold call_body, server_state. unfold mbind at 1, Prog_bind at 1. rewrite He. cbn [negb].
    rewrite Hmod. unfold mbind at 1, Prog_bind at 1, lift_exc at 1. rewrite Hred. unfold mbind at 1, Prog_bind at 1, lift_exc at 1.
    rewrite (bool_decide_eq_false_2 (module = "")), (bool_decide_eq_false_2 (reducer = "")) by done. cbn [orb].
    unfold on_engine, on_wasm, mbind, Prog_bind. rewrite Hrun. by destruct r. }
  unfold mbind, Prog_bind, try_catch. rewrite Hbody. destruct r as [res|t|w|]; [| |destruct (send_json _ _ _) as [? [[]| | |]]|]; try done.
  destruct (WasmEngine.success res), (bool_decide (call_id = "")); reflexivity.
Qed.

Lemma call_body_cases socket request call_id s s1 r :
  call_body socket request call_id s = (s1, Done r) →
  match r with
  | None => served socket s s1
  | Some (b, reply) =>
      ∃ module reducer e' res, value_or_empty "module" request = Ret module ∧ value_or_empty "reducer" request = Ret reducer ∧
        module ≠ "" ∧ reducer ≠ "" ∧ has_wasm_engine s = true ∧
        ExecuteReducer (clock (sent_ s)) module reducer (call_context socket module s) (call_args request) (engine (wasm_ s)) = (e', Done res) ∧
        s1 = with_engine e' s ∧ b = WasmEngine.success res
  end.
Proof.
  unfold call_body. intros (s0 & ? & [= <- <-] & H)%host_bind_inv. destruct (has_wasm_engine s) eqn:He; cbn [negb] in H.
  2:{ apply host_bind_inv in H as (s2 & ? & H & [= <- <-]). by apply answers_send_json in H. }
  apply host_bind_inv in H as (s2 & module & H2 & H). unfold lift_exc in H2.
  destruct (value_or_empty "module" request) as [mo|] eqn:Em; [|done]. injection H2 as <- <-.
  apply host_bind_inv in H as (s2 & reducer & H2 & H). unfold lift_exc in H2.
  destruct (value_or_empty "reducer" request) as [re|] eqn:Er; [|done]. injection H2 as <- <-.
  destruct (bool_decide (mo = "") || bool_decide (re = "")) eqn:Eb.
  { apply host_bind_inv in H as (s2 & ? & H & [= <- <-]). by apply answers_send_json in H. }
  apply orb_false_iff in Eb as [Nm%bool_decide_eq_false Nr%bool_decide_eq_false].
  apply host_bind_inv in H as (s2 & res & H2 & [= <- <-]). unfold on_engine, on_wasm in H2.
  destruct (ExecuteReducer _ _ _ _ _ _) as [e' o] eqn:Erun. injection H2 as <- ->.
  by exists mo, re, e', res.
Qed.

Lemma call_answered socket message s s' :
  HandleCallReducer socket message s = (s', Done ()) →
  served socket s s' ∨ ∃ e' res, call_runs socket message s "" e' (Done res) ∧ WasmEngine.success res = true ∧ s' = with_engine e' s.
Proof.
  unfold HandleCallReducer, parse_json. destruct (parse message) as [request|] eqn:Ep.
  2:{ cbn [mbind exc_bind]. intros H%answers_send_json. by left. }
  unfold mbind at 1 2, exc_bind. destruct (value_or_empty "id" request) as [call_id|w] eqn:Ei.
  2:{ intros H%answers_send_json. by left. }
  intros (s1 & r & H1 & H2)%host_bind_inv. unfold try_catch in H1.
  destruct (call_body socket request call_id s) as [s0 o] eqn:Eb. destruct o as [r0| |w|]; [|done| |done].
  - injection H1 as <- <-. apply call_body_cases in Eb. destruct r0 as [[b reply]|]; [|injection H2 as <-; by left].
    destruct Eb as (module & reducer & e' & res & ? & ? & ? & ? & ? & ? & -> & ->).
    destruct (negb (WasmEngine.success res) || negb (bool_decide (call_id = ""))) eqn:E.
    + left. destruct (answers_send_json _ _ _ _ _ H2) as (new & frame & E1 & Hin). by exists new, frame.
    + apply orb_false_iff in E as [E1%negb_false_iff E2%negb_false_iff%bool_decide_eq_true]. injection H2 as <-.
      right. exists e', res. subst call_id. split; [|done]. by exists request, module, reducer.
  - left. apply host_bind_inv in H1 as (s2 & ? & H1 & [= <- <-]). injection H2 as <-.
    destruct (grows_call_body socket request call_id s) as [n1 E1]. rewrite Eb in E1. simpl in E1.
    destruct (answers_send_json _ _ _ _ _ H1) as (n2 & frame & E2 & Hin). exists (n1 ++ n2), frame.
    split; [by rewrite E2, E1, app_assoc|]. apply elem_of_app. by right.
Qed.

Lemma grows_dispatch socket message request type : grows (dispatch socket message request type).
Proof.
  pose proof grows_sql_request. pose proof grows_all_request. pose proof grows_wasm_request. pose proof grows_call.
  unfold dispatch. solve_grows.
Qed.

Lemma dispatch_answered socket message request type s s' :
  dispatch socket message request type s = (s', Done ()) →
  served socket s s' ∨ type = "call_reducer" ∧
    ∃ e' res, call_runs socket message s "" e' (Done res) ∧ WasmEngine.success res = true ∧ s' = with_engine e' s.
Proof.
  unfold dispatch.
  destruct (bool_decide (type = "call_reducer")) eqn:Ec.
  { apply bool_decide_eq_true in Ec as ->. intros [H|H]%call_answered; [by left|by right]. }
  pose proof answers_sql_request. pose proof answers_all_request. pose proof answers_wasm_request.
  match goal with |- ?p s = _ → _ => assert (Ha : answers socket p) by solve_answers end.
  intros Hrun. left. by eapply Ha.
Qed.

(** C32.  No message stays without an answer, and no exception leaves a connection
    unless its report cannot be sent.  When the handling of a message returns, a
    frame has gone out whole on that client's socket, except for a reducer call
    without an ID that succeeded, which sends nothing at all.  When it throws,
    some exception was caught, and its report as an error message could not be
    serialised or not be sent. *)
Theorem every_message_answered socket message s s' r
    (Hrun : HandleWebSocketMessage socket message s = (s', r)) :
  (r = Done () →
     served socket s s' ∨
     ∃ e' res, call_runs socket message s "" e' (Done res) ∧ WasmEngine.success res = true ∧
       s' = with_engine e' s ∧ sent_ s' = sent_ s) ∧
  (∀ what, r = Escaped what →
     ∃ inner s1, let reply := error_reply ("Invalid JSON: " +:+ inner) in
       dump reply = Throw what ∧ s' = s1 ∨
       ∃ text, dump reply = Ret text ∧ s' = after_sends [(socket, server_frame (str_bytes text), false)] s1).
Proof.
  unfold HandleWebSocketMessage, try_catch in Hrun. set (body := _ ≫= _) in Hrun.
  assert (Hg : grows body). { pose proof grows_dispatch. unfold body. solve_grows. }
  destruct (body s) as [s0 o] eqn:Eb. split.
  - intros ->. destruct o as [[]|t|w|]; [|done| |done].
    + injection Hrun as <-. unfold body in Eb. apply host_bind_inv in Eb as (s1 & request & H1 & H).
      unfold lift_exc, parse_json in H1. destruct (parse message) as [j|]; [|done]. injection H1 as <- <-.
      apply host_bind_inv in H as (s1 & type & H1 & H). unfold lift_exc in H1.
      destruct (value_or_empty "type" j); [|done]. injection H1 as <- <-.
      apply dispatch_answered in H as [H|(_ & e' & res & Hc & Hs & ->)]; [by left|]. right. by exists e', res.
    + left. destruct (Hg s) as [n1 E1]. rewrite Eb in E1. simpl in E1.
      destruct (answers_send_json _ _ _ _ _ Hrun) as (n2 & frame & E2 & Hin). exists (n1 ++ n2), frame.
      split; [by rewrite E2, E1, app_assoc|]. apply elem_of_app. by right.
  - intros what ->. destruct o as [[]|t|w|]; [done|done| |done]. rewrite send_json_run in Hrun. exists w, s0. cbv zeta in *.
    destruct (dump _) as [text|w0]; [|injection Hrun as <- <-; by left]. right. exists text. split; [done|].
    destruct (send_ok _ _ _); [done|]. by injection Hrun as <- _.
Qed.

(** *** The reply to a reducer call *)

(** What a caller can be told: an error, or success with a result or without. *)
Inductive verdict := Refused (error : string) | Completed (result : option json).

(** The reply that tells it, member by member. *)
Definition reports (call_id : string) (v : verdict) (reply : json) : Prop :=
  ∀ name, json_field name reply =
    if decide (name = "type") then Some (JString "call_result") else
    if decide (name = "id") then Some (JString call_id) else
    match v with
    | Refused err =>
        if decide (name = "success") then Some (JBool false) else
        if decide (name = "error") then Some (JString err) else None
    | Completed result =>
        if decide (name = "success") then Some (JBool true) else
        if decide (name = "result") then result else None
    end.

(** The argument a reducer gets for a JSON value: an integer as its residue in 64
    signed bits, and null for what is neither number, text nor truth value. *)
Inductive arg_of : json → WasmValue → Prop :=
| arg_bool b : arg_of (JBool b) (WBool b)
| arg_int n m : is_i 64 m → (m - n) mod 2 ^ 64 = 0 → arg_of (JInt n) (WInt64 m)
| arg_float b : arg_of (JFloat b) (WDouble b)
| arg_string t : arg_of (JString t) (WString t)
| arg_null : arg_of JNull WNull
| arg_array l : arg_of (JArray l) WNull
| arg_object fs : arg_of (JObject fs) WNull
| arg_binary b : arg_of (JBinary b) WNull.

(** The call that a message asks for. *)
Definition asks (message call_id module reducer : string) (args : list WasmValue) : Prop :=
  ∃ request, parse message = Some request ∧
    (json_field "id" request = Some (JString call_id) ∨ json_field "id" request = None ∧ call_id = "") ∧
    json_field "module" request = Some (JString module) ∧ module ≠ "" ∧
    json_field "reducer" request = Some (JString reducer) ∧ reducer ≠ "" ∧
    (∀ l, json_field "args" request = Some (JArray l) → Forall2 arg_of l args) ∧
    ((∀ l, json_field "args" request ≠ Some (JArray l)) → args = []).

(** The context in which a client's call runs. *)
Definition sent_by (client module : string) (now : Z) (ctx : ReducerContext) : Prop :=
  sender_identity ctx = client ∧ connection_id ctx = client ∧ module_identity ctx = module ∧
  timestamp_micros ctx = u64 (Z.quot now 1000).

(** The database after an execution, by what the caller is told: an error means
    that nothing changed, unless a commit was tried and did not succeed; success
    means that the staged writes of this very call were committed, and the result
    is the guest's, or that there is no such reserved reducer. *)
Definition took_effect (now : Z) (m : WasmModule) (reducer : string) (ctx : ReducerContext) (args : list WasmValue)
    (e e' : WasmEngine W) (v : verdict) : Prop :=
  let commits e1 impl call status r :=
    answered m reducer ctx args e e1 impl call status ∧ storage_same (WasmEngine.storage_ e) (WasmEngine.storage_ e1) ∧
    0 <= status ∧ CommitHostCall impl now call (WasmEngine.storage_ e1) = (WasmEngine.storage_ e', r) in
  match v with
  | Refused err =>
      storage_same (WasmEngine.storage_ e) (WasmEngine.storage_ e') ∨
      ∃ e1 impl call status why, commits e1 impl call status (Ret (false, why)) ∧ err = "commit failed: " +:+ why
                                ∨ commits e1 impl call status (Throw why) ∧ err = "call_reducer error: " +:+ why
  | Completed output =>
      ∃ e1 impl call status,
        (∃ note, commits e1 impl call status (Ret (true, note)) ∧
           output = Some (if has_result call then JString (bytes_str (HostFunctions.result call)) else JInt status)) ∨
        answered m reducer ctx args e e1 impl call status ∧ status = -404 ∧ IsReservedName reducer = true ∧
          storage_same (WasmEngine.storage_ e) (WasmEngine.storage_ e') ∧ output = None
  end.

(** A call of a client, to what it is told: the module looked up, its one
    execution, and the verdict. *)
Definition called (now : Z) (client module reducer : string) (args : list WasmValue) (e e' : WasmEngine W) (v : verdict) : Prop :=
  (modules_ e !! module = None ∧ e' = e ∧ v = Refused ("module not found: " +:+ module)) ∨
  ∃ m ctx e2 o, modules_ e !! module = Some m ∧ sent_by client module now ctx ∧
    WasmEngine.Execute now m reducer ctx args e = (e2, o) ∧ WasmEngine.storage_ e' = WasmEngine.storage_ e2 ∧
    took_effect now m reducer ctx args e e2 v ∧
    match o with
    | Done (_, res) =>
        if WasmEngine.success res then ∃ output, v = Completed output else v = Refused (WasmEngine.error res)
    | Escaped what => v = Refused ("call_reducer error: " +:+ what)
    | _ => False
    end.

Lemma arg_of_value a v : arg_of a v → v = arg_value a.
Proof.
  intros [|n m Hm Hmod| | | | | |]; try done. simpl. f_equal. unfold is_i in Hm.
  apply Z.mod_divide in Hmod as [q Hq]; [|lia]. unfold i64, signed. change (64 - 1) with 63 in *.
  rewrite <- (Z.mod_unique (n + 2 ^ 63) (2 ^ 64) (- q) (m + 2 ^ 63)); lia.
Qed.

Lemma asks_runs socket message call_id module reducer args (s : server) :
  asks message call_id module reducer args → has_wasm_engine s = true →
  let '(e', r) := ExecuteReducer (clock (sent_ s)) module reducer (call_context socket module s) args (engine (wasm_ s)) in
  call_runs socket message s call_id e' r.
Proof.
  intros (request & Hp & Hid & Hm & Nm & Hr & Nr & Ha & Hna) He.
  assert (Hargs : args = call_args request).
  { unfold call_args. destruct (json_field "args" request) as [[| | | | | |l|]|]; try (by apply Hna).
    specialize (Ha l eq_refl). apply list_eq_Forall2, Forall2_fmap_r.
    apply Forall2_flip. eapply Forall2_impl; [exact Ha|]. intros ? ? ?. by apply arg_of_value. }
  destruct (ExecuteReducer _ _ _ _ _ _) as [e' r] eqn:Erun. exists request, module, reducer.
  assert (Hobj : is_object request = true) by (by destruct request).
  assert (Hval : ∀ name v, json_field name request = Some (JString v) → value_or_empty name request = Ret v).
  { intros name v Hv. unfold value_or_empty. by rewrite Hobj, Hv. }
  split_and!; try done; [|by apply Hval|by apply Hval|by rewrite <- Hargs].
  destruct Hid as [Hid|[Hid ->]]; [by apply Hval|]. unfold value_or_empty. by rewrite Hobj, Hid.
Qed.

Lemma call_result_reports call_id res output :
  (if WasmEngine.success res then match WasmEngine.values res with v :: _ => result_field v | [] => [] end
   else []) = match output with Some j => [("result", j)] | None => [] end →
  reports call_id (if WasmEngine.success res then Completed output else Refused (WasmEngine.error res)) (call_result call_id res).
Proof.
  intros Hout name. unfold call_result, call_reply, obj. rewrite json_field_object.
  destruct (WasmEngine.success res); [rewrite Hout; destruct output|]; simpl; rewrite ?lookup_insert_Some;
    repeat case_decide; by simplify_map_eq.
Qed.

Lemma call_failed_reports call_id what :
  reports call_id (Refused ("call_reducer error: " +:+ what)) (call_failed [("id", JString call_id)] what).
Proof.
  intros name. unfold call_failed, call_reply, obj. rewrite json_field_object. simpl.
  repeat case_decide; by simplify_map_eq.
Qed.

Lemma sent_reply socket j (s s' : server) :
  send_json socket j s = (s', Done ()) →
  ∃ text, dump j = Ret text ∧ s' = after_sends [(socket, server_frame (str_bytes text), true)] s.
Proof.
  rewrite send_json_run. destruct (dump j) as [text|]; [|done]. cbv zeta.
  destruct (send_ok _ _ _) eqn:E; [|done]. intros [= <-]. by exists text.
Qed.

(** The execution of a call that returned. *)
Lemma Execute_took_effect (guests_safe : ∀ bytecode, GuestSafe (G := guest_of bytecode)) now m reducer ctx args
    (e e2 : WasmEngine W) m1 res :
  WasmEngine.Execute now m reducer ctx args e = (e2, Done (m1, res)) →
  ∃ output,
    took_effect now m reducer ctx args e e2
      (if WasmEngine.success res then Completed output else Refused (WasmEngine.error res)) ∧
    (if WasmEngine.success res then match WasmEngine.values res with v :: _ => result_field v | [] => [] end else [])
    = match output with Some j => [("result", j)] | None => [] end.
Proof.
  intros [([Hu _] & Hf & _)|(e1 & impl & call & status & Ha & [Hu _] & _ & Hc)]%(Execute_steps guests_safe).
  { exists None. rewrite Hf. split; [by left|done]. }
  unfold concluded in Hc. case_decide as Hpos.
  - destruct Hc as (ok & err & Hcommit & -> & Herr & Hval). destruct ok.
    + eexists (Some _). rewrite Hval by done. split.
      * exists e1, impl, call, status. left. exists err. done.
      * by destruct (has_result call).
    + exists None. rewrite Herr by done. split; [|done]. right. exists e1, impl, call, status, err. left. done.
  - destruct Hc as (-> & Hval & Hiff). exists None. rewrite Hval. destruct (WasmEngine.success res) eqn:Es.
    + destruct (proj1 Hiff eq_refl) as [-> Hr]. split; [|done]. exists e1, impl, call, (-404). right. done.
    + split; [by left|done].
Qed.

(** C11.  What the caller of a reducer is told is what happened.  A client's
    message that asks for a reducer of a module runs it once, on the module
    registered under that name, with the arguments of the message and the client
    ID of the connection as sender.  The client is answered in one whole frame
    with the ID of the call, whether it succeeded and the error or the result;
    only a call without ID that succeeded is not answered.  If the answer is an
    error, the tables, the log and the changefeed are as before, unless a commit
    was tried and reported failure or threw; if it is success, the guest answered
    and the writes of that call were committed, or the reducer has one of the
    reserved names and the guest knows none of that name (-404): then nothing was
    committed and there is no result. *)
Theorem call_reducer_replies (guests_safe : ∀ bytecode, GuestSafe (G := guest_of bytecode))
    socket message client call_id module reducer args (s s' : server)
    (Hasks : asks message call_id module reducer args) (Hclient : client_ids_ s !! socket = Some client)
    (Hengine : has_wasm_engine s = true) (Hrun : HandleCallReducer socket message s = (s', Done ())) :
  ∃ e' v, called (clock (sent_ s)) client module reducer args (engine (wasm_ s)) e' v ∧
    (call_id = "" ∧ (∃ output, v = Completed output) ∧ s' = with_engine e' s ∨
     (call_id = "" → ∃ err, v = Refused err) ∧
     ∃ reply text, reports call_id v reply ∧ dump reply = Ret text ∧
       s' = after_sends [(socket, server_frame (str_bytes text), true)] (with_engine e' s)).
Proof.
  pose proof (asks_runs socket _ _ _ _ _ s Hasks Hengine) as Hcall.
  destruct (ExecuteReducer _ _ _ _ _ _) as [e' r] eqn:Erun.
  rewrite (call_runs_handled _ _ _ _ _ _ Hcall) in Hrun. clear Hcall Hasks.
  set (ctx := call_context socket module s) in *.
  assert (Hctx : sent_by client module (clock (sent_ s)) ctx).
  { unfold ctx, call_context, client_of. rewrite Hclient. by split_and!. }
  unfold ExecuteReducer in Erun. unfold mbind at 1, Prog_bind at 1, get_engine in Erun.
  unfold GetModule in Erun. destruct (modules_ (engine (wasm_ s)) !! module) as [m|] eqn:Em.
  2:{ injection Erun as <- <-. cbn [WasmEngine.failed WasmEngine.success andb] in Hrun. exists (engine (wasm_ s)), (Refused ("module not found: " +:+ module)).
      split; [by left|]. right. split; [by eexists|].
      exists (call_result call_id (WasmEngine.failed ("module not found: " +:+ module))).
      apply sent_reply in Hrun as (text & Hd & ->). exists text. split; [|done].
      by apply (call_result_reports _ (WasmEngine.failed _) None). }
  destruct (WasmEngine.Execute (clock (sent_ s)) m reducer ctx args (engine (wasm_ s))) as [e2 o] eqn:Ex. unfold mbind, Prog_bind in Erun. rewrite Ex in Erun.
  destruct o as [[m1 res]|t|what|]; injection Erun as <- <-; try done.
  - destruct (Execute_took_effect guests_safe _ _ _ _ _ _ _ _ _ Ex) as (output & Heff & Hout).
    set (v := if WasmEngine.success res then Completed output else Refused (WasmEngine.error res)) in *.
    exists (set_modules (<[module := m1]> (modules_ e2)) e2), v. split.
    { right. exists m, ctx, e2, (Done (m1, res)). split_and!; try done. unfold v. destruct (WasmEngine.success res); [by eexists|done]. }
    destruct (WasmEngine.success res && bool_decide (call_id = "")) eqn:Eb.
    + apply andb_true_iff in Eb as [Es ->%bool_decide_eq_true]. injection Hrun as <-. left. split; [done|]. split; [|done]. unfold v. rewrite Es. by eexists.
    + right. split.
      { intros ->. rewrite andb_true_r in Eb. unfold v. rewrite Eb. by eexists. }
      apply sent_reply in Hrun as (text & Hd & ->). eexists _, text. split; [|done]. by apply call_result_reports.
  - apply host_bind_inv in Hrun as (s1 & [] & Hrun & [= <-]). apply sent_reply in Hrun as (text & Hd & ->).
    exists e2, (Refused ("call_reducer error: " +:+ what)). split.
    { right. exists m, ctx, e2, (Escaped what). split_and!; try done.
      destruct (Execute_escapes guests_safe _ _ _ _ _ _ _ _ Ex) as [[Hu _]|(e1 & impl & call & status & Ha & [Hu _] & Hp & _ & Hc)];
        [by left|]. right. exists e1, impl, call, status, what. right. done. }
    right. split; [by eexists|]. eexists _, text. split; [apply call_failed_reports|done].
Qed.
End theorems.

(** ** Instances *)

#[local] Existing Instance std_json.
#[local] Existing Instance std_order.
Import StorageCommit.Demo DemoModule.

Module DemoServer.
#[export] Instance environment : Environment :=
  {| send_ok := λ _ _ _, true; clock := λ _, 7; garbage_time := λ _, 0; garbage_flag := λ _, false |}.
#[export] Instance identity_sha1 : Sha1 := λ data, data.
#[export] Instance some_what : ParseWhat := λ _, "parse error".
#[export] Instance list_order : SocketOrder :=
  {| socket_iter := map_to_list; socket_iter_perm := λ m, reflexivity _ |}.

(** A server whose only client, on socket 5, has an SQL subscription; module "m"
    is deployed. *)
Definition manager : SqlSub.Manager := (SqlSub.Subscribe "ada" "SELECT * FROM users" SqlSub.new_Manager).1.
Definition deployed := LoadModule 9 "m" [Byte.x00] "1.2" capabilities DemoModule.engine.
Definition server : Server WalHost :=
  {| wasm_ := WasmSub.new_Manager deployed.1; has_wasm_manager := true; has_wasm_engine := true; has_sql_engine := true;
     has_storage_engine := true; sql_manager_ := Some manager; auth_ := None; active_clients_ := [5];
     client_ids_ := {[ 5 := "ada" ]}; sent_ := []; closed_ := [] |}.

Definition update_event : ChangefeedEvent :=
  {| ev_offset := 1; ev_transaction_id := "t"; ev_table := "users"; ev_operation := "insert"; ev_key := str_bytes "k";
     ev_old_value := []; ev_new_value := []; ev_timestamp := 5 |}.

Lemma manager_wf : SqlSubManager.wf manager.
Proof.
  apply (manager_call_ok SqlSub.new_Manager (CSubscribe "ada" "SELECT * FROM users") new_wf). reflexivity.
Qed.

Definition text (j : json) : string := default "" (exc_value (dump j)).
Definition ping : string := text (obj [("type", JString "ping")]).
Definition call : string :=
  text (obj [("type", JString "call_reducer"); ("id", JString "1"); ("module", JString "m"); ("reducer", JString "write");
             ("args", JArray [JInt 1])]).
End DemoServer.
Import DemoServer.

Lemma changefeed_fan_out_witness :
  ∃ new frame, OnChangefeedEvent "sub" update_event DemoServer.server = (after_sends new DemoServer.server, Done ()) ∧
    (5, frame) ∈ new.*1.
Proof.
  destruct (changefeed_fan_out "sub" update_event DemoServer.server manager eq_refl manager_wf) as (new & Hrun & _ & Hiff & _).
  assert (Hq : ∃ q, SqlSub.subscriptions_ manager !! "sql_sub_1" = Some q ∧ MatchesEvent q update_event = true ∧
    find_socket (SqlSub.client_id q) DemoServer.server = Some 5 ∧
    ∃ t, dump (event_fields "sql_changefeed_event" "sub" (FilterEvent q update_event)) = Ret t).
  { eexists. split; [vm_compute; reflexivity|]. split; [vm_compute; reflexivity|]. split; [vm_compute; reflexivity|].
    eexists. vm_compute. reflexivity. }
  destruct Hq as (q & Hq & Hm & Hk & t & Ht). exists new, (server_frame (str_bytes t)). split; [exact Hrun|].
  apply Hiff. exists "sql_sub_1", q, t. split; [exact Hq|]. split; [exact Hm|]. split; [exact Hk|]. split; [exact Ht|reflexivity].
Defined.

Definition pinged := HandleWebSocketMessage 5 ping DemoServer.server.
Lemma pinged_done : pinged = (pinged.1, Done ()).
Proof. assert (pinged.2 = Done ()) as <- by (vm_compute; reflexivity). apply surjective_pairing. Qed.

Lemma every_message_answered_witness : served 5 DemoServer.server pinged.1 ∨ sent_ pinged.1 = sent_ DemoServer.server.
Proof.
  destruct (proj1 (every_message_answered 5 ping DemoServer.server pinged.1 (Done ()) pinged_done) eq_refl)
    as [H|(e' & res & _ & _ & _ & H)]; [left; exact H|right; exact H].
Defined.

Lemma call_asks : asks call "1" "m" "write" [WInt64 1].
Proof.
  exists (obj [("type", JString "call_reducer"); ("id", JString "1"); ("module", JString "m"); ("reducer", JString "write");
               ("args", JArray [JInt 1])]).
  split; [vm_compute; reflexivity|]. split; [left; vm_compute; reflexivity|]. split; [vm_compute; reflexivity|].
  split; [discriminate|]. split; [vm_compute; reflexivity|]. split; [discriminate|].
  assert (Ha : json_field "args" (obj [("type", JString "call_reducer"); ("id", JString "1"); ("module", JString "m");
     ("reducer", JString "write"); ("args", JArray [JInt 1])]) = Some (JArray [JInt 1])) by (vm_compute; reflexivity).
  rewrite Ha. split.
  - intros l [= <-]. constructor; [|constructor]. apply arg_int; [unfold is_i; lia|reflexivity].
  - intros H. by destruct (H [JInt 1]).
Qed.

Definition call_handled := HandleCallReducer 5 call DemoServer.server.
Lemma call_returns : HandleCallReducer 5 call DemoServer.server = (call_handled.1, Done ()).
Proof.
  assert (call_handled.2 = Done ()) as <- by (vm_compute; reflexivity). exact (surjective_pairing (HandleCallReducer 5 call DemoServer.server)).
Qed.

(** The client is told that its call went through. *)
Lemma call_reducer_replies_witness :
  ∃ e' v, called 7 "ada" "m" "write" [WInt64 1] (WasmSub.engine (wasm_ DemoServer.server)) e' v ∧
    ∃ reply, reports "1" v reply ∧ exists text, dump reply = Ret text ∧
      sent_ call_handled.1 = [(5, server_frame (str_bytes text), true)].
Proof.
  destruct (call_reducer_replies DemoModule.guests_safe 5 call "ada" "1" "m" "write" [WInt64 1] DemoServer.server call_handled.1
    call_asks eq_refl eq_refl call_returns) as (e' & v & Hc & [(H & _)|(_ & reply & text & Hr & Hd & Hs)]); [discriminate H|].
  exists e', v. split; [exact Hc|]. exists reply. split; [exact Hr|]. exists text. split; [exact Hd|].
  rewrite Hs. reflexivity.
Defined.

(** The reply that reports an exception may itself not be serialisable: the
    library's message for a text that is not JSON quotes it. *)
Example report_escapes (PW := (λ s, "last read: " +:+ s) : ParseWhat) :
  ∃ what, (HandleWebSocketMessage 5 (bytes_str [Byte.xff]) DemoServer.server).2 = Escaped what.
Proof. eexists. vm_compute. reflexivity. Qed.
