(* ===== verification/LivePath.v ===== *)
(** * From a commit to the sockets

    A committed write set, its changefeed events and what the WebSocket server
    sends for them, composed: which client is told of which write.  The storage
    engine gives the events ([StorageCommit]), the subscriptions match them
    ([SqlSubEvents]) and the server sends them ([WsEvents]). *)

From Stdlib Require Import Strings.Ascii.
From S2P Require Import Prelude Table Codec RowCodec Float64 Json ModuleStore ModuleStoreRestart MemTable Txn WalStore Changefeed StorageJson Storage StorageCommit HostFunctions HostReads WasmEngine WasmSub Auth Regex Predicate PredicateEval SqlEngine SqlSub SqlSubManager SqlSubEvents WsFrame WsServer WsEvents.
From coqutil Require Import Byte.

(** ** Texts *)

Lemma pretty_N_char_ascii n : byte.unsigned (byte_of_ascii (pretty_N_char n)) <= 127.
Proof. destruct n as [|p]; [|do 4 (try destruct p as [p|p|])]; vm_compute; congruence. Qed.

Lemma utf8_pretty_N_go n s : utf8 s = true → utf8 (pretty_N_go n s) = true.
Proof.
  revert s. induction (N.lt_wf_0 n) as [n _ IH]; intros s Hs.
  destruct (decide (n = 0)%N) as [->|Hn]; [by rewrite pretty_N_go_0|].
  rewrite pretty_N_go_step by lia. apply IH; [apply N.div_lt; lia|].
  rewrite utf8_cons; [done|]. apply pretty_N_char_ascii.
Qed.

Lemma utf8_pretty_N (n : N) : utf8 (pretty n) = true.
Proof. unfold pretty, pretty_N. case_decide; [done|]. by apply utf8_pretty_N_go. Qed.

Lemma utf8_pretty_Z (n : Z) : utf8 (pretty n) = true.
Proof.
  destruct n as [|p|p]; [done|apply utf8_pretty_N|].
  change (utf8 (String "-" (pretty (Npos p))) = true). rewrite utf8_cons; [apply utf8_pretty_N|]. vm_compute. congruence.
Qed.

Lemma json_ok_byte x : json_ok (JInt (byte.unsigned x)) = true.
Proof. apply bool_decide_eq_true. pose proof (byte.unsigned_range x). lia. Qed.

Lemma json_ok_binary b : json_ok (binary_text b) = true.
Proof.
  assert (H : forallb json_ok ((λ x, JInt (byte.unsigned x)) <$> b) = true).
  { apply forallb_forall. intros j (x & <- & _)%in_map_iff. apply json_ok_byte. }
  unfold binary_text. cbn [json_ok forallb fst snd]. rewrite H. reflexivity.
Qed.

(** The text of a value is a value the library can print. *)
Lemma json_ok_text : ∀ j, json_ok j = true → json_ok (json_text j) = true.
Proof.
  fix IH 1. intros j. destruct j as [| |n|b|s|b|l|fs]; intros H; [exact H|exact H|exact H| |exact H| | |].
  - cbn [json_text]. destruct (double_finite b); reflexivity.
  - exact (json_ok_binary b).
  - cbn [json_text json_ok] in *. induction l as [|j l IHl]; [reflexivity|]. cbn [map forallb] in *.
    apply andb_true_iff in H as [H1 H2]. rewrite (IH j H1). exact (IHl H2).
  - cbn [json_text json_ok] in *. apply andb_true_iff in H as [Hk H]. apply andb_true_iff. split.
    + clear -Hk. unfold keys_sorted in *. change (map ?f fs) with (f <$> fs). by rewrite <- list_fmap_compose.
    + clear Hk. induction fs as [|[k j] fs IHfs]; [reflexivity|]. cbn [map forallb fst snd] in *.
      apply andb_true_iff in H as [H1 H2].
      apply andb_true_iff in H1 as [Hk H1]. rewrite Hk, (IH j H1). exact (IHfs H2).
Qed.

Lemma json_ok_obj fields : Forall (λ kv, utf8 kv.1 = true ∧ json_ok kv.2 = true) fields → json_ok (obj fields) = true.
Proof.
  intros H. apply json_ok_object. intros k v Hk%elem_of_list_to_map_2.
  by apply (proj1 (Forall_forall _ _) H (k, v)).
Qed.

(** ** Events that can be sent *)

Lemma millis_bounds n : - 2 ^ 63 <= n < 2 ^ 63 → - 2 ^ 63 <= Z.quot n 1000000 < 2 ^ 64.
Proof. Z.to_euclidean_division_equations. lia. Qed.

Section events.
Context `{JL : JsonLib}.

(** A value is empty or the text of a row. *)
Definition value_ok (v : bytes) : Prop :=
  v = [] ∨ ∃ row, row_utf8 row ∧ v ≠ [] ∧ utf8 (bytes_str v) = true ∧ parse_bytes v = Some (json_text (row_json row)).

Record event_text (ev : ChangefeedEvent) : Prop := {
  et_offset : is_u 64 (ev_offset ev);
  et_time : is_i 64 (ev_timestamp ev);
  et_txn : utf8 (ev_transaction_id ev) = true;
  et_table : utf8 (ev_table ev) = true;
  et_op : utf8 (ev_operation ev) = true;
  et_key : utf8 (bytes_str (ev_key ev)) = true;
  et_old : utf8 (bytes_str (ev_old_value ev)) = true;
  et_new : utf8 (bytes_str (ev_new_value ev)) = true
}.

Lemma value_ok_utf8 v : value_ok v → utf8 (bytes_str v) = true.
Proof. by intros [->|(? & _ & _ & ? & _)]. Qed.

Lemma SerializeRow_value row data : row_utf8 row → SerializeRow row = Ret data → value_ok data.
Proof.
  intros Hrow Hs. destruct (SerializeRow_text row Hrow) as (d & Hd & Hne & Hp).
  destruct (row_roundtrip row Hrow) as (d' & Hd' & _ & Hu). right. exists row. split_and!; congruence.
Qed.

Lemma event_fields_dump type sub ev :
  utf8 type = true → utf8 sub = true → event_text ev → ∃ text, dump (event_fields type sub ev) = Ret text.
Proof.
  intros Ht Hs [Ho Hm Hx Htb Hop Hk Hov Hnv].
  destruct (dump_text (event_fields type sub ev)) as (text & H & _); [|by exists text].
  apply json_ok_obj. rewrite !Forall_app.
  assert (Hb : ∀ name (b : bytes), utf8 name = true → utf8 (bytes_str b) = true →
    Forall (λ kv, utf8 kv.1 = true ∧ json_ok kv.2 = true) (if bool_decide (b = []) then [] else [(name, JString (bytes_str b))])).
  { intros name b Hn Hb. case_bool_decide; [constructor|]. by apply Forall_singleton. }
  split_and!; [|by apply Hb..]. repeat (apply Forall_cons; split); simpl; try done; split; try done; apply bool_decide_eq_true.
  - unfold is_u in Ho. lia.
  - apply is_i64_bounds in Hm. by apply millis_bounds.
Qed.

(** ** The event of a write *)

(** A projection keeps the event printable: only "key" and "columns" are
    fields of the text of a row. *)
Lemma filtered_row_ok cols row : row_utf8 row → json_ok (filtered_json cols (json_text (row_json row))) = true.
Proof.
  intros Hrow. unfold filtered_json.
  set (step := λ (m : gmap string json) col, match json_field col (json_text (row_json row)) with
    Some v => <[col := v]> m | None => m end).
  assert (Hm : ∀ m, map_Forall (λ k v, utf8 k = true ∧ json_ok v = true) m →
    map_Forall (λ k v, utf8 k = true ∧ json_ok v = true) (fold_left step cols m)).
  { induction cols as [|c cols IH]; intros m Hm; [done|]. cbn [fold_left]. apply IH. unfold step.
    rewrite row_text_field. repeat case_decide; subst; [| |done]; apply map_Forall_insert_2; try done.
    - split; [done|]. apply Hrow.
    - split; [done|]. apply json_ok_text, json_ok_object. intros k v (x & <- & Hx)%lookup_fmap_Some.
      destruct (proj2 Hrow k x Hx) as (? & ? & ?). split; [done|]. by apply value_json_ok. }
  case_decide; [done|]. apply json_ok_object, Hm, map_Forall_empty.
Qed.

Lemma filter_value_utf8 cols v v' : value_ok v → filter_value cols v = Ret v' → utf8 (bytes_str v') = true.
Proof.
  intros [->|(row & Hrow & Hne & _ & Hp)]; unfold filter_value; [by intros [= <-]|].
  rewrite Hp. destruct (dump_text _ (filtered_row_ok cols row Hrow)) as (t & Ht & _ & Hu & _). rewrite Ht.
  destruct v; [done|]. intros [= <-]. by rewrite bytes_str_bytes.
Qed.

Lemma FilterEvent_text q ev :
  event_text ev → value_ok (ev_old_value ev) → value_ok (ev_new_value ev) → event_text (FilterEvent q ev).
Proof.
  intros Ht Ho Hn. unfold FilterEvent. repeat case_decide; [done| |done].
  destruct (filter_value (columns q) (ev_new_value ev)) as [nv|] eqn:En; [|done].
  destruct (filter_value (columns q) (ev_old_value ev)) as [ov|] eqn:Eo; [|done].
  destruct Ht. split; simpl; try done.
  - exact (filter_value_utf8 _ _ _ Ho Eo).
  - exact (filter_value_utf8 _ _ _ Hn En).
Qed.

(** The event published for a write: the one made of it, with its offset and
    time. *)
Definition published_for (now : Z) (txn : Transaction) (w : WriteOperation) (old : option Row) (ev : ChangefeedEvent) : Prop :=
  ∃ ev0 o, write_event now txn w old = Ret ev0 ∧ is_u 64 o ∧ ev = stamp now o ev0.

Lemma published_text now txn w old ev :
  is_i 64 now → utf8 (w_table w) = true → row_utf8 (w_row w) → old_utf8 old →
  published_for now txn w old ev → event_text ev ∧ value_ok (ev_old_value ev) ∧ value_ok (ev_new_value ev).
Proof.
  intros Hnow Ht Hw Hold (ev0 & o & E & Ho & ->). unfold write_event in E.
  destruct (if decide (w_op w = WDELETE) then _ else _) as [nv|] eqn:En; [|done].
  destruct (match old with Some r => _ | None => _ end) as [ov|] eqn:Eo; [|done]. injection E as <-.
  assert (Hn : value_ok nv).
  { destruct (decide _); [injection En as <-; by left|]. by apply (SerializeRow_value (w_row w)). }
  assert (Hv : value_ok ov).
  { destruct old as [r|]; [by apply (SerializeRow_value r)|]. injection Eo as <-. by left. }
  split; [|done]. split; simpl; try done; try by apply value_ok_utf8.
  - apply utf8_pretty_Z.
  - by destruct (w_op w).
  - rewrite bytes_str_bytes. apply Hw.
Qed.

Lemma published_matches now txn w old ev q :
  row_utf8 (w_row w) → old_utf8 old → published_for now txn w old ev → MatchesEvent q ev = row_matches q w old.
Proof.
  intros Hw Hold (ev0 & o & E & _ & ->). destruct (subscription_sees_write now txn w old Hw Hold) as (ev' & E' & H).
  rewrite E in E'. injection E' as <-. apply H.
Qed.
End events.

(** ** The rows before each write *)

(** The row each write finds, by the abstract store. *)
Definition row_before (w : WriteOperation) (st : store) : option Row :=
  mkRow (row_key (w_row w)) <$> (st !! w_table w ≫= λ m, m !! row_key (w_row w)).

Fixpoint rows_before (ws : list WriteOperation) (st : store) : list (option Row) :=
  match ws with
  | [] => []
  | w :: ws => row_before w st :: match spec_write w st with Some st' => rows_before ws st' | None => [] end
  end.

Lemma row_matches_old q w old old' :
  row_columns <$> old = row_columns <$> old' → row_matches q w old = row_matches q w old'.
Proof. unfold row_matches, row_view. destruct old, old'; intros H; simplify_eq/=; by rewrite ?H. Qed.

(** Every stored row is one JSON can hold. *)
Definition table_utf8 (t : MemTable) : Prop := map_Forall (λ _ r, row_utf8 r) (rows_ t).
Definition tables_utf8 (ts : gmap string MemTable) : Prop := map_Forall (λ _, table_utf8) ts.

Lemma Update_utf8 now t k row : table_utf8 t → row_utf8 row → table_utf8 (MemTable.Update now t k row).1.
Proof.
  intros Ht Hr. unfold MemTable.Update. destruct (rows_ t !! k); [|done]. by apply map_Forall_insert_2.
Qed.

Lemma apply_op_utf8 now w t : table_utf8 t → row_utf8 (w_row w) →
  let '(t', old, _, _) := apply_op now w t in table_utf8 t' ∧ old_utf8 old.
Proof.
  intros Ht Hw. unfold apply_op. set (k := row_key (w_row w)).
  assert (Hget : old_utf8 (MemTable.Get t k)).
  { unfold MemTable.Get. destruct (rows_ t !! k) eqn:E; [|done]. by eapply Ht. }
  pose proof (Update_utf8 now t k (w_row w) Ht Hw) as Hu.
  destruct (w_op w).
  - unfold MemTable.Insert. fold k. destruct (rows_ t !! k) eqn:E.
    + unfold MemTable.Get. rewrite E. destruct (MemTable.Update now t k (w_row w)). split; [done|]. by eapply Ht.
    + split; [|done]. by apply map_Forall_insert_2.
  - by destruct (MemTable.Update now t k (w_row w)).
  - unfold MemTable.Delete. destruct (rows_ t !! k); split; try done. by apply map_Forall_delete.
Qed.

Section path.
Context {W : Type} `{WA : WalApi W} `{JL : JsonLib} `{HO : HashOrder} `{WT : Wasmtime W}.
Context {EV : Environment} {S1 : Sha1} {PW : ParseWhat} {SO : SocketOrder}.
Abbreviation engine := (StorageEngine W).
Abbreviation server := (Server W).

(** The event made of a write, given the columns of the row before it. *)
Definition made_for (now : Z) (txn : Transaction) (w : WriteOperation) (before : option Row) (ev : ChangefeedEvent) : Prop :=
  ∃ old, row_columns <$> old = row_columns <$> before ∧ old_utf8 old ∧ write_event now txn w old = Ret ev.

Lemma apply_write_made now txn w (e e1 : engine) en ev :
  apply_write now txn w e = (e1, Ret (Some (en, ev))) → tables_utf8 (tables_ e) → row_utf8 (w_row w) →
  spec_write w (views (tables_ e)) = Some (views (tables_ e1)) ∧ tables_utf8 (tables_ e1) ∧
  changefeed_engine_ e1 = changefeed_engine_ e ∧
  (is_Some (changefeed_engine_ e) → ∃ v, ev = Some v ∧ made_for now txn w (row_before w (views (tables_ e))) v).
Proof.
  intros Hw Hts Hr. destruct (apply_write_spec _ _ _ _ _ _ Hw) as [(_ & _ & _ & Hc & _) Hspec].
  destruct (spec_write w (views (tables_ e))) as [st|] eqn:Es; [|by destruct Hspec].
  destruct Hspec as (_ & _ & Hst & _). split; [by rewrite Hst|].
  unfold apply_write in Hw. destruct (tables_ e !! w_table w) as [t|] eqn:Et; [|done].
  pose proof (apply_op_spec now w t) as Hop. pose proof (apply_op_utf8 now w t (Hts _ _ Et) Hr) as Hu.
  destruct (apply_op now w t) as [[[t' old] n] ok]. destruct Hu as [Ht' Hold].
  destruct ok; [|done]. destruct (spec_op w (view t)); [|by destruct Hop]. destruct Hop as (_ & _ & Hop & _). simpl in Hw.
  assert (Hts' : tables_utf8 (<[w_table w := t']> (tables_ e))) by by apply map_Forall_insert_2.
  assert (Hb : row_columns <$> old = row_columns <$> row_before w (views (tables_ e))).
  { rewrite Hop. unfold row_before, views. rewrite lookup_fmap, Et. simpl. rewrite view_lookup.
    by destruct (rows_ t !! row_key (w_row w)). }
  destruct (changefeed_engine_ e) as [c|].
  - destruct (write_event now txn w old) as [v|] eqn:Ev; [|done]. injection Hw as <- _ <-.
    split; [done|]. split; [done|]. intros _. exists v. split; [done|]. by exists old.
  - injection Hw as <- _ _. split; [done|]. split; [done|]. by intros [? ?].
Qed.

Lemma apply_writes_made now txn ws : ∀ entries events (e e1 : engine) en evs,
  apply_writes now txn ws entries events e = (e1, Ret (Some (en, evs))) →
  is_Some (changefeed_engine_ e) → tables_utf8 (tables_ e) → Forall (λ w, row_utf8 (w_row w)) ws →
  ∃ new, evs = events ++ new ∧ Forall3 (made_for now txn) ws (rows_before ws (views (tables_ e))) new.
Proof.
  induction ws as [|w ws IH]; intros entries events e e1 en evs; cbn [apply_writes rows_before].
  - intros [= _ _ <-] _ _ _. exists []. rewrite app_nil_r. split; [done|constructor].
  - intros H Hc Hts [Hw Hws]%Forall_cons.
    destruct (apply_write now txn w e) as [e2 [[[en2 ev]|]|]] eqn:Ha; [|done..].
    destruct (apply_write_made _ _ _ _ _ _ _ Ha Hts Hw) as (Hs & Hts2 & Hc2 & Hev).
    destruct (Hev Hc) as (v & -> & Hv).
    destruct (IH _ _ _ _ _ _ H) as (new & -> & Hnew); [by rewrite Hc2|done..|].
    exists (v :: new). rewrite Hs, <- app_assoc. split; [done|]. by constructor.
Qed.

Lemma publish_fold_offsets now evs c : is_u 64 (Changefeed.next_offset_ c) →
  ∃ evs', cf_published (fold_left (λ c ev, PublishEvent now ev c) evs c) = cf_published c ++ evs'
          ∧ Forall2 (λ ev ev', ∃ o, is_u 64 o ∧ ev' = stamp now o ev) evs evs'.
Proof.
  revert c. induction evs as [|ev evs IH]; intros c Hc; simpl.
  - exists []. rewrite app_nil_r. split; [done|constructor].
  - destruct (IH (PublishEvent now ev c)) as (evs' & -> & Hevs').
    { assert (Changefeed.next_offset_ (PublishEvent now ev c) = u64 (Changefeed.next_offset_ c + 1)) as ->
        by (unfold PublishEvent, notify; by destruct (delivery_pc c)). apply Z.mod_pos_bound. lia. }
    exists (stamp now (Changefeed.next_offset_ c) ev :: evs'). split; [|constructor; [by eexists|done]].
    change (stamp now (Changefeed.next_offset_ c) ev :: evs') with ([stamp now (Changefeed.next_offset_ c) ev] ++ evs').
    rewrite app_assoc. f_equal. unfold PublishEvent, notify. by destruct (delivery_pc c).
Qed.

Definition written_utf8 (w : WriteOperation) : Prop := utf8 (w_table w) = true ∧ row_utf8 (w_row w).

(** What a commit that returned true has published. *)
Lemma Commit_made now txn (e e' : engine) txn' c :
  Commit now txn e = (e', txn', Ret true) → changefeed_engine_ e = Some c → is_u 64 (Changefeed.next_offset_ c) →
  tables_utf8 (tables_ e) → Forall (λ w, row_utf8 (w_row w)) (t_write_set txn) →
  ∃ c' evs made, changefeed_engine_ e' = Some c' ∧ cf_published c' = cf_published c ++ evs ∧
    Forall3 (made_for now txn) (t_write_set txn) (rows_before (t_write_set txn) (views (tables_ e))) made ∧
    Forall2 (λ ev ev', ∃ o, is_u 64 o ∧ ev' = stamp now o ev) made evs.
Proof.
  intros Hcommit Hc Hu Hts Hws. unfold Commit in Hcommit. destruct (IsActive txn); [|done]. cbn [negb] in Hcommit.
  case_decide as E.
  { rewrite E. cbn in Hcommit. injection Hcommit as <- _. cbn. rewrite Hc. cbn. exists c, [], [].
    rewrite app_nil_r. split_and!; [done|done|constructor|constructor]. }
  unfold commit_locked in Hcommit.
  destruct (apply_writes now txn (t_write_set txn) [] [] e) as [e2 [[[en made]|]|]] eqn:Ha; [|done..].
  assert (Hc2 : changefeed_engine_ e2 = Some c).
  { apply apply_writes_spec in Ha as ((_ & _ & _ & -> & _) & _). done. }
  destruct (apply_writes_made _ _ _ _ _ _ _ _ _ Ha) as (made' & Hm & Hmade); [by rewrite Hc|done..|].
  simpl in Hm. subst made'. destruct (wal_append en (wal_ e2)) as [w' []]; [|done]. cbn in Hcommit.
  injection Hcommit as <- _. cbn. rewrite Hc2. cbn.
  destruct (publish_fold_offsets now made c Hu) as (evs & Hp & Hs). eexists _, evs, made. by split_and!.
Qed.

(** The frame that tells of an event, and what the server sends for the event of
    a write: a frame to every connected client for each of its subscriptions that
    selects the write. *)
Definition event_frame (sub : string) (ev : ChangefeedEvent) : bytes :=
  server_frame (str_bytes (default "" (exc_value (dump (event_fields "sql_changefeed_event" sub ev))))).

Definition told (s : server) (m : SqlSub.Manager) (sub : string) (w : WriteOperation) (before : option Row)
    (ev : ChangefeedEvent) : list (Z * bytes) :=
  omap (λ kv : string * SqlSubscription,
          if row_matches kv.2 w before
          then (λ socket, (socket, event_frame sub (FilterEvent kv.2 ev))) <$> find_socket (SqlSub.client_id kv.2) s
          else None) (map_to_list (SqlSub.subscriptions_ m)).

Definition sendable (sub : string) (ev : ChangefeedEvent) : Prop :=
  ∀ q, ∃ text, dump (event_fields "sql_changefeed_event" sub (FilterEvent q ev)) = Ret text.

Lemma omap_omap_list {A B C} (f : A → option B) (g : B → option C) (l : list A) : omap g (omap f l) = omap (λ a, f a ≫= g) l.
Proof. induction l as [|a l IH]; [done|]. cbn. destruct (f a) as [b|]; cbn; [|exact IH]. destruct (g b); [f_equal|]; exact IH. Qed.

Lemma Forall3_nil_inv {A B C} (P : A → B → C → Prop) k k' : Forall3 P [] k k' → k = [] ∧ k' = [].
Proof. by inversion 1. Qed.

(** What is shown of each write, its event and the frames sent for it. *)
Definition write_told (s : server) (m : SqlSub.Manager) (sub : string) (txn : Transaction)
    (wb : WriteOperation * option Row) (ev : ChangefeedEvent) (new : list attempt) : Prop :=
  event_of txn wb.1 ev ∧ sendable sub ev ∧ new.*1 ≡ₚ told s m sub wb.1 wb.2 ev.

Lemma event_told now txn w before made ev sub (s : server) m :
  is_i 64 now → written_utf8 w → made_for now txn w before made → (∃ o, is_u 64 o ∧ ev = stamp now o made) →
  utf8 sub = true → sql_manager_ s = Some m → SqlSubManager.wf m →
  ∃ new, OnChangefeedEvent sub ev s = (after_sends new s, Done ()) ∧ write_told s m sub txn (w, before) ev new.
Proof.
  intros Hnow [Ht Hw] (old & Hb & Hold & Hmade) (o & Ho & Hev) Hsub Hm Hwf.
  assert (Hp : published_for now txn w old ev) by by exists made, o.
  destruct (published_text now txn w old ev Hnow Ht Hw Hold Hp) as (Htext & Hov & Hnv).
  assert (Hdump : sendable sub ev).
  { intros q. apply event_fields_dump; [done|done|]. by apply FilterEvent_text. }
  destruct (OnChangefeedEvent_run sub ev s m Hm Hwf) as (new & Hrun & Hperm).
  exists new. split; [done|]. split; [subst ev; exact (write_event_of _ _ _ _ _ Hmade)|]. split; [done|].
  rewrite Hperm. unfold told, spec_deliver. simpl. rewrite omap_omap_list. apply reflexive_eq, omap_ext_elem.
  intros [i q] _. simpl. rewrite (published_matches now txn w old ev q Hw Hold Hp), (row_matches_old q w old before Hb).
  destruct (row_matches q w before); [|done]. unfold frame_for, event_frame. simpl.
  destruct (find_socket (SqlSub.client_id q) s); [|done]. simpl. destruct (Hdump q) as [text Htx]. by rewrite Htx.
Qed.

Lemma events_told now txn sub m ws befores made evs :
  is_i 64 now → utf8 sub = true → SqlSubManager.wf m → Forall written_utf8 ws →
  Forall3 (made_for now txn) ws befores made → Forall2 (λ ev ev', ∃ o, is_u 64 o ∧ ev' = stamp now o ev) made evs →
  ∀ s : server, sql_manager_ s = Some m →
  ∃ news, for_each (OnChangefeedEvent sub) evs s = (after_sends (concat news) s, Done ()) ∧
    Forall3 (write_told s m sub txn) (zip ws befores) evs news.
Proof.
  intros Hnow Hsub Hwf Hws Hmade. revert evs.
  induction Hmade as [|w b mv ws bs made Hmv _ IH]; intros evs Hs s Hm.
  { apply Forall2_nil_inv_l in Hs as ->. exists []. simpl. rewrite after_sends_nil. split; [done|constructor]. }
  apply Forall2_cons_inv_l in Hs as (ev & evs' & Hev & Hs & ->). apply Forall_cons in Hws as [Hw Hws].
  destruct (event_told now txn w b mv ev sub s m Hnow Hw Hmv Hev Hsub Hm Hwf) as (new & Hrun & Htold).
  destruct (IH Hws evs' Hs (after_sends new s) Hm) as (news & Hruns & Htolds).
  exists (new :: news). cbn [for_each concat]. rewrite (host_bind_done _ _ _ _ _ Hrun), Hruns, after_sends_app.
  split; [done|]. by constructor.
Qed.

(** C18.  A committed write is told to exactly the clients that asked for it.  When a
    commit of UTF-8 rows returns true, it has published one event per write, in
    order; and the server that is handed these events sends, for each write, one
    frame with the filtered event for every SQL subscription whose table and
    predicate select the row written or the row before it, on the socket of its
    client if that is connected, and nothing else; no event is lost to a text that
    cannot be serialised. *)
Theorem commit_reaches_clients now txn (e e' : engine) txn' c sub (s : server) m
    (Hcommit : Commit now txn e = (e', txn', Ret true))
    (Hfeed : changefeed_engine_ e = Some c) (Hoff : is_u 64 (Changefeed.next_offset_ c)) (Hnow : is_i 64 now)
    (Hrows : tables_utf8 (tables_ e)) (Hws : Forall written_utf8 (t_write_set txn))
    (Hsub : utf8 sub = true) (Hm : sql_manager_ s = Some m) (Hwf : SqlSubManager.wf m) :
  let befores := rows_before (t_write_set txn) (views (tables_ e)) in
  length befores = length (t_write_set txn) ∧
  ∃ c' evs news, changefeed_engine_ e' = Some c' ∧ cf_published c' = cf_published c ++ evs ∧
    for_each (OnChangefeedEvent sub) evs s = (after_sends (concat news) s, Done ()) ∧
    Forall3 (write_told s m sub txn) (zip (t_write_set txn) befores) evs news.
Proof.
  destruct (Commit_made now txn e e' txn' c Hcommit Hfeed Hoff Hrows) as (c' & evs & made & Hc' & Hp & Hmade & Hs).
  { eapply Forall_impl; [exact Hws|]. by intros w [_ ?]. }
  split; [symmetry; by eapply Forall3_length_lm|].
  destruct (events_told now txn sub m _ _ _ evs Hnow Hsub Hwf Hws Hmade Hs s Hm) as (news & Hrun & Htold).
  by exists c', evs, news.
Qed.
End path.

(** ** An example *)

#[local] Existing Instance std_json.
#[local] Existing Instance std_order.
Import StorageCommit.Demo DemoServer.

(** Ada on socket 5 watches all users, Bob on socket 6 those with [n > 1]; both
    rows of [writes1] are committed. *)
Definition both : SqlSub.Manager := (SqlSub.Subscribe "bob" "SELECT * FROM users WHERE n > 1" DemoServer.manager).1.
Definition watched : Server WalHost :=
  set_clients [5; 6] {[ 5 := "ada"; 6 := "bob" ]} (set_sql (Some both) DemoServer.server).

Lemma both_wf : SqlSubManager.wf both.
Proof.
  apply (manager_call_ok DemoServer.manager (CSubscribe "bob" "SELECT * FROM users WHERE n > 1") manager_wf). reflexivity.
Qed.

(** What the two writes are told, for any event. *)
Definition before (n : nat) : WriteOperation * option Row :=
  nth n (zip writes1 (rows_before writes1 (views (tables_ engine0)))) (write WINSERT "" 0, None).

Lemma writes_before :
  zip (t_write_set (txn writes1)) (rows_before (t_write_set (txn writes1)) (views (tables_ engine0))) = [before 0; before 1].
Proof. vm_compute. reflexivity. Qed.
Lemma told_first ev : told watched both "sub" (before 0).1 (before 0).2 ev ≡ₚ [(5, event_frame "sub" ev)].
Proof. unfold told. generalize (event_frame "sub"). intros f. vm_compute. reflexivity. Qed.
Lemma told_second ev : told watched both "sub" (before 1).1 (before 1).2 ev ≡ₚ [(5, event_frame "sub" ev); (6, event_frame "sub" ev)].
Proof.
  unfold told. generalize (event_frame "sub"). intros f. vm_compute. first [reflexivity|apply Permutation_swap].
Qed.

Lemma commit_reaches_clients_witness :
  ∃ c' evs ada1 ada2 bob2 news, changefeed_engine_ engine1 = Some c' ∧ cf_published c' = evs ∧ length news = 3%nat ∧ news.*1 ≡ₚ [(5, ada1); (5, ada2); (6, bob2)] ∧
    for_each (OnChangefeedEvent "sub") evs watched = (after_sends news watched, Done ()).
Proof.
  assert (Hc : Commit 7 (txn writes1) engine0 = (engine1, SetCommitted (txn writes1), Ret true)) by (vm_compute; reflexivity).
  destruct (commit_reaches_clients 7 (txn writes1) engine0 engine1 (SetCommitted (txn writes1)) (new_Changefeed demo_config)
    "sub" watched both Hc) as (_ & c' & evs & news & Hf & Hpub & Hrun & Htold).
  - vm_compute. reflexivity.
  - split; vm_compute; congruence.
  - split; vm_compute; congruence.
  - apply (bool_decide_unpack _). vm_compute. exact I.
  - apply (bool_decide_unpack _). vm_compute. exact I.
  - vm_compute. reflexivity.
  - reflexivity.
  - exact both_wf.
  - rewrite writes_before in Htold.
    apply Forall3_cons_inv_l in Htold as (ev1 & evs1 & n1 & news1 & -> & -> & (_ & _ & H1) & Htold).
    apply Forall3_cons_inv_l in Htold as (ev2 & evs2 & n2 & news2 & -> & -> & (_ & _ & H2) & Hnil).
    apply Forall3_nil_inv in Hnil as [-> ->].
    pose proof (Permutation_trans H1 (told_first ev1)) as Hn1. pose proof (Permutation_trans H2 (told_second ev2)) as Hn2.
    exists c', [ev1; ev2], (event_frame "sub" ev1), (event_frame "sub" ev2), (event_frame "sub" ev2), (n1 ++ n2).
    assert (Hp : (n1 ++ n2).*1 ≡ₚ [(5, event_frame "sub" ev1); (5, event_frame "sub" ev2); (6, event_frame "sub" ev2)]).
    { rewrite fmap_app, Hn1, Hn2. reflexivity. }
    split; [exact Hf|]. split; [exact Hpub|]. split; [rewrite <- (length_fmap fst), Hp; reflexivity|]. split; [exact Hp|]. rewrite Hrun. simpl. by rewrite app_nil_r.
Defined.
