(* ===== verification/WsSession.v ===== *)
(** * Sessions of the WebSocket server: admission, messages, departure *)

From Stdlib Require Import Strings.Ascii.
From S2P Require Import Prelude Table Codec RowCodec Float64 Json MemTable Txn WalStore Changefeed StorageJson Storage RowJson StorageCommit HostFunctions WasmEngine WasmExec WasmSub WasmSubEvents ModuleStore Auth Regex Predicate SqlEngine SqlSub SqlSubManager WsFrame WsServer WsAdmission WsEvents.

Section theorems.
Context {W : Type} `{WA : WalApi W} `{JL : JsonLib} `{HO : HashOrder} `{WT : Wasmtime W}.
Context {EV : Environment} {S1 : Sha1} {PW : ParseWhat} {SO : SocketOrder}.
Abbreviation server := (Server W).
Abbreviation Srv := (Prog (Server W)).

(** ** Calls of the subscription manager *)

Lemma callback_run d (s : server) : ∃ new, OnWasmSubscriptionEvent d s = (after_sends new s, Done ()).
Proof.
  destruct d as [[i client] data]. unfold OnWasmSubscriptionEvent, server_state, mbind at 1, Prog_bind.
  destruct (find_socket client s) as [socket|]; [|exists []; by rewrite after_sends_nil].
  match goal with |- context[send_json socket ?j] => destruct (quiet_send socket j s) as (new & H & _) end. by exists new.
Qed.

Lemma callbacks_run l : ∀ s : server, ∃ new, for_each OnWasmSubscriptionEvent l s = (after_sends new s, Done ()).
Proof.
  induction l as [|d l IH]; intros s; cbn [for_each]; [exists []; by rewrite after_sends_nil|].
  destruct (callback_run d s) as [n1 H1]. rewrite (host_bind_done _ _ _ _ _ H1).
  destruct (IH (after_sends n1 s)) as [n2 H2]. rewrite H2. exists (n1 ++ n2). by rewrite after_sends_app.
Qed.

(** The callbacks only send. *)
Lemma with_callbacks_run {A} (p : Prog (WasmSub.Manager W) A) (s : server) :
  ∃ new, with_callbacks p s = (after_sends new (set_wasm (p (wasm_ s)).1 s), (p (wasm_ s)).2).
Proof.
  unfold with_callbacks, on_wasm. destruct (p (wasm_ s)) as [m r]. cbn [fst snd].
  destruct (callbacks_run (drop (length (delivered (wasm_ s))) (delivered (wasm_ (set_wasm m s)))) (set_wasm m s)) as [new ->].
  by exists new.
Qed.

(** ** What messages keep

    The subscription managers keep their indices as long as their counters of
    subscription names have room; a message takes at most one name. *)

(** The registry of WebAssembly subscriptions with the lists of the clients. *)
Definition indexed (m : WasmSub.Manager W) : Prop :=
  (∀ i q, WasmSub.subscriptions_ m !! i = Some q →
     WasmSub.id q = i ∧ ∃ n, i = WasmSub.subscription_name n ∧ 0 <= n < WasmSub.next_subscription_id_ m) ∧
  (∀ c i, i ∈ default [] (WasmSub.client_subscriptions_ m !! c) ↔
     c ≠ "" ∧ ∃ q, WasmSub.subscriptions_ m !! i = Some q ∧ WasmSub.client_id q = c) ∧
  (∀ c ids, WasmSub.client_subscriptions_ m !! c = Some ids → ids ≠ [] ∧ NoDup ids).

(** Consistent managers with room for [n] more subscriptions each. *)
Definition ready (n : nat) (s : server) : Prop :=
  (indexed (wasm_ s) ∧ 0 <= WasmSub.next_subscription_id_ (wasm_ s) ∧
   WasmSub.next_subscription_id_ (wasm_ s) + Z.of_nat n < 2 ^ 64) ∧
  ∀ m, sql_manager_ s = Some m → SqlSubManager.wf m ∧ SqlSub.next_subscription_id_ m + Z.of_nat n < 2 ^ 64.

Definition same_clients (s s' : server) : Prop :=
  client_ids_ s' = client_ids_ s ∧ active_clients_ s' = active_clients_ s ∧ closed_ s' = closed_ s ∧
  has_wasm_manager s' = has_wasm_manager s.
#[local] Instance same_clients_preorder : PreOrder same_clients.
Proof. split; unfold same_clients; [done|]. intros ???. intuition congruence. Qed.

(** The same subscriptions. *)
Definition same_index (m m' : WasmSub.Manager W) : Prop :=
  WasmSub.subscriptions_ m' = WasmSub.subscriptions_ m ∧
  WasmSub.client_subscriptions_ m' = WasmSub.client_subscriptions_ m ∧
  WasmSub.next_subscription_id_ m' = WasmSub.next_subscription_id_ m.

(** From [s], whatever the outcome, a step takes at most [c] names. *)
Definition spends_at (c : nat) {A} (s : server) (p : Srv A) : Prop :=
  ∀ n, ready (n + c) s → ready n (p s).1 ∧ same_clients s (p s).1.
Definition spends (c : nat) {A} (p : Srv A) : Prop := ∀ s, spends_at c s p.

Lemma ready_mono n n' s : (n' <= n)%nat → ready n s → ready n' s.
Proof. intros Hn [(? & ? & ?) Hsql]. split; [split_and!; [done|done|lia]|]. intros m Hm. destruct (Hsql m Hm). split; [done|lia]. Qed.

Lemma indexed_same m m' : same_index m m' → indexed m → indexed m'.
Proof. unfold indexed. by intros (-> & -> & ->). Qed.

Lemma ready_same n s s' : same_index (wasm_ s) (wasm_ s') → sql_manager_ s' = sql_manager_ s → ready n s → ready n s'.
Proof.
  intros Hi Hq [(H1 & H2 & H3) H]. split; [|by rewrite Hq]. destruct Hi as (E1 & E2 & E3). rewrite E3.
  split_and!; [|done|done]. by eapply indexed_same.
Qed.

Lemma spends_same {A} (p : Srv A) :
  (∀ s, same_index (wasm_ s) (wasm_ (p s).1) ∧ sql_manager_ (p s).1 = sql_manager_ s ∧ same_clients s (p s).1) → spends 0 p.
Proof.
  intros H s n Hr. destruct (H s) as (Hi & Hq & Hc). rewrite Nat.add_0_r in Hr. split; [|done]. by eapply ready_same.
Qed.
Lemma spends_more {A} (p : Srv A) c s : spends_at 0 s p → spends_at c s p.
Proof. intros H n Hr. apply H. rewrite Nat.add_0_r. eapply ready_mono; [|exact Hr]. lia. Qed.

Lemma spends_bind a b s {A B} (p : Srv A) (f : A → Srv B) :
  spends_at a s p → (∀ x, spends b (f x)) → spends_at (a + b) s (p ≫= f).
Proof.
  intros Hp Hf n Hr. destruct (Hp (n + b)%nat) as [H1 C1]; [eapply ready_mono; [|exact Hr]; lia|].
  unfold mbind, Prog_bind. destruct (p s) as [s1 [x| | |]]; simpl in *.
  - destruct (Hf x s1 n H1) as [H2 C2]. split; [done|by etrans].
  - split; [|done]. eapply ready_mono; [|exact H1]. lia.
  - split; [|done]. eapply ready_mono; [|exact H1]. lia.
  - split; [|done]. eapply ready_mono; [|exact H1]. lia.
Qed.
Lemma spends_try a s {A} (p : Srv A) h : spends_at a s p → (∀ w, spends 0 (h w)) → spends_at a s (try_catch p h).
Proof.
  intros Hp Hh n Hr. destruct (Hp n Hr) as [H1 C1]. unfold try_catch. destruct (p s) as [s1 [x| |w|]]; simpl in *; try done.
  rewrite <- (Nat.add_0_r n) in H1. destruct (Hh w s1 n H1) as [H2 C2]. split; [done|by etrans].
Qed.
(** A step that looks at the state first. *)
Lemma spends_state c s {A} (f : server → Srv A) : spends_at c s (f s) → spends_at c s (server_state ≫= f).
Proof. done. Qed.

Lemma spends_ret {A} (a : A) : spends 0 (mret a).
Proof. by apply spends_same. Qed.
Lemma spends_undefined {A} : spends 0 (λ s, (s, HostFunctions.Undefined (A := A))).
Proof. by apply spends_same. Qed.
Lemma spends_lift {A} (m : exc A) : spends 0 (lift_exc m).
Proof. apply spends_same. intros s. by destruct m. Qed.
Lemma spends_send_json socket j : spends 0 (send_json socket j).
Proof. apply spends_same. intros s. rewrite send_json_run. by destruct (dump j). Qed.
Lemma spends_on_engine {A} (p : Prog (WasmEngine W) A) : spends 0 (on_engine p).
Proof. apply spends_same. intros s. unfold on_engine, on_wasm. by destruct (p _). Qed.
Lemma spends_run_sql sql : spends 0 (run_sql sql).
Proof.
  apply spends_same. intros s. unfold run_sql. destruct (storage_of s); [|done].
  by destruct (SqlEngine.Execute _ _ _ _ _).
Qed.

Ltac solve_spends :=
  repeat first
    [ apply spends_ret | apply spends_undefined | apply spends_lift | apply spends_send_json | apply spends_on_engine
    | apply spends_run_sql | done | solve [auto 2]
    | match goal with |- spends_at _ _ (server_state ≫= _) => apply spends_state end
    | apply (spends_bind 0 0); [|intros ? ?] | apply spends_try; [|intros ? ?] | case_match ].

Lemma spends_initial socket sql i : spends 0 (SendInitialState socket sql i).
Proof. intros s. unfold SendInitialState. solve_spends. Qed.
Lemma spends_tables ts : ∀ data, spends 0 (table_states ts data).
Proof.
  induction ts as [|t ts IH]; intros data s; simpl; [apply spends_ret|].
  apply (spends_bind 0 0); [apply spends_run_sql|]. intros r. apply IH.
Qed.
Lemma spends_initial_all socket i : spends 0 (SendInitialStateAllTables socket i).
Proof. pose proof spends_tables as H. intros s. unfold SendInitialStateAllTables. solve_spends; by apply H. Qed.

(** *** Entering a subscription *)

Lemma counted m n : indexed m → n = u64 (Z.of_nat (size (WasmSub.subscriptions_ m))) →
  WasmSubEvents.registry_ok (set_metrics (λ _, {| WasmSub.total_subscriptions := 0; WasmSub.active_subscriptions := n;
    WasmSub.events_processed := 0; WasmSub.events_filtered := 0; WasmSub.events_transformed := 0; WasmSub.events_emitted := 0;
    WasmSub.wasm_errors := 0; WasmSub.avg_processing_time := 0 |}) m).
Proof. intros (H1 & H2 & H3) ->. split; [exact H1|]. split; [exact H2|]. split; [exact H3|reflexivity]. Qed.

Lemma keeps_index (p : Prog (WasmSub.Manager W) ()) (i : string) m :
  WasmSubEvents.keeps p → same_index m ((p ≫= λ _, change (set_metrics count_total) ≫= λ _, mret i) m).1.
Proof.
  intros Hp. destruct (Hp m) as (E1 & E2 & E3 & _). unfold mbind at 1, Prog_bind at 1.
  destruct (p m) as [m1 [[]| | |]]; by split_and!.
Qed.

Lemma create_entered now garbage q (m : WasmSub.Manager W) :
  same_index (entered now q m) (WasmSub.CreateSubscription now garbage q m).1.
Proof.
  unfold WasmSub.CreateSubscription.
  match goal with |- context[(WasmSub.get ≫= ?f) m] => change ((WasmSub.get ≫= f) m) with (f m m) end. cbv beta zeta.
  match goal with |- same_index _ ((change ?f ≫= ?g) m).1 => change ((change f ≫= g) m) with (g () (f m)) end. cbv beta.
  match goal with |- same_index _ ((change ?f ≫= ?g) ?x).1 => change ((change f ≫= g) x) with (g () (f x)) end. cbv beta.
  match goal with |- same_index ?x ((?p ≫= _) ?y).1 => assert (H : WasmSubEvents.keeps p) end.
  { destruct (include_initial_data q); [apply keeps_initial|apply keeps_ret]. }
  eapply keeps_index in H. exact H.
Qed.

Lemma entered_indexed now q (m : WasmSub.Manager W) :
  indexed m → 0 <= WasmSub.next_subscription_id_ m → WasmSub.next_subscription_id_ m + 1 < 2 ^ 64 → indexed (entered now q m).
Proof.
  intros Hi Hlo Hhi. destruct (entered_ok now q _ (counted m _ Hi eq_refl) Hlo Hhi) as (H1 & H2 & H3 & _). by split_and!.
Qed.

(** The callbacks only send. *)
Lemma spends_create now garbage q : spends 1 (with_callbacks (WasmSub.CreateSubscription now garbage q)).
Proof.
  intros s n [(Hi & Hlo & Hhi) Hsql]. destruct (with_callbacks_run (WasmSub.CreateSubscription now garbage q) s) as [new ->]. cbn [fst].
  split; [|done]. pose proof (create_entered now garbage q (wasm_ s)) as Hc.
  assert (Hn : WasmSub.next_subscription_id_ (entered now q (wasm_ s)) = WasmSub.next_subscription_id_ (wasm_ s) + 1).
  { unfold entered. simpl. apply u64_small. unfold is_u. lia. }
  split.
  - cbn [after_sends set_network set_wasm wasm_]. pose proof Hc as (_ & _ & ->). rewrite Hn.
    split_and!; [|lia|lia]. eapply indexed_same; [exact Hc|]. apply entered_indexed; [done|done|lia].
  - cbn [after_sends set_network set_wasm sql_manager_]. intros m Hm. destruct (Hsql m Hm). split; [done|lia].
Qed.

Lemma spends_subscribe client sql :
  spends 1 (λ s : server, match sql_manager_ s with
              | None => (s, HostFunctions.Undefined)
              | Some m => let '(m, r) := SqlSub.Subscribe client sql m in lift_exc r (set_sql (Some m) s)
              end).
Proof.
  intros s n [(Hi & Hlo & Hhi) Hsql]. destruct (sql_manager_ s) as [m|] eqn:Em.
  2:{ cbn [fst]. split; [|done]. split; [split_and!; [done|done|lia]|by rewrite Em]. }
  destruct (Hsql m eq_refl) as [Hwf Hroom].
  destruct (manager_call_ok m (CSubscribe client sql) Hwf) as [Hwf' Ha]; [lia|]. simpl in Hwf', Ha.
  apply (f_equal next_number) in Ha. simpl in Ha. destruct (SqlSub.Subscribe client sql m) as [m' r]. simpl in Hwf', Ha.
  assert (Hgoal : ready n (set_sql (Some m') s) ∧ same_clients s (set_sql (Some m') s)).
  { split; [|done]. split; [split_and!; [done|done|simpl; lia]|]. intros ? [= <-]. split; [done|]. rewrite Ha. lia. }
  by destruct r.
Qed.

Lemma spends_set_sql c s m call :
  sql_manager_ s = Some m → (next_number (spec_call (abstract m) call) <= SqlSub.next_subscription_id_ m + Z.of_nat c) →
  (c <= 1)%nat → (∀ n, ready (n + c) s → SqlSub.next_subscription_id_ m + 1 < 2 ^ 64) →
  spends_at c s (update (set_sql (Some (manager_call m call)))).
Proof.
  intros Hm Hn Hc Hroom n Hr. pose proof (Hroom n Hr) as Hr1. destruct Hr as [(Hi & Hlo & Hhi) Hsql].
  destruct (Hsql m Hm) as [Hwf Hr2]. destruct (manager_call_ok m call Hwf Hr1) as [Hwf' Ha].
  split; [|done]. split; [split_and!; [done|done|simpl; lia]|]. intros ? [= <-]. split; [done|].
  apply (f_equal next_number) in Ha. simpl in Ha. rewrite Ha. lia.
Qed.

Lemma spends_sql_request socket message : spends 1 (HandleSqlSubscriptionRequest socket message).
Proof.
  intros s. unfold HandleSqlSubscriptionRequest. apply spends_state. case_match; [apply spends_more, spends_send_json|].
  apply spends_try; [|intros ? ?; apply spends_send_json]. apply (spends_bind 0 1); [apply spends_lift|]. intros request s1.
  case_match; [apply spends_more, spends_send_json|]. case_match; [|apply spends_more, spends_send_json].
  apply (spends_bind 0 1); [apply spends_lift|]. intros sql s2. apply (spends_bind 1 0); [apply spends_subscribe|]. intros i s3.
  apply (spends_bind 0 0); [apply spends_send_json|]. intros ?. apply spends_initial.
Qed.

Lemma spends_all_request socket message : spends 1 (HandleSubscribeToAllTablesRequest socket message).
Proof.
  intros s. unfold HandleSubscribeToAllTablesRequest. apply spends_state.
  destruct (sql_manager_ s) as [m|] eqn:Em; [|apply spends_more, spends_send_json].
  apply spends_try; [|intros ? ?; apply spends_send_json]. cbv zeta. set (client := client_of socket s).
  case_match; [apply spends_more, spends_send_json|].
  pose proof (spends_set_sql 1 s m (CSubscribeAll client) Em) as Hset. cbn [manager_call] in Hset.
  destruct (SqlSub.SubscribeToAllTables client m) as [m' i]. cbn [fst] in Hset. apply (spends_bind 1 0).
  - apply Hset; [simpl; lia|done|]. intros n [_ Hsql]. destruct (Hsql m Em). lia.
  - intros ? s1. apply (spends_bind 0 0); [apply spends_send_json|]. intros ?. apply spends_initial_all.
Qed.

Lemma spends_wasm_request socket message : spends 1 (HandleSubscriptionRequest socket message).
Proof.
  intros s. unfold HandleSubscriptionRequest. apply spends_state. case_match; [apply spends_more, spends_send_json|].
  apply spends_try; [|intros ? ?; apply spends_send_json]. apply (spends_bind 0 1); [apply spends_lift|]. intros request s1.
  case_match; [apply spends_more, spends_send_json|]. case_match; [|apply spends_more, spends_send_json].
  apply (spends_bind 0 1); [apply spends_lift|]. intros q s2. apply (spends_bind 1 0); [apply spends_create|].
  intros i. apply spends_send_json.
Qed.

Lemma spends_call socket message : spends 0 (HandleCallReducer socket message).
Proof.
  assert (Hb : ∀ request i, spends 0 (call_body socket request i)).
  { intros request i s. unfold call_body. solve_spends. }
  intros s. unfold HandleCallReducer. solve_spends; by apply Hb.
Qed.

Lemma spends_dispatch socket message request type : spends 1 (dispatch socket message request type).
Proof.
  intros s. unfold dispatch. case_match; [apply spends_more, spends_send_json|].
  case_match; [apply spends_sql_request|]. case_match.
  { apply (spends_bind 0 1); [apply spends_lift|]. intros sub s1. apply spends_state.
    apply (spends_bind 1 0); [|intros ? ?; apply spends_send_json].
    destruct (sql_manager_ s1) as [m|] eqn:Em; [|apply spends_more, spends_ret]. case_match; [apply spends_more, spends_ret|].
    apply (spends_set_sql 1 s1 m (CUnsubscribe sub) Em); [simpl; lia|done|]. intros n [_ Hsql]. destruct (Hsql m Em). lia. }
  case_match; [apply spends_all_request|]. case_match; [apply spends_wasm_request|].
  case_match; [apply spends_more, spends_call|]. case_match; apply spends_more, spends_send_json.
Qed.

Lemma spends_message socket message : spends 1 (HandleWebSocketMessage socket message).
Proof.
  intros s. unfold HandleWebSocketMessage. apply spends_try; [|intros ? ?; apply spends_send_json].
  apply (spends_bind 0 1); [apply spends_lift|]. intros request s1. apply (spends_bind 0 1); [apply spends_lift|].
  intros type. apply spends_dispatch.
Qed.

Lemma spends_run socket fs : spends (length fs) (run (λ message, HandleWebSocketMessage socket (bytes_str message)) fs).
Proof.
  induction fs as [|f fs IH]; intros s; simpl; [apply spends_ret|]. case_match; [apply spends_more, spends_ret|].
  apply (spends_bind 1 (length fs)); [|done]. case_match; [apply spends_more, spends_ret|apply spends_message].
Qed.

(** ** Departure *)

(** When a client leaves, exactly its traces go. *)
Lemma disconnect_departs socket client (s s' : server) :
  ready 0 s → client_ids_ s !! socket = Some client → client ≠ "" → disconnect socket s = (s', Done ()) →
  closed_ s' = closed_ s ∧ client_ids_ s' = delete socket (client_ids_ s) ∧
  active_clients_ s' = filter (λ c, c ≠ socket) (active_clients_ s) ∧
  sql_manager_ s' = UnsubscribeAll client <$> sql_manager_ s ∧
  (has_wasm_manager s = true → ∀ i,
     WasmSub.subscriptions_ (wasm_ s') !! i
     = q ← WasmSub.subscriptions_ (wasm_ s) !! i; if decide (client ≠ "" ∧ WasmSub.client_id q = client) then None else Some q).
Proof.
  intros [(Hi & _) _] Hc Hne. unfold disconnect, server_state.
  intros (s0 & ? & [= <- <-] & H)%host_bind_inv. apply host_bind_inv in H as (s1 & ? & [= <- _] & H).
  assert (Hclient : client_of socket s = client) by (unfold client_of; by rewrite Hc). rewrite Hclient in H.
  set (s1 := set_clients _ _ s) in H.
  apply host_bind_inv in H as (s2 & [] & H1 & H2). rewrite (bool_decide_eq_false_2 (client = "")) in H1, H2 by done.
  cbn [negb] in H1, H2. injection H2 as <-.
  destruct (has_wasm_manager s); cbn [andb] in H1; [|by injection H1 as <-].
  match type of H1 with with_callbacks ?p _ = _ => destruct (with_callbacks_run p s1) as [new E] end.
  rewrite E in H1. injection H1 as <- _. split_and!; try done. intros _ i.
  change (wasm_ s1) with (wasm_ s) in *. cbn [set_sql after_sends set_network set_wasm wasm_].
  destruct (OnClientDisconnected_same (clock (sent_ s)) (garbage_time (sent_ s)) client (wasm_ s)) as (Hsubs & _).
  change (sent_ s1) with (sent_ s). rewrite Hsubs.
  pose proof (dropped_lookup client _ i (counted (wasm_ s) _ Hi eq_refl)) as Hl.
  unfold dropped in *. cbn [set_metrics WasmSub.client_subscriptions_ WasmSub.subscriptions_] in Hl.
  destruct (WasmSub.client_subscriptions_ (wasm_ s) !! client); exact Hl.
Qed.

Lemma UnsubscribeAll_lookup client (m : SqlSub.Manager) i q :
  SqlSubManager.wf m →
  SqlSub.subscriptions_ (UnsubscribeAll client m) !! i = Some q ↔
  SqlSub.subscriptions_ m !! i = Some q ∧ SqlSub.client_id q ≠ client.
Proof.
  intros Hm. destruct (UnsubscribeAll_ok m client Hm) as [_ Ha]. apply (f_equal registered) in Ha. simpl in Ha.
  rewrite Ha. apply map_lookup_filter_Some.
Qed.

(** ** Admission *)

(** The request is what the first [recv] brought, up to a zero byte. *)
Definition request_text (buffer : bytes) (request : string) : Prop :=
  ∃ rest, buffer = str_bytes request ++ rest ∧ Byte.x00 ∉ str_bytes request ∧
    (rest = [] ∨ ∃ more, rest = Byte.x00 :: more).

Lemma c_string_request buffer request : request_text buffer request → bytes_str (c_string buffer) = request.
Proof.
  intros (rest & -> & Hz & Hrest). rewrite <- (bytes_str_bytes request) at 2. f_equal. revert Hz.
  induction (str_bytes request) as [|b l IH]; intros Hz; cbn [app c_string].
  - destruct Hrest as [->|[more ->]]; [done|]. cbn [c_string]. by rewrite bool_decide_eq_true_2.
  - rewrite bool_decide_eq_false_2 by (intros ->; apply Hz; by left). f_equal. apply IH. intros ?. apply Hz. by right.
Qed.

(** An answer in plain HTTP, whatever [send] says, and the end of the connection. *)
Definition turned_away (socket : Z) (answer : string) (s : server) : server :=
  set_network (sent_ s ++ [(socket, str_bytes answer, send_ok (sent_ s) socket (str_bytes answer))]) (closed_ s ++ [socket]) s.

Definition may_enter (token : string) (s : server) : Prop :=
  ∀ m, auth_ s = Some m → token ≠ "" ∧ (token = admin_token_ m ∨ token = client_token_ m).

(** The answer to the handshake for a key. *)
Definition switching (key : string) : string :=
  "HTTP/1.1 101 Switching Protocols" +:+ crlf +:+ "Upgrade: websocket" +:+ crlf +:+ "Connection: Upgrade" +:+ crlf +:+
  "Sec-WebSocket-Accept: " +:+ Base64Encode (SHA1 (str_bytes (key +:+ "258EAFA5-E914-47DA-95CA-C5AB0DC85B11"))) +:+ crlf +:+ crlf.

Lemma Check_client token (s : server) :
  match auth_ s with Some m => negb (Check token CLIENT m) | None => false end = false ↔ may_enter token s.
Proof.
  unfold may_enter. destruct (auth_ s) as [m|]; [|done]. rewrite negb_false_iff, Check_spec. naive_solver.
Qed.

(** ** The session *)

(** The client entered: registered under its socket, announced to the modules,
    answered and greeted with its ID. *)
Definition greeted (socket : Z) (client : string) (answer : attempt) (s s1 : server) : Prop :=
  client_ids_ s1 = <[socket := client]> (client_ids_ s) ∧ active_clients_ s1 = active_clients_ s ++ [socket] ∧
  closed_ s1 = closed_ s ∧ sql_manager_ s1 = sql_manager_ s ∧
  wasm_ s1 = (if has_wasm_manager s
              then (WasmSub.OnClientConnected (clock (sent_ s ++ [answer])) (garbage_time (sent_ s ++ [answer])) client (wasm_ s)).1
              else wasm_ s) ∧
  ∃ events greeting text,
    sent_ s1 = sent_ s ++ [answer] ++ events ++ [(socket, server_frame (str_bytes text), true)] ∧ dump greeting = Ret text ∧
    json_field "type" greeting = Some (JString "welcome") ∧ json_field "client_id" greeting = Some (JString client).

(** The client left: from [s], before it came, and [s2], after its last message,
    to [s']. *)
Definition departed (socket : Z) (client : string) (s s2 s' : server) : Prop :=
  closed_ s' = closed_ s ++ [socket] ∧ client_ids_ s' = delete socket (client_ids_ s) ∧
  (∀ k, k ∈ active_clients_ s' ↔ k ∈ active_clients_ s ∧ k ≠ socket) ∧
  match sql_manager_ s2, sql_manager_ s' with
  | Some m, Some m' => ∀ i q, SqlSub.subscriptions_ m' !! i = Some q ↔
                              SqlSub.subscriptions_ m !! i = Some q ∧ SqlSub.client_id q ≠ client
  | None, None => True
  | _, _ => False
  end ∧
  (has_wasm_manager s = true → ∀ i q,
     WasmSub.subscriptions_ (wasm_ s') !! i = Some q ↔
     WasmSub.subscriptions_ (wasm_ s2) !! i = Some q ∧ WasmSub.client_id q ≠ client).

Lemma connected_same now garbage client (m : WasmSub.Manager W) :
  same_index m (WasmSub.OnClientConnected now garbage client m).1.
Proof.
  unfold WasmSub.OnClientConnected. match goal with |- same_index _ (?p m).1 => assert (H : WasmSubEvents.keeps p) end.
  { apply frame_bind; [apply keeps_get|]. intros ?. apply keeps_notify. }
  destruct (H m) as (? & ? & ? & _). by split_and!.
Qed.

Lemma connect_greets socket (s s1 : server) answer :
  let client := "client_" +:+ pretty socket +:+ "_" +:+ pretty (clock (sent_ s ++ [answer])) in
  connect socket (after_sends [answer] s) = (s1, Done ()) → greeted socket client answer s s1 ∧ has_wasm_manager s1 = has_wasm_manager s.
Proof.
  intros client. unfold connect, server_state. intros (s0 & ? & [= <- <-] & H)%host_bind_inv.
  apply host_bind_inv in H as (s2 & ? & [= <- _] & H). apply host_bind_inv in H as (s3 & ? & H & Hw).
  fold client in H, Hw. cbn [after_sends set_network sent_ active_clients_ client_ids_ has_wasm_manager] in H.
  apply sent_reply in Hw as (text & Hd & ->). unfold greeted.
  destruct (has_wasm_manager s) eqn:Hh.
  - match type of H with with_callbacks ?p ?x = _ => destruct (with_callbacks_run p x) as [new E] end.
    rewrite E in H. injection H as <- _. cbn [after_sends set_network set_wasm set_clients client_ids_ active_clients_
      closed_ sql_manager_ wasm_ sent_ has_wasm_manager]. split; [|exact Hh].
    do 5 (split; [done|]). exists new, (welcome client), text. split; [by rewrite <- !app_assoc|]. split; [done|]. by split.
  - injection H as <- _. cbn. split; [|exact Hh]. do 5 (split; [done|]). exists [], (welcome client), text.
    split; [by rewrite <- !app_assoc|]. split; [done|]. by split.
Qed.

(** The session of an accepted client, from before the handshake's answer. *)
Definition session (socket : Z) (key : string) (fs : list frame) (s s' : server) : Prop :=
  let answer := (socket, str_bytes (switching key), true) in
  let client := "client_" +:+ pretty socket +:+ "_" +:+ pretty (clock (sent_ s ++ [answer])) in
  ∃ s1 s2 closed_by_client,
    greeted socket client answer s s1 ∧
    run (λ message, HandleWebSocketMessage socket (bytes_str message)) fs s1 = (s2, Done closed_by_client) ∧
    departed socket client s s2 s'.

Lemma session_runs socket key fs tail chunks (s s' : server) :
  Forall frame_ok fs → incomplete tail → concat chunks = encode_all fs ++ tail → ready (length fs) s →
  (_ ← (_ ← connect socket;
        _ ← receive (λ message, HandleWebSocketMessage socket (bytes_str message)) chunks [];
        disconnect socket);
   close socket) (after_sends [(socket, str_bytes (switching key), true)] s) = (s', Done ()) →
  session socket key fs s s'.
Proof.
  intros Hok Ht Hcut Hr. unfold session. set (answer := (socket, str_bytes (switching key), true)).
  set (client := "client_" +:+ pretty socket +:+ "_" +:+ pretty (clock (sent_ s ++ [answer]))).
  intros (s4 & [] & H & Hclose)%host_bind_inv. injection Hclose as <-.
  apply host_bind_inv in H as (s1 & [] & Hconn & H). apply host_bind_inv in H as (s3 & [] & Hrecv & Hdisc).
  rewrite (receive_frames _ chunks fs [] tail) in Hrecv by (done || apply incomplete_nil).
  apply host_bind_inv in Hrecv as (s2 & closed_by_client & Hrun & [= ->]).
  apply connect_greets in Hconn as [Hg Hhas]. fold client in Hg.
  exists s1, s3, closed_by_client. split; [exact Hg|]. split; [exact Hrun|].
  destruct Hg as (Hids & Hact & Hcl & Hsql & Hwasm & _).
  assert (Hr1 : ready (length fs) s1).
  { eapply ready_same; [| |exact Hr]; [|done]. rewrite Hwasm. destruct (has_wasm_manager s); [apply connected_same|by split_and!]. }
  destruct (spends_run socket fs s1 0%nat Hr1) as [Hr2 (Hids2 & Hact2 & Hcl2 & Hhas2)]. rewrite Hrun in Hr2, Hids2, Hact2, Hcl2, Hhas2.
  cbn [fst] in *. assert (Hne : client ≠ "") by done.
  assert (Hc : client_ids_ s3 !! socket = Some client) by (rewrite Hids2, Hids; apply lookup_insert_eq).
  destruct (disconnect_departs socket client _ _ Hr2 Hc Hne Hdisc) as (Hcl3 & Hids3 & Hact3 & Hsql3 & Hw3).
  clearbody client. unfold departed. cbn [set_network closed_ client_ids_ active_clients_ sql_manager_ wasm_]. split_and!.
  - by rewrite Hcl3, Hcl2, Hcl.
  - rewrite Hids3, Hids2, Hids. apply delete_insert_eq.
  - intros k. rewrite Hact3, list_elem_of_filter, Hact2, Hact, elem_of_app, list_elem_of_singleton. naive_solver.
  - rewrite Hsql3. destruct Hr2 as [_ Hwf]. destruct (sql_manager_ s3) as [m|]; [|done]. simpl. intros i q.
    by apply UnsubscribeAll_lookup, Hwf.
  - intros Hh i q. rewrite Hw3 by congruence. destruct (WasmSub.subscriptions_ (wasm_ s3) !! i) as [q'|]; simpl.
    + destruct (decide (WasmSub.client_id q' = client)); [rewrite decide_True by done|rewrite decide_False by tauto]; naive_solver.
    + split; [done|by intros [? _]].
Qed.

Lemma bind_state {A} (f : server → Srv A) s : (server_state ≫= f) s = f s s.
Proof. done. Qed.
Lemma bind_send {A} socket data (f : bool → Srv A) s :
  (send socket data ≫= f) s
  = f (send_ok (sent_ s) socket data) (after_sends [(socket, data, send_ok (sent_ s) socket data)] s).
Proof. done. Qed.

(** C31.  The life of a connection.  What the server reads of the first bytes is
    the text before a zero byte.  If it does not ask for the upgrade, it is
    answered with 426; if authentication is on and it presents no client or
    administrator token (in the authorization header, else in the target), with
    401; the connection is then closed and nothing else has changed.  Without a
    key, or when the answer is not sent, it is closed as well.  Otherwise the
    answer carries the digest of the key; the client is registered under the ID
    of its socket and time and greeted with it; exactly the messages of the frames
    it sends are handled, in order, however the bytes are cut; and when the
    session comes to its end (and the subscription managers began it consistent
    and with names enough for its messages), the socket is closed, the server
    knows nothing of the client any more, its SQL and WebAssembly subscriptions
    are gone, and those of the others are as its messages left them. *)
Theorem HandleClient_session socket buffer request token fs tail chunks (s : server)
    (Hreq : request_text buffer request) (Htoken : presents request token)
    (Hok : Forall frame_ok fs) (Ht : incomplete tail) (Hcut : concat chunks = encode_all fs ++ tail) :
  (¬ asks_upgrade request →
     HandleClient socket (Some buffer) chunks s = (turned_away socket upgrade_required s, Done ())) ∧
  (asks_upgrade request → ¬ may_enter token s →
     HandleClient socket (Some buffer) chunks s = (turned_away socket unauthorized s, Done ())) ∧
  (asks_upgrade request → may_enter token s →
     ((∀ key, ¬ header "Sec-WebSocket-Key:" request key) →
        HandleClient socket (Some buffer) chunks s = (set_network (sent_ s) (closed_ s ++ [socket]) s, Done ())) ∧
     ∀ key, header "Sec-WebSocket-Key:" request key →
       if send_ok (sent_ s) socket (str_bytes (switching key))
       then ∀ s', ready (length fs) s → HandleClient socket (Some buffer) chunks s = (s', Done ()) → session socket key fs s s'
       else HandleClient socket (Some buffer) chunks s = (turned_away socket (switching key) s, Done ())).
Proof.
  pose proof (contains_upgrade request) as Hup. apply ExtractRequestToken_presents in Htoken.
  destruct (header_found "Sec-WebSocket-Key:" request _ ltac:(vm_compute; reflexivity) eq_refl) as [Hkey Hnokey].
  change ("Sec-WebSocket-Key:" +:+ "\s*([^\r\n]+)") with "Sec-WebSocket-Key:\s*([^\r\n]+)" in Hkey, Hnokey.
  pose proof (Check_client token s) as Hmay. unfold turned_away.
  unfold HandleClient. rewrite (c_string_request _ _ Hreq), Htoken, bind_state. split_and!.
  - intros Hu. destruct (contains _ _); [by destruct Hu; apply Hup|reflexivity].
  - intros Hu%Hup Hn. rewrite Hu. cbn [negb]. destruct (match auth_ s with Some m => _ | None => _ end); [reflexivity|].
    by destruct Hn; apply Hmay.
  - intros Hu%Hup Hm%Hmay. rewrite Hu, Hm. cbn [negb]. unfold HandleWebSocketHandshake. split.
    + intros Hno. destruct (search_group _ _ _) as [key|]; [|reflexivity]. by destruct (Hno key); apply Hkey.
    + intros key Hk%Hkey. rewrite Hk.
      change (GenerateWebSocketAccept key) with (Base64Encode (SHA1 (str_bytes (key +:+ "258EAFA5-E914-47DA-95CA-C5AB0DC85B11")))).
      fold (switching key). rewrite bind_send.
      destruct (send_ok (sent_ s) socket (str_bytes (switching key))); [|reflexivity].
      intros s' Hr Hrun. by eapply session_runs.
Qed.
End theorems.

(** ** Instances *)

#[local] Existing Instance std_json.
#[local] Existing Instance std_order.
Import StorageCommit.Demo DemoModule DemoServer.

(** The handshake of a browser, then a ping in two pieces; the server asks for a
    token. *)
Definition hello_request : string :=
  "GET /?token=odb_client_1 HTTP/1.1" +:+ crlf +:+ "Upgrade: websocket" +:+ crlf +:+ "Sec-WebSocket-Key: abc" +:+ crlf +:+ crlf.
Definition hello : bytes := str_bytes hello_request.
Definition ping_frames : list frame := [text_frame (str_bytes ping)].
Definition ping_chunks : list bytes := [take 4 (encode_all ping_frames); drop 4 (encode_all ping_frames)].
Definition guarded (client_token : string) : Server WalHost :=
  let s := DemoServer.server in
  {| wasm_ := wasm_ s; has_wasm_manager := true; has_wasm_engine := true; has_sql_engine := true; has_storage_engine := true;
     sql_manager_ := sql_manager_ s; auth_ := Some (set_tokens "odb_admin_1" client_token false); active_clients_ := [];
     client_ids_ := ∅; sent_ := []; closed_ := [] |}.

Lemma guarded_ready token : ready 1 (guarded token).
Proof.
  split.
  - destruct (registry_ok_empty deployed.1) as (H1 & H2 & H3 & _).
    split; [split; [exact H1|split; [exact H2|exact H3]]|]. split; vm_compute; [discriminate|reflexivity].
  - intros m [= <-]. split; [exact manager_wf|]. vm_compute. reflexivity.
Qed.

Definition visit := HandleClient 6 (Some hello) ping_chunks (guarded "odb_client_1").
Lemma visit_returns : HandleClient 6 (Some hello) ping_chunks (guarded "odb_client_1") = (visit.1, Done ()).
Proof.
  assert (visit.2 = Done ()) as <- by (vm_compute; reflexivity).
  exact (surjective_pairing (HandleClient 6 (Some hello) ping_chunks (guarded "odb_client_1"))).
Qed.

(** The greeting, the pong, and no trace of the client. *)
Example visit_leaves : length (sent_ visit.1) = 3%nat ∧ active_clients_ visit.1 = [] ∧ closed_ visit.1 = [6].
Proof. vm_compute. split_and!; reflexivity. Qed.

Lemma hello_upgrades : asks_upgrade hello_request.
Proof. apply contains_upgrade. vm_compute. reflexivity. Qed.
Lemma hello_token : presents hello_request "odb_client_1".
Proof. apply ExtractRequestToken_presents. vm_compute. reflexivity. Qed.
Lemma hello_key : header "Sec-WebSocket-Key:" hello_request "abc".
Proof.
  eapply header_found; [vm_compute; reflexivity|reflexivity|vm_compute; reflexivity].
Qed.
Lemma hello_text : request_text hello hello_request.
Proof.
  exists []. split; [by rewrite app_nil_r|]. split; [|by left].
  apply (bool_decide_unpack _). vm_compute. exact I.
Qed.
Lemma ping_ok : Forall frame_ok ping_frames.
Proof. constructor; [|constructor]. split; [vm_compute; reflexivity|]. split; [exact I|]. vm_compute. discriminate. Qed.

(** With the token of the server the session runs to its end; with another one it
    does not begin. *)
Lemma HandleClient_session_witness :
  session 6 "abc" ping_frames (guarded "odb_client_1") visit.1 ∧
  HandleClient 6 (Some hello) ping_chunks (guarded "odb_client_2") =
    (turned_away 6 unauthorized (guarded "odb_client_2"), Done ()).
Proof.
  split.
  - destruct (HandleClient_session 6 hello hello_request "odb_client_1" ping_frames [] ping_chunks (guarded "odb_client_1")
      hello_text hello_token ping_ok incomplete_nil) as (_ & _ & H); [vm_compute; reflexivity|].
    destruct (H hello_upgrades) as [_ Hrun].
    + intros m [= <-]. split; [discriminate|right; reflexivity].
    + exact (Hrun "abc" hello_key visit.1 (guarded_ready _) visit_returns).
  - destruct (HandleClient_session 6 hello hello_request "odb_client_1" ping_frames [] ping_chunks (guarded "odb_client_2")
      hello_text hello_token ping_ok incomplete_nil) as (_ & H & _); [vm_compute; reflexivity|].
    apply (H hello_upgrades). intros Hm. destruct (Hm _ eq_refl) as [_ [Hx|Hx]]; discriminate Hx.
Defined.
