(* ===== verification/GrpcServices.v ===== *)
(** * The gRPC services (src/grpc/grpc_server.cpp, src/grpc/wasm_service_impl.cpp)

    The handlers of SQLService and WasmService on the state they share: the
    WebAssembly engine with the storage behind it, the module store with its
    directory, the token manager and the query counters.  A handler answers its
    response and a status; an exception that leaves it is [Escaped], for the
    gRPC library to catch.  Messages are records with the fields of
    proto/origindb.proto; clocks and durations are arguments. *)

From S2P Require Import Prelude Table Codec RowCodec Float64 Json MemTable Txn WalStore Changefeed StorageJson Storage RowJson HostFunctions WasmEngine ModuleStore Auth SqlEngine.

(** ** Messages *)

Inductive StatusCode := INVALID_ARGUMENT | NOT_FOUND | INTERNAL.
Inductive Status := StatusOK | StatusError (code : StatusCode) (message : string) | Denied (reason : Auth.Status).

(** The oneof of [ColumnValue] and of [WasmValue]. *)
Inductive ProtoValue :=
| ValueNotSet | Int64Value (n : Z) | StringValue (s : string) | DoubleValue (bits : Z) | BoolValue (b : bool)
| BytesValue (b : bytes).

Record ProtoRow := { proto_key : string; proto_columns : gmap string ProtoValue }.

Record SQLResponse := {
  sql_success : bool;
  sql_error : string;
  sql_rows : list ProtoRow;
  sql_rows_affected : Z;
  execution_time_micros : Z
}.
Definition no_response : SQLResponse :=
  {| sql_success := false; sql_error := ""; sql_rows := []; sql_rows_affected := 0; execution_time_micros := 0 |}.

Record SQLTransactionResponse := {
  txn_success : bool;
  txn_error : string;
  txn_results : list SQLResponse;
  transaction_id : Z
}.

Record ServerStats := {
  st_total_tables : Z; st_total_rows : Z; st_storage_bytes : Z; st_active_connections : Z;
  st_active_subscriptions : Z; st_events_published : Z; st_total_queries : Z;
  st_successful_queries : Z; st_failed_queries : Z; st_loaded_modules : Z
}.
Record StatusResponse := { rsp_version : string; uptime_seconds : Z; stats : option ServerStats }.

Record CapabilitiesProto := {
  p_allowed_tables : list string; p_read_only : bool; p_max_memory_mb : Z; p_timeout_ms : Z
}.
Record DeployModuleRequest := {
  rq_name : string; rq_bytecode : bytes; rq_version : string; rq_capabilities : CapabilitiesProto
}.
Record DeployModuleResponse := { dp_success : bool; dp_error : string; module_id : string }.
Record UndeployModuleResponse := { ud_success : bool; ud_error : string }.

Record ReducerDefinition := {
  rd_name : string; rd_is_init : bool; rd_is_client_connected : bool; rd_is_client_disconnected : bool
}.
Record ModuleInfo := {
  mi_name : string; mi_version : string; mi_reducers : list ReducerDefinition; mi_loaded : bool;
  mi_validated : bool; mi_sha256 : string; mi_deployed_at_ms : Z
}.
Record GetModuleResponse := { gm_success : bool; gm_error : string; gm_module : option ModuleInfo }.

Record ExecuteReducerRequest := {
  er_module : string; er_reducer : string; er_sender : string; er_connection : string; er_args : list ProtoValue
}.
Record ExecuteReducerResponse := {
  er_success : bool; er_error : string; er_results : list ProtoValue; er_micros : Z
}.

Definition kMaxModuleBytes : Z := 64 * 1024 * 1024.

Definition CapabilitiesFromProto (proto : CapabilitiesProto) : ModuleCapabilities :=
  {| allowed_tables := p_allowed_tables proto; read_only := p_read_only proto;
     max_memory_mb := p_max_memory_mb proto; cap_timeout_ms := p_timeout_ms proto |}.

(** ** Conversions *)

Definition ConvertColumnValueToProto (v : Value) : ProtoValue :=
  match v with
  | VNull => ValueNotSet
  | VInt32 n | VInt64 n => Int64Value n
  | VString s => StringValue s
  | VFloat bits => DoubleValue (double_of_float bits)
  | VDouble bits => DoubleValue bits
  | VBool b => BoolValue b
  | VBytes b => BytesValue b
  | VTime _ => StringValue "[unknown type]"
  end.

Definition ConvertRowToProto (row : Row) : ProtoRow :=
  {| proto_key := row_key row; proto_columns := ConvertColumnValueToProto <$> row_columns row |}.

Definition ConvertSqlResultToProto (result : SqlResult) (micros : Z) : SQLResponse :=
  {| sql_success := SqlEngine.success result; sql_error := SqlEngine.error result;
     sql_rows := if SqlEngine.success result then ConvertRowToProto <$> SqlEngine.rows result else [];
     sql_rows_affected := if SqlEngine.success result then i32 (zlength (SqlEngine.rows result)) else 0;
     execution_time_micros := micros |}.

(** The argument loop and the result loop of [ExecuteReducer]. *)
Definition arg_of_proto (v : ProtoValue) : WasmValue :=
  match v with
  | BoolValue b => WBool b
  | Int64Value n => WInt64 n
  | StringValue s => WString s
  | DoubleValue bits => WDouble bits
  | BytesValue b => WBytes b
  | ValueNotSet => WNull
  end.
Definition result_to_proto (v : WasmValue) : ProtoValue :=
  match v with
  | WNull => ValueNotSet
  | WBool b => BoolValue b
  | WInt32 n | WInt64 n => Int64Value n
  | WFloat bits => DoubleValue (double_of_float bits)
  | WDouble bits => DoubleValue bits
  | WString s => StringValue s
  | WBytes b => BytesValue b
  end.

(** ** State *)

Record Node (W : Type) := {
  wasm_engine_ : WasmEngine W;
  module_store_ : option ModuleStore;
  modules_disk : disk;
  auth_ : option AuthManager;
  total_queries_ : Z;
  successful_queries_ : Z;
  failed_queries_ : Z
}.
Arguments wasm_engine_ {W} _.
Arguments module_store_ {W} _.
Arguments modules_disk {W} _.
Arguments auth_ {W} _.
Arguments total_queries_ {W} _.
Arguments successful_queries_ {W} _.
Arguments failed_queries_ {W} _.

(** The calls, with the clocks and file operations they meet, and their
    replies. *)
Inductive rpc :=
| CallExecute (now micros : Z) (sql : string)
| CallExecuteTransaction (txn : Z) (now micros : nat → Z) (statements : list string)
| CallGetStatus (uptime connections : Z)
| CallDeployModule (now : Z) (io : save_io) (request : DeployModuleRequest)
| CallUndeployModule (io : remove_io) (name : string)
| CallListModules
| CallGetModule (name : string)
| CallExecuteReducer (now micros : Z) (request : ExecuteReducerRequest).

Inductive reply :=
| ReplySQL (r : SQLResponse)
| ReplyTransaction (r : SQLTransactionResponse)
| ReplyStatus (r : StatusResponse)
| ReplyDeploy (r : DeployModuleResponse)
| ReplyUndeploy (r : UndeployModuleResponse)
| ReplyList (l : list ModuleInfo)
| ReplyModule (r : GetModuleResponse)
| ReplyReducer (r : ExecuteReducerResponse).

Section services.
Context {W : Type} `{WA : WalApi W} `{JL : JsonLib} {ID : IndentedDump JL} {SH : Sha256} `{HO : HashOrder} `{WT : Wasmtime W}.
Abbreviation node := (Node W).
Abbreviation Rpc := (Prog (Node W)).

Definition set_wasm (e : WasmEngine W) (s : node) : node :=
  {| wasm_engine_ := e; module_store_ := module_store_ s; modules_disk := modules_disk s; auth_ := auth_ s;
   total_queries_ := total_queries_ s; successful_queries_ := successful_queries_ s; failed_queries_ := failed_queries_ s |}.
Definition set_store (st : option ModuleStore) (d : disk) (s : node) : node :=
  {| wasm_engine_ := wasm_engine_ s; module_store_ := st; modules_disk := d; auth_ := auth_ s;
   total_queries_ := total_queries_ s; successful_queries_ := successful_queries_ s; failed_queries_ := failed_queries_ s |}.
(** [fetch_add] on the three counters. *)
Definition count (total ok bad : Z) (s : node) : node :=
  {| wasm_engine_ := wasm_engine_ s; module_store_ := module_store_ s; modules_disk := modules_disk s; auth_ := auth_ s;
   total_queries_ := u64 (total_queries_ s + total); successful_queries_ := u64 (successful_queries_ s + ok);
   failed_queries_ := u64 (failed_queries_ s + bad) |}.

(** The check every handler starts with. *)
Definition authorized (header : option string) (scope : AuthScope) {A} (denied : A) (body : Rpc (A * Status)) : Rpc (A * Status) :=
  s ← get_state;
  match CheckAuth (auth_ s) header scope with
  | Auth.OK => body
  | reason => mret (denied, Denied reason)
  end.

(** A null engine is dereferenced. *)
Definition null_engine {A} : Rpc A := λ s, (s, HostFunctions.Undefined).

(** A call of the engine. *)
Definition on_engine {A} (p : Prog (WasmEngine W) A) : Rpc A := λ s,
  let '(e, r) := p (wasm_engine_ s) in (set_wasm e s, r).

(** [sql_engine_->Execute(sql)] on the storage all components share. *)
Definition run_sql (now : Z) (sql : string) : Rpc SqlResult := λ s,
  match WasmEngine.storage_ (wasm_engine_ s) with
  | None => (s, HostFunctions.Undefined)
  | Some st =>
    let '(e, r) := SqlEngine.Execute now sql [] "" (new_SqlEngine st) in
    (set_wasm (WasmEngine.set_store (Some (SqlEngine.storage_ e)) (WasmEngine.id_counter (wasm_engine_ s)) (wasm_engine_ s)) s,
     match r with
     | Returns result => Done result
     | Throws what => Escaped what
     | SqlEngine.Undefined => HostFunctions.Undefined
     end)
  end.

(** ** SQLService *)

Definition Execute (now micros : Z) (header : option string) (sql : string) : Rpc (SQLResponse * Status) :=
  authorized header ADMIN no_response (
  _ ← modify_state (count 1 0 0);
  try_catch
    (result ← run_sql now sql;
     _ ← modify_state (if SqlEngine.success result then count 0 1 0 else count 0 0 1);
     mret (ConvertSqlResultToProto result micros, StatusOK))
    (λ what,
     _ ← modify_state (count 0 0 1);
     mret ({| sql_success := false; sql_error := "Internal server error: " +:+ what; sql_rows := [];
              sql_rows_affected := 0; execution_time_micros := 0 |}, StatusOK))).

(** The loop over the statements: the results, and the error of the statement
  it stopped at.  [now] and [micros] are by position. *)
Fixpoint execute_statements (now micros : nat → Z) (i : nat) (statements : list string)
  : Rpc (list SQLResponse * option string) :=
  match statements with
  | [] => mret ([], None)
  | sql :: statements =>
    result ← run_sql (now i) sql;
    let response := ConvertSqlResultToProto result (micros i) in
    if SqlEngine.success result then
      '(results, error) ← execute_statements now micros (S i) statements;
      mret (response :: results, error)
    else mret ([response], Some ("Statement failed: " +:+ sql +:+ " - " +:+ SqlEngine.error result))
  end.

(** [txn] is the clock in microseconds. *)
Definition ExecuteTransaction (txn : Z) (now micros : nat → Z) (header : option string) (statements : list string)
  : Rpc (SQLTransactionResponse * Status) :=
  authorized header ADMIN {| txn_success := false; txn_error := ""; txn_results := []; transaction_id := 0 |} (
  '(results, error) ← execute_statements now micros 0 statements;
  mret ({| txn_success := bool_decide (error = None); txn_error := default "" error; txn_results := results;
           transaction_id := txn |}, StatusOK)).

(** [uptime] in seconds; [connections] are those of the WebSocket server. *)
Definition GetStatus (uptime connections : Z) (header : option string) : Rpc (StatusResponse * Status) :=
  authorized header CLIENT {| rsp_version := ""; uptime_seconds := 0; stats := None |} (
  s ← get_state;
  match WasmEngine.storage_ (wasm_engine_ s) with
  | None => null_engine
  | Some st =>
      match changefeed_engine_ st with
      | None => null_engine
      | Some cf =>
          let storage_stats := Storage.GetStats st in
          let cf_metrics := Changefeed.GetMetrics cf in
          mret ({| rsp_version := "0.1.0"; uptime_seconds := uptime;
                   stats := Some
                     {| st_total_tables := i64 (total_tables storage_stats); st_total_rows := i64 (total_rows storage_stats);
                        st_storage_bytes := i64 (total_bytes storage_stats); st_active_connections := i64 connections;
                        st_active_subscriptions := i64 (active_subscriptions cf_metrics);
                        st_events_published := i64 (total_events_published cf_metrics);
                        st_total_queries := i64 (total_queries_ s); st_successful_queries := i64 (successful_queries_ s);
                        st_failed_queries := i64 (failed_queries_ s); st_loaded_modules := 0 |} |}, StatusOK)
      end
  end).

(** ** WasmService *)

Definition not_deployed (message : string) : DeployModuleResponse :=
  {| dp_success := false; dp_error := message; module_id := "" |}.

(** [module_store_->Save(...)]: [None] is true, without a store as well. *)
Definition save_module (io : save_io) (request : DeployModuleRequest) : Rpc (option string) := λ s,
  match module_store_ s with
  | None => (s, Done None)
  | Some st =>
    let '(st, d, r) := Save io (rq_name request) (rq_version request) (rq_bytecode request) st (modules_disk s) in
    lift_exc r (set_store (Some st) d s)
  end.

Definition unload (name : string) : Rpc bool :=
  on_engine (λ e, let '(e, b) := UnloadModule name e in (e, Done b)).

Definition DeployModule (now : Z) (io : save_io) (header : option string) (request : DeployModuleRequest)
  : Rpc (DeployModuleResponse * Status) :=
  authorized header ADMIN (not_deployed "") (try_catch
  (if bool_decide (rq_name request = "") || bool_decide (rq_bytecode request = []) then
     mret (not_deployed "module name and bytecode are required",
           StatusError INVALID_ARGUMENT "module name and bytecode are required")
   else if kMaxModuleBytes <? zlength (rq_bytecode request) then
     mret (not_deployed "module exceeds 64MiB size limit", StatusError INVALID_ARGUMENT "module exceeds 64MiB size limit")
   else
   loaded ← on_engine (LoadModule now (rq_name request) (rq_bytecode request) (rq_version request)
                         (CapabilitiesFromProto (rq_capabilities request)));
   if negb loaded then
     s ← get_state;
     let error := last_load_error_ (wasm_engine_ s) in
     mret (not_deployed (if bool_decide (error = "") then "failed to load WASM module" else error), StatusOK)
   else
   saved ← save_module io request;
   match saved with
   | Some save_error =>
       _ ← unload (rq_name request);
       mret (not_deployed ("failed to persist module: " +:+ save_error), StatusError INTERNAL save_error)
   | None => mret ({| dp_success := true; dp_error := ""; module_id := rq_name request |}, StatusOK)
   end)
  (λ what, mret (not_deployed ("exception during module deployment: " +:+ what), StatusError INTERNAL what))).

Definition remove_module (io : remove_io) (name : string) : Rpc bool := λ s,
  match module_store_ s with
  | None => (s, Done false)
  | Some st => let '(st, d, b) := Remove io name st (modules_disk s) in (set_store (Some st) d s, Done b)
  end.

Definition UndeployModule (io : remove_io) (header : option string) (name : string) : Rpc (UndeployModuleResponse * Status) :=
  authorized header ADMIN {| ud_success := false; ud_error := "" |} (
  unloaded ← unload name;
  removed ← remove_module io name;
  mret (if unloaded || removed then ({| ud_success := true; ud_error := "" |}, StatusOK)
        else ({| ud_success := false; ud_error := "module not found" |},
              StatusError NOT_FOUND ("module not found: " +:+ name)))).

(** A reducer as [GetModule] reports it. *)
Definition reducer_definition (r : ReducerDef) : ReducerDefinition :=
  {| rd_name := def_name r; rd_is_init := is_init r; rd_is_client_connected := is_client_connected r;
   rd_is_client_disconnected := is_client_disconnected r |}.

Definition stored_info (name : string) (s : node) : option StoredModuleInfo := module_store_ s ≫= GetInfo name.

(** One round of the loop of [ListModules]. *)
Definition list_entry (s : node) (name : string) : ModuleInfo :=
  let module := GetModule name (wasm_engine_ s) in
  let ver := match module with Some m => WasmEngine.version (metadata_ m) | None => "" end in
  let loaded := match module with Some m => loaded_ m | None => false end in
  match stored_info name s with
  | Some info => {| mi_name := name; mi_version := if bool_decide (ver = "") then ModuleStore.version info else ver;
                  mi_reducers := []; mi_loaded := loaded; mi_validated := loaded; mi_sha256 := sha256 info;
                  mi_deployed_at_ms := deployed_at_ms info |}
  | None => {| mi_name := name; mi_version := ver; mi_reducers := []; mi_loaded := loaded; mi_validated := loaded;
             mi_sha256 := ""; mi_deployed_at_ms := 0 |}
  end.

Definition ListModules (header : option string) : Rpc (list ModuleInfo * Status) :=
  authorized header CLIENT [] (
  s ← get_state; mret (list_entry s <$> WasmEngine.ListModules (wasm_engine_ s), StatusOK)).

Definition GetModule (header : option string) (name : string) : Rpc (GetModuleResponse * Status) :=
  authorized header CLIENT {| gm_success := false; gm_error := ""; gm_module := None |} (
  s ← get_state;
  match WasmEngine.GetModule name (wasm_engine_ s) with
  | None => mret ({| gm_success := false; gm_error := "module not found"; gm_module := None |},
                  StatusError NOT_FOUND ("module not found: " +:+ name))
  | Some m =>
      let info := stored_info name s in
      mret ({| gm_success := true; gm_error := "";
               gm_module := Some
                 {| mi_name := name_ m; mi_version := WasmEngine.version (metadata_ m);
                    mi_reducers := reducer_definition <$> reducers (metadata_ m); mi_loaded := loaded_ m;
                    mi_validated := loaded_ m; mi_sha256 := match info with Some i => sha256 i | None => "" end;
                    mi_deployed_at_ms := match info with Some i => deployed_at_ms i | None => 0 end |} |}, StatusOK)
  end).

(** The context of a call: its identities are those of the request. *)
Definition reducer_context (now : Z) (request : ExecuteReducerRequest) (e : WasmEngine W) : ReducerContext :=
  let ctx := CreateReducerContext now (er_sender request) (er_connection request) e in
  {| sender_identity := sender_identity ctx; module_identity := er_module request; connection_id := connection_id ctx;
   timestamp_micros := timestamp_micros ctx; has_changefeed := has_changefeed ctx |}.

Definition ExecuteReducer (now micros : Z) (header : option string) (request : ExecuteReducerRequest)
  : Rpc (ExecuteReducerResponse * Status) :=
  authorized header CLIENT {| er_success := false; er_error := ""; er_results := []; er_micros := 0 |} (try_catch
  (s ← get_state;
   result ← on_engine (WasmEngine.ExecuteReducer now (er_module request) (er_reducer request)
                         (reducer_context now request (wasm_engine_ s)) (arg_of_proto <$> er_args request));
   mret ({| er_success := WasmEngine.success result;
            er_error := if WasmEngine.success result then "" else WasmEngine.error result;
            er_results := if WasmEngine.success result then result_to_proto <$> WasmEngine.values result else [];
            er_micros := micros |}, StatusOK))
  (λ what, mret ({| er_success := false; er_error := "exception during reducer execution: " +:+ what; er_results := [];
                    er_micros := 0 |}, StatusError INTERNAL what))).

(** ** The services *)

(** [GrpcServiceImpl] and [WasmGrpcServiceImpl]: a call of the wrapped handler;
  one of them also catches what it throws. *)
Definition answer {A} (wrap : A → reply) (p : Rpc (A * Status)) : Rpc (reply * Status) :=
  '(a, status) ← p; mret (wrap a, status).

Definition serve (call : rpc) (header : option string) : Rpc (reply * Status) :=
  match call with
  | CallExecute now micros sql => answer ReplySQL (Execute now micros header sql)
  | CallExecuteTransaction txn now micros statements =>
    answer ReplyTransaction (ExecuteTransaction txn now micros header statements)
  | CallGetStatus uptime connections => answer ReplyStatus (GetStatus uptime connections header)
  | CallDeployModule now io request => answer ReplyDeploy (DeployModule now io header request)
  | CallUndeployModule io name => answer ReplyUndeploy (UndeployModule io header name)
  | CallListModules =>
    try_catch (answer ReplyList (ListModules header))
      (λ _, mret (ReplyList [], StatusError INTERNAL "Exception in ListModules"))
  | CallGetModule name => answer ReplyModule (GetModule header name)
  | CallExecuteReducer now micros request => answer ReplyReducer (ExecuteReducer now micros header request)
  end.
End services.
