(* ===== verification/GrpcCalls.v ===== *)
(** * What gRPC calls may do

    Which scope a call needs, what is out of reach without it, how queries are
    counted, and what a transaction of statements does. *)

From S2P Require Import Prelude Table Codec RowCodec Float64 Json MemTable Txn WalStore Changefeed StorageJson Storage RowJson HostFunctions SqlEngine WasmEngine WasmExec WasmLoad ModuleStore Auth GrpcServices.

#[export] Instance auth_status_eq_dec : EqDecision Auth.Status.
Proof. solve_decision. Defined.

(** ** What every step of a program respects, however it ends *)

Section always.
Context {S : Type} (R : relation S) `{!PreOrder R}.

Definition always {A} (p : Prog S A) : Prop := ∀ s, R s (p s).1.

Lemma always_ret {A} (a : A) : always (mret a).
Proof. by intros s. Qed.
Lemma always_get : always get_state.
Proof. by intros s. Qed.
Lemma always_modify f : (∀ s, R s (f s)) → always (modify_state f).
Proof. by intros H s. Qed.
Lemma always_lift_exc {A} (m : exc A) : always (lift_exc m).
Proof. intros s. by destruct m. Qed.
Lemma always_bind {A B} (p : Prog S A) (f : A → Prog S B) : always p → (∀ a, always (f a)) → always (p ≫= f).
Proof.
  intros Hp Hf s. specialize (Hp s). unfold mbind, Prog_bind. destruct (p s) as [s1 [a| | |]]; [|done..].
  simpl in *. etrans; [exact Hp|apply Hf].
Qed.
Lemma always_try_catch {A} (p : Prog S A) handler : always p → (∀ what, always (handler what)) → always (try_catch p handler).
Proof.
  intros Hp Hh s. specialize (Hp s). unfold try_catch. destruct (p s) as [s1 [a| |what|]]; [done..| |done].
  simpl in *. etrans; [exact Hp|apply Hh].
Qed.
End always.

Section calls.
Context {W : Type} `{WA : WalApi W} `{JL : JsonLib} {ID : IndentedDump JL} {SH : Sha256} `{HO : HashOrder} `{WT : Wasmtime W}.
Abbreviation engine := (WasmEngine W).
Abbreviation Eng := (Prog (WasmEngine W)).
Abbreviation node := (Node W).
Abbreviation Rpc := (Prog (Node W)).

(** ** What an execution leaves alone *)

Definition frame (e e' : engine) : Prop := e' = WasmEngine.set_store (storage_ e') (id_counter e') e.

#[export] Instance frame_preorder : PreOrder frame.
Proof. split; [intros e; by destruct e|]. unfold frame. intros e1 e2 e3 -> ->. done. Qed.

Abbreviation framed := (always frame).

Lemma framed_on_instance {A} i call (m : Host W A) : framed (on_instance i call m).
Proof. intros e. unfold on_instance. destruct (m _). done. Qed.
Lemma framed_commit_call now impl call : framed (commit_call now impl call).
Proof. intros e. unfold commit_call. destruct (CommitHostCall _ _ _ _). done. Qed.

Ltac framed := repeat first
  [ apply always_ret; exact _ | apply always_lift_exc; exact _ | apply framed_on_instance | apply framed_commit_call
  | apply always_bind; [exact _| |intros ?] | case_match | by (intros ?) ].

Lemma framed_Instantiate bytecode impl : framed (Instantiate bytecode impl).
Proof. unfold Instantiate. cbv zeta. framed. Qed.
Lemma framed_Execute now module reducer ctx args : framed (WasmEngine.Execute now module reducer ctx args).
Proof.
  unfold WasmEngine.Execute, finish. cbv zeta. apply always_bind; [exact _|by intros ?|intros e].
  case_match; [framed|]. apply always_bind; [exact _|case_match; [framed|apply framed_Instantiate]|intros ?]. framed.
Qed.
Lemma framed_ExtractMetadata m : framed (ExtractMetadata m).
Proof. unfold ExtractMetadata. cbv zeta. framed. Qed.

(** A load that does not answer true leaves the registry alone. *)
Definition loads (p : Eng bool) : Prop := ∀ e, (p e).2 = Done true ∨ modules_ (p e).1 = modules_ e.

Lemma loads_bind {A} (p : Eng A) (f : A → Eng bool) : framed p → (∀ a, loads (f a)) → loads (p ≫= f).
Proof.
  intros Hp Hf e. specialize (Hp e). unfold mbind, Prog_bind. destruct (p e) as [e1 [a| | |]]; simpl in *;
  [|right; by rewrite Hp..].
  destruct (Hf a e1) as [H|H]; [by left|right]. by rewrite H, Hp.
Qed.
Lemma loads_failed name err : loads (load_failed name err).
Proof. intros e. by right. Qed.

Lemma LoadModule_registry now name bytecode ver cap : loads (LoadModule now name bytecode ver cap).
Proof.
  unfold LoadModule. apply loads_bind; [by intros ?|intros e]. repeat (case_match; [apply loads_failed|]).
  apply loads_bind; [apply framed_Instantiate|intros [impl [err|]]]; [apply loads_failed|].
  apply loads_bind; [apply framed_ExtractMetadata|intros m]. apply loads_bind; [by intros ?|intros e1].
  cbv zeta. apply loads_bind; [apply always_lift_exc, _|intros [err|]]; [apply loads_failed|].
  apply loads_bind; [apply framed_Execute|intros [m1 init]]. case_match; [apply loads_failed|].
  apply loads_bind; [|intros [m2 [err|]]]; [|apply loads_failed|intros e2; by left].
  destruct (modules_ e1 !! name); [|apply always_ret, _]. apply always_bind; [exact _|apply framed_Execute|intros []; apply always_ret, _].
Qed.

(** An execution changes at most the storage, the identifiers and the instance
  of the module it runs in. *)
Definition registry_same (e e' : engine) : Prop :=
  ∀ name, option_Forall2 same_module (modules_ e !! name) (modules_ e' !! name).

Lemma registry_same_frame e e' : frame e e' → registry_same e e'.
Proof.
  intros -> name. simpl. destruct (modules_ e !! name); constructor. apply same_module_refl.
Qed.

Lemma ExecuteReducer_registry now module reducer ctx args e :
  registry_same e (WasmEngine.ExecuteReducer now module reducer ctx args e).1.
Proof.
  unfold WasmEngine.ExecuteReducer. rewrite (host_bind_done _ _ e e e) by done.
  destruct (WasmEngine.GetModule module e) as [m|] eqn:Em; [|by apply registry_same_frame].
  pose proof (framed_Execute now m reducer ctx args e) as Hf. unfold mbind, Prog_bind.
  destruct (WasmEngine.Execute now m reducer ctx args e) as [e1 [[m1 res]| | |]] eqn:E;
  [|by apply registry_same_frame..].
  apply Execute_same in E. simpl in *. intros name. simpl. rewrite Hf. simpl. destruct (decide (name = module)) as [->|].
  - rewrite lookup_insert_eq. unfold WasmEngine.GetModule in Em. rewrite Em. by constructor.
  - rewrite lookup_insert_ne by done. by apply (registry_same_frame e e).
Qed.

(** ** Scopes *)

(** The scope a call needs. *)
Definition scope_of (call : rpc) : AuthScope :=
  match call with
  | CallExecute _ _ _ | CallExecuteTransaction _ _ _ _ | CallDeployModule _ _ _ | CallUndeployModule _ _ => ADMIN
  | CallGetStatus _ _ | CallListModules | CallGetModule _ | CallExecuteReducer _ _ _ => CLIENT
  end.

Lemma authorized_denied {A} header scope (denied : A) (body : Rpc (A * Status)) s :
  CheckAuth (auth_ s) header scope ≠ Auth.OK →
  authorized header scope denied body s = (s, Done (denied, Denied (CheckAuth (auth_ s) header scope))).
Proof. intros H. unfold authorized. rewrite (host_bind_done _ _ s s s) by done. by destruct (CheckAuth _ _ _). Qed.
Lemma authorized_granted {A} header scope (denied : A) (body : Rpc (A * Status)) s :
  CheckAuth (auth_ s) header scope = Auth.OK → authorized header scope denied body s = body s.
Proof. intros H. unfold authorized. rewrite (host_bind_done _ _ s s s) by done. by rewrite H. Qed.

Lemma answer_done {A} (wrap : A → reply) (p : Rpc (A * Status)) s s' a status :
  p s = (s', Done (a, status)) → answer wrap p s = (s', Done (wrap a, status)).
Proof. intros H. unfold answer. by rewrite (host_bind_done _ _ _ _ _ H). Qed.

Lemma serve_denied call header s :
  CheckAuth (auth_ s) header (scope_of call) ≠ Auth.OK →
  ∃ reply, serve call header s = (s, Done (reply, Denied (CheckAuth (auth_ s) header (scope_of call)))).
Proof.
  intros H. destruct call; simpl in *; try (eexists; apply answer_done; by apply authorized_denied).
  eexists. unfold try_catch. erewrite answer_done; [done|]. by apply authorized_denied.
Qed.

Lemma always_authorized R `{!PreOrder R} {A} header scope (denied : A) (body : Rpc (A * Status)) :
  always R body → always R (authorized header scope denied body).
Proof.
  intros Hb. apply always_bind; [exact _|by apply always_get|intros s].
  case_match; [exact Hb|by apply always_ret..].
Qed.
Lemma always_answer R `{!PreOrder R} {A} (wrap : A → reply) (p : Rpc (A * Status)) : always R p → always R (answer wrap p).
Proof. intros Hp. apply always_bind; [exact _|exact Hp|]. intros []. by apply always_ret. Qed.

(** Calls that only read. *)
Lemma reads_only call header :
  scope_of call = CLIENT → (∀ now micros rq, call ≠ CallExecuteReducer now micros rq) → always eq (serve call header).
Proof.
  intros Hs He. destruct call; try done; [| | |by destruct (He now micros request)]; cbn [serve];
  [|apply always_try_catch; [exact _| |done]|];
  (apply (always_answer _), (always_authorized _), always_bind; [exact _|done|intros s0; by repeat case_match]).
Qed.

(** The answer of a reducer call, however the engine ends. *)
Lemma ExecuteReducer_node now micros header rq s s' r :
  GrpcServices.ExecuteReducer now micros header rq s = (s', r) →
  ∃ e', s' = set_wasm e' s ∧ registry_same (wasm_engine_ s) e'.
Proof.
  destruct (decide (CheckAuth (auth_ s) header CLIENT = Auth.OK)) as [Ha|Ha].
  - unfold GrpcServices.ExecuteReducer. rewrite authorized_granted by done. unfold try_catch.
  rewrite (host_bind_done _ _ s s s) by done. unfold mbind, Prog_bind, on_engine.
  pose proof (ExecuteReducer_registry now (er_module rq) (er_reducer rq) (reducer_context now rq (wasm_engine_ s))
    (arg_of_proto <$> er_args rq) (wasm_engine_ s)) as H.
  destruct (WasmEngine.ExecuteReducer _ _ _ _ _ _) as [e' [res| | |]]; intros [= <- <-]; by exists e'.
  - unfold GrpcServices.ExecuteReducer. rewrite authorized_denied by done. intros [= <- _].
  exists (wasm_engine_ s). split; [by destruct s|by apply registry_same_frame].
Qed.
(** A call with the client's scope leaves everything but the storage and the
  instances alone. *)
Lemma client_call call header s s' r :
  scope_of call = CLIENT → serve call header s = (s', r) →
  ∃ e', s' = set_wasm e' s ∧ registry_same (wasm_engine_ s) e'.
Proof.
  intros Hs Hrun. assert (Hself : always eq (serve call header) → ∃ e', s' = set_wasm e' s ∧ registry_same (wasm_engine_ s) e').
  { intros H. specialize (H s). rewrite Hrun in H. simpl in H. subst s'. exists (wasm_engine_ s).
  split; [by destruct s|by apply registry_same_frame]. }
  destruct call; try done; try (by apply Hself, reads_only). revert Hrun. cbn [serve]. unfold answer, mbind, Prog_bind.
  destruct (GrpcServices.ExecuteReducer _ _ _ _ s) as [s1 r1] eqn:E. apply ExecuteReducer_node in E.
  destruct r1 as [[]| | |]; by intros [= <- <-].
Qed.

(** ** Statuses and the token manager *)

Definition never_denied {A} (p : Rpc (A * Status)) : Prop := ∀ s a reason, (p s).2 ≠ Done (a, Denied reason).

Lemma never_denied_ret {A} (a : A) status : (∀ reason, status ≠ Denied reason) → never_denied (mret (a, status)).
Proof. intros H s a' reason [= _ ?]. by eapply H. Qed.
Lemma never_denied_bind {A B} (p : Rpc A) (f : A → Rpc (B * Status)) : (∀ a, never_denied (f a)) → never_denied (p ≫= f).
Proof. intros Hf s b reason. unfold mbind, Prog_bind. destruct (p s) as [s1 [a| | |]]; [apply Hf|done..]. Qed.
Lemma never_denied_try_catch {A} (p : Rpc (A * Status)) handler :
  never_denied p → (∀ what, never_denied (handler what)) → never_denied (try_catch p handler).
Proof.
  intros Hp Hh s a reason. unfold try_catch. specialize (Hp s a reason). destruct (p s) as [s1 []]; [exact Hp|done|apply Hh|done].
Qed.

Ltac undenied := repeat first
  [ apply never_denied_ret; intros ?; discriminate | apply never_denied_bind; intros ?
  | apply never_denied_try_catch; [|intros ?] | case_match; simplify_eq | by intros ?? ].

Lemma answer_denied {A} (wrap : A → reply) (p : Rpc (A * Status)) s s' r reason :
  answer wrap p s = (s', Done (r, Denied reason)) → ∃ a, p s = (s', Done (a, Denied reason)).
Proof. intros (s1 & [a status] & H1 & H2)%host_bind_inv. injection H2 as -> <- ->. by exists a. Qed.

Lemma serve_granted call header s s' r reason :
  CheckAuth (auth_ s) header (scope_of call) = Auth.OK → serve call header s ≠ (s', Done (r, Denied reason)).
Proof.
  intros Ha Hrun. assert (Hg : ∀ A scope (denied : A) body, scope = scope_of call → never_denied body →
  ∀ a, authorized header scope denied body s ≠ (s', Done (a, Denied reason))).
  { intros A scope denied body -> Hb a E. rewrite authorized_granted in E by done. apply (Hb s a reason). by rewrite E. }
  destruct call; cbn [serve] in Hrun;
  try (apply answer_denied in Hrun as [a Hrun]; revert Hrun; apply Hg; [done|undenied]).
  revert Hrun. unfold try_catch. destruct (answer _ _ s) as [s1 [[]| | |]] eqn:E; intros [= -> -> ->]; try done.
  apply answer_denied in E as [a E]. revert E. apply Hg; [done|undenied].
Qed.

Definition same_auth (s s' : node) : Prop := auth_ s = auth_ s'.
#[export] Instance same_auth_preorder : PreOrder same_auth.
Proof. split; [done|]. intros s1 s2 s3. unfold same_auth. congruence. Qed.

Lemma same_auth_on_engine {A} (p : Prog engine A) : always same_auth (on_engine p).
Proof. intros s. unfold on_engine. by destruct (p _). Qed.
Lemma same_auth_run_sql now sql : always same_auth (run_sql now sql).
Proof. intros s. unfold run_sql. destruct (storage_ _) as [st|]; [|done]. by destruct (SqlEngine.Execute _ _ _ _ _). Qed.
Lemma same_auth_save io rq : always same_auth (save_module io rq).
Proof.
  intros s. unfold save_module. destruct (module_store_ s) as [st|]; [|done]. destruct (Save _ _ _ _ _ _) as [[??] []]; done.
Qed.
Lemma same_auth_remove io name : always same_auth (remove_module io name).
Proof. intros s. unfold remove_module. destruct (module_store_ s); [|done]. by destruct (Remove _ _ _ _) as [[??]?]. Qed.

Ltac same_auth := repeat first
  [ apply always_ret; exact _ | apply same_auth_on_engine | apply same_auth_run_sql | apply same_auth_save
  | apply same_auth_remove | apply always_modify; intros ?; by repeat case_match | by (intros ?)
  | apply always_bind; [exact _| |intros ?] | apply always_try_catch; [exact _| |intros ?] | case_match; simplify_eq ].

Lemma same_auth_statements now micros l : ∀ i, always same_auth (execute_statements now micros i l).
Proof. induction l as [|sql l IH]; intros i; cbn [execute_statements]; same_auth. apply IH. Qed.

Lemma serve_auth call header : always same_auth (serve call header).
Proof.
  destruct call; cbn [serve]; try apply always_try_catch; try exact _; try (intros ?; same_auth);
  apply always_answer; try exact _; apply always_authorized; try exact _; same_auth. apply same_auth_statements.
Qed.

(** C13.  Nothing happens without the scope for it.  A gRPC call whose token does
  not have the scope its handler asks for changes nothing and is answered the
  refusal; a call that is refused for its token does not have it.  Statements,
  transactions, deployments and removals need the administrator's token: with
  a client's token a call leaves the module store, its directory, the tokens
  and the query counters as they are, and the registered modules up to their
  running instances, and only a reducer call changes anything at all. *)
Theorem call_privileges call header s s' r (Hrun : serve call header s = (s', r)) :
  (CheckAuth (auth_ s) header (scope_of call) ≠ Auth.OK →
   s' = s ∧ ∃ reply, r = Done (reply, Denied (CheckAuth (auth_ s) header (scope_of call)))) ∧
  (∀ reply reason, r = Done (reply, Denied reason) → CheckAuth (auth_ s) header (scope_of call) ≠ Auth.OK) ∧
  (CheckAuth (auth_ s) header ADMIN ≠ Auth.OK →
   (∃ e', s' = set_wasm e' s ∧ registry_same (wasm_engine_ s) e') ∧
   ((∀ now micros rq, call ≠ CallExecuteReducer now micros rq) → s' = s)) ∧
  auth_ s' = auth_ s.
Proof.
  split_and!.
  - intros Ha. destruct (serve_denied _ _ _ Ha) as [reply H]. rewrite H in Hrun. injection Hrun as <- <-. split; [done|by eexists].
  - intros reply reason -> Ha. by apply (serve_granted call header s s' reply reason).
  - intros Ha. assert (Hread : (∀ now micros rq, call ≠ CallExecuteReducer now micros rq) → s' = s).
  { intros Hc. destruct (scope_of call) eqn:Es.
    - pose proof (reads_only call header Es Hc s) as H. by rewrite Hrun in H.
    - rewrite <- Es in Ha. destruct (serve_denied _ _ _ Ha) as [reply H]. rewrite Hrun in H. by injection H. }
  split; [|exact Hread]. destruct (scope_of call) eqn:Es; [by eapply client_call|].
  rewrite <- Es in Ha. destruct (serve_denied _ _ _ Ha) as [reply H]. rewrite Hrun in H. injection H as -> _.
  exists (wasm_engine_ s). split; [by destruct s|by apply registry_same_frame].
  - pose proof (serve_auth call header s) as H. rewrite Hrun in H. by symmetry.
Qed.
End calls.
