(* ===== verification/GrpcDeploy.v ===== *)
(** * Deploying modules over gRPC

    What a deployment that answers leaves in service and on disk, and the
    invariant of the two over any calls: what is in service is on disk. *)

From S2P Require Import Prelude Table Codec RowCodec Float64 Json MemTable Txn WalStore Changefeed StorageJson Storage RowJson HostFunctions HostReads SqlEngine WasmEngine WasmExec WasmLoad ModuleStore ModuleStoreRestart Auth GrpcServices GrpcCalls.

Section deploy.
Context {W : Type} `{WA : WalApi W} `{JL : JsonLib} {ID : IndentedDump JL} {SH : Sha256} `{HO : HashOrder} `{WT : Wasmtime W}.
Context (guests_safe : ∀ bytecode, GuestSafe (G := guest_of bytecode)).
Abbreviation engine := (WasmEngine W).
Abbreviation node := (Node W).

(** ** The three ways a deployment ends *)

(** The modules in service. *)
Definition in_service (s : node) : gmap string WasmModule := modules_ (wasm_engine_ s).
(** Everything but the engine, which serves the same modules. *)
Definition untouched (s s' : node) : Prop :=
  in_service s' = in_service s ∧ module_store_ s' = module_store_ s ∧ modules_disk s' = modules_disk s.

(** Tokens and counters. *)
Definition same_books (s s' : node) : Prop :=
  GrpcServices.auth_ s' = GrpcServices.auth_ s ∧ total_queries_ s' = total_queries_ s ∧
  successful_queries_ s' = successful_queries_ s ∧ failed_queries_ s' = failed_queries_ s.

Definition request_refused (rq : DeployModuleRequest) : Prop :=
  rq_name rq = "" ∨ rq_bytecode rq = [] ∨ kMaxModuleBytes < zlength (rq_bytecode rq).

(** The engine did not take the module: nothing but the engine differs, it serves
    the same modules, and if it answered the database is as it was unless the
    [__init] of the checked module ran; one that failed had the last word. *)
Definition engine_refused (now : Z) (rq : DeployModuleRequest) (s s' : node) : Prop :=
  ∃ e', s' = set_wasm e' s ∧ modules_ e' = in_service s ∧
    let load := LoadModule now (rq_name rq) (rq_bytecode rq) (rq_version rq) (CapabilitiesFromProto (rq_capabilities rq)) (wasm_engine_ s) in
    (load = (e', Done false) ∧
     (storage_same (WasmEngine.storage_ (wasm_engine_ s)) (WasmEngine.storage_ e') ∨
      ∃ e3 res, init_ran now (rq_name rq) (rq_bytecode rq) (wasm_engine_ s) e3 res ∧
        (WasmEngine.success res = false → WasmEngine.storage_ e' = WasmEngine.storage_ e3))) ∨
    ∃ what, load = (e', Escaped what).

(** What the store did with the request. *)
Definition store_saved (io : save_io) (rq : DeployModuleRequest) (s s' : node) (answer : exc (option string)) : Prop :=
  match module_store_ s with
  | None => module_store_ s' = None ∧ modules_disk s' = modules_disk s ∧ answer = Ret None
  | Some st => ∃ st', module_store_ s' = Some st' ∧
    Save io (rq_name rq) (rq_version rq) (rq_bytecode rq) st (modules_disk s) = (st', modules_disk s', answer)
  end.

(** The module of the request is in service instead of its predecessor. *)
Definition now_serves (rq : DeployModuleRequest) (s s' : node) : Prop :=
  ∃ m, in_service s' = <[rq_name rq := m]> (in_service s) ∧ module_ok (rq_name rq) m ∧ bytecode_ m = rq_bytecode rq ∧
     capabilities_ m = CapabilitiesFromProto (rq_capabilities rq) ∧
     (rq_version rq ≠ "" → WasmEngine.version (metadata_ m) = rq_version rq) ∧
     (∀ p, in_service s !! rq_name rq = Some p → not_older p m).

Lemma save_module_spec io rq s s' r :
  save_module io rq s = (s', r) →
  ∃ answer, store_saved io rq s s' answer ∧ wasm_engine_ s' = wasm_engine_ s ∧ r = (lift_exc answer s').2 ∧ same_books s s'.
Proof.
  unfold save_module, store_saved. destruct (module_store_ s) as [st|] eqn:Est.
  - destruct (Save _ _ _ _ _ _) as [[st' d'] [a|w]]; intros [= <- <-]; eexists; split; try (by eexists); done.
  - intros [= <- <-]. by exists (Ret None).
Qed.

(** The three ways, by cases on engine and store. *)
Lemma deploy_cases now io header rq (s s' : node) resp status
  (Hgranted : CheckAuth (auth_ s) header ADMIN = Auth.OK)
  (Hrun : DeployModule now io header rq s = (s', Done (resp, status))) :
  same_books s s' ∧
  if dp_success resp then
  status = StatusOK ∧ module_id resp = rq_name rq ∧ dp_error resp = "" ∧ rq_name rq ≠ "" ∧
  rq_bytecode rq ≠ [] ∧ zlength (rq_bytecode rq) <= kMaxModuleBytes ∧
  now_serves rq s s' ∧ store_saved io rq s s' (Ret None)
  else
  dp_error resp ≠ "" ∧ module_id resp = "" ∧
  ((request_refused rq ∧ s' = s) ∨ engine_refused now rq s s' ∨
   (∃ err, store_saved io rq s s' (Ret (Some err)) ∧ in_service s' = delete (rq_name rq) (in_service s) ∧
           status = StatusError INTERNAL err) ∨
   (∃ what, store_saved io rq s s' (Throw what) ∧ now_serves rq s s' ∧ status = StatusError INTERNAL what)).
Proof.
  unfold DeployModule in Hrun. rewrite authorized_granted in Hrun by done. unfold try_catch in Hrun.
  destruct (bool_decide (rq_name rq = "") || bool_decide (rq_bytecode rq = [])) eqn:E1.
  { injection Hrun as <- <- <-. simpl. split; [done|]. split; [done|]. split; [done|]. left. split; [|done].
    apply orb_true_iff in E1 as [H%bool_decide_eq_true|H%bool_decide_eq_true]; [by left|right; by left]. }
  apply orb_false_iff in E1 as [E1%bool_decide_eq_false E1'%bool_decide_eq_false].
  destruct (kMaxModuleBytes <? zlength (rq_bytecode rq)) eqn:E2.
  { injection Hrun as <- <- <-. simpl. split; [done|]. split; [done|]. split; [done|]. left. split; [|done].
    right; right. by apply Z.ltb_lt. }
  apply Z.ltb_ge in E2. unfold on_engine in Hrun at 1. unfold mbind at 1, Prog_bind at 1 in Hrun.
  pose proof (LoadModule_registry now (rq_name rq) (rq_bytecode rq) (rq_version rq)
  (CapabilitiesFromProto (rq_capabilities rq)) (wasm_engine_ s)) as Hreg.
  destruct (LoadModule _ _ _ _ _ (wasm_engine_ s)) as [e1 [[|]| |what|]] eqn:EL; simpl in Hreg; try done.
  - apply (LoadModule_cases guests_safe) in EL as [(? & _)|(_ & _ & m & Hm & Hok & Hb & Hc & Hv & Hold & _)]; [done|].
  assert (Hserves : ∀ s1, wasm_engine_ s1 = e1 → now_serves rq s s1).
  { intros s1 <-. exists m. by split_and!. }
  simpl in Hrun. unfold mbind at 1, Prog_bind at 1 in Hrun.
  destruct (save_module io rq (set_wasm e1 s)) as [s2 r2] eqn:ES.
  apply save_module_spec in ES as (answer & Hs & Hw & -> & Hbooks). simpl in Hw.
  assert (Hb2 : same_books s s2) by exact Hbooks. clear Hbooks.
  destruct answer as [[err|]|what]; simpl in Hrun.
  + unfold unload, on_engine, mbind, Prog_bind in Hrun. rewrite Hw in Hrun. unfold UnloadModule in Hrun.
    rewrite Hm, lookup_insert_eq in Hrun. simpl in Hrun. injection Hrun as <- <- <-. simpl. split; [exact Hb2|].
    split; [done|]. split; [done|]. right; right; left. exists err. split; [exact Hs|]. split; [|done].
    unfold in_service. simpl. by rewrite delete_insert_eq.
  + injection Hrun as <- <- <-. simpl. split_and!; try done; try apply Hb2. by apply Hserves.
  + injection Hrun as <- <- <-. simpl. split; [exact Hb2|]. split; [done|]. split; [done|]. right; right; right. exists what.
    split_and!; [done|by apply Hserves|done].
  - destruct Hreg as [|Hreg]; [done|]. simpl in Hrun. injection Hrun as <- <- <-. simpl.
  split; [done|]. split; [by case_bool_decide|]. split; [done|]. right; left. exists e1. split; [done|]. split; [exact Hreg|].
  left. rewrite EL. split; [done|]. by apply (LoadModule_refused guests_safe) in EL.
  - destruct Hreg as [|Hreg]; [done|]. injection Hrun as <- <- <-. simpl.
  split; [done|]. split; [done|]. split; [done|]. right; left. exists e1. split; [done|]. split; [exact Hreg|].
  right. exists what. exact EL.
Qed.


(** ** What is in service is on disk *)

(** The store represents the deployments [m], and a module in service is one of
  them, with the bytecode on disk and the version in the index. *)
Record node_ok (m : gmap string deployment) (s : node) : Prop := {
  ok_store : ∃ st, module_store_ s = Some st ∧ represents m st (modules_disk s);
  ok_served : ∀ name mod_, in_service s !! name = Some mod_ → ∃ dep, m !! name = Some dep ∧
  bytecode_ mod_ = dep_bytecode dep ∧ (dep_version dep ≠ "" → WasmEngine.version (metadata_ mod_) = dep_version dep)
}.

(** The file operations of a call, as [store_survives_restart] assumes them. *)
Definition call_fine (call : rpc) : Prop :=
  match call with
  | CallDeployModule _ io rq => save_fine io (rq_version rq) (rq_bytecode rq)
  | CallUndeployModule io _ => io = RemovedAll
  | _ => True
  end.

(** What a call with this outcome does to the deployments. *)
Definition spec_call (m : gmap string deployment) (call : rpc) (r : outcome (reply * Status)) : gmap string deployment :=
  match call, r with
  | CallDeployModule _ io rq, Done (ReplyDeploy resp, _) =>
    if dp_success resp then <[rq_name rq := deployed_by io (rq_version rq) (rq_bytecode rq)]> m else m
  | CallUndeployModule _ name, Done (_, Denied _) => m
  | CallUndeployModule _ name, Done _ => if ValidModuleName name then delete name m else m
  | _, _ => m
  end.

#[export] Instance untouched_preorder : PreOrder untouched.
Proof.
  split; [done|]. intros s1 s2 s3 (H1 & H2 & H3) (H4 & H5 & H6). split_and!; congruence.
Qed.

Lemma node_ok_untouched m s s' : node_ok m s → untouched s s' → node_ok m s'.
Proof.
  intros [(st & Hst & Hr) Hsv] (H1 & H2 & H3). split.
  - exists st. by rewrite H2, H3.
  - rewrite H1. done.
Qed.

Lemma untouched_run_sql now sql : always untouched (run_sql now sql).
Proof.
  intros s. unfold run_sql. destruct (WasmEngine.storage_ _) as [st|]; [|done]. by destruct (SqlEngine.Execute _ _ _ _ _).
Qed.
Lemma untouched_statements now micros l : ∀ i, always untouched (execute_statements now micros i l).
Proof.
  induction l as [|sql l IH]; intros i; cbn [execute_statements]; [apply always_ret, _|].
  apply always_bind; [exact _|apply untouched_run_sql|intros result]. cbv zeta. case_match; [|apply always_ret, _].
  apply always_bind; [exact _|apply IH|intros []]. apply always_ret, _.
Qed.

Lemma untouched_sql call header :
  match call with CallExecute _ _ _ | CallExecuteTransaction _ _ _ _ => True | _ => False end →
  always untouched (serve call header).
Proof.
  destruct call; try done; intros _; cbn [serve]; apply always_answer, always_authorized; try exact _.
  - apply always_bind; [exact _|by intros ?|intros _]. apply always_try_catch; [exact _| |intros what].
  + apply always_bind; [exact _|apply untouched_run_sql|intros result].
    apply always_bind; [exact _|intros ?; by case_match|intros _]. apply always_ret, _.
  + apply always_bind; [exact _|by intros ?|intros _]. apply always_ret, _.
  - apply always_bind; [exact _|apply untouched_statements|intros []]. apply always_ret, _.
Qed.

Lemma engine_refused_untouched now rq s s' : engine_refused now rq s s' → untouched s s'.
Proof. intros (e' & -> & Hm & _). by split. Qed.

(** A deployment that does not answer left things alone. *)
Lemma DeployModule_unanswered now io header rq s s' r :
  DeployModule now io header rq s = (s', r) → (∃ a, r = Done a) ∨ untouched s s'.
Proof.
  destruct (decide (CheckAuth (auth_ s) header ADMIN = Auth.OK)) as [Ha|Ha];
  [|unfold DeployModule; rewrite authorized_denied by done; intros [= <- <-]; left; by eexists].
  unfold DeployModule. rewrite authorized_granted by done. unfold try_catch.
  destruct (_ || _); [intros [= <- <-]; left; by eexists|].
  destruct (_ <? _); [intros [= <- <-]; left; by eexists|].
  unfold on_engine at 1. unfold mbind at 1, Prog_bind at 1.
  pose proof (LoadModule_registry now (rq_name rq) (rq_bytecode rq) (rq_version rq)
  (CapabilitiesFromProto (rq_capabilities rq)) (wasm_engine_ s)) as Hreg.
  destruct (LoadModule _ _ _ _ _ (wasm_engine_ s)) as [e1 [[|]| |what|]]; simpl in Hreg;
  [|intros [= <- <-]; left; by eexists|destruct Hreg as [|Hreg]; [done|intros [= <- <-]; by right]
   |intros [= <- <-]; left; by eexists|destruct Hreg as [|Hreg]; [done|intros [= <- <-]; by right]].
  simpl. unfold mbind at 1, Prog_bind at 1. destruct (save_module _ _ _) as [s2 r2] eqn:ES.
  apply save_module_spec in ES as (answer & _ & _ & -> & _).
  destruct answer as [[err|]|what]; simpl; [|intros [= <- <-]; left; by eexists..].
  unfold unload, on_engine, mbind, Prog_bind. destruct (UnloadModule _ _). intros [= <- <-]. left. by eexists.
Qed.
(** ** The invariant *)

Lemma deploy_node_ok m now io header rq s s' resp status :
  node_ok m s → save_fine io (rq_version rq) (rq_bytecode rq) → CheckAuth (auth_ s) header ADMIN = Auth.OK →
  DeployModule now io header rq s = (s', Done (resp, status)) →
  node_ok (if dp_success resp then <[rq_name rq := deployed_by io (rq_version rq) (rq_bytecode rq)]> m else m) s'.
Proof.
  intros Hok Hf Ha Hrun. apply deploy_cases in Hrun as [_ Hrun]; [|done].
  pose proof Hok as [(st & Hst & Hr) Hsv].
  destruct (Save_represents io (rq_name rq) (rq_version rq) (rq_bytecode rq) m st (modules_disk s) Hr Hf)
  as (st1 & d1 & a1 & HS & _ & Ha1 & Hr1).
  assert (Hsaved : ∀ answer, store_saved io rq s s' answer →
  answer = Ret a1 ∧ module_store_ s' = Some st1 ∧ modules_disk s' = d1).
  { intros answer. unfold store_saved. rewrite Hst, HS. by intros (st' & -> & [= -> -> <-]). }
  destruct (dp_success resp).
  - destruct Hrun as (_ & _ & _ & _ & _ & _ & (mod_ & Hm & _ & Hb & _ & Hv & _) & Hs).
  apply Hsaved in Hs as ([= <-] & Hst' & Hd').
  rewrite (proj1 Ha1) in Hr1 by done. split; [exists st1; by rewrite Hd'|].
  intros name mod' Hl. rewrite Hm in Hl. destruct (decide (name = rq_name rq)) as [->|Hne].
  + rewrite lookup_insert_eq in Hl. injection Hl as <-. eexists. rewrite lookup_insert_eq. by split_and!.
  + rewrite lookup_insert_ne in Hl by done. rewrite lookup_insert_ne by done. by apply Hsv.
  - destruct Hrun as (_ & _ & [(_ & ->)|[Hu|[(err & Hs & Hm & _)|(what & Hs & _)]]]).
  + done.
  + eapply node_ok_untouched; [exact Hok|by eapply engine_refused_untouched].
  + apply Hsaved in Hs as ([= <-] & Hst' & Hd').
    destruct (ValidModuleName (rq_name rq) && in_place io) eqn:E; [by discriminate (proj2 Ha1 eq_refl)|].
    split; [exists st1; by rewrite Hd'|]. intros name mod_ Hl. rewrite Hm in Hl.
    apply lookup_delete_Some in Hl as [_ Hl]. by apply Hsv.
  + by apply Hsaved in Hs as (? & _).
Qed.

Lemma undeploy_node_ok m header name s :
  node_ok m s → CheckAuth (auth_ s) header ADMIN = Auth.OK →
  ∃ s' resp status, UndeployModule RemovedAll header name s = (s', Done (resp, status)) ∧
  (∀ reason, status ≠ Denied reason) ∧ node_ok (if ValidModuleName name then delete name m else m) s'.
Proof.
  intros [(st & Hst & Hr) Hsv] Ha. unfold UndeployModule. rewrite authorized_granted by done.
  unfold unload, on_engine, remove_module, mbind, Prog_bind.
  assert (Hun : modules_ (UnloadModule name (wasm_engine_ s)).1 = delete name (in_service s)).
  { unfold UnloadModule, in_service. destruct (modules_ (wasm_engine_ s) !! name) eqn:E; [done|]. simpl.
  by rewrite delete_id. }
  destruct (UnloadModule name (wasm_engine_ s)) as [e1 b1]. simpl in Hun |- *. rewrite Hst.
  assert (Hserved : ∀ m' : gmap string deployment, (∀ k, k ≠ name → m' !! k = m !! k) → ∀ k mod_, modules_ e1 !! k = Some mod_ →
  ∃ dep, m' !! k = Some dep ∧ bytecode_ mod_ = dep_bytecode dep ∧
         (dep_version dep ≠ "" → WasmEngine.version (metadata_ mod_) = dep_version dep)).
  { intros m' Hm' k mod_. rewrite Hun. intros [Hne Hk]%lookup_delete_Some. rewrite Hm' by done. by apply Hsv. }
  unfold Remove. destruct (ValidModuleName name); cbn [negb].
  - match goal with |- context [if ?c then (_, StatusOK) else _] => destruct c end;
    (do 3 eexists; split; [reflexivity|]; split; [done|]; split;
     [eexists; split; [reflexivity|by apply represents_remove]
     |apply Hserved; intros k Hk; by rewrite lookup_delete_ne]).
  - match goal with |- context [if ?c then (_, StatusOK) else _] => destruct c end;
    (do 3 eexists; split; [reflexivity|]; split; [done|]; split; [by exists st|by apply Hserved]).
Qed.

(** Every call keeps what is in service on disk. *)
Lemma serve_node_ok m call header s s' r :
  node_ok m s → call_fine call → serve call header s = (s', r) → node_ok (spec_call m call r) s'.
Proof.
  intros Hok Hf Hrun. destruct (decide (scope_of call = CLIENT)) as [Hc|Hc].
  - destruct (client_call _ _ _ _ _ Hc Hrun) as (e' & -> & Hreg).
  replace (spec_call m call r) with m by (by destruct call). destruct Hok as [(st & Hst & Hr) Hsv]. split; [by exists st|].
  intros name mod' Hl. unfold in_service in *. simpl in Hl. specialize (Hreg name). rewrite Hl in Hreg.
  destruct (modules_ (wasm_engine_ s) !! name) as [mod_|] eqn:E; [|inversion Hreg].
  inversion_clear Hreg as [? ? [i Hi]|]. subst mod'. exact (Hsv name mod_ E).
  - destruct (decide (CheckAuth (auth_ s) header ADMIN = Auth.OK)) as [Ha|Ha].
  + destruct call as [now micros sql|txn now micros l| |now io rq|io name| | |]; try done.
    * eapply node_ok_untouched; [exact Hok|]. pose proof (untouched_sql (CallExecute now micros sql) header I s) as H.
      by rewrite Hrun in H.
    * eapply node_ok_untouched; [exact Hok|]. pose proof (untouched_sql (CallExecuteTransaction txn now micros l) header I s) as H.
      by rewrite Hrun in H.
    * cbn [serve] in Hrun. unfold answer, mbind, Prog_bind in Hrun.
      destruct (DeployModule now io header rq s) as [s1 r1] eqn:E.
      destruct (DeployModule_unanswered _ _ _ _ _ _ _ E) as [[[resp status] ->]|Hu].
      -- injection Hrun as <- <-. simpl. by eapply deploy_node_ok.
      -- destruct r1 as [[resp status]| | |]; injection Hrun as <- <-; [|by eapply node_ok_untouched..].
         simpl. by eapply deploy_node_ok.
    * simpl in Hf. subst io. destruct (undeploy_node_ok m header name s Hok Ha) as (s1 & resp & status & E & Hnd & Hok').
      cbn [serve] in Hrun. unfold answer in Hrun. rewrite (host_bind_done _ _ _ _ _ E) in Hrun. injection Hrun as <- <-.
      simpl. destruct status; [exact Hok'..|by destruct (Hnd reason)].
  + assert (Hs : scope_of call = ADMIN) by (by destruct (scope_of call)). rewrite <- Hs in Ha.
    destruct (serve_denied _ _ _ Ha) as [reply H]. rewrite Hrun in H. injection H as -> ->.
    destruct call as [| | |now io rq| | | |]; try done. cbn [serve] in Hrun. unfold DeployModule in Hrun.
    rewrite (answer_done _ _ _ _ _ _ (authorized_denied header ADMIN (not_deployed "") _ s Ha)) in Hrun.
    by injection Hrun as <-.
Qed.
End deploy.

(** ** Concrete deployments *)

Module DemoNode.
#[export] Existing Instance std_json.
#[export] Existing Instance std_order.
#[export] Existing Instance std_indented.
#[export] Instance digest : Sha256 := λ data, data.
Export StorageCommit.Demo DemoModule.

(** A server with both tokens set and an empty module store. *)
Definition tokens : AuthManager := new_AuthManager "admin" "client".
Definition node0 : Node WalHost :=
  {| wasm_engine_ := DemoModule.engine; module_store_ := Some (new_ModuleStore "modules"); modules_disk := ∅;
     GrpcServices.auth_ := Some tokens; total_queries_ := 0; successful_queries_ := 0; failed_queries_ := 0 |}.
Definition admin : option string := Some "Bearer admin".
Definition client : option string := Some "Bearer client".

(** A module that may only read, and only one table. *)
Definition request (ver : string) : DeployModuleRequest :=
  {| rq_name := "m"; rq_bytecode := str_bytes ver; rq_version := ver;
     rq_capabilities := {| p_allowed_tables := ["users"]; p_read_only := true; p_max_memory_mb := 0; p_timeout_ms := 0 |} |}.

Definition deployed1 := DeployModule 1 (good_save 1) admin (request "1.0") node0.
(** A second version, whose manifest cannot be written. *)
Definition deployed2 := DeployModule 2 no_manifest admin (request "2.0") deployed1.1.

Lemma deployed1_ok : ∃ resp, deployed1 = (deployed1.1, Done (resp, StatusOK)) ∧ dp_success resp = true.
Proof.
  assert (match deployed1.2 with Done (resp, StatusOK) => dp_success resp = true | _ => False end) as H
    by (vm_compute; reflexivity).
  destruct deployed1 as [s [[resp []]| | |]]; try destruct H. by exists resp.
Qed.
Lemma deployed2_failed : ∃ resp status, deployed2 = (deployed2.1, Done (resp, status)) ∧ dp_success resp = false.
Proof.
  assert (match deployed2.2 with Done (resp, _) => dp_success resp = false | _ => False end) as H
    by (vm_compute; reflexivity).
  destruct deployed2 as [s [[resp status]| | |]]; try destruct H. by exists resp, status.
Qed.
End DemoNode.
Import DemoNode.


(** "Memory and disk, or neither": after the failed replacement the module is
    neither in service nor, for the next process, on disk, though its first
    version had been deployed. *)
Example failed_replacement_loses_module :
  (in_service deployed1.1 !! "m" ≠ None) ∧ in_service deployed2.1 !! "m" = None ∧
  (ModuleStore.Initialize true true (modules_disk deployed2.1) (new_ModuleStore "modules")).2 = Ret true ∧
  GetInfo "m" (ModuleStore.Initialize true true (modules_disk deployed2.1) (new_ModuleStore "modules")).1 = None.
Proof. split_and!; [by (intros H; vm_compute in H)|vm_compute; reflexivity..]. Qed.

(** A client's token lists the modules and is refused a statement. *)
Lemma call_privileges_witness :
  (serve CallListModules client node0).1 = node0 ∧
  ∃ reply reason, serve (CallExecute 5 0 "SELECT * FROM users") client node0 = (node0, Done (reply, Denied reason)).
Proof.
  assert (Ha : CheckAuth (GrpcServices.auth_ node0) client ADMIN ≠ Auth.OK) by (vm_compute; discriminate).
  split.
  - destruct (call_privileges CallListModules client node0 _ _ (surjective_pairing _)) as (_ & _ & H & _).
    destruct (H Ha) as [_ H1]. apply H1. discriminate.
  - destruct (call_privileges (CallExecute 5 0 "SELECT * FROM users") client node0 _ _ (surjective_pairing _)) as (H & _).
    destruct (H Ha) as [H1 [reply H2]]. exists reply. eexists.
    rewrite (surjective_pairing (serve _ client node0)). rewrite H1, H2. reflexivity.
Defined.
