(* ===== verification/Client.v ===== *)
(** * The command-line client (src/cmd/grpc_client.cpp)

    [OriginDBClient] calls the services of GrpcServices.v and turns each answer
    into the text it prints; [main] parses the arguments, runs one command and
    turns the text into an exit code.  The state is the server's and what was
    printed.  The gRPC library is a parameter: a call is answered, or it does not
    reach the server, or its reply is lost, with the library's message. *)

From S2P Require Import Prelude Table Codec RowCodec Float64 Regex StdNumbers Json MemTable Txn WalStore Changefeed StorageJson Storage RowJson HostFunctions WasmEngine ModuleStore Auth GrpcServices.

(** ** The surroundings *)

(** How a call travels, and what the server meets while it handles it:
    its clocks and file operations, and the library's message for a handler that
    throws. *)
Inductive delivery := Answered | Unreached (message : string) | ReplyLost (message : string).

Record CallEnv := {
  deliver : delivery;
  uncaught : string;
  at_now : Z;
  at_micros : Z;
  at_uptime : Z;
  at_connections : Z;
  at_save : save_io;
  at_remove : remove_io
}.

(** The client's process: its name, ORIGINDB_TOKEN, the files it can read, the lines on
    its standard input, and the calls over the channel to an address with the
    trusted certificate, by position. *)
Record ClientEnv := {
  program_name : string;
  env_token : option string;
  read_file : string → option bytes;
  stdin : list string;
  channel : string → option bytes → nat → CallEnv
}.

Record Session (W : Type) := { peer : Node W; stdout : string; stderr : string }.
Arguments peer {W} _.
Arguments stdout {W} _.
Arguments stderr {W} _.

Definition endl : string := chars_string [Ascii.ascii_of_nat 10].
Definition quote : string := chars_string [Ascii.ascii_of_nat 34].

(** ** The arguments *)

Record ClientArgs := {
  server_address : string;
  arg_token : string;
  tls_ca : string;
  use_tls : bool;
  command : string;
  args : list string
}.

Definition initial_args (token : option string) : ClientArgs :=
  {| server_address := "localhost:50051"; arg_token := default "" token; tls_ca := ""; use_tls := false;
     command := ""; args := [] |}.
Definition with_address (v : string) (a : ClientArgs) : ClientArgs :=
  {| server_address := v; arg_token := arg_token a; tls_ca := tls_ca a; use_tls := use_tls a;
     command := command a; args := args a |}.
Definition with_token (v : string) (a : ClientArgs) : ClientArgs :=
  {| server_address := server_address a; arg_token := v; tls_ca := tls_ca a; use_tls := use_tls a;
     command := command a; args := args a |}.
Definition with_tls (ca : string) (a : ClientArgs) : ClientArgs :=
  {| server_address := server_address a; arg_token := arg_token a; tls_ca := ca; use_tls := true;
     command := command a; args := args a |}.
Definition with_positional (arg : string) (a : ClientArgs) : ClientArgs :=
  {| server_address := server_address a; arg_token := arg_token a; tls_ca := tls_ca a; use_tls := use_tls a;
     command := if bool_decide (command a = "") then arg else command a;
     args := if bool_decide (command a = "") then args a else args a ++ [arg] |}.

(** The loop over the arguments: it is gone through, or [main] returns. *)
Inductive client_parsed := Parsed (a : ClientArgs) | Helps | Refuses (message : string).

Fixpoint parse_client (l : list string) (a : ClientArgs) : client_parsed :=
  match l with
  | [] => Parsed a
  | arg :: l =>
      if bool_decide (arg = "-h") || bool_decide (arg = "--help") then Helps
      else if bool_decide (arg = "-s") || bool_decide (arg = "--server") then
        match l with
        | v :: l => parse_client l (with_address v a)
        | [] => Refuses ("Error: " +:+ arg +:+ " requires a server address")
        end
      else if bool_decide (arg = "-t") || bool_decide (arg = "--token") then
        match l with
        | v :: l => parse_client l (with_token v a)
        | [] => Refuses ("Error: " +:+ arg +:+ " requires a token")
        end
      else if bool_decide (arg = "--tls") then parse_client l (with_tls (tls_ca a) a)
      else if bool_decide (arg = "--tls-ca") then
        match l with
        | v :: l => parse_client l (with_tls v a)
        | [] => Refuses "Error: --tls-ca requires a path"
        end
      else parse_client l (with_positional arg a)
  end.

(** The root certificates of the channel, if it uses TLS; a file that cannot be
    read is empty. *)
Definition root_certs (env : ClientEnv) (a : ClientArgs) : option bytes :=
  if use_tls a then Some (if bool_decide (tls_ca a = "") then [] else default [] (read_file env (tls_ca a))) else None.

(** The text that makes the exit code of the commands that test it. *)
Definition exit_code (result : string) : Z := if String.prefix "✅" result then 0 else 1.

(** ** The texts *)

Definition column_text (v : ProtoValue) : string :=
  match v with
  | Int64Value n => pretty n
  | StringValue s => quote +:+ s +:+ quote
  | DoubleValue bits => to_string_double bits
  | BoolValue b => if b then "true" else "false"
  | BytesValue _ => "[binary data]"
  | ValueNotSet => "NULL"
  end.

Definition result_text (v : ProtoValue) : string :=
  match v with
  | Int64Value n => pretty n
  | StringValue s => s
  | DoubleValue bits => to_string_double bits
  | BoolValue b => if b then "true" else "false"
  | BytesValue b => bytes_str b
  | ValueNotSet => "null"
  end.

Definition concat_texts (l : list string) : string := foldr (λ s r, s +:+ r) "" l.

(** An argument as the request carries it; a value that is no number, text or
    boolean is sent as its JSON text. *)
Definition proto_arg `{JL : JsonLib} (arg : json) : exc ProtoValue :=
  match arg with
  | JBool b => Ret (BoolValue b)
  | JInt n => Ret (Int64Value (i64 n))
  | JFloat bits => Ret (DoubleValue bits)
  | JString s => Ret (StringValue s)
  | arg => text ← dump arg; Ret (StringValue text)
  end.

(** The lines of [PrintUsage]. *)
Definition usage_lines (program : string) : list string :=
  ["Usage: " +:+ program +:+ " [OPTIONS] [COMMAND]" +:+ endl;
   "Options:";
   "  -s, --server ADDRESS     Server address (default: localhost:50051)";
   "  -t, --token TOKEN        Auth token (or ORIGINDB_TOKEN env var)";
   "  --tls                    Use TLS transport";
   "  --tls-ca FILE            CA/self-signed cert to trust (implies --tls)";
   "  -h, --help               Show this help message" +:+ endl;
   "Commands:";
   "  status                             Get server status";
   "  exec " +:+ quote +:+ "SQL" +:+ quote +:+ "                         Execute SQL statement";
   "  interactive                        Start interactive mode";
   "  deploy NAME FILE.wasm [VERSION]    Deploy a WASM module";
   "  undeploy NAME                      Remove a WASM module";
   "  modules                            List deployed WASM modules";
   "  call MODULE REDUCER [JSON_ARGS]    Execute a reducer" +:+ endl;
   "Examples:";
   "  " +:+ program +:+ " status";
   "  " +:+ program +:+ " exec " +:+ quote +:+ "SELECT * FROM users" +:+ quote;
   "  " +:+ program +:+ " deploy user_service ./module.wasm 1.0.0";
   "  " +:+ program +:+ " call user_service CreateUser '[" +:+ quote +:+ "Alice" +:+ quote +:+ ", " +:+ quote +:+ "alice@example.com" +:+ quote +:+ "]'"].

Section client.
Context {W : Type} `{WA : WalApi W} `{JL : JsonLib} {ID : IndentedDump JL} {SH : Sha256} `{HO : HashOrder} `{WT : Wasmtime W}.
Abbreviation Rpc := (Prog (Node W)).
Abbreviation Client := (Prog (Session W)).

Definition on_server {A} (p : Rpc A) : Client A := λ s,
  let '(n, r) := p (peer s) in ({| peer := n; stdout := stdout s; stderr := stderr s |}, r).
Definition say (text : string) : Client () :=
  modify_state (λ s, {| peer := peer s; stdout := stdout s +:+ text; stderr := stderr s |}).
Definition print (text : string) : Client () := say (text +:+ endl).
Definition complain (text : string) : Client () :=
  modify_state (λ s, {| peer := peer s; stdout := stdout s; stderr := stderr s +:+ text +:+ endl |}).

Definition PrintUsage (env : ClientEnv) : Client () :=
  say (concat_texts ((λ line : string, line +:+ endl) <$> usage_lines (program_name env))).

(** ** Calls *)

(** [Authorize]. *)
Definition Authorize (token : string) : option string :=
  if bool_decide (token = "") then None else Some ("Bearer " +:+ token).

Definition status_message (status : Status) : option string :=
  match status with
  | StatusOK => None
  | StatusError _ message => Some message
  | Denied (UNAUTHENTICATED message | PERMISSION_DENIED message) => Some message
  | Denied Auth.OK => None
  end.

(** A call of a stub: the response of an OK status, or [status.error_message()]. *)
Definition invoke {A} (c : CallEnv) (p : Rpc (A * Status)) : Client (A + string) :=
  match deliver c with
  | Unreached message => mret (inr message)
  | d =>
      r ← on_server (try_catch ('(a, status) ← p; mret (from_option inr (inl a) (status_message status)))
                       (λ _, mret (inr (uncaught c))));
      mret (match d with ReplyLost message => inr message | _ => r end)
  end.

Definition call_failed (message : string) : string := "❌ gRPC call failed: " +:+ message.

Definition row_text (row : ProtoRow) : string :=
  "  Key: " +:+ proto_key row
  +:+ concat_texts ((λ cv : string * ProtoValue, ", " +:+ cv.1 +:+ ": " +:+ column_text cv.2) <$> hash_iter (proto_columns row))
  +:+ endl.

Definition ExecuteSQL (c : CallEnv) (token sql : string) : Client string :=
  r ← invoke c (GrpcServices.Execute (at_now c) (at_micros c) (Authorize token) sql);
  mret (match r with
        | inr message => call_failed message
        | inl response =>
            if sql_success response then
              "✅ SQL executed successfully" +:+ endl
              +:+ "Execution time: " +:+ pretty (execution_time_micros response) +:+ " μs" +:+ endl
              +:+ "Rows affected: " +:+ pretty (sql_rows_affected response) +:+ endl
              +:+ match sql_rows response with
                  | [] => ""
                  | rows => endl +:+ "Results:" +:+ endl +:+ concat_texts (row_text <$> rows)
                  end
            else "❌ SQL execution failed: " +:+ sql_error response
        end).

Definition no_stats : ServerStats :=
  {| st_total_tables := 0; st_total_rows := 0; st_storage_bytes := 0; st_active_connections := 0;
     st_active_subscriptions := 0; st_events_published := 0; st_total_queries := 0;
     st_successful_queries := 0; st_failed_queries := 0; st_loaded_modules := 0 |}.

Definition status_text (response : StatusResponse) : string :=
  let stats := default no_stats (stats response) in
  concat_texts ((λ line : string, line +:+ endl) <$>
    ["📊 Server Status"; "================"; "Version: " +:+ rsp_version response;
     "Uptime: " +:+ pretty (uptime_seconds response) +:+ " seconds"; "";
     "Storage Statistics:"; "  Tables: " +:+ pretty (st_total_tables stats); "  Rows: " +:+ pretty (st_total_rows stats);
     "  Storage bytes: " +:+ pretty (st_storage_bytes stats); "";
     "Network Statistics:"; "  Active WebSocket connections: " +:+ pretty (st_active_connections stats);
     "  Active changefeed subscriptions: " +:+ pretty (st_active_subscriptions stats);
     "  Events published: " +:+ pretty (st_events_published stats); "";
     "gRPC Statistics:"; "  Total queries: " +:+ pretty (st_total_queries stats);
     "  Successful queries: " +:+ pretty (st_successful_queries stats);
     "  Failed queries: " +:+ pretty (st_failed_queries stats)]).

Definition GetStatus (c : CallEnv) (token : string) : Client string :=
  r ← invoke c (GrpcServices.GetStatus (at_uptime c) (at_connections c) (Authorize token));
  mret (match r with inr message => call_failed message | inl response => status_text response end).

Definition deploy_request (name version : string) (bytecode : bytes) : DeployModuleRequest :=
  {| rq_name := name; rq_bytecode := bytecode; rq_version := version;
     rq_capabilities := {| p_allowed_tables := []; p_read_only := false; p_max_memory_mb := 0; p_timeout_ms := 0 |} |}.

Definition DeployModule (env : ClientEnv) (c : CallEnv) (token name wasm_path version : string) : Client string :=
  match read_file env wasm_path with
  | None => mret ("❌ Cannot read file: " +:+ wasm_path)
  | Some bytecode =>
      r ← invoke c (GrpcServices.DeployModule (at_now c) (at_save c) (Authorize token) (deploy_request name version bytecode));
      mret (match r with
            | inr message => call_failed message
            | inl response =>
                if dp_success response
                then "✅ Deployed module '" +:+ name +:+ "' (" +:+ pretty (zlength bytecode) +:+ " bytes)"
                else "❌ Deploy failed: " +:+ dp_error response
            end)
  end.

Definition UndeployModule (c : CallEnv) (token name : string) : Client string :=
  r ← invoke c (GrpcServices.UndeployModule (at_remove c) (Authorize token) name);
  mret (match r with
        | inr message => call_failed message
        | inl response => if ud_success response then "✅ Undeployed module '" +:+ name +:+ "'"
                          else "❌ Undeploy failed: " +:+ ud_error response
        end).

Definition module_text (m : ModuleInfo) : string :=
  "  " +:+ mi_name m
  +:+ (if bool_decide (mi_version m = "") then "" else " v" +:+ mi_version m)
  +:+ (if bool_decide (mi_sha256 m = "") then "" else "  sha256:" +:+ String.substring 0 12 (mi_sha256 m))
  +:+ endl.

Definition ListModules (c : CallEnv) (token : string) : Client string :=
  r ← invoke c (try_catch (GrpcServices.ListModules (Authorize token))
                  (λ _, mret ([], StatusError INTERNAL "Exception in ListModules")));
  mret (match r with
        | inr message => call_failed message
        | inl [] => "No modules deployed"
        | inl modules => "📦 Deployed modules:" +:+ endl +:+ concat_texts (module_text <$> modules)
        end).

(** The argument list of a call: a JSON array or nothing. *)
Definition parse_call_args (args_json : string) : option (list json) :=
  if bool_decide (args_json = "") then Some []
  else match parse args_json with Some (JArray l) => Some l | _ => None end.

Definition reducer_request (module reducer : string) (args : list ProtoValue) : ExecuteReducerRequest :=
  {| er_module := module; er_reducer := reducer; er_sender := "origindb_client"; er_connection := ""; er_args := args |}.

Definition CallReducer (c : CallEnv) (token module reducer args_json : string) : Client string :=
  match parse_call_args args_json with
  | None => mret ("❌ Arguments must be a JSON array, e.g. '[" +:+ quote +:+ "Alice" +:+ quote +:+ ", 42]'")
  | Some l =>
      args ← lift_exc (exc_map proto_arg l);
      r ← invoke c (GrpcServices.ExecuteReducer (at_now c) (at_micros c) (Authorize token) (reducer_request module reducer args));
      mret (match r with
            | inr message => call_failed message
            | inl response =>
                if er_success response then
                  "✅ " +:+ module +:+ "." +:+ reducer +:+ " (" +:+ pretty (er_micros response) +:+ " μs)"
                  +:+ concat_texts ((λ v, endl +:+ "  → " +:+ result_text v) <$> er_results response)
                else "❌ Reducer failed: " +:+ er_error response
            end)
  end.

(** ** Commands *)

Definition fail (message : string) : Client Z := _ ← complain message; mret 1.

(** A command whose text decides the exit code, and one that prints only. *)
Definition reported (p : Client string) : Client Z := result ← p; _ ← print result; mret (exit_code result).
Definition printed (p : Client string) : Client Z := result ← p; _ ← print result; mret 0.

(** The loop of the interactive mode; [i] counts the calls. *)
Fixpoint interact (calls : nat → CallEnv) (token : string) (i : nat) (lines : list string) : Client Z :=
  _ ← say "origindb> ";
  match lines with
  | [] => mret 0
  | line :: lines =>
      if bool_decide (line = "exit") || bool_decide (line = "quit") then mret 0
      else if bool_decide (line = "status") then
        _ ← printed (GetStatus (calls i) token); interact calls token (S i) lines
      else if bool_decide (line = "") then interact calls token i lines
      else _ ← printed (ExecuteSQL (calls i) token line); interact calls token (S i) lines
  end.

Definition run_command (env : ClientEnv) (a : ClientArgs) : Client Z :=
  let calls := channel env (server_address a) (root_certs env a) in
  let c := calls O in
  let token := arg_token a in
  if bool_decide (command a = "status") then printed (GetStatus c token)
  else if bool_decide (command a = "exec") then
    match args a with
    | sql :: _ => if bool_decide (sql = "") then fail "Error: exec command requires SQL statement"
                  else printed (ExecuteSQL c token sql)
    | [] => fail "Error: exec command requires SQL statement"
    end
  else if bool_decide (command a = "interactive") then
    _ ← print "OriginDB Interactive SQL Client"; _ ← print ("Connected to: " +:+ server_address a);
    _ ← print ("Type 'exit' or 'quit' to exit" +:+ endl); interact calls token 0 (stdin env)
  else if bool_decide (command a = "deploy") then
    match args a with
    | name :: path :: rest => reported (DeployModule env c token name path (default "" (head rest)))
    | _ => fail "Error: deploy requires NAME and FILE.wasm"
    end
  else if bool_decide (command a = "undeploy") then
    match args a with
    | name :: _ => reported (UndeployModule c token name)
    | [] => fail "Error: undeploy requires NAME"
    end
  else if bool_decide (command a = "modules") then printed (ListModules c token)
  else if bool_decide (command a = "call") then
    match args a with
    | module :: reducer :: rest => reported (CallReducer c token module reducer (default "" (head rest)))
    | _ => fail "Error: call requires MODULE and REDUCER"
    end
  else _ ← complain ("Error: Unknown command " +:+ command a); _ ← PrintUsage env; mret 1.

(** [main], with the arguments after the program's name. *)
Definition main (env : ClientEnv) (argv : list string) : Client Z :=
  match parse_client argv (initial_args (env_token env)) with
  | Helps => _ ← PrintUsage env; mret 0
  | Refuses message => fail message
  | Parsed a =>
      if bool_decide (command a = "") then _ ← complain "Error: No command specified"; _ ← PrintUsage env; mret 1
      else try_catch (run_command env a) (λ what, fail ("Error: " +:+ what))
  end.
End client.
