(* ===== verification/ClientCalls.v ===== *)
(** * What the client's commands do

    A deployment or a reducer call from the command line that exits with 0 has
    happened on the server, exactly as it was given; one that exits with 1 says
    why, and an SQL statement exits with 0 whatever the server answered. *)

From S2P Require Import Prelude Table Codec RowCodec Float64 Regex StdNumbers Json MemTable Txn WalStore Changefeed StorageJson Storage RowJson HostFunctions WasmEngine WasmExec WasmLoad ModuleStore ModuleStoreRestart Auth GrpcServices GrpcCalls GrpcDeploy Client.

Section client_calls.
Context {W : Type} `{WA : WalApi W} `{JL : JsonLib} {ID : IndentedDump JL} {SH : Sha256} `{HO : HashOrder} `{WT : Wasmtime W}.
Context (guests_safe : ∀ bytecode, GuestSafe (G := guest_of bytecode)).
Abbreviation session := (Session W).

(** ** Steps *)

Lemma on_server_inv {A} (p : Prog (Node W) A) (s s' : session) r :
  on_server p s = (s', r) → p (peer s) = (peer s', r).
Proof. unfold on_server. destruct (p (peer s)). by intros [= <- <-]. Qed.

(** A call that was answered with an OK status. *)
Lemma invoke_ok {A} c (p : Prog (Node W) (A * Status)) (s s' : session) a :
  invoke c p s = (s', Done (inl a)) →
  deliver c = Answered ∧ ∃ status, p (peer s) = (peer s', Done (a, status)) ∧ status_message status = None.
Proof.
  unfold invoke. destruct (deliver c) as [|m|m]; [|done|];
    intros (s1 & r & Hr & Hret)%host_bind_inv; injection Hret as <- Hret; [|done].
  split; [done|]. apply on_server_inv in Hr. unfold try_catch in Hr. unfold mbind, Prog_bind in Hr.
  destruct (p (peer s)) as [n [[b status]| | |]]; simplify_eq/=.
  destruct (status_message status) eqn:E; simplify_eq/=. by exists status.
Qed.

(** A call that was not answered with one: how the server was left. *)
Lemma invoke_error {A} c (p : Prog (Node W) (A * Status)) (s s' : session) message :
  invoke c p s = (s', Done (inr message)) →
  (peer s' = peer s ∧ deliver c = Unreached message)
  ∨ (∃ m, deliver c = ReplyLost m) ∨ (∃ what, p (peer s) = (peer s', Escaped what))
  ∨ ∃ a status, p (peer s) = (peer s', Done (a, status)) ∧ status_message status = Some message.
Proof.
  unfold invoke. destruct (deliver c) as [|m|m] eqn:Ed.
  - intros (s1 & r & Hr & Hret)%host_bind_inv. injection Hret as <- ->. right; right.
    apply on_server_inv in Hr. unfold try_catch in Hr. unfold mbind, Prog_bind in Hr.
    destruct (p (peer s)) as [n [[b status]| |what|]]; try done.
    + simpl in Hr. right. exists b, status. destruct (status_message status); by simplify_eq/=.
    + left. exists what. by injection Hr as <- _.
  - intros [= <- <-]. by left.
  - intros _. right; left. by eexists.
Qed.

Lemma reported_inv p (s s' : session) code :
  reported p s = (s', Done code) →
  ∃ s1 result, p s = (s1, Done result) ∧ code = exit_code result ∧ peer s' = peer s1.
Proof.
  unfold reported. intros (s1 & result & Hp & Hrest)%host_bind_inv.
  exists s1, result. split; [done|]. by injection Hrest as <- <-.
Qed.

(** [main] past the arguments. *)
Lemma main_inv env argv a (s s' : session) code :
  parse_client argv (initial_args (env_token env)) = Parsed a → command a ≠ "" →
  main env argv s = (s', Done code) →
  run_command env a s = (s', Done code)
  ∨ code = 1 ∧ ∃ s1 what, run_command env a s = (s1, Escaped what) ∧ peer s' = peer s1.
Proof.
  intros Hp Hc. unfold main. rewrite Hp, bool_decide_eq_false_2 by done. unfold try_catch.
  destruct (run_command env a s) as [s1 [x| |what|]]; intros Hm; simplify_eq; [by left|right].
  injection Hm as <- <-. split; [done|]. by exists s1, what.
Qed.

(** ** Deployment *)

Lemma run_deploy env a name path rest :
  command a = "deploy" → args a = name :: path :: rest →
  run_command env a
  = reported (DeployModule env (channel env (server_address a) (root_certs env a) O) (arg_token a) name path (default "" (head rest))).
Proof. intros Hc Ha. unfold run_command. by rewrite Hc, Ha. Qed.

Lemma denied_status {A} (d : A) header scope (body : Prog (Node W) (A * Status)) (s : Node W) :
  CheckAuth (auth_ s) header scope ≠ Auth.OK →
  ∃ status, authorized header scope d body s = (s, Done (d, status)) ∧ status_message status ≠ None.
Proof.
  intros Hd. rewrite authorized_denied by done. eexists. split; [done|]. by destruct (CheckAuth _ _ _).
Qed.

(** What the handler did, from its answer or from its exception. *)
Lemma deploy_server now io header rq (n n' : Node W) r :
  GrpcServices.DeployModule now io header rq n = (n', r) →
  (∃ resp, r = Done (resp, StatusOK) ∧ dp_success resp = true ∧ CheckAuth (auth_ n) header ADMIN = Auth.OK
           ∧ now_serves rq n n' ∧ store_saved io rq n n' (Ret None))
  ∨ (∀ resp status, r = Done (resp, status) → status_message status = None → dp_success resp = false)
    ∧ (untouched n n' ∨ ∃ answer, answer ≠ Ret None ∧ store_saved io rq n n' answer).
Proof.
  intros Hrun. destruct (decide (CheckAuth (auth_ n) header ADMIN = Auth.OK)) as [Ha|Ha].
  2: { unfold GrpcServices.DeployModule in Hrun.
       match type of Hrun with authorized _ _ ?d ?b _ = _ =>
         destruct (denied_status d header ADMIN b n Ha) as (status & E & Hst) end.
       rewrite E in Hrun. injection Hrun as <- <-. right. split; [|by left]. by intros resp status' [= <- <-]. }
  destruct r as [[resp status]| | |].
  2-4: destruct (DeployModule_unanswered _ _ _ _ _ _ _ Hrun) as [[a Ha']|Hu]; [done|]; right; split; [done|by left].
  pose proof (deploy_cases guests_safe _ _ _ _ _ _ _ _ Ha Hrun) as [_ H]. destruct (dp_success resp) eqn:Es.
  - destruct H as (-> & _ & _ & _ & _ & _ & Hserves & Hsaved). left. by exists resp.
  - right. split; [by intros ? ? [= <- <-]|].
    destruct H as (_ & _ & [[_ ->]|[Hu|[(err & Hs & _)|(what & Hs & _)]]]);
      [by left|left; by eapply engine_refused_untouched|right..].
    + by exists (Ret (Some err)).
    + by exists (Throw what).
Qed.

(** A call never lets the exception of a handler through. *)
Lemma invoke_not_escaped {A} c (p : Prog (Node W) (A * Status)) (s s' : session) what :
  invoke c p s ≠ (s', Escaped what).
Proof.
  unfold invoke. destruct (deliver c); [|done|];
    (unfold mbind, Prog_bind, on_server, try_catch; destruct (p (peer s)) as [n [[a status]| |w|]]; done).
Qed.

(** The deploy command against the server. *)
Definition deploy_served (env : ClientEnv) (c : CallEnv) (header : option string) (path : string)
    (request : bytes → DeployModuleRequest) (n n' : Node W) : Prop :=
  ∃ bytecode, read_file env path = Some bytecode ∧ deliver c = Answered
  ∧ CheckAuth (auth_ n) header ADMIN = Auth.OK ∧ now_serves (request bytecode) n n'
  ∧ store_saved (at_save c) (request bytecode) n n' (Ret None).

Definition deploy_refused (env : ClientEnv) (c : CallEnv) (path : string)
    (request : bytes → DeployModuleRequest) (n n' : Node W) : Prop :=
  untouched n n' ∨ (∃ m, deliver c = ReplyLost m)
  ∨ ∃ bytecode answer, read_file env path = Some bytecode ∧ answer ≠ Ret None
    ∧ store_saved (at_save c) (request bytecode) n n' answer.

Lemma DeployModule_text env c token name path version (s s1 : session) result :
  DeployModule env c token name path version s = (s1, Done result) →
  if decide (exit_code result = 0)
  then deploy_served env c (Authorize token) path (deploy_request name version) (peer s) (peer s1)
  else exit_code result = 1 ∧ deploy_refused env c path (deploy_request name version) (peer s) (peer s1).
Proof.
  unfold DeployModule. destruct (read_file env path) as [bytecode|] eqn:Ef.
  2: { intros [= <- <-]. simpl. split; [done|]. by left. }
  intros (s2 & [resp|message] & Hr & Hret)%host_bind_inv; injection Hret as <- <-.
  - apply invoke_ok in Hr as (Hd & status & Hp & Hst).
    destruct (deploy_server _ _ _ _ _ _ _ Hp) as [(resp' & [= <- ->] & -> & Ha & Hsv & Hs)|[Hf Hn]].
    + exists bytecode. by split_and!.
    + rewrite (Hf resp status eq_refl Hst). split; [done|].
      destruct Hn as [Hu|(answer & Hne & Hs)]; [by left|right; right]. by exists bytecode, answer.
  - split; [done|].
    destruct (invoke_error _ _ _ _ _ Hr) as [[E _]|[Hl|Hp]]; [left; by rewrite E|by right; left|].
    assert (∃ r, GrpcServices.DeployModule (at_now c) (at_save c) (Authorize token) (deploy_request name version bytecode) (peer s)
      = (peer s2, r) ∧ ∀ resp, r ≠ Done (resp, StatusOK)) as (r & Hp' & Hr').
    { destruct Hp as [[what Hp]|(a & status & Hp & Hst)]; eexists; (split; [exact Hp|]); [done|].
      by intros resp [= -> ->]. }
    destruct (deploy_server _ _ _ _ _ _ _ Hp') as [(resp & -> & _)|[_ [Hu|(answer & Hne & Hs)]]].
    + by destruct (Hr' resp).
    + by left.
    + right; right. by exists bytecode, answer.
Qed.

Lemma DeployModule_not_escaped env c token name path version (s s1 : session) what :
  DeployModule env c token name path version s ≠ (s1, Escaped what).
Proof.
  unfold DeployModule. destruct (read_file env path) as [bytecode|]; [|done].
  unfold mbind, Prog_bind.
  destruct (invoke _ _ s) as [s2 [r| |w|]] eqn:E; try done. by apply invoke_not_escaped in E.
Qed.

(** The deploy command of [main], by its exit code. *)
Lemma deploy_line env argv a name path rest (s s' : session) code :
  parse_client argv (initial_args (env_token env)) = Parsed a →
  command a = "deploy" → args a = name :: path :: rest →
  main env argv s = (s', Done code) →
  let c := channel env (server_address a) (root_certs env a) O in
  let request := deploy_request name (default "" (head rest)) in
  if decide (code = 0) then deploy_served env c (Authorize (arg_token a)) path request (peer s) (peer s')
  else code = 1 ∧ deploy_refused env c path request (peer s) (peer s').
Proof.
  intros Hp Hc Ha Hm c request.
  apply (main_inv _ _ _ _ _ _ Hp) in Hm; [|by rewrite Hc]. rewrite (run_deploy _ _ _ _ _ Hc Ha) in Hm.
  fold c in Hm. destruct Hm as [Hm|(_ & s1 & what & Hm & _)].
  - apply reported_inv in Hm as (s1 & result & Hd & -> & ->). by apply DeployModule_text.
  - unfold reported, mbind, Prog_bind in Hm.
    destruct (DeployModule _ _ _ _ _ _ s) as [s2 [r| |w|]] eqn:E; try done.
    by apply DeployModule_not_escaped in E.
Qed.

(** C15. A deployment from the command line: when [main] ends with exit code 0 on
    a deploy command, the file was read, the server was reached and granted the
    token administration, and it now serves exactly the bytes of the file under
    the name, with the version, and has saved them if it has a store.  When it ends with any other
    code, that code is 1, and unless the reply was lost on the way or the store
    failed to save, modules, store and directory are as they were. *)
Theorem deploy_command env argv a name path rest (s s' : session) code :
  parse_client argv (initial_args (env_token env)) = Parsed a →
  command a = "deploy" → args a = name :: path :: rest →
  main env argv s = (s', Done code) →
  let c := channel env (server_address a) (root_certs env a) O in
  let request := deploy_request name (default "" (head rest)) in
  if decide (code = 0) then deploy_served env c (Authorize (arg_token a)) path request (peer s) (peer s')
  else code = 1 ∧ deploy_refused env c path request (peer s) (peer s').
Proof. apply deploy_line. Qed.

(** ** Reducer calls *)

Lemma run_call env a module reducer rest :
  command a = "call" → args a = module :: reducer :: rest →
  run_command env a
  = reported (CallReducer (channel env (server_address a) (root_certs env a) O) (arg_token a) module reducer (default "" (head rest))).
Proof. intros Hc Ha. unfold run_command. by rewrite Hc, Ha. Qed.

(** What the handler did when it answered success. *)
Lemma reducer_server now micros header rq (n n' : Node W) resp status :
  GrpcServices.ExecuteReducer now micros header rq n = (n', Done (resp, status)) → er_success resp = true →
  CheckAuth (auth_ n) header CLIENT = Auth.OK
  ∧ ∃ e res, WasmEngine.ExecuteReducer now (er_module rq) (er_reducer rq) (reducer_context now rq (wasm_engine_ n))
               (arg_of_proto <$> er_args rq) (wasm_engine_ n) = (e, Done res)
             ∧ WasmEngine.success res = true ∧ n' = set_wasm e n
             ∧ er_results resp = result_to_proto <$> WasmEngine.values res.
Proof.
  intros Hrun Hok. destruct (decide (CheckAuth (auth_ n) header CLIENT = Auth.OK)) as [Ha|Ha].
  2: { unfold GrpcServices.ExecuteReducer in Hrun. rewrite authorized_denied in Hrun by done. by injection Hrun as <- <- <-. }
  split; [done|]. unfold GrpcServices.ExecuteReducer in Hrun. rewrite authorized_granted in Hrun by done.
  unfold try_catch in Hrun. unfold mbind at 1, Prog_bind at 1 in Hrun. unfold get_state in Hrun.
  unfold mbind, Prog_bind, GrpcServices.on_engine in Hrun.
  destruct (WasmEngine.ExecuteReducer _ _ _ _ _ _) as [e [res| |w|]] eqn:E; simpl in Hrun; [|done|by injection Hrun as <- <- <-|done].
  injection Hrun as <- <- <-. simpl in Hok. exists e, res. simpl. rewrite Hok. by split_and!.
Qed.

(** A reducer call from the command line that exits with 0 ran the reducer once on
    the server, successfully, on the values of the JSON arguments, and the server
    is left as the engine left it. *)
Theorem call_command env argv a module reducer rest (s s' : session) :
  parse_client argv (initial_args (env_token env)) = Parsed a →
  command a = "call" → args a = module :: reducer :: rest →
  main env argv s = (s', Done 0) →
  let c := channel env (server_address a) (root_certs env a) O in
  ∃ l values e res,
    parse_call_args (default "" (head rest)) = Some l ∧ exc_map proto_arg l = Ret values
    ∧ deliver c = Answered ∧ CheckAuth (auth_ (peer s)) (Authorize (arg_token a)) CLIENT = Auth.OK
    ∧ WasmEngine.ExecuteReducer (at_now c) module reducer
        (reducer_context (at_now c) (reducer_request module reducer values) (wasm_engine_ (peer s)))
        (arg_of_proto <$> values) (wasm_engine_ (peer s)) = (e, Done res)
    ∧ WasmEngine.success res = true ∧ peer s' = set_wasm e (peer s).
Proof.
  intros Hp Hc Ha Hm c.
  apply (main_inv _ _ _ _ _ _ Hp) in Hm as [Hm|[? _]]; [|done|by rewrite Hc].
  rewrite (run_call _ _ _ _ _ Hc Ha) in Hm. fold c in Hm.
  apply reported_inv in Hm as (s1 & result & Hr & H0 & ->). unfold CallReducer in Hr.
  destruct (parse_call_args _) as [l|]; [|by injection Hr as <- <-].
  apply host_bind_inv in Hr as (s2 & values & Hv & Hr).
  destruct (exc_map proto_arg l) as [values'|] eqn:Ev; [|done]. injection Hv as <- <-.
  apply host_bind_inv in Hr as (s3 & [resp|message] & Hi & Hret); injection Hret as <- <-; [|done].
  apply invoke_ok in Hi as (Hd & status & Hp' & _). destruct (er_success resp) eqn:Es; [|done].
  destruct (reducer_server _ _ _ _ _ _ _ _ Hp' Es) as (Hg & e & res & He & Hs & Hn & _).
  exists l, values', e, res. by split_and!.
Qed.
End client_calls.

(** ** Concrete commands *)

Module DemoClient.
#[export] Existing Instance std_json.
#[export] Existing Instance std_order.
#[export] Existing Instance std_indented.
Export DemoNode.

Definition answered : CallEnv :=
  {| deliver := Answered; uncaught := "Unexpected error in RPC handling"; at_now := 1; at_micros := 0; at_uptime := 0;
     at_connections := 0; at_save := good_save 1; at_remove := RemovedAll |}.

(** One file, and a server that answers. *)
Definition env1 : ClientEnv :=
  {| program_name := "origindb_client"; env_token := None; read_file := λ path, if bool_decide (path = "m.wasm") then Some (str_bytes "1.0") else None;
     stdin := []; channel := λ _ _ _, answered |}.

Definition start : Session WalHost := {| peer := node0; stdout := ""; stderr := "" |}.

Definition deploy_argv : list string := ["-t"; "admin"; "deploy"; "m"; "m.wasm"; "1.0"].
Definition deploy_args : ClientArgs :=
  {| server_address := "localhost:50051"; arg_token := "admin"; tls_ca := ""; use_tls := false;
     command := "deploy"; args := ["m"; "m.wasm"; "1.0"] |}.
Definition deployed : Session WalHost := (main env1 deploy_argv start).1.

(** An INSERT into a table that does not exist. *)
Definition failing : string := "INSERT INTO nowhere (ID) VALUES ('a')".
Definition failed_exec := main env1 ["-t"; "admin"; "exec"; failing] start.
End DemoClient.
Import DemoClient.

Lemma deployed_run : main env1 deploy_argv start = (deployed, Done 0).
Proof.
  assert ((main env1 deploy_argv start).2 = Done 0) as <- by (vm_compute; reflexivity).
  apply surjective_pairing.
Qed.

(** The file of the command line is what the server serves and keeps. *)
Lemma deploy_command_witness :
  deploy_served env1 answered admin "m.wasm" (deploy_request "m" "1.0") node0 (peer deployed).
Proof.
  pose proof (deploy_command DemoModule.guests_safe env1 deploy_argv deploy_args "m" "m.wasm" ["1.0"] start deployed 0
                eq_refl eq_refl eq_refl deployed_run) as H.
  exact H.
Defined.

(** A client's token is refused, and the server stays as it is. *)
Example refused_deploy :
  let r := main env1 ["-t"; "client"; "deploy"; "m"; "m.wasm"] start in
  r.2 = Done 1 ∧ stdout r.1 = "❌ gRPC call failed: admin token required for this operation" +:+ endl
  ∧ in_service (peer r.1) !! "m" = None.
Proof. split_and!; vm_compute; reflexivity. Qed.

(** A statement the server refuses leaves [exec] with exit code 0. *)
Example failed_exec_exits_with_0 :
  failed_exec.2 = Done 0
  ∧ stdout failed_exec.1 = "❌ SQL execution failed: Table not found: nowhere" +:+ endl.
Proof. split; vm_compute; reflexivity. Qed.
