(* ===== verification/Cli.v ===== *)
(** * The origindb command (src/cmd/origindb_cli.cpp)

    [origindb VERB ...] prints help, handles a few verbs itself and replaces
    itself by the executable of the others.  The operating system is a class: what
    the process can see, change and start.  The state is the system and what was
    printed; the library calls that throw leave [main] with their text. *)

From Stdlib Require Import Strings.Ascii.
From S2P Require Import Prelude Regex StdNumbers HostFunctions.

(** ** The operating system *)

(** The link /proc/self/exe, the environment, existence of a path, the working
    directory, the names in it, a command line given to the shell with its wait
    status, and replacing the process ([None]) or the reason it failed. *)
Class Os (W : Type) := {
  os_exe_link : W → option string;
  os_getenv : string → W → option string;
  os_exists : string → W → exc bool;
  os_cwd : W → exc string;
  os_chdir : string → W → option W;
  os_entries : W → exc (list string);
  os_system : string → W → W * Z;
  os_exec : string → list string → W → option string
}.

Record Terminal (W : Type) := { world : W; cout : string; cerr : string }.
Arguments world {W} _.
Arguments cout {W} _.
Arguments cerr {W} _.

(** [main] returns, or the process has become another one. *)
Inductive ending := Exit (code : Z) | Became (path : string) (argv : list string).

(** ** Texts *)

Definition character (n : nat) : string := chars_string [Ascii.ascii_of_nat n].
Definition endl : string := character 10.
Definition quote : string := character 34.
Definition color (code : string) : string := character 27 +:+ "[" +:+ code +:+ "m".
Definition RESET : string := color "0".
Definition BOLD : string := color "1".
Definition RED : string := color "31".
Definition GREEN : string := color "32".
Definition YELLOW : string := color "33".
Definition BLUE : string := color "34".
Definition CYAN : string := color "36".
Definition VERSION : string := "0.0.7".

(** [std::left << std::setw(12)]. *)
Definition left12 (s : string) : string := s +:+ chars_string (replicate (12 - String.length s) " "%char).
Definition text_of (l : list string) : string := foldr (λ line r, line +:+ endl +:+ r) "" l.

Record Command := { binary : string; description : string; usage : string }.

Definition commands : list (string * Command) :=
  [("serve", {| binary := "origindb_server"; description := "Start the OriginDB server"; usage := "origindb serve [OPTIONS]" |});
   ("server", {| binary := "origindb_server"; description := "Start the OriginDB server (alias for serve)"; usage := "origindb server [OPTIONS]" |});
   ("start", {| binary := "origindb_server"; description := "Start the OriginDB server (alias for serve)"; usage := "origindb start [OPTIONS]" |});
   ("sql", {| binary := "origindb_sql"; description := "SQL interactive shell"; usage := "origindb sql [OPTIONS]" |});
   ("client", {| binary := "origindb_client"; description := "Raw client passthrough (interactive, etc.)"; usage := "origindb client [OPTIONS] [COMMAND]" |});
   ("demo", {| binary := "origindb_demo"; description := "Run the demo application"; usage := "origindb demo" |});
   ("init", {| binary := "origindb_init"; description := "Initialize a new OriginDB project"; usage := "origindb init [PROJECT_NAME]" |});
   ("publish", {| binary := ""; description := "Build and deploy WASM module"; usage := "origindb publish [OPTIONS]" |});
   ("status", {| binary := "origindb_client"; description := "Get server status"; usage := "origindb status [OPTIONS]" |});
   ("exec", {| binary := "origindb_client"; description := "Execute a SQL statement"; usage := "origindb exec " +:+ quote +:+ "SQL" +:+ quote +:+ " [OPTIONS]" |});
   ("deploy", {| binary := "origindb_client"; description := "Deploy a WASM module"; usage := "origindb deploy NAME FILE.wasm [VERSION] [OPTIONS]" |});
   ("undeploy", {| binary := "origindb_client"; description := "Remove a WASM module"; usage := "origindb undeploy NAME [OPTIONS]" |});
   ("modules", {| binary := "origindb_client"; description := "List deployed WASM modules"; usage := "origindb modules [OPTIONS]" |});
   ("call", {| binary := "origindb_client"; description := "Execute a reducer"; usage := "origindb call MODULE REDUCER [JSON_ARGS] [OPTIONS]" |});
   ("migrate", {| binary := ""; description := "Run database migrations"; usage := "origindb migrate [OPTIONS]" |});
   ("backup", {| binary := ""; description := "Backup the database"; usage := "origindb backup [OPTIONS]" |});
   ("restore", {| binary := ""; description := "Restore from backup"; usage := "origindb restore [BACKUP_FILE]" |});
   ("logs", {| binary := ""; description := "View server logs"; usage := "origindb logs [OPTIONS]" |});
   ("stop", {| binary := ""; description := "Stop the OriginDB server"; usage := "origindb stop" |})].

Definition find_command (command : string) : option Command :=
  (λ ic : nat * (string * Command), ic.2.2) <$> list_find (λ c, c.1 = command) commands.

Definition kClientVerbs : list string := ["status"; "exec"; "deploy"; "undeploy"; "modules"; "call"].

Definition header_lines : list string :=
  [CYAN +:+ BOLD;
   "╦┌┐┌┌─┐┌┬┐┌─┐┌┐┌┌┬┐╔╦╗╔╗";
   "║│││└─┐ │ ├─┤│││ │  ║║╠╩╗";
   "╩┘└┘└─┘ ┴ ┴ ┴┘└┘ ┴ ═╩╝╚═╝" +:+ RESET +:+ " v" +:+ VERSION; ""].
Definition usage_lines : list string :=
  [BOLD +:+ "Usage:" +:+ RESET +:+ " origindb <command> [options]";
   "";
   BOLD +:+ "Commands:";
   RESET +:+ "  " +:+ GREEN +:+ left12 "init" +:+ RESET +:+ " Initialize a new OriginDB project";
   "  " +:+ GREEN +:+ left12 "serve" +:+ RESET +:+ " Start the OriginDB server";
   "  " +:+ GREEN +:+ left12 "stop" +:+ RESET +:+ " Stop the OriginDB server";
   "  " +:+ GREEN +:+ left12 "logs" +:+ RESET +:+ " View server logs";
   "  " +:+ GREEN +:+ left12 "deploy" +:+ RESET +:+ " Deploy a WASM module";
   "  " +:+ GREEN +:+ left12 "publish" +:+ RESET +:+ " Build and deploy a WASM module";
   "  " +:+ GREEN +:+ left12 "call" +:+ RESET +:+ " Execute a reducer";
   "  " +:+ GREEN +:+ left12 "exec" +:+ RESET +:+ " Execute a SQL statement";
   "  " +:+ GREEN +:+ left12 "modules" +:+ RESET +:+ " List deployed modules";
   "  " +:+ GREEN +:+ left12 "status" +:+ RESET +:+ " Get server status";
   "  " +:+ GREEN +:+ left12 "sql" +:+ RESET +:+ " SQL interactive shell";
   "  " +:+ GREEN +:+ left12 "demo" +:+ RESET +:+ " Run the demo application";
   "";
   BOLD +:+ "Global Options:";
   RESET +:+ "  " +:+ YELLOW +:+ "-h, --help" +:+ RESET +:+ "     Show help information";
   "  " +:+ YELLOW +:+ "-v, --version" +:+ RESET +:+ "  Show version information";
   "  " +:+ YELLOW +:+ "--verbose" +:+ RESET +:+ "      Enable verbose output";
   "";
   BOLD +:+ "Examples:";
   RESET +:+ "  " +:+ BLUE +:+ "origindb init myproject" +:+ RESET +:+ "                       # Initialize new project";
   "  " +:+ BLUE +:+ "origindb serve -d ./board_data -p 8787 -g 50051 --no-auth" +:+ RESET;
   "  " +:+ BLUE +:+ "origindb deploy board ./build/board.wasm 1.0.0" +:+ RESET;
   "  " +:+ BLUE +:+ "origindb call board addNote '[" +:+ quote +:+ "me" +:+ quote +:+ "," +:+ quote +:+ "hi" +:+ quote +:+ "]'" +:+ RESET;
   "  " +:+ BLUE +:+ "origindb exec " +:+ quote +:+ "SELECT * FROM notes" +:+ quote +:+ RESET;
   "  " +:+ BLUE +:+ "origindb logs --follow" +:+ RESET +:+ "                        # Tail server logs";
   "";
   BOLD +:+ "Documentation:";
   RESET +:+ "  https://docs.origindb.com";
   "  https://github.com/origindb/origindb";
   ""].
Definition version_lines : list string :=
  ["OriginDB CLI version " +:+ VERSION; "Copyright (c) 2026 OriginDB Team"; "MIT License"; ""].

Definition serve_help : list string :=
  [BOLD +:+ "Server Options:";
   RESET +:+ "  -p, --port PORT        WebSocket port (default: 8080)";
   "  -g, --grpc-port PORT   gRPC port (default: 50051)";
   "  -d, --data-dir DIR     Data directory (default: ./origindb_data)";
   "  --no-auth              Disable auth (local dev only)";
   "  -l, --log-level LEVEL  Log level: trace,debug,info,warn,error";
   "  -c, --config FILE      Config file path";
   "";
   BOLD +:+ "Example:";
   RESET +:+ "  origindb serve -d ./board_data -p 8787 -g 50051 --no-auth"].
Definition sql_help : list string :=
  [BOLD +:+ "SQL Options:";
   RESET +:+ "  -h, --host HOST        Server host (default: localhost)";
   "  -p, --port PORT        Server port (default: 8080)";
   "  -f, --file FILE        Execute SQL from file";
   "  -o, --output FILE      Output results to file";
   "  --format FORMAT        Output format: table,json,csv"].
Definition init_help : list string :=
  [BOLD +:+ "Init Options:";
   RESET +:+ "  --template TEMPLATE    Project template: csharp,unity,nodejs,python";
   "  --no-git              Don't initialize git repository";
   "  --force               Overwrite existing files"].
Definition publish_help : list string :=
  [BOLD +:+ "Publish Options:";
   RESET +:+ "  --server URL          OriginDB server URL (default: http://localhost:9090)";
   "  --path PATH           Project path (default: current directory)";
   "";
   BOLD +:+ "Requirements:";
   RESET +:+ "  - .NET 8+ SDK";
   "  - WASM tools workload: dotnet workload install wasm-tools";
   "  - grpcurl for deployment"].
Definition logs_usage : list string :=
  [BOLD +:+ "Usage:" +:+ RESET +:+ " origindb logs [OPTIONS]";
   "";
   BOLD +:+ "Options:";
   RESET +:+ "  -f, --follow    Follow log output (like tail -f)";
   "  -n, --lines N   Show last N lines (default: 50)";
   "  --file PATH     Log file path (default: ./logs/origindb.log)";
   "  -h, --help      Show this help message";
   "";
   BOLD +:+ "Examples:";
   RESET +:+ "  origindb logs                # Show last 50 lines";
   "  origindb logs -n 100         # Show last 100 lines";
   "  origindb logs --follow       # Follow log output"].
Definition publish_usage : list string :=
  [BOLD +:+ "Usage:" +:+ RESET +:+ " origindb publish [OPTIONS]";
   "";
   BOLD +:+ "Options:";
   RESET +:+ "  --server HOST:PORT  OriginDB gRPC endpoint (default: localhost:50051)";
   "  --path PATH         Project path (default: current directory)";
   "  --version VERSION   Module version (default: 1.0.0)";
   "  --token TOKEN       Admin token (or ORIGINDB_TOKEN env var)";
   "  -h, --help          Show this help message";
   "";
   BOLD +:+ "Supported projects:";
   RESET +:+ "  C# (.csproj):       .NET 8 + wasi-experimental workload";
   "  TypeScript (asconfig.json): AssemblyScript via npm run asbuild";
   "";
   BOLD +:+ "Examples:";
   RESET +:+ "  origindb publish";
   "  origindb publish --path=./my-module --server=prod.example.com:50051"].
Definition command_help (command : string) : list string :=
  if bool_decide (command ∈ ["serve"; "server"; "start"]) then serve_help
  else if bool_decide (command = "sql") then sql_help
  else if bool_decide (command = "init") then init_help
  else if bool_decide (command = "publish") then publish_help
  else [].

(** ** Paths *)

Definition not_slash (c : ascii) : bool := negb (eqc c "/"%char).
(** [fs::path(dir) / name], for a name that is not absolute. *)
Definition path_join (dir name : string) : string :=
  match rev (string_chars dir) with
  | [] => name
  | c :: _ => if not_slash c then dir +:+ "/" +:+ name else dir +:+ name
  end.
Definition parent_path (p : string) : string :=
  let l := (read_run not_slash (rev (string_chars p))).2 in
  match (read_run (λ c, negb (not_slash c)) l).2, l with
  | [], _ :: _ => "/"
  | l, _ => chars_string (rev l)
  end.
Definition filename (p : string) : string := chars_string (rev (read_run not_slash (rev (string_chars p))).1).
(** [stem] and [extension] of a file name. *)
Definition split_name (p : string) : string * string :=
  let name := filename p in
  let '(suffix, front) := read_run (λ c, negb (eqc c "."%char)) (rev (string_chars name)) in
  match front with
  | dot :: _ :: _ => if bool_decide (name = "..") then (name, "")
                     else (chars_string (rev (tail front)), chars_string (rev (suffix ++ [dot])))
  | _ => (name, "")
  end.

(** The pieces [std::getline] finds in a text: none after a last separator. *)
Fixpoint pieces (sep : ascii) (piece l : chars) : list string :=
  match l with
  | [] => match piece with [] => [] | _ => [chars_string (rev piece)] end
  | c :: l => if eqc c sep then chars_string (rev piece) :: pieces sep [] l else pieces sep (c :: piece) l
  end.

Definition common_dirs : list string := ["/usr/local/bin"; "/usr/bin"; "/opt/origindb/bin"; "./build"; "."].

(** [std::stoi]. *)
Definition stoi (s : string) : exc Z :=
  match stoll s with
  | Some n => if bool_decide (is_i 32 n) then Ret n else Throw "stoi"
  | None => Throw "stoi"
  end.

(** ** The arguments of the verbs handled here *)

Record LogsArgs := { follow : bool; lines : Z; log_file : string }.
Definition logs_defaults : LogsArgs := {| follow := false; lines := 50; log_file := "./logs/origindb.log" |}.

Definition is_help (arg : string) : bool := bool_decide (arg = "-h") || bool_decide (arg = "--help").

(** The loop of [handleLogsCommand]; [None] when it prints its usage. *)
Fixpoint parse_logs (l : list string) (a : LogsArgs) : exc (option LogsArgs) :=
  match l with
  | [] => Ret (Some a)
  | arg :: rest =>
      if bool_decide (arg = "--follow") || bool_decide (arg = "-f") then
        parse_logs rest {| follow := true; lines := lines a; log_file := log_file a |}
      else
        let otherwise := if is_help arg then Ret None else parse_logs rest a in
        match rest with
        | value :: rest =>
            if bool_decide (arg = "--lines") || bool_decide (arg = "-n") then
              n ← stoi value; parse_logs rest {| follow := follow a; lines := n; log_file := log_file a |}
            else if bool_decide (arg = "--file") then
              parse_logs rest {| follow := follow a; lines := lines a; log_file := value |}
            else otherwise
        | [] => otherwise
        end
  end.

Record PublishArgs := { grpc_endpoint : string; project_path : string; version : string; token : string }.
Definition publish_defaults (env_token : option string) : PublishArgs :=
  {| grpc_endpoint := "localhost:50051"; project_path := "."; version := "1.0.0"; token := default "" env_token |}.

Inductive publish_option := Server | Path | Version | Token.
Definition set_option (o : publish_option) (v : string) (a : PublishArgs) : PublishArgs :=
  {| grpc_endpoint := match o with Server => v | _ => grpc_endpoint a end;
     project_path := match o with Path => v | _ => project_path a end;
     version := match o with Version => v | _ => version a end;
     token := match o with Token => v | _ => token a end |}.
Definition option_named (arg : string) : option publish_option :=
  if bool_decide (arg = "--server") then Some Server
  else if bool_decide (arg = "--path") then Some Path
  else if bool_decide (arg = "--version") then Some Version
  else if bool_decide (arg = "--token") || bool_decide (arg = "-t") then Some Token
  else None.
(** The forms with the value in the same argument. *)
Definition option_with_value (arg : string) : option (publish_option * string) :=
  let after n := String.substring n (String.length arg - n) arg in
  if String.prefix "--server=" arg then Some (Server, after 9%nat)
  else if String.prefix "--path=" arg then Some (Path, after 7%nat)
  else if String.prefix "--version=" arg then Some (Version, after 10%nat)
  else if String.prefix "--token=" arg then Some (Token, after 8%nat)
  else None.

(** The loop of [handlePublishCommand]; [None] when it prints its usage. *)
Fixpoint parse_publish (l : list string) (a : PublishArgs) : option PublishArgs :=
  match l with
  | [] => Some a
  | arg :: rest =>
      let otherwise :=
        match option_with_value arg with
        | Some (o, value) => parse_publish rest (set_option o value a)
        | None => if is_help arg then None else parse_publish rest a
        end in
      match option_named arg, rest with
      | Some o, value :: rest => parse_publish rest (set_option o value a)
      | _, _ => otherwise
      end
  end.

Section cli.
Context {W : Type} `{OS : Os W}.
Abbreviation Cli := (Prog (Terminal W)).

Definition say (text : string) : Cli () :=
  modify_state (λ s, {| world := world s; cout := cout s +:+ text; cerr := cerr s |}).
Definition complain_lines (l : list string) : Cli () :=
  modify_state (λ s, {| world := world s; cout := cout s; cerr := cerr s +:+ text_of l |}).
Definition complain (line : string) : Cli () := complain_lines [line].
Definition say_lines (l : list string) : Cli () := say (text_of l).
Definition error (text : string) : Cli () := complain (RED +:+ "Error: " +:+ text +:+ RESET).

Definition set_world (w : W) (s : Terminal W) : Terminal W := {| world := w; cout := cout s; cerr := cerr s |}.
Definition see {A} (f : W → exc A) : Cli A := s ← get_state; lift_exc (f (world s)).
Definition exists_ (path : string) : Cli bool := see (os_exists path).
Definition getenv (name : string) : Cli (option string) := see (λ w, Ret (os_getenv name w)).
(** [chdir]; whether it succeeded. *)
Definition chdir (path : string) : Cli bool := λ s,
  match os_chdir path (world s) with
  | Some w => (set_world w s, Done true)
  | None => (s, Done false)
  end.
Definition system (command : string) : Cli Z := λ s,
  let '(w, status) := os_system command (world s) in (set_world w s, Done status).
(** [getcwd] with a buffer of 1024 bytes. *)
Definition getcwd : Cli (option string) :=
  see (λ w, Ret (match os_cwd w with
                 | Ret p => if str_len p <? 1024 then Some p else None
                 | Throw _ => None
                 end)).

Definition printHeader : Cli () := say_lines header_lines.
Definition printUsage : Cli () := _ ← printHeader; say_lines usage_lines.
Definition printVersion : Cli () := _ ← printHeader; say_lines version_lines.

Definition unknown (command : string) : Cli () := error ("Unknown command '" +:+ command +:+ "'").
Definition printCommandHelp (command : string) : Cli () :=
  match find_command command with
  | None => unknown command
  | Some cmd =>
      say_lines ([BOLD +:+ "Command: " +:+ RESET +:+ command;
                  BOLD +:+ "Description: " +:+ RESET +:+ description cmd;
                  BOLD +:+ "Usage: " +:+ RESET +:+ usage cmd; ""] ++ command_help command ++ [""])
  end.

(** ** Finding an executable *)

Fixpoint first_existing (dirs : list string) (name : string) : Cli string :=
  match dirs with
  | [] => mret ""
  | dir :: dirs =>
      let binary_path := path_join dir name in
      found ← exists_ binary_path;
      if found : bool then mret binary_path else first_existing dirs name
  end.

(** Beside this executable, on the path, in the usual directories. *)
Definition findBinary (name : string) : Cli string :=
  s ← get_state;
  let beside := match os_exe_link (world s) with
                | Some link => [parent_path (String.substring 0 1023 link)]
                | None => []
                end in
  let path := match os_getenv "PATH" (world s) with
              | Some path => pieces ":"%char [] (string_chars path)
              | None => []
              end in
  first_existing (beside ++ path ++ common_dirs) name.

(** ** The verbs handled here *)

Definition handleLogsCommand (args : list string) : Cli Z :=
  parsed ← lift_exc (parse_logs args logs_defaults);
  match parsed with
  | None => _ ← say_lines logs_usage; mret 0
  | Some a =>
      found ← exists_ (log_file a);
      if negb found then
        _ ← complain (YELLOW +:+ "Log file not found: " +:+ log_file a +:+ RESET);
        _ ← complain "The server may not be running or logs may be in a different location.";
        mret 1
      else if follow a then system ("tail -f " +:+ log_file a)
      else system ("tail -n " +:+ pretty (lines a) +:+ " " +:+ log_file a)
  end.

Definition handleStopCommand (args : list string) : Cli Z :=
  _ ← say_lines [CYAN +:+ "Stopping OriginDB server..." +:+ RESET];
  result ← system "pkill -f origindb_server";
  if result =? 0 then _ ← say_lines [GREEN +:+ "✅ Server stopped successfully" +:+ RESET]; mret 0
  else _ ← complain (YELLOW +:+ "No running OriginDB server found" +:+ RESET); mret 1.

(** The first file that exists; the empty text when there is none. *)
Fixpoint first_file (paths : list string) : Cli string :=
  match paths with
  | [] => mret ""
  | path :: paths => found ← exists_ path; if found : bool then mret path else first_file paths
  end.

(** The name of the first project file of the directory. *)
Fixpoint project_of (entries : list string) : string :=
  match entries with
  | [] => ""
  | entry :: entries =>
      let '(stem, extension) := split_name entry in
      if bool_decide (extension = ".csproj") then stem else project_of entries
  end.

(** A failure of the publishing: its messages, and back to the directory. *)
Definition abandon {A} (original_dir : string) (l : list string) : Cli (option A) :=
  _ ← complain_lines l; _ ← chdir original_dir; mret None.

(** The project's name and module file, once it is built. *)
Definition build (project_path original_dir : string) : Cli (option (string * string)) :=
  current_path ← see os_cwd;
  typescript ← exists_ "asconfig.json";
  built ← if typescript : bool then
    _ ← say_lines ["📦 Building AssemblyScript module..."];
    status ← system "npm run asbuild --silent";
    if negb (status =? 0) then
      abandon original_dir [RED +:+ "Error: Build failed. Run 'npm install' first." +:+ RESET]
    else wasm_file ← first_file ["build/module.wasm"; "build/release.wasm"];
         mret (Some (filename current_path, wasm_file))
  else
    entries ← see os_entries;
    let project_name := project_of entries in
    if bool_decide (project_name = "") then
      abandon original_dir [RED +:+ "Error: No .csproj or asconfig.json found in " +:+ project_path +:+ RESET]
    else
      _ ← say_lines ["📦 Building .NET WASM module..."];
      status ← system "dotnet publish --configuration Release --verbosity quiet";
      if negb (status =? 0) then
        abandon original_dir
          [RED +:+ "Error: Build failed. Requires .NET 8 SDK with the wasi-experimental workload." +:+ RESET;
           "Try: dotnet workload install wasi-experimental"]
      else wasm_file ← first_file ["bin/Release/net8.0/wasi-wasm/AppBundle/" +:+ project_name +:+ ".wasm";
                                   "bin/Release/net8.0/wasi-wasm/publish/" +:+ project_name +:+ ".wasm"];
           mret (Some (project_name, wasm_file));
  match built with
  | None => mret None
  | Some (project_name, wasm_file) =>
      found ← if bool_decide (wasm_file = "") then mret false else exists_ wasm_file;
      if negb found then
        abandon original_dir [RED +:+ "Error: Built WASM file not found" +:+ RESET;
                              "Build may have failed or the output path is unexpected."]
      else mret (Some (project_name, wasm_file))
  end.

Definition quoted (s : string) : string := quote +:+ s +:+ quote.
Definition deploy_cmd (client_binary project_name wasm_file : string) (a : PublishArgs) : string :=
  let token_arg := if bool_decide (token a = "") then "" else " --token " +:+ quoted (token a) in
  quoted client_binary +:+ token_arg +:+ " --server " +:+ grpc_endpoint a
  +:+ " deploy " +:+ quoted project_name +:+ " " +:+ quoted wasm_file +:+ " " +:+ quoted (version a).

Definition published (project_name : string) (a : PublishArgs) : list string :=
  [GREEN +:+ BOLD; "🎉 Module published successfully!" +:+ RESET; "";
   "Module Name: " +:+ CYAN +:+ project_name +:+ RESET;
   "Server: " +:+ CYAN +:+ grpc_endpoint a +:+ RESET; "";
   BOLD +:+ "Test your reducers:" +:+ RESET;
   "  origindb call " +:+ project_name +:+ " <ReducerName> '[" +:+ quoted "arg1" +:+ ", 2]' -s " +:+ grpc_endpoint a;
   "  origindb modules -s " +:+ grpc_endpoint a].

(** The deployment of a built module, through the client. *)
Definition deploy (a : PublishArgs) (original_dir project_name wasm_file : string) : Cli Z :=
  _ ← say_lines [GREEN +:+ "✅ Build successful: " +:+ wasm_file +:+ RESET; "🌐 Deploying to " +:+ grpc_endpoint a];
  client_binary ← findBinary "origindb_client";
  if bool_decide (client_binary = "") then
    _ ← error "origindb_client binary not found (built without gRPC support?)"; _ ← chdir original_dir; mret 1
  else
    deploy_result ← system (deploy_cmd client_binary project_name wasm_file a);
    _ ← chdir original_dir;
    if deploy_result =? 0 then _ ← say_lines (published project_name a); mret 0
    else _ ← error "Deployment failed. Is the OriginDB server running?"; mret 1.

Definition handlePublishCommand (args : list string) : Cli Z :=
  env_token ← getenv "ORIGINDB_TOKEN";
  match parse_publish args (publish_defaults env_token) with
  | None => _ ← say_lines publish_usage; mret 0
  | Some a =>
      _ ← say_lines [CYAN +:+ BOLD +:+ "🚀 Publishing WASM module..." +:+ RESET; ""];
      original ← getcwd;
      match original with
      | None => _ ← error "Could not get current directory"; mret 1
      | Some original_dir =>
          moved ← chdir (project_path a);
          if negb moved then _ ← error ("Could not change to project directory: " +:+ project_path a); mret 1
          else
            built ← build (project_path a) original_dir;
            match built with
            | None => mret 1
            | Some (project_name, wasm_file) => deploy a original_dir project_name wasm_file
            end
      end
  end.

(** ** Dispatch *)

Definition not_yet (doing what : string) : Cli Z :=
  _ ← say_lines [GREEN +:+ doing +:+ RESET; what +:+ " not yet implemented."]; mret 0.

Definition builtin (command : string) (args : list string) : option (Cli Z) :=
  if bool_decide (command = "publish") then Some (handlePublishCommand args)
  else if bool_decide (command = "logs") then Some (handleLogsCommand args)
  else if bool_decide (command = "stop") then Some (handleStopCommand args)
  else if bool_decide (command = "migrate") then Some (not_yet "Running database migrations..." "Migrations")
  else if bool_decide (command = "backup") then Some (not_yet "Creating database backup..." "Backup")
  else if bool_decide (command = "restore") then Some (not_yet "Restoring from backup..." "Restore")
  else None.

(** [execvp] of the executable of a verb. *)
Definition launch (binary_name : string) (command : string) (args : list string) : Cli ending :=
  binary_path ← findBinary binary_name;
  if bool_decide (binary_path = "") then
    _ ← error ("Could not find '" +:+ binary_name +:+ "' binary.");
    _ ← complain_lines ["Please ensure OriginDB is properly installed."; "Run 'origindb --help' for more information."];
    mret (Exit 1)
  else
    let fwd := (if bool_decide (command ∈ kClientVerbs) then [command] else []) ++ args in
    failed ← see (λ w, Ret (os_exec binary_path (binary_path :: fwd) w));
    match failed with
    | None => mret (Became binary_path (binary_path :: fwd))
    | Some reason => _ ← error ("Failed to execute '" +:+ binary_path +:+ "': " +:+ reason); mret (Exit 1)
    end.

Definition executeCommand (command : string) (args : list string) : Cli ending :=
  match find_command command with
  | None => _ ← unknown command; _ ← complain "Run 'origindb --help' for usage information."; mret (Exit 1)
  | Some cmd =>
      match (if bool_decide (binary cmd = "") then builtin command args else None) with
      | Some p => code ← p; mret (Exit code)
      | None => launch (binary cmd) command args
      end
  end.

(** [main], with the arguments after the program's name. *)
Definition main (argv : list string) : Cli ending :=
  match argv with
  | [] => _ ← printUsage; mret (Exit 0)
  | first_arg :: args =>
      if is_help first_arg then
        _ ← match args with command :: _ => printCommandHelp command | [] => printUsage end; mret (Exit 0)
      else if bool_decide (first_arg = "-v") || bool_decide (first_arg = "--version") then
        _ ← printVersion; mret (Exit 0)
      else if existsb is_help (take 1 args) then _ ← printCommandHelp first_arg; mret (Exit 0)
      else executeCommand first_arg args
  end.
End cli.

(** ** Texts as characters *)

Lemma chars_append a b : string_chars (a +:+ b) = string_chars a ++ string_chars b.
Proof. induction a as [|c a IH]; [done|]. exact (f_equal (cons c) IH). Qed.
