(* ===== verification/CliPublish.v ===== *)
(** * What the origindb command does

    A verb of the client becomes the client with that verb.  A publication that
    ends with exit code 0 has built the module and, on a shell that splits plain
    and quoted words, has left the server serving the bytes of the module file:
    the composition of the command, the client and the service. *)

From Stdlib Require Import Strings.Ascii.
From S2P Require Import Prelude Table Codec RowCodec Float64 Regex StdNumbers Json MemTable Txn WalStore Changefeed StorageJson Storage RowJson HostFunctions HostReads WasmEngine WasmExec WasmLoad ModuleStore ModuleStoreRestart Auth GrpcServices GrpcCalls GrpcDeploy Client ClientCalls Cli.

(** ** Steps of the command *)

Section steps.
Context {W : Type} `{OS : Os W}.
Abbreviation terminal := (Terminal W).

Lemma say_lines_done l (s : terminal) :
  say_lines l s = ({| world := world s; cout := cout s +:+ text_of l; cerr := cerr s |}, Done ()).
Proof. done. Qed.

Lemma see_inv {A} (f : W → exc A) (s s' : terminal) a : see f s = (s', Done a) → s' = s ∧ f (world s) = Ret a.
Proof.
  unfold see, get_state, mbind, Prog_bind, lift_exc. destruct (f (world s)); [|done]. by intros [= <- <-].
Qed.

Lemma system_inv cmd (s s' : terminal) status :
  system cmd s = (s', Done status) → os_system cmd (world s) = (world s', status).
Proof. unfold system. destruct (os_system cmd (world s)). by intros [= <- <-]. Qed.

Lemma chdir_inv path (s s' : terminal) moved :
  chdir path s = (s', Done moved) →
  if moved then os_chdir path (world s) = Some (world s') else s' = s ∧ os_chdir path (world s) = None.
Proof. unfold chdir. destruct (os_chdir path (world s)) eqn:E; by intros [= <- <-]. Qed.

Lemma first_existing_inv dirs name (s s' : terminal) p :
  first_existing dirs name s = (s', Done p) →
  s' = s ∧ (p = "" ∨ ∃ dir, p = path_join dir name ∧ os_exists p (world s) = Ret true).
Proof.
  induction dirs as [|dir dirs IH]; cbn [first_existing]; [intros [= <- <-]; by auto|].
  intros (s1 & found & [-> Hf]%see_inv & Hrest)%host_bind_inv. destruct found; [|by apply IH].
  injection Hrest as <- <-. split; [done|]. right. by exists dir.
Qed.

Lemma findBinary_inv name (s s' : terminal) p :
  findBinary name s = (s', Done p) →
  s' = s ∧ (p = "" ∨ ∃ dir, p = path_join dir name ∧ os_exists p (world s) = Ret true).
Proof.
  unfold findBinary. intros (s1 & s0 & Hg & Hrest)%host_bind_inv. injection Hg as <- <-.
  by apply first_existing_inv in Hrest.
Qed.

Lemma first_file_inv paths (s s' : terminal) p :
  first_file paths s = (s', Done p) → s' = s ∧ (p = "" ∨ p ∈ paths).
Proof.
  induction paths as [|path paths IH]; cbn [first_file]; [intros [= <- <-]; by auto|].
  intros (s1 & found & [-> Hf]%see_inv & Hrest)%host_bind_inv. destruct found.
  - injection Hrest as <- <-. split; [done|]. right. apply list_elem_of_here.
  - apply IH in Hrest as [-> [->|H]]; split; auto. right. by apply list_elem_of_further.
Qed.

Lemma abandon_inv {A} dir l (s s' : terminal) (r : option A) : abandon dir l s = (s', Done r) → r = None.
Proof.
  unfold abandon. intros (s1 & [] & _ & (s2 & moved & _ & H)%host_bind_inv)%host_bind_inv. by injection H as _ <-.
Qed.

(** ** Building *)

Definition build_commands : list string :=
  ["npm run asbuild --silent"; "dotnet publish --configuration Release --verbosity quiet"].
(** Where the builds leave the module. *)
Definition module_paths (name : string) : list string :=
  ["build/module.wasm"; "build/release.wasm"; "bin/Release/net8.0/wasi-wasm/AppBundle/" +:+ name +:+ ".wasm";
   "bin/Release/net8.0/wasi-wasm/publish/" +:+ name +:+ ".wasm"].

(** A build that leaves a module: its command succeeded, and the file is there. *)
Definition builds (name file : string) (w w' : W) : Prop :=
  ∃ command, command ∈ build_commands ∧ os_system command w = (w', 0)
  ∧ file ∈ module_paths name ∧ os_exists file w' = Ret true.

(** One of the two builds, once its project is known. *)
Definition one_build (dir command line name : string) (messages paths : list string) : Prog terminal (option (string * string)) :=
  _ ← say_lines [line]; status ← system command;
  if negb (status =? 0) then abandon dir messages
  else wasm_file ← first_file paths; mret (Some (name, wasm_file)).

Lemma one_build_inv dir command line name messages paths (s s' : terminal) name' file :
  one_build dir command line name messages paths s = (s', Done (Some (name', file))) →
  name' = name ∧ os_system command (world s) = (world s', 0) ∧ (file = "" ∨ file ∈ paths).
Proof.
  unfold one_build. intros (s1 & [] & Hs & (s2 & status & Hsys%system_inv & Hrest)%host_bind_inv)%host_bind_inv.
  injection Hs as <-. destruct (Z.eqb_spec status 0) as [->|]; cbn [negb] in Hrest.
  - apply host_bind_inv in Hrest as (s3 & p & [-> Hp]%first_file_inv & Hret). by injection Hret as <- <- <-.
  - by apply abandon_inv in Hrest.
Qed.

Lemma build_inv path dir (s s' : terminal) name file :
  build path dir s = (s', Done (Some (name, file))) → builds name file (world s) (world s').
Proof.
  unfold build. intros (s1 & cwd & [-> _]%see_inv & H)%host_bind_inv.
  apply host_bind_inv in H as (s1 & ts & [-> _]%see_inv & H).
  apply host_bind_inv in H as (s1 & built & Hb & H).
  assert (∀ name0 file0, built = Some (name0, file0) →
    ∃ command, command ∈ build_commands ∧ os_system command (world s) = (world s1, 0)
               ∧ (file0 = "" ∨ file0 ∈ module_paths name0)) as Hbuilt.
  { intros name0 file0 ->. destruct ts.
    - apply one_build_inv in Hb as (-> & Hc & Hf). eexists. split; [apply list_elem_of_here|]. split; [done|].
      destruct Hf as [|Hf]; [by left|right]. revert Hf. unfold module_paths. set_solver.
    - apply host_bind_inv in Hb as (s2 & entries & [-> _]%see_inv & Hb).
      destruct (bool_decide (project_of entries = "")); [by apply abandon_inv in Hb|].
      apply one_build_inv in Hb as (-> & Hc & Hf). eexists. split; [apply list_elem_of_further, list_elem_of_here|].
      split; [done|]. destruct Hf as [|Hf]; [by left|right]. revert Hf. unfold module_paths. set_solver. }
  destruct built as [[name0 file0]|]; [|done]. destruct (Hbuilt _ _ eq_refl) as (command & Hin & Hsys & Hf).
  apply host_bind_inv in H as (s2 & found & Hfound & H). destruct found; cbn [negb] in H; [|by apply abandon_inv in H].
  injection H as <- <- <-. destruct (bool_decide (file0 = "")) eqn:E; [done|]. apply bool_decide_eq_false in E.
  apply see_inv in Hfound as [-> Hex]. exists command. destruct Hf; [done|]. by split_and!.
Qed.

(** ** Deploying *)

Lemma deploy_inv a dir name file (s s' : terminal) :
  deploy a dir name file s = (s', Done 0) →
  ∃ client w, (∃ d, client = path_join d "origindb_client") ∧ os_exists client (world s) = Ret true
  ∧ os_system (deploy_cmd client name file a) (world s) = (w, 0)
  ∧ (world s' = w ∨ os_chdir dir w = Some (world s')).
Proof.
  unfold deploy. intros (s1 & [] & Hs & H)%host_bind_inv. injection Hs as <-.
  apply host_bind_inv in H as (s1 & client & Hc & H). apply findBinary_inv in Hc as [-> Hc].
  destruct (bool_decide (client = "")) eqn:E.
  { apply host_bind_inv in H as (s1 & [] & _ & H). apply host_bind_inv in H as (s2 & moved & _ & H). done. }
  apply bool_decide_eq_false in E. destruct Hc as [|(d & Hd & Hex)]; [done|].
  apply host_bind_inv in H as (s1 & status & Hsys%system_inv & H).
  apply host_bind_inv in H as (s2 & moved & Hm%chdir_inv & H).
  destruct (Z.eqb_spec status 0) as [->|]; apply host_bind_inv in H as (s3 & [] & Hlast & Hret); [|done].
  injection Hret as <-. injection Hlast as <-. exists client, (world s1).
  split; [by exists d|]. split; [done|]. split; [done|]. destruct moved; [by right|left]. by destruct Hm as [-> _].
Qed.

(** A publication that ends with exit code 0 printed its usage, or built a module in
    the project directory and deployed it with a client that answered 0. *)
Lemma publish_inv args (s s' : terminal) :
  handlePublishCommand args s = (s', Done 0) →
  (parse_publish args (publish_defaults (os_getenv "ORIGINDB_TOKEN" (world s))) = None ∧ world s' = world s)
  ∨ ∃ a dir w1 name file w2 client w3,
      parse_publish args (publish_defaults (os_getenv "ORIGINDB_TOKEN" (world s))) = Some a
      ∧ os_chdir (project_path a) (world s) = Some w1 ∧ builds name file w1 w2
      ∧ (∃ d, client = path_join d "origindb_client") ∧ os_system (deploy_cmd client name file a) w2 = (w3, 0)
      ∧ (world s' = w3 ∨ os_chdir dir w3 = Some (world s')).
Proof.
  unfold handlePublishCommand. intros (s1 & tok & [-> [= <-]]%see_inv & H)%host_bind_inv.
  destruct (parse_publish _ _) as [a|].
  2: { left. split; [done|]. apply host_bind_inv in H as (s1 & [] & Hs & H). injection H as <-. by injection Hs as <-. }
  right. apply host_bind_inv in H as (s1 & [] & Hs & H). injection Hs as <-.
  apply host_bind_inv in H as (s1 & original & [-> _]%see_inv & H).
  destruct original as [dir|]; [|apply host_bind_inv in H as (s1 & [] & _ & H); done].
  apply host_bind_inv in H as (s1 & moved & Hm%chdir_inv & H).
  destruct moved; cbn [negb] in H; [|apply host_bind_inv in H as (s2 & [] & _ & H); done].
  apply host_bind_inv in H as (s2 & [[name file]|] & Hb & H); [|done].
  apply build_inv in Hb. apply deploy_inv in H as (client & w & Hcl & _ & Hsys & Hw).
  exists a, dir, (world s1), name, file, (world s2), client, w. by split_and!.
Qed.

Lemma printCommandHelp_world command (s s' : terminal) r : printCommandHelp command s = (s', r) → world s' = world s.
Proof. unfold printCommandHelp. destruct (find_command command); by intros [= <- _]. Qed.

(** [main] on the verb: help asked for first, or the handler. *)
Lemma main_publish args (s s' : terminal) code :
  main ("publish" :: args) s = (s', Done (Exit code)) →
  (parse_publish args (publish_defaults (os_getenv "ORIGINDB_TOKEN" (world s))) = None ∧ world s' = world s)
  ∨ handlePublishCommand args s = (s', Done code).
Proof.
  intros H. change (main ("publish" :: args) s) with
    ((if existsb is_help (take 1 args) then _ ← printCommandHelp "publish"; mret (Exit 0)
      else code ← handlePublishCommand args; mret (Exit code) : Prog terminal ending) s) in H.
  destruct (existsb is_help (take 1 args)) eqn:Eh.
  - left. split.
    + destruct args as [|arg args]; [done|]. simpl in Eh. rewrite orb_false_r in Eh.
      unfold is_help in Eh. apply orb_true_iff in Eh as [->%bool_decide_eq_true| ->%bool_decide_eq_true]; reflexivity.
    + apply host_bind_inv in H as (s1 & [] & Hs & Hret). injection Hret as <-.
      by apply printCommandHelp_world in Hs.
  - right. apply host_bind_inv in H as (s1 & c & Hs & Hret). by injection Hret as <- <-.
Qed.

End steps.

(** ** The words of the deployment *)

(** What a shell takes as it is, and what it takes as it is between quotes. *)
Definition plain (c : ascii) : bool := isalnum c || existsb (eqc c) (string_chars "./-_:@%+,").
Definition safe (c : ascii) : bool := negb (existsb (eqc c) (ascii_of_nat 0 :: string_chars (quote +:+ "$`\"))).

Inductive shell_word : string → string → Prop :=
| Bare s : s ≠ "" → forallb plain (string_chars s) = true → shell_word s s
| Quoted s : forallb safe (string_chars s) = true → shell_word (quoted s) s.

Definition shell_line (p : string) (texts : list string) : string :=
  quoted p +:+ foldr (λ text r, " " +:+ text +:+ r) "" texts.

Definition deploy_texts (name file : string) (a : PublishArgs) : list string :=
  (if bool_decide (token a = "") then [] else ["--token"; quoted (token a)])
  ++ ["--server"; grpc_endpoint a; "deploy"; quoted name; quoted file; quoted (version a)].
Definition deploy_words (name file : string) (a : PublishArgs) : list string :=
  (if bool_decide (token a = "") then [] else ["--token"; token a])
  ++ ["--server"; grpc_endpoint a; "deploy"; name; file; version a].

Lemma deploy_cmd_words client name file a : deploy_cmd client name file a = shell_line client (deploy_texts name file a).
Proof.
  unfold deploy_cmd, shell_line, deploy_texts. destruct (bool_decide (token a = "")); cbn [foldr app];
    unfold quoted; rewrite ?append_assoc, ?append_empty_r; reflexivity.
Qed.

(** The texts of a publication that a shell leaves alone. *)
Definition safe_texts (name file : string) (a : PublishArgs) : Prop :=
  grpc_endpoint a ≠ "" ∧ forallb plain (string_chars (grpc_endpoint a)) = true
  ∧ Forall (λ s, forallb safe (string_chars s) = true) [token a; name; file; version a].

Lemma deploy_texts_words name file a : safe_texts name file a → Forall2 shell_word (deploy_texts name file a) (deploy_words name file a).
Proof.
  intros (He & Hp & Hs). repeat (apply Forall_cons in Hs as [? Hs]). unfold deploy_texts, deploy_words.
  destruct (bool_decide (token a = "")); cbn [app]; repeat (constructor; [by constructor|]); constructor.
Qed.

(** ** How the client reads them *)

Definition client_options : list string := ["-h"; "--help"; "-s"; "--server"; "-t"; "--token"; "--tls"; "--tls-ca"].

Lemma parse_positional arg l a : arg ∉ client_options → parse_client (arg :: l) a = parse_client l (with_positional arg a).
Proof.
  unfold client_options. intros H. rewrite !not_elem_of_cons in H. cbn [parse_client].
  rewrite !bool_decide_eq_false_2 by tauto. done.
Qed.

Definition deploy_args (env_token : option string) (name file : string) (a : PublishArgs) : ClientArgs :=
  {| server_address := grpc_endpoint a;
     arg_token := if bool_decide (token a = "") then default "" env_token else token a;
     tls_ca := ""; use_tls := false; command := "deploy"; args := [name; file; version a] |}.

Lemma parse_deploy_words env_token name file a :
  Forall (λ s, s ∉ client_options) [name; file; version a] →
  parse_client (deploy_words name file a) (initial_args env_token) = Parsed (deploy_args env_token name file a).
Proof.
  intros H. repeat (apply Forall_cons in H as [? H]). unfold deploy_words, deploy_args.
  assert (∀ args0, parse_client ["--server"; grpc_endpoint a; "deploy"; name; file; version a] args0
    = parse_client ["deploy"; name; file; version a] (with_address (grpc_endpoint a) args0)) as Hs by done.
  assert ("deploy" ∉ client_options) by (apply (bool_decide_unpack _); vm_compute; exact I).
  destruct (bool_decide (token a = "")); cbn [app].
  - rewrite Hs, !parse_positional by done. done.
  - change (parse_client ("--token" :: token a :: ?l) ?x) with (parse_client l (with_token (token a) x)).
    rewrite Hs, !parse_positional by done. done.
Qed.

(** The paths of the modules are no options. *)
Lemma module_path_no_option name file : file ∈ module_paths name → file ∉ client_options.
Proof.
  unfold module_paths, client_options. rewrite !elem_of_cons.
  intros [->|[->|[->|[->|[]%not_elem_of_nil]]]] H; rewrite ?elem_of_cons in H;
    repeat (destruct H as [H|H]; [discriminate H|]); by apply not_elem_of_nil in H.
Qed.

(** ** From the command to the server *)

Section publish.
Context {W : Type} `{OS : Os W}.
Context {S : Type} `{WA : WalApi S} `{JL : JsonLib} {ID : IndentedDump JL} {SH : Sha256} `{HO : HashOrder} `{WT : Wasmtime S}.
Context (guests_safe : ∀ bytecode, GuestSafe (G := guest_of bytecode)).

(** The server the client reaches, and the surroundings of the client. *)
Variable node_of : W → Node S.
Variable client_env : W → ClientEnv.
(** Starting an executable and waiting for it. *)
Variable run_program : string → list string → W → W * Z.

(** A shell runs the quoted path of its line with the words of the rest. *)
Hypothesis shell_runs : ∀ p texts words w,
  existsb (eqc "/"%char) (string_chars p) = true → forallb safe (string_chars p) = true → Forall2 shell_word texts words →
  os_system (shell_line p texts) w = run_program p words w.
(** The client's executable is the client: a wait status of 0 is its exit code 0. *)
Hypothesis client_runs : ∀ d words w w',
  run_program (path_join d "origindb_client") words w = (w', 0) →
  ∃ s', Client.main (client_env w) words {| peer := node_of w; stdout := ""; stderr := "" |} = (s', Done 0)
        ∧ node_of w' = peer s'.
Hypothesis chdir_keeps : ∀ d w w', os_chdir d w = Some w' → node_of w' = node_of w.

(** What a publication did in between: a build, and a deployment to a server. *)
Definition publishes (a : PublishArgs) (w w' : W) : Prop :=
  ∃ w1 w2 name file client,
    os_chdir (project_path a) w = Some w1 ∧ builds name file w1 w2 ∧ (∃ d, client = path_join d "origindb_client")
    ∧ (existsb (eqc "/"%char) (string_chars client) = true → forallb safe (string_chars client) = true →
       safe_texts name file a → name ∉ client_options → version a ∉ client_options →
       let env := client_env w2 in
       let args := deploy_args (env_token env) name file a in
       deploy_served env (channel env (grpc_endpoint a) None O) (Authorize (arg_token args)) file
         (deploy_request name (version a)) (node_of w2) (node_of w')).

End publish.

(** ** Verbs of other executables *)

Section dispatch.
Context {W : Type} `{OS : Os W}.

Lemma launch_inv name command args (s s' : Terminal W) path argv :
  launch name command args s = (s', Done (Became path argv)) →
  world s' = world s ∧ (∃ d, path = path_join d name) ∧ os_exists path (world s) = Ret true
  ∧ os_exec path argv (world s) = None
  ∧ argv = path :: (if bool_decide (command ∈ kClientVerbs) then [command] else []) ++ args.
Proof.
  unfold launch. intros (s1 & p & [-> Hp]%findBinary_inv & H)%host_bind_inv.
  destruct (bool_decide (p = "")) eqn:E.
  { apply host_bind_inv in H as (s1 & [] & _ & H). apply host_bind_inv in H as (s2 & [] & _ & H). done. }
  apply bool_decide_eq_false in E. destruct Hp as [|(d & Hd & Hex)]; [done|].
  apply host_bind_inv in H as (s1 & failed & [-> Hfail]%see_inv & H). destruct failed as [reason|].
  - apply host_bind_inv in H as (s1 & [] & _ & H). done.
  - injection H as <- <- <-. injection Hfail as Hfail. split_and!; try done. by exists d.
Qed.

Lemma find_command_elem verb cmd : find_command verb = Some cmd → (verb, cmd) ∈ commands.
Proof.
  unfold find_command. destruct (list_find _ _) as [[i [v c]]|] eqn:E; [|done]. intros [= <-].
  apply list_find_Some in E as (Hl & E & _). simpl in E. subst v. by eapply list_elem_of_lookup_2.
Qed.

(** Each verb is handled here or has an executable; the client's verbs have the client. *)
Lemma verb_handled verb cmd args : find_command verb = Some cmd → binary cmd = "" → builtin (W := W) verb args ≠ None.
Proof.
  intros H%find_command_elem. unfold commands in H.
  repeat (apply elem_of_cons in H as [[= -> ->]|H]; [done|]). by apply not_elem_of_nil in H.
Qed.

Lemma client_verb verb cmd : find_command verb = Some cmd → verb ∈ kClientVerbs →
  binary cmd = "origindb_client" ∧ verb ∉ client_options ∧ verb ≠ "".
Proof.
  intros H%find_command_elem. assert (Forall (λ vc : string * Command, vc.1 ∈ kClientVerbs →
    binary vc.2 = "origindb_client" ∧ vc.1 ∉ client_options ∧ vc.1 ≠ "") commands) as Hall
    by (apply (bool_decide_unpack _); vm_compute; exact I).
  rewrite Forall_forall in Hall. exact (Hall _ H).
Qed.

Lemma parse_keeps_command n : ∀ l a0 a, (length l <= n)%nat →
  parse_client l a0 = Parsed a → Client.command a0 ≠ "" → Client.command a = Client.command a0.
Proof.
  induction n as [|n IH]; intros [|arg l] a0 a; cbn [parse_client length]; try (intros ? [= <-]; done); [lia|].
  intros Hn H Hc. repeat case_match; try done; try (by injection H as <-);
    (apply IH in H; [|simpl in *; lia|simpl; by rewrite ?bool_decide_eq_false_2];
     rewrite H; simpl; by rewrite ?bool_decide_eq_false_2).
Qed.

(** [main] returns the wait status of [tail], of which the parent of the process
    sees the low eight bits: the exit code of [tail] is lost in it. *)
Lemma failed_tail_is_success args (s s' : Terminal W) a code :
  parse_logs args logs_defaults = Ret (Some a) → os_exists (log_file a) (world s) = Ret true →
  (∀ line w, ∃ w' c, os_system line w = (w', 256 * c)) →
  handleLogsCommand args s = (s', Done code) → code mod 2 ^ 8 = 0.
Proof.
  intros Hp Hex Hsys. unfold handleLogsCommand. rewrite Hp.
  intros (s1 & parsed & Hlift & H)%host_bind_inv. injection Hlift as <- <-.
  apply host_bind_inv in H as (s1 & found & [-> Hf]%see_inv & H). rewrite Hex in Hf. injection Hf as <-.
  assert (∃ line, system line s = (s', Done code)) as [line Hl%system_inv] by (destruct (follow a); eexists; exact H).
  destruct (Hsys line (world s)) as (w' & c & E). rewrite E in Hl. injection Hl as _ <-.
  rewrite Z.mul_comm. by apply Z.mod_mul.
Qed.

(** When [main] replaces itself, it was given a verb of another executable, found
    that executable and passes the arguments on unchanged; a verb of the client is
    put before them, so that the client, if it runs a command at all, runs that. *)
Theorem main_becomes argv (s s' : Terminal W) path argv' :
  Cli.main argv s = (s', Done (Became path argv')) →
  ∃ verb args cmd, argv = verb :: args ∧ find_command verb = Some cmd ∧ binary cmd ≠ ""
  ∧ world s' = world s ∧ (∃ d, path = path_join d (binary cmd)) ∧ os_exists path (world s) = Ret true
  ∧ (argv' = path :: args ∨ verb ∈ kClientVerbs ∧ argv' = path :: verb :: args
     ∧ ∀ a0 a, Client.command a0 = "" → parse_client (verb :: args) a0 = Parsed a → Client.command a = verb).
Proof.
  unfold Cli.main. destruct argv as [|verb args]; [done|].
  destruct (is_help verb) eqn:Eh; [intros (s1 & [] & _ & H)%host_bind_inv; done|].
  destruct (_ || _); [intros (s1 & [] & _ & H)%host_bind_inv; done|].
  destruct (existsb is_help (take 1 args)); [intros (s1 & [] & _ & H)%host_bind_inv; done|].
  unfold executeCommand. destruct (find_command verb) as [cmd|] eqn:Ec.
  2: { intros (s1 & [] & _ & H)%host_bind_inv. apply host_bind_inv in H as (s2 & [] & _ & H). done. }
  destruct (bool_decide (binary cmd = "")) eqn:Eb.
  - apply bool_decide_eq_true in Eb. pose proof (verb_handled _ _ args Ec Eb).
    destruct (builtin verb args) as [p|]; [|done].
    intros (s1 & code & _ & Hret)%host_bind_inv. done.
  - apply bool_decide_eq_false in Eb. intros (Hw & Hd & Hex & _ & ->)%launch_inv.
    exists verb, args, cmd. split_and!; try done. destruct (bool_decide (verb ∈ kClientVerbs)) eqn:Ev; [right|by left].
    apply bool_decide_eq_true in Ev. destruct (client_verb _ _ Ec Ev) as (_ & Hno & Hne).
    split_and!; [done..|]. intros a0 a Ha0. rewrite parse_positional by done. intros H.
    rewrite (parse_keeps_command _ _ _ _ (le_n _) H); simpl; by rewrite Ha0.
Qed.
End dispatch.

(** ** A concrete machine *)

Module DemoMachine.
#[export] Existing Instance std_json.
#[export] Existing Instance std_order.
#[export] Existing Instance std_indented.
Export DemoNode DemoClient.

(** Splitting a line into words, with the characters of the word read so far and
    whether a quotation is open. *)
Fixpoint split_words (in_quotes : bool) (word : option chars) (l : chars) : option (list string) :=
  match l with
  | [] => if in_quotes then None else Some (match word with Some w => [chars_string (rev w)] | None => [] end)
  | c :: l =>
      if eqc c (ascii_of_nat 34) then split_words (negb in_quotes) (Some (default [] word)) l
      else if in_quotes then split_words true (Some (c :: default [] word)) l
      else if eqc c " "%char then
        match word with
        | Some w => cons (chars_string (rev w)) <$> split_words false None l
        | None => split_words false None l
        end
      else split_words false (Some (c :: default [] word)) l
  end.

Lemma plain_not_special c : plain c = true → eqc c (ascii_of_nat 34) = false ∧ eqc c " "%char = false.
Proof. destruct c as [[] [] [] [] [] [] [] []]; vm_compute; (done || by split). Qed.
Lemma safe_not_quote c : safe c = true → eqc c (ascii_of_nat 34) = false.
Proof. destruct c as [[] [] [] [] [] [] [] []]; vm_compute; done. Qed.

Lemma split_plain s : ∀ w l, forallb plain s = true → (s ≠ [] ∨ is_Some w) →
  split_words false w (s ++ l) = split_words false (Some (rev s ++ default [] w)) l.
Proof.
  induction s as [|c s IH]; intros w l Hp Hw; [by destruct Hw as [|[w' ->]]|].
  simpl in Hp. apply andb_true_iff in Hp as [[Hq Hsp]%plain_not_special Hp].
  simpl. rewrite Hq, Hsp, IH by eauto. by rewrite <- app_assoc.
Qed.
Lemma split_quoted s : ∀ w l, forallb safe s = true →
  split_words true (Some w) (s ++ ascii_of_nat 34 :: l) = split_words false (Some (rev s ++ w)) l.
Proof.
  induction s as [|c s IH]; intros w l Hp; [done|].
  simpl in Hp. apply andb_true_iff in Hp as [Hq%safe_not_quote Hp].
  simpl. rewrite Hq, IH by done. by rewrite <- app_assoc.
Qed.

Lemma chars_quoted s : string_chars (quoted s) = ascii_of_nat 34 :: string_chars s ++ [ascii_of_nat 34].
Proof. unfold quoted. rewrite !chars_append. done. Qed.

Lemma split_word text word l : shell_word text word →
  split_words false None (string_chars text ++ l) = split_words false (Some (rev (string_chars word))) l.
Proof.
  intros [s Hne Hp|s Hs].
  - rewrite split_plain; [by rewrite app_nil_r|done|]. left. by destruct s.
  - rewrite chars_quoted. simpl. rewrite <- app_assoc. simpl. rewrite split_quoted by done. by rewrite app_nil_r.
Qed.

Lemma split_texts texts words w : Forall2 shell_word texts words →
  split_words false (Some w) (string_chars (foldr (λ text r, " " +:+ text +:+ r) "" texts)) = Some (chars_string (rev w) :: words).
Proof.
  intros H. revert w. induction H as [|text word texts words Ht _ IH]; intros w; [done|].
  cbn [foldr]. rewrite !chars_append. simpl. rewrite (split_word _ _ _ Ht), IH.
  by rewrite rev_involutive, chars_string_chars.
Qed.

Lemma split_line p texts words : forallb safe (string_chars p) = true → Forall2 shell_word texts words →
  split_words false None (string_chars (shell_line p texts)) = Some (p :: words).
Proof.
  intros Hp Ht. unfold shell_line. rewrite chars_append, (split_word _ p _ (Quoted _ Hp)), (split_texts _ _ _ Ht).
  by rewrite rev_involutive, chars_string_chars.
Qed.

(** A machine with a project in /work/guests, the origindb executables in /opt/bin,
    an administrator's token in the environment, and a server. *)
Record Machine := { cwd : string; built : bool; node : Node WalHost }.

Definition here (m : Machine) : bool := bool_decide (cwd m = "/work/guests").
Definition module_file (path : string) (m : Machine) : bool := here m && built m && bool_decide (path = "build/module.wasm").

Definition client_env (m : Machine) : ClientEnv :=
  {| program_name := "/opt/bin/origindb_client"; env_token := Some "admin";
     read_file := λ path, if module_file path m then Some (str_bytes "1.0.0") else None;
     stdin := []; channel := λ _ _ _, answered |}.

(** The only executable started is the client; its exit code in the wait status. *)
Definition run_program (p : string) (words : list string) (m : Machine) : Machine * Z :=
  let '(s, r) := Client.main (client_env m) words {| peer := node m; stdout := ""; stderr := "" |} in
  ({| cwd := cwd m; built := built m; node := peer s |}, match r with Done code => 256 * code | _ => 134 end).

#[export] Instance machine_os : Os Machine := {
  os_exe_link := λ _, Some "/opt/bin/origindb";
  os_getenv := λ name _, if bool_decide (name = "ORIGINDB_TOKEN") then Some "admin" else None;
  os_exists := λ path m, Ret (bool_decide (path = "/opt/bin/origindb_client")
    || here m && bool_decide (path = "asconfig.json") || module_file path m);
  os_cwd := λ m, Ret (cwd m);
  os_chdir := λ path m,
    if bool_decide (path = "guests") && bool_decide (cwd m = "/work")
    then Some {| cwd := "/work/guests"; built := built m; node := node m |}
    else if bool_decide (path = "/work") then Some {| cwd := "/work"; built := built m; node := node m |} else None;
  os_entries := λ _, Ret [];
  os_system := λ line m,
    if bool_decide (line = "npm run asbuild --silent") then ({| cwd := cwd m; built := true; node := node m |}, 0)
    else match split_words false None (string_chars line) with
         | Some (p :: words) => run_program p words m
         | _ => (m, 127 * 256)
         end;
  os_exec := λ _ _ _, None
}.

Lemma machine_shell p texts words (m : Machine) :
  existsb (eqc "/"%char) (string_chars p) = true → forallb safe (string_chars p) = true → Forall2 shell_word texts words →
  os_system (shell_line p texts) m = run_program p words m.
Proof.
  intros _ Hp Ht. cbn [os_system machine_os]. rewrite bool_decide_eq_false_2 by (unfold shell_line; done).
  by rewrite (split_line _ _ _ Hp Ht).
Qed.

Lemma machine_client d words (m m' : Machine) :
  run_program (path_join d "origindb_client") words m = (m', 0) →
  ∃ s, Client.main (client_env m) words {| peer := node m; stdout := ""; stderr := "" |} = (s, Done 0) ∧ node m' = peer s.
Proof.
  unfold run_program. destruct (Client.main _ _ _) as [s r]. intros [= <- Hr]. exists s. split; [|done].
  destruct r as [code| | |]; try done. do 2 f_equal. lia.
Qed.

Lemma machine_chdir d (m m' : Machine) : os_chdir d m = Some m' → node m' = node m.
Proof. cbn [os_chdir machine_os]. repeat case_match; intros; by simplify_eq. Qed.

Definition before : Terminal Machine :=
  {| world := {| cwd := "/work"; built := false; node := node0 |}; cout := ""; cerr := "" |}.
Definition publish_argv : list string := ["publish"; "--path=guests"; "--server"; "localhost:50051"].
Definition published_machine : Terminal Machine := (Cli.main publish_argv before).1.

Lemma published_run : Cli.main publish_argv before = (published_machine, Done (Exit 0)).
Proof.
  assert ((Cli.main publish_argv before).2 = Done (Exit 0)) as <- by (vm_compute; reflexivity).
  apply surjective_pairing.
Qed.
End DemoMachine.
Import DemoMachine.


(** The server of the machine serves the module, and the command is back where it was. *)
Example published_module :
  bytecode_ <$> in_service (node (world published_machine)) !! "guests" = Some (str_bytes "1.0.0")
  ∧ cwd (world published_machine) = "/work".
Proof. split; vm_compute; reflexivity. Qed.

(** A version that is an option of the client: the client prints its usage, and the
    command reports a publication that has not happened. *)
Definition not_published := Cli.main (publish_argv ++ ["--version"; "-h"]) before.
Example usage_counts_as_published :
  not_published.2 = Done (Exit 0) ∧ in_service (node (world not_published.1)) !! "guests" = None
  ∧ cout not_published.1 = text_of ([CYAN +:+ BOLD +:+ "🚀 Publishing WASM module..." +:+ RESET; "";
      "📦 Building AssemblyScript module..."; GREEN +:+ "✅ Build successful: build/module.wasm" +:+ RESET;
      "🌐 Deploying to localhost:50051"]
      ++ published "guests" {| grpc_endpoint := "localhost:50051"; project_path := "guests"; Cli.version := "-h"; token := "admin" |}).
Proof. split_and!; vm_compute; reflexivity. Qed.
