(* ===== verification/GrpcSql.v ===== *)
(** * Statements over gRPC

    What a batch of statements does: [ExecuteTransaction] is the same as one
    [Execute] call after the other, up to the query counters. *)

From S2P Require Import Prelude Table Codec RowCodec Float64 Json MemTable Txn WalStore Changefeed StorageJson Storage RowJson HostFunctions SqlEngine WasmEngine WasmLoad ModuleStore Auth GrpcServices GrpcCalls GrpcDeploy.

Section statements.
Context {W : Type} `{WA : WalApi W} `{JL : JsonLib} {ID : IndentedDump JL} {SH : Sha256} `{HO : HashOrder} `{WT : Wasmtime W}.
Abbreviation node := (Node W).
Abbreviation Rpc := (Prog (Node W)).

(** A client that sends statements in calls of their own until one fails. *)
Fixpoint execute_each (now micros : nat → Z) (i : nat) (header : option string) (statements : list string)
  : Rpc (list SQLResponse) :=
  match statements with
  | [] => mret []
  | sql :: statements =>
    '(response, _) ← Execute (now i) (micros i) header sql;
    if sql_success response then
      responses ← execute_each now micros (S i) header statements; mret (response :: responses)
    else mret [response]
  end.

(** The number of responses that succeeded, and of those that did not. *)
Definition succeeded (l : list SQLResponse) : Z := zlength (filter (λ r, sql_success r = true) l).
Definition failed (l : list SQLResponse) : Z := zlength (filter (λ r, sql_success r = false) l).

(** The counters a state gets for the responses to queries. *)
Definition counted (l : list SQLResponse) (s : node) : node := count (zlength l) (succeeded l) (failed l) s.

Lemma count_count a b c a' b' c' (s : node) : count a' b' c' (count a b c s) = count (a + a') (b + b') (c + c') s.
Proof. unfold count. simpl. by rewrite !u64_add_l, !Z.add_assoc. Qed.

Lemma zlength_S {A} (x : A) l : zlength (x :: l) = 1 + zlength l.
Proof. unfold zlength. simpl length. lia. Qed.
Lemma succeeded_cons r l : succeeded (r :: l) = (if sql_success r then 1 else 0) + succeeded l.
Proof. unfold succeeded. rewrite filter_cons. destruct (sql_success r); case_decide; try done. apply zlength_S. Qed.
Lemma failed_cons r l : failed (r :: l) = (if sql_success r then 0 else 1) + failed l.
Proof. unfold failed. rewrite filter_cons. destruct (sql_success r); case_decide; try done. apply zlength_S. Qed.

(** The counters play no part in a statement. *)
Lemma run_sql_count now sql a b c (s : node) :
  run_sql now sql (count a b c s) = (count a b c (run_sql now sql s).1, (run_sql now sql s).2).
Proof. unfold run_sql. simpl. destruct (WasmEngine.storage_ _) as [st|]; [|done]. by destruct (SqlEngine.Execute _ _ _ _ _). Qed.

(** One call, counted as a success or a failure. *)
Lemma Execute_counts now micros header sql a b c (s s1 : node) result :
  CheckAuth (auth_ s) header ADMIN = Auth.OK → run_sql now sql s = (s1, Done result) →
  let response := ConvertSqlResultToProto result micros in
  Execute now micros header sql (count a b c s) =
  (count (a + 1) (b + succeeded [response]) (c + failed [response]) s1, Done (response, StatusOK)).
Proof.
  intros Ha Hrun response. unfold Execute. rewrite authorized_granted by exact Ha.
  rewrite (host_bind_done _ _ _ (count (a + 1) (b + 0) (c + 0) s) tt) by (by rewrite <- count_count).
  unfold try_catch, mbind, Prog_bind. rewrite run_sql_count, Hrun. unfold modify_state.
  rewrite succeeded_cons, failed_cons. unfold response. cbn [sql_success ConvertSqlResultToProto fst snd]. unfold mret, Prog_ret.
  change (succeeded []) with 0. change (failed []) with 0.
  destruct (SqlEngine.success result); rewrite count_count; do 2 f_equal; lia.
Qed.

(** Statement by statement, the loop of a transaction is a sequence of calls. *)
Lemma statements_are_calls now micros header l : ∀ i a b c (s s' : node) rs error,
  CheckAuth (auth_ s) header ADMIN = Auth.OK →
  execute_statements now micros i l s = (s', Done (rs, error)) →
  execute_each now micros i header l (count a b c s) =
  (count (a + zlength rs) (b + succeeded rs) (c + failed rs) s', Done rs).
Proof.
  induction l as [|sql l IH]; intros i a b c s s' rs error Ha Hrun; cbn [execute_statements execute_each] in *.
  - injection Hrun as <- <- _. by rewrite !Z.add_0_r.
  - apply host_bind_inv in Hrun as (s1 & result & H1 & Hrun). cbv zeta in Hrun.
  rewrite (host_bind_done _ _ _ _ _ (Execute_counts (now i) (micros i) header sql a b c s s1 result Ha H1)).
  assert (Ha1 : CheckAuth (auth_ s1) header ADMIN = Auth.OK).
  { pose proof (same_auth_run_sql (now i) sql s) as H. rewrite H1 in H. unfold same_auth in H. cbn [fst] in H. by rewrite <- H. }
  cbn [sql_success ConvertSqlResultToProto]. destruct (SqlEngine.success result) eqn:Es.
  + apply host_bind_inv in Hrun as (s2 & [rest err] & H2 & Hrun). injection Hrun as <- <- <-.
    rewrite (host_bind_done _ _ _ _ _ (IH _ _ _ _ _ _ _ _ Ha1 H2)).
    rewrite !(succeeded_cons _ rest), !(failed_cons _ rest), !succeeded_cons, !failed_cons, zlength_S.
    cbn [sql_success ConvertSqlResultToProto]. rewrite Es. change (succeeded []) with 0. change (failed []) with 0. unfold mret, Prog_ret. do 2 f_equal; lia.
  + injection Hrun as <- <- <-. done.
Qed.

(** Where the loop stops. *)
Definition stops_at (l : list string) (rs : list SQLResponse) (error : option string) : Prop :=
  match error with
  | None => length rs = length l ∧ Forall (λ r, sql_success r = true) rs
  | Some what => ∃ before sql after good bad,
    l = before ++ sql :: after ∧ rs = good ++ [bad] ∧ length good = length before ∧
    Forall (λ r, sql_success r = true) good ∧ sql_success bad = false ∧
    what = "Statement failed: " +:+ sql +:+ " - " +:+ sql_error bad
  end.

Lemma execute_statements_stops now micros l : ∀ i (s s' : node) rs error,
  execute_statements now micros i l s = (s', Done (rs, error)) → stops_at l rs error.
Proof.
  induction l as [|sql l IH]; intros i s s' rs error Hrun; cbn [execute_statements] in *.
  - injection Hrun as _ <- <-. done.
  - apply host_bind_inv in Hrun as (s1 & result & H1 & Hrun). cbv zeta in Hrun.
  destruct (SqlEngine.success result) eqn:Es.
  + apply host_bind_inv in Hrun as (s2 & [rest err] & H2 & Hrun). injection Hrun as _ <- <-.
    apply IH in H2. destruct err as [what|]; simpl in *.
    * destruct H2 as (before & q & after & good & bad & -> & -> & Hl & Hg & H). exists (sql :: before), q, after.
      eexists (_ :: good), bad. split_and!; [done|done|simpl; lia|by constructor|apply H..].
    * destruct H2. split; [lia|by constructor].
  + injection Hrun as _ <- <-. exists [], sql, l, []. eexists. split_and!; try done.
Qed.

(** The counters are 64 bits wide. *)
Definition counters_fit (s : node) : Prop :=
  is_u 64 (total_queries_ s) ∧ is_u 64 (successful_queries_ s) ∧ is_u 64 (failed_queries_ s).

Lemma count_0 (s : node) : counters_fit s → count 0 0 0 s = s.
Proof.
  intros (H1 & H2 & H3). destruct s. unfold count. simpl in *. rewrite !Z.add_0_r. f_equal; by apply u64_small.
Qed.

(** C23.  A transaction over gRPC is no more than its statements in calls of
  their own.  When [ExecuteTransaction] answers, a client that had sent the
  statements to [Execute] one by one, until the first that fails, would have got
  the same responses and left the same tables, log, changefeed, modules and
  tokens; only the query counters differ, which count the calls and not the
  statements of a transaction.  It answers success exactly when every statement
  succeeded, and else the responses up to the first that failed, with its error:
  what the statements before it wrote stays. *)
Theorem transaction_is_calls txn now micros header statements (s s' : node) resp status
  (Ha : CheckAuth (auth_ s) header ADMIN = Auth.OK) (Hc : counters_fit s)
  (Hrun : ExecuteTransaction txn now micros header statements s = (s', Done (resp, status))) :
  let rs := txn_results resp in
  execute_each now micros 0 header statements s = (counted rs s', Done rs) ∧
  stops_at statements rs (if txn_success resp then None else Some (txn_error resp)) ∧
  (txn_success resp = true → txn_error resp = "") ∧ transaction_id resp = txn ∧ status = StatusOK.
Proof.
  unfold ExecuteTransaction in Hrun. rewrite authorized_granted in Hrun by done.
  apply host_bind_inv in Hrun as (s1 & [rs error] & H1 & Hrun). injection Hrun as <- <- <-. cbn [txn_results].
  split; [|split].
  - rewrite <- (count_0 s Hc) at 1. rewrite (statements_are_calls _ _ _ _ _ 0 0 0 _ _ _ _ Ha H1). done.
  - apply execute_statements_stops in H1. cbn [txn_success txn_error]. by destruct error.
  - cbn. by destruct error.
Qed.
End statements.

(** ** A concrete transaction *)

Module DemoTransaction.
Export DemoNode.

(** Its second statement asks for a table that does not exist. *)
Definition statements : list string :=
  ["INSERT INTO users (id) VALUES ('c')"; "SELECT * FROM nowhere"; "INSERT INTO users (id) VALUES ('d')"].
Definition clock (n : nat) : Z := Z.of_nat n + 10.
Definition ran := ExecuteTransaction 99 clock clock admin statements node0.

(** The keys of the table "users". *)
Definition keys (s : Node WalHost) : list string :=
  match WasmEngine.storage_ (wasm_engine_ s) with
  | Some st => match tables_ st !! "users" with Some t => (map_iter (rows_ t)).*1 | None => [] end
  | None => []
  end.

Lemma ran_failed : ∃ resp, ran = (ran.1, Done (resp, StatusOK)) ∧ txn_success resp = false ∧ zlength (txn_results resp) = 2.
Proof.
  assert (match ran.2 with
          | Done (resp, StatusOK) => txn_success resp = false ∧ zlength (txn_results resp) = 2
          | _ => False end) as H
    by (vm_compute; split; reflexivity).
  destruct ran as [s [[resp []]| | |]]; try destruct H. by exists resp.
Qed.
End DemoTransaction.
Import DemoTransaction.

Lemma transaction_is_calls_witness :
  ∃ resp, ran = (ran.1, Done (resp, StatusOK)) ∧
    execute_each clock clock 0 admin statements node0 = (counted (txn_results resp) ran.1, Done (txn_results resp)).
Proof.
  destruct ran_failed as (resp & E & _). exists resp. split; [exact E|].
  apply (transaction_is_calls 99 clock clock admin statements node0 ran.1 resp StatusOK);
    [vm_compute; reflexivity|unfold counters_fit; vm_compute; intuition discriminate|exact E].
Defined.

(** The transaction failed, and the row of its first statement is there. *)
Example failed_transaction_keeps_row : keys node0 = ["a"; "b"] ∧ keys ran.1 = ["a"; "b"; "c"].
Proof. vm_compute. split; reflexivity. Qed.
