(* ===== verification/Config.v ===== *)
(** * Configuration (include/common/config.h, src/common/config.cpp)

    The configuration records with their defaults, and [ParseCommandLine] on
    the arguments after the program's name. *)

From S2P Require Import Prelude WalWriter.

(** ** The records *)

Record StorageConfig := {
  data_dir : string;
  max_memory_bytes : Z;
  wal_buffer_size : Z;
  storage_snapshot_interval : Z;
  sync_wal : bool;
  sync_mode : SyncMode;
  group_commit_window_us : Z;
  page_size : Z;
  checkpoint_enabled : bool;
  checkpoint_wal_bytes : Z;
  checkpoint_interval_sec : Z;
  checkpoint_poll_sec : Z
}.
Definition default_StorageConfig : StorageConfig :=
  {| data_dir := "./data"; max_memory_bytes := 4 * 1024 * 1024 * 1024; wal_buffer_size := 64 * 1024 * 1024;
     storage_snapshot_interval := 10000; sync_wal := true; sync_mode := SyncFsync; group_commit_window_us := 0;
     page_size := 4096; checkpoint_enabled := true; checkpoint_wal_bytes := 256 * 1024 * 1024;
     checkpoint_interval_sec := 300; checkpoint_poll_sec := 5 |}.

Record RaftConfig := {
  raft_node_id : string;
  cluster_id : string;
  raft_listen_address : string;
  peer_addresses : list string;
  election_timeout_ms : Z;
  heartbeat_interval_ms : Z;
  raft_snapshot_interval : Z;
  max_log_entries : Z;
  log_dir : string
}.
Definition default_RaftConfig : RaftConfig :=
  {| raft_node_id := ""; cluster_id := "origindb-cluster"; raft_listen_address := "0.0.0.0:9001";
     peer_addresses := []; election_timeout_ms := 3000; heartbeat_interval_ms := 1000;
     raft_snapshot_interval := 10000; max_log_entries := 1000000; log_dir := "" |}.

Record WasmConfig := {
  max_instances : Z;
  instance_memory_limit : Z;
  max_execution_time_ns : Z;
  instance_pool_size : Z;
  enable_cache : bool;
  cache_size : Z
}.
Definition default_WasmConfig : WasmConfig :=
  {| max_instances := 100; instance_memory_limit := 256 * 1024 * 1024; max_execution_time_ns := 5000000000;
     instance_pool_size := 10; enable_cache := true; cache_size := 100 |}.

Record ModuleConfig := {
  module_dir : string;
  verify_signatures : bool;
  max_module_size : Z;
  auto_install : bool
}.
Definition default_ModuleConfig : ModuleConfig :=
  {| module_dir := ""; verify_signatures := false; max_module_size := 50 * 1024 * 1024; auto_install := false |}.

Record GrpcConfig := {
  grpc_listen_address : string;
  grpc_max_message_size : Z;
  num_threads : Z;
  use_tls : bool;
  tls_cert : string;
  tls_key : string
}.
Definition default_GrpcConfig : GrpcConfig :=
  {| grpc_listen_address := "0.0.0.0:50051"; grpc_max_message_size := 100 * 1024 * 1024; num_threads := 4;
     use_tls := false; tls_cert := ""; tls_key := "" |}.

Record WebSocketConfig := {
  ws_listen_address : string;
  max_connections : Z;
  ws_max_message_size : Z;
  ping_interval_ms : Z;
  ws_timeout_ms : Z
}.
Definition default_WebSocketConfig : WebSocketConfig :=
  {| ws_listen_address := "0.0.0.0:8080"; max_connections := 10000; ws_max_message_size := 1024 * 1024;
     ping_interval_ms := 30000; ws_timeout_ms := 60000 |}.

Record ChangefeedConfig := {
  cf_buffer_size : Z;
  retention_ms : Z;
  cf_max_lag_entries : Z;
  persist_offsets : bool;
  delivery_batch_size : Z;
  cf_delivery_threads : Z
}.
Definition default_ChangefeedConfig : ChangefeedConfig :=
  {| cf_buffer_size := 10000; retention_ms := 86400000; cf_max_lag_entries := 100000; persist_offsets := true;
     delivery_batch_size := 100; cf_delivery_threads := 0 |}.

Record MetricsConfig := { metrics_listen_address : string; metrics_enabled : bool; collection_interval_ms : Z }.
Definition default_MetricsConfig : MetricsConfig :=
  {| metrics_listen_address := "0.0.0.0:9090"; metrics_enabled := true; collection_interval_ms := 10000 |}.

(** The levels of the logging library. *)
Inductive level := trace | debug | info | warn | err | critical | off.

Record LoggingConfig := { log_level : level; log_file : string; max_file_size : Z; max_files : Z }.
Definition default_LoggingConfig : LoggingConfig :=
  {| log_level := info; log_file := ""; max_file_size := 100 * 1024 * 1024; max_files := 10 |}.

Record AuthConfig := { auth_enabled : bool; admin_token : string; client_token : string }.
Definition default_AuthConfig : AuthConfig := {| auth_enabled := true; admin_token := ""; client_token := "" |}.

Record TickConfig := {
  module_prefix : string;
  tick_count : Z;
  tick_reducer : string;
  tick_hz : Z;
  tick_substeps : Z;
  tick_threads : Z
}.
Definition default_TickConfig : TickConfig :=
  {| module_prefix := ""; tick_count := 0; tick_reducer := "tick"; tick_hz := 60; tick_substeps := 1; tick_threads := 0 |}.

Record ServerConfig := {
  node_id : string;
  storage : StorageConfig;
  raft : RaftConfig;
  wasm : WasmConfig;
  modules : ModuleConfig;
  grpc : GrpcConfig;
  websocket : WebSocketConfig;
  changefeed : ChangefeedConfig;
  metrics : MetricsConfig;
  logging : LoggingConfig;
  auth : AuthConfig;
  tick : TickConfig
}.
Definition default_ServerConfig : ServerConfig :=
  {| node_id := ""; storage := default_StorageConfig; raft := default_RaftConfig; wasm := default_WasmConfig;
     modules := default_ModuleConfig; grpc := default_GrpcConfig; websocket := default_WebSocketConfig;
     changefeed := default_ChangefeedConfig; metrics := default_MetricsConfig; logging := default_LoggingConfig;
     auth := default_AuthConfig; tick := default_TickConfig |}.

(** ** Assignments *)

Definition set_node_id (v : string) (c : ServerConfig) : ServerConfig :=
  let '(Build_ServerConfig _ s r w m g ws cf me l a t) := c in Build_ServerConfig v s r w m g ws cf me l a t.
Definition with_storage (f : StorageConfig → StorageConfig) (c : ServerConfig) : ServerConfig :=
  let '(Build_ServerConfig n s r w m g ws cf me l a t) := c in Build_ServerConfig n (f s) r w m g ws cf me l a t.
Definition with_raft (f : RaftConfig → RaftConfig) (c : ServerConfig) : ServerConfig :=
  let '(Build_ServerConfig n s r w m g ws cf me l a t) := c in Build_ServerConfig n s (f r) w m g ws cf me l a t.
Definition with_modules (f : ModuleConfig → ModuleConfig) (c : ServerConfig) : ServerConfig :=
  let '(Build_ServerConfig n s r w m g ws cf me l a t) := c in Build_ServerConfig n s r w (f m) g ws cf me l a t.
Definition with_grpc (f : GrpcConfig → GrpcConfig) (c : ServerConfig) : ServerConfig :=
  let '(Build_ServerConfig n s r w m g ws cf me l a t) := c in Build_ServerConfig n s r w m (f g) ws cf me l a t.
Definition with_websocket (f : WebSocketConfig → WebSocketConfig) (c : ServerConfig) : ServerConfig :=
  let '(Build_ServerConfig n s r w m g ws cf me l a t) := c in Build_ServerConfig n s r w m g (f ws) cf me l a t.
Definition with_logging (f : LoggingConfig → LoggingConfig) (c : ServerConfig) : ServerConfig :=
  let '(Build_ServerConfig n s r w m g ws cf me l a t) := c in Build_ServerConfig n s r w m g ws cf me (f l) a t.
Definition with_auth (f : AuthConfig → AuthConfig) (c : ServerConfig) : ServerConfig :=
  let '(Build_ServerConfig n s r w m g ws cf me l a t) := c in Build_ServerConfig n s r w m g ws cf me l (f a) t.
Definition with_tick (f : TickConfig → TickConfig) (c : ServerConfig) : ServerConfig :=
  let '(Build_ServerConfig n s r w m g ws cf me l a t) := c in Build_ServerConfig n s r w m g ws cf me l a (f t).

Definition set_data_dir (v : string) : ServerConfig → ServerConfig := with_storage (λ '(Build_StorageConfig _ b c d e f g h i j k l),
  Build_StorageConfig v b c d e f g h i j k l).
Definition set_raft_node_id (v : string) : ServerConfig → ServerConfig :=
  with_raft (λ '(Build_RaftConfig _ b c d e f g h i), Build_RaftConfig v b c d e f g h i).
Definition set_log_dir (v : string) : ServerConfig → ServerConfig :=
  with_raft (λ '(Build_RaftConfig a b c d e f g h _), Build_RaftConfig a b c d e f g h v).
Definition push_peer (v : string) : ServerConfig → ServerConfig :=
  with_raft (λ '(Build_RaftConfig a b c d e f g h i), Build_RaftConfig a b c (d ++ [v]) e f g h i).
Definition set_grpc_address (v : string) : ServerConfig → ServerConfig :=
  with_grpc (λ '(Build_GrpcConfig _ b c d e f), Build_GrpcConfig v b c d e f).
Definition set_ws_address (v : string) : ServerConfig → ServerConfig :=
  with_websocket (λ '(Build_WebSocketConfig _ b c d e), Build_WebSocketConfig v b c d e).
Definition set_module_dir (v : string) : ServerConfig → ServerConfig :=
  with_modules (λ '(Build_ModuleConfig _ b c d), Build_ModuleConfig v b c d).

(** ** The command line *)

(** A stub: no file is read. *)
Definition LoadConfigFile (path : string) (c : ServerConfig) : bool * ServerConfig := (true, c).

(** What follows the loop; [now] is [std::time]. *)
Definition fill_defaults (now : Z) (c : ServerConfig) : ServerConfig :=
  let c := if bool_decide (node_id c = "") then
             let id := "node-" +:+ pretty now in set_raft_node_id id (set_node_id id c) else c in
  let c := if bool_decide (log_dir (raft c) = "") then set_log_dir (data_dir (storage c) +:+ "/raft") c else c in
  set_module_dir (data_dir (storage c) +:+ "/modules") c.

(** An option with its value. *)
Definition apply_option (arg value : string) : option (ServerConfig → ServerConfig) :=
  if bool_decide (arg = "--node-id") then Some (λ c, set_raft_node_id value (set_node_id value c))
  else if bool_decide (arg = "--data-dir") then Some (λ c, set_log_dir (value +:+ "/raft") (set_data_dir value c))
  else if bool_decide (arg = "--grpc-addr") then Some (set_grpc_address value)
  else if bool_decide (arg = "--ws-addr") then Some (set_ws_address value)
  else if bool_decide (arg = "--join") then Some (push_peer value)
  else None.

Definition is_help (arg : string) : bool := bool_decide (arg = "--help") || bool_decide (arg = "-h").

Fixpoint ParseCommandLine (now : Z) (args : list string) (c : ServerConfig) : bool * ServerConfig :=
  match args with
  | [] => (true, fill_defaults now c)
  | arg :: rest =>
      match rest with
      | value :: rest' =>
          if bool_decide (arg = "--config") then LoadConfigFile value c
          else match apply_option arg value with
          | Some f => ParseCommandLine now rest' (f c)
          | None => if is_help arg then (false, c) else ParseCommandLine now rest c
          end
      | [] => if is_help arg then (false, c) else ParseCommandLine now rest c
      end
  end.

(** Everything after "--config" is ignored, and so are the defaults. *)
Example config_stops_parsing :
  let r := ParseCommandLine 7 ["--config"; "origindb.conf"; "--data-dir"; "/data"] default_ServerConfig in
  r = (true, default_ServerConfig) ∧ module_dir (modules r.2) = "".
Proof. done. Qed.

(** An option without its value is skipped, as unknown ones are. *)
Example missing_value_ignored :
  (ParseCommandLine 7 ["--unknown"; "--node-id"] default_ServerConfig).1 = true
  ∧ node_id (ParseCommandLine 7 ["--unknown"; "--node-id"] default_ServerConfig).2 = "node-7".
Proof. done. Qed.

(** ** What a complete command line yields *)

(** Printing options. *)
Inductive option_ := NodeId (v : string) | DataDir (v : string) | GrpcAddr (v : string) | WsAddr (v : string) | Join (v : string).

Definition show_option (o : option_) : list string :=
  match o with
  | NodeId v => ["--node-id"; v]
  | DataDir v => ["--data-dir"; v]
  | GrpcAddr v => ["--grpc-addr"; v]
  | WsAddr v => ["--ws-addr"; v]
  | Join v => ["--join"; v]
  end.
Definition option_effect (o : option_) : ServerConfig → ServerConfig :=
  match o with
  | NodeId v => λ c, set_raft_node_id v (set_node_id v c)
  | DataDir v => λ c, set_log_dir (v +:+ "/raft") (set_data_dir v c)
  | GrpcAddr v => set_grpc_address v
  | WsAddr v => set_ws_address v
  | Join v => push_peer v
  end.

(** Without "--config", options take effect in order, whatever their values. *)
Theorem ParseCommandLine_options now options c :
  ParseCommandLine now (concat (show_option <$> options)) c
  = (true, fill_defaults now (foldl (λ c o, option_effect o c) c options)).
Proof. revert c. induction options as [|[] options IH]; intros c; [done|apply IH..]. Qed.
