(* ===== verification/Server.v ===== *)
(** * The server process (src/cmd/origindb_server.cpp, [OriginDBServer])

    Start-up creates the components in order, each with a share in those
    before; here a shared component is inside the one that uses it: the
    changefeed in the storage engine, that in the WebAssembly engine, that in
    its subscription manager, and this in the WebSocket server.  [created] are
    the pointers that are set.  What the machine decides (files, ports, clocks)
    is the argument [world]; an exception is [Escaped], an abort [Trapped].
    The setters, [Start] and [Stop] of the WebSocket server and [Start] and
    [Stop] of the gRPC server are here, where they are called. *)

From Stdlib Require Import Strings.Ascii.
From S2P Require Import Prelude Table Codec RowCodec Float64 Json MemTable Txn WalWriter WalStore Changefeed StorageJson Storage RowJson HostFunctions SqlEngine WasmEngine WasmSub Tick ModuleStore Auth Regex StdNumbers SqlSub WsServer GrpcServices Config.

(** ** State *)

Inductive component :=
| AUTH | STORAGE | CHANGEFEED | SQL | WASM | MODULES | WASM_SUBS | SQL_SUBS | WEBSOCKET | GRPC | TICK.

#[export] Instance component_eq_dec : EqDecision component.
Proof. solve_decision. Defined.

Record OriginDBServer (W : Type) := {
  shutdown_requested_ : bool;
  created : list component;
  stopped : list component;
  web_ : WsServer.Server W;
  ws_running_ : bool;
  grpc_running_ : bool;
  store_ : option ModuleStore;
  store_disk : disk;
  auth_files : gmap string bytes;
  tick_scheduler_ : option TickScheduler
}.
Arguments shutdown_requested_ {W} _.
Arguments created {W} _.
Arguments stopped {W} _.
Arguments web_ {W} _.
Arguments ws_running_ {W} _.
Arguments grpc_running_ {W} _.
Arguments store_ {W} _.
Arguments store_disk {W} _.
Arguments auth_files {W} _.
Arguments tick_scheduler_ {W} _.

(** What start-up meets: the data directory (the log, the snapshot file, the
    modules and the tokens), the outcomes of the operations on it and of binding
    the two ports, the clock and the number of processors. *)
Record world (W : Type) := {
  w_now : Z;
  w_wal : W;
  w_wal_opens : bool;
  w_snapshot : option string;
  w_auth_io : init_io;
  w_modules_create_ok : bool;
  w_modules_list_ok : bool;
  w_hardware_concurrency : Z;
  w_ws_socket : bool;
  w_ws_setsockopt : bool;
  w_ws_bind : bool;
  w_ws_listen : bool;
  w_file : string → string;
  w_grpc_built : exc bool
}.
Arguments w_now {W} _.
Arguments w_wal {W} _.
Arguments w_wal_opens {W} _.
Arguments w_snapshot {W} _.
Arguments w_auth_io {W} _.
Arguments w_modules_create_ok {W} _.
Arguments w_modules_list_ok {W} _.
Arguments w_hardware_concurrency {W} _.
Arguments w_ws_socket {W} _.
Arguments w_ws_setsockopt {W} _.
Arguments w_ws_bind {W} _.
Arguments w_ws_listen {W} _.
Arguments w_file {W} _.
Arguments w_grpc_built {W} _.

(** ** Addresses *)

(** [find_last_of(':')] and what follows it. *)
Fixpoint after_last_colon (l : chars) : option chars :=
  match l with
  | [] => None
  | c :: l => match after_last_colon l with
              | Some r => Some r
              | None => if eqc c ":"%char then Some l else None
              end
  end.

Definition stoi (s : string) : exc Z :=
  match stoll s with
  | Some n => if decide (is_i 32 n) then Ret n else Throw "stoi"
  | None => Throw "stoi"
  end.

(** The port of an address, cut to 16 bits. *)
Definition port_of (address : string) : exc Z :=
  match after_last_colon (string_chars address) with
  | None => Ret 8080
  | Some port => n ← stoi (chars_string port); Ret (n mod 2 ^ 16)
  end.

Section server.
Context {W : Type} `{WA : WalApi W} `{JL : JsonLib} {ID : IndentedDump JL} {SH : Sha256} `{HO : HashOrder} `{WT : Wasmtime W}.
Abbreviation server := (OriginDBServer W).
Abbreviation Srv := (Prog (OriginDBServer W)).

Definition with_web (f : WsServer.Server W → WsServer.Server W) (s : server) : server :=
  let '(Build_OriginDBServer _ r c st w wr gr ms d a t) := s in Build_OriginDBServer W r c st (f w) wr gr ms d a t.
Definition create (x : component) (s : server) : server :=
  let '(Build_OriginDBServer _ r c st w wr gr ms d a t) := s in Build_OriginDBServer W r (c ++ [x]) st w wr gr ms d a t.
Definition stop (x : component) (s : server) : server :=
  let '(Build_OriginDBServer _ r c st w wr gr ms d a t) := s in Build_OriginDBServer W r c (st ++ [x]) w wr gr ms d a t.
Definition set_listening (ws grpc : bool) (s : server) : server :=
  let '(Build_OriginDBServer _ r c st w _ _ ms d a t) := s in Build_OriginDBServer W r c st w ws grpc ms d a t.
Definition set_store (ms : option ModuleStore) (d : disk) (s : server) : server :=
  let '(Build_OriginDBServer _ r c st w wr gr _ _ a t) := s in Build_OriginDBServer W r c st w wr gr ms d a t.
Definition set_auth_files (a : gmap string bytes) (s : server) : server :=
  let '(Build_OriginDBServer _ r c st w wr gr ms d _ t) := s in Build_OriginDBServer W r c st w wr gr ms d a t.
Definition set_tick (t : option TickScheduler) (s : server) : server :=
  let '(Build_OriginDBServer _ r c st w wr gr ms d a _) := s in Build_OriginDBServer W r c st w wr gr ms d a t.
Definition RequestShutdown (s : server) : server :=
  let '(Build_OriginDBServer _ _ c st w wr gr ms d a t) := s in Build_OriginDBServer W true c st w wr gr ms d a t.

(** The constructor: nothing exists yet but the files. *)
Definition new_OriginDBServer (d : disk) (tokens : gmap string bytes) : server :=
  {| shutdown_requested_ := false; created := []; stopped := [];
   web_ := {| wasm_ := WasmSub.new_Manager (new_WasmEngine None false); has_wasm_manager := false; has_wasm_engine := false;
              has_sql_engine := false; has_storage_engine := false; sql_manager_ := None; WsServer.auth_ := None;
              active_clients_ := []; client_ids_ := ∅; sent_ := []; closed_ := [] |};
   ws_running_ := false; grpc_running_ := false; store_ := None; store_disk := d; auth_files := tokens;
   tick_scheduler_ := None |}.

Definition engine_of (s : server) : WasmEngine W := engine (wasm_ (web_ s)).
Definition set_engine_of (e : WasmEngine W) : server → server :=
  with_web (λ w, WsServer.set_wasm (WasmSub.set_engine e (wasm_ w)) w).
(** Calls of the manager of modules' subscriptions and of the engine. *)
Definition on_manager {A} (p : Prog (WasmSub.Manager W) A) : Srv A := λ s,
  let '(m, r) := p (wasm_ (web_ s)) in (with_web (WsServer.set_wasm m) s, r).
Definition on_engine {A} (p : Prog (WasmEngine W) A) : Srv A := λ s,
  let '(e, r) := p (engine_of s) in (set_engine_of e s, r).

(** ** The WebSocket server *)

Definition set_flags (manager wasm sql storage : bool) (sqlm : option SqlSub.Manager) (auth : option AuthManager)
  (w : WsServer.Server W) : WsServer.Server W :=
  {| wasm_ := wasm_ w; has_wasm_manager := manager; has_wasm_engine := wasm; has_sql_engine := sql;
   has_storage_engine := storage; sql_manager_ := sqlm; WsServer.auth_ := auth; active_clients_ := active_clients_ w;
   client_ids_ := client_ids_ w; sent_ := sent_ w; closed_ := closed_ w |}.

(** The callbacks of the two global subscriptions. *)
Definition wasm_callback : nat := 0.
Definition websocket_callback : nat := 1.

Definition SetChangefeedEngine (now : Z) : Srv () :=
  sub ← on_manager (on_changefeed (Changefeed.CreateSubscription now
        {| table_pattern := "*"; sql_where_clause := ""; f_columns := [] |} 0 AT_LEAST_ONCE));
  on_manager (on_changefeed (λ c, (Changefeed.Subscribe sub websocket_callback c, ()))).
Definition SetWasmSubscriptionManager : server → server :=
  with_web (λ w, set_flags true (has_wasm_engine w) (has_sql_engine w) (has_storage_engine w) (sql_manager_ w) (WsServer.auth_ w)
                 (WsServer.set_wasm (SetSubscriptionCallback true (wasm_ w)) w)).
Definition SetSqlSubscriptionManager (m : SqlSub.Manager) : server → server :=
  with_web (λ w, set_flags (has_wasm_manager w) (has_wasm_engine w) (has_sql_engine w) (has_storage_engine w) (Some m) (WsServer.auth_ w) w).
Definition SetSqlEngine : server → server :=
  with_web (λ w, set_flags (has_wasm_manager w) (has_wasm_engine w) true (has_storage_engine w) (sql_manager_ w) (WsServer.auth_ w) w).
Definition SetStorageEngine : server → server :=
  with_web (λ w, set_flags (has_wasm_manager w) (has_wasm_engine w) (has_sql_engine w) true (sql_manager_ w) (WsServer.auth_ w) w).
Definition SetWasmEngine : server → server :=
  with_web (λ w, set_flags (has_wasm_manager w) true (has_sql_engine w) (has_storage_engine w) (sql_manager_ w) (WsServer.auth_ w) w).
Definition SetAuthManager (auth : option AuthManager) : server → server :=
  with_web (λ w, set_flags (has_wasm_manager w) (has_wasm_engine w) (has_sql_engine w) (has_storage_engine w) (sql_manager_ w) auth w).

(** [WebSocketServer::Start]: a socket, its option, its port, its queue. *)
Definition StartWebSocket (w : world W) : Srv bool :=
  if negb (w_ws_socket w && w_ws_setsockopt w && w_ws_bind w && w_ws_listen w) then mret false else
  _ ← modify_state (λ s, set_listening true (grpc_running_ s) s); mret true.

(** [GrpcServer::Start]: with both files named, they must not be empty. *)
Definition StartGrpc (w : world W) (cert_path key_path : string) : Srv bool := λ s,
  if grpc_running_ s then (s, Done true) else
  if negb (bool_decide (cert_path = "")) && negb (bool_decide (key_path = ""))
   && (bool_decide (w_file w cert_path = "") || bool_decide (w_file w key_path = "")) then (s, Done false) else
  match w_grpc_built w with
  | Ret true => (set_listening (ws_running_ s) true s, Done true)
  | _ => (s, Done false)
  end.

(** ** Start-up *)

Definition init_auth (w : world W) (config : ServerConfig) : Srv bool := λ s,
  if negb (auth_enabled (auth config)) then (s, Done true) else
  let '(m, files, r) := Auth.Initialize (w_auth_io w)
                        (new_AuthManager (admin_token (auth config)) (client_token (auth config))) (auth_files s) in
  let s := with_web (λ w, set_flags (has_wasm_manager w) (has_wasm_engine w) (has_sql_engine w) (has_storage_engine w)
                          (sql_manager_ w) (Some m) w) (set_auth_files files (create AUTH s)) in
  match r with
  | Returned b => (s, Done b)
  | Threw what => (s, Escaped what)
  | Aborted => (s, Trapped "abort")
  end.

(** The storage engine; opening the log may fail. *)
Definition init_storage (w : world W) : Srv bool := λ s,
  let s := create STORAGE s in
  if negb (w_wal_opens w) then (s, Done false) else
  let '(st, r) := Storage.Initialize (w_now w) (new_StorageEngine (w_wal w) (w_snapshot w)) in
  lift_exc r (set_engine_of (WasmEngine.set_store (Some st) 0 (engine_of s)) s).

(** The changefeed, started and linked to the storage engine. *)
Definition init_changefeed (w : world W) (config : ServerConfig) : Srv () := λ s,
  let s := create CHANGEFEED s in
  match WasmEngine.storage_ (engine_of s) with
  | None => (s, HostFunctions.Undefined)
  | Some st =>
    let cf := (Changefeed.Start (w_hardware_concurrency w)
                 (new_Changefeed {| buffer_size := cf_buffer_size (changefeed config);
                                    Changefeed.max_lag_entries := cf_max_lag_entries (changefeed config);
                                    delivery_threads := cf_delivery_threads (changefeed config) |})).1 in
    (set_engine_of (WasmEngine.set_store (Some (Storage.SetChangefeedEngine (Some cf) st)) 0 (engine_of s)) s, Done ())
  end.

Definition init_wasm (config : ServerConfig) : Srv bool := λ s,
  let s := create WASM s in
  let e0 := new_WasmEngine (WasmEngine.storage_ (engine_of s)) true in
  let e1 := SetMemoryLimitMB (u32 (Z.quot (instance_memory_limit (wasm config)) (1024 * 1024)))
            (SetTimeoutMs (u32 (Z.quot (max_execution_time_ns (wasm config)) 1000000)) e0) in
  let '(e, b) := WasmEngine.Initialize e1 in (set_engine_of e s, Done b).

(** [ModuleCapabilities{}], the default argument of [LoadModule]. *)
Definition default_capabilities : ModuleCapabilities :=
  {| allowed_tables := []; read_only := false; max_memory_mb := 0; cap_timeout_ms := 0 |}.

(** The loop over the stored modules: whether each was loaded. *)
Fixpoint restore_modules (now : Z) (st : ModuleStore) (d : disk) (l : list StoredModuleInfo) : Prog (WasmEngine W) () :=
  match l with
  | [] => mret ()
  | m :: l =>
    match LoadBytecode (name m) st d with
    | inl _ => restore_modules now st d l
    | inr bytes =>
        _ ← LoadModule now (name m) bytes (ModuleStore.version m) default_capabilities;
        restore_modules now st d l
    end
  end.

Definition init_modules (w : world W) (config : ServerConfig) : Srv () :=
  _ ← modify_state (create MODULES);
  s ← get_state;
  let '(st, r) := ModuleStore.Initialize (w_modules_create_ok w) (w_modules_list_ok w) (store_disk s)
                  (new_ModuleStore (path_append (data_dir (storage config)) "modules")) in
  _ ← modify_state (set_store (Some st) (store_disk s));
  ok ← lift_exc r;
  if ok : bool then on_engine (restore_modules (w_now w) st (store_disk s) (List_ st)) else mret ().

Definition init_wasm_subs (w : world W) : Srv bool :=
  _ ← modify_state (create WASM_SUBS);
  _ ← on_manager (WasmSub.Initialize (w_now w) wasm_callback);
  on_manager (λ m, let '(m, b) := WasmSub.Start m in (m, Done b)).

Definition init_websocket (w : world W) (config : ServerConfig) : Srv bool :=
  port ← lift_exc (port_of (ws_listen_address (websocket config)));
  _ ← modify_state (create WEBSOCKET);
  _ ← SetChangefeedEngine (w_now w);
  _ ← modify_state SetWasmSubscriptionManager;
  _ ← modify_state (SetSqlSubscriptionManager SqlSub.new_Manager);
  _ ← modify_state SetSqlEngine;
  _ ← modify_state SetStorageEngine;
  _ ← modify_state SetWasmEngine;
  s ← get_state;
  _ ← modify_state (SetAuthManager (if decide (AUTH ∈ created s) then WsServer.auth_ (web_ s) else None));
  StartWebSocket w.

Definition init_grpc (w : world W) (config : ServerConfig) : Srv bool :=
  _ ← modify_state (create GRPC);
  StartGrpc w (tls_cert (grpc config)) (tls_key (grpc config)).

(** The loop over the shards. *)
Fixpoint tick_entries (now : Z) (config : TickConfig) (hz : Z) (reducer : string) (e : WasmEngine W) (n : nat) (idx : Z)
  (es : list Runtime) : list Runtime :=
  match n with
  | O => es
  | S n =>
    let mod_ := module_prefix config +:+ pretty idx in
    let es := match WasmEngine.GetModule mod_ e with
              | None => es
              | Some _ => AddEntry now {| Tick.module := mod_; Tick.reducer := reducer;
                  Tick.args := [WInt64 (Z.quot 1000 hz); WInt64 (tick_substeps config); WInt64 idx];
                  period := Z.quot 1000000000 hz |} es
              end in
    tick_entries now config hz reducer e n (idx + 1) es
  end.

Definition init_ticks (w : world W) (config : ServerConfig) : Srv () :=
  let t := tick config in
  if (0 <? tick_count t) && negb (bool_decide (module_prefix t = "")) then
  let workers := if 0 <? tick_threads t then tick_threads t else Z.max 1 (w_hardware_concurrency w) in
  let hz := if 0 <? tick_hz t then tick_hz t else 60 in
  let reducer := if bool_decide (tick_reducer t = "") then "tick" else tick_reducer t in
  s ← get_state;
  let es := tick_entries (w_now w) t hz reducer (engine_of s) (Z.to_nat (tick_count t)) 0 [] in
  _ ← modify_state (create TICK);
  modify_state (set_tick (Some (Tick.Start (Z.to_nat workers) es)))
  else mret ().

(** [if (!ok) return false;] *)
Definition require (p : Srv bool) (rest : Srv bool) : Srv bool := ok ← p; if ok : bool then rest else mret false.

Definition Initialize (w : world W) (config : ServerConfig) : Srv bool :=
  require (init_auth w config) (
  require (init_storage w) (
  _ ← init_changefeed w config;
  _ ← modify_state (create SQL);
  require (init_wasm config) (
  _ ← init_modules w config;
  require (init_wasm_subs w) (
  _ ← modify_state (create SQL_SUBS);
  require (init_websocket w config) (
  require (init_grpc w config) (
  _ ← init_ticks w config;
  _ ← lift_exc (port_of (ws_listen_address (websocket config)));
  mret true)))))).

(** ** Shutdown *)

(** Both stop functions close their sockets and join their thread. *)
Definition StopGrpc (s : server) : server := if grpc_running_ s then set_listening (ws_running_ s) false s else s.
Definition StopWebSocket (s : server) : server := if ws_running_ s then set_listening false (grpc_running_ s) s else s.

(** One pointer test of [Shutdown]. *)
Definition stop_if (x : component) (p : Srv ()) : Srv () :=
  s ← get_state;
  if decide (x ∈ created s) then _ ← p; modify_state (stop x) else mret ().

Definition on_storage (f : StorageEngine W → StorageEngine W * exc ()) : Srv () := λ s,
  match WasmEngine.storage_ (engine_of s) with
  | None => (s, Done ())
  | Some st => let '(st, r) := f st in
             lift_exc r (set_engine_of (WasmEngine.set_store (Some st) (WasmEngine.id_counter (engine_of s)) (engine_of s)) s)
  end.

(** [~OriginDBServer] calls it again. *)
Definition Shutdown (o : snapshot_io) : Srv () :=
  s ← get_state;
  if shutdown_requested_ s then mret () else
  _ ← modify_state RequestShutdown;
  _ ← stop_if GRPC (modify_state StopGrpc);
  _ ← stop_if WEBSOCKET (modify_state StopWebSocket);
  _ ← stop_if TICK (modify_state (set_tick None));
  _ ← stop_if WASM_SUBS (on_manager WasmSub.Stop);
  _ ← stop_if WASM (modify_state (λ s, set_engine_of (WasmEngine.Shutdown (WasmEngine.RequestShutdown (engine_of s))) s));
  _ ← stop_if CHANGEFEED (on_storage (λ st,
      (Storage.SetChangefeedEngine (StopPool <$> (Changefeed.Stop <$> changefeed_engine_ st)) st, Ret ())));
  stop_if STORAGE (on_storage (Storage.Shutdown o)).

(** ** Statements and statistics of the process *)

Definition ExecuteSQL (now : Z) (sql : string) : Srv SqlResult := λ s,
  match WasmEngine.storage_ (engine_of s) with
  | None => (s, HostFunctions.Undefined)
  | Some st =>
      let '(e, r) := SqlEngine.Execute now sql [] "" (new_SqlEngine st) in
      (set_engine_of (WasmEngine.set_store (Some (SqlEngine.storage_ e)) (WasmEngine.id_counter (engine_of s)) (engine_of s)) s,
       match r with
       | Returns result => Done result
       | Throws what => Escaped what
       | SqlEngine.Undefined => HostFunctions.Undefined
       end)
  end.

Record ProcessStats := {
  s_total_tables : Z; s_total_rows : Z; s_storage_bytes : Z; s_active_connections : Z; s_active_subscriptions : Z;
  s_events_published : Z; s_loaded_modules : Z
}.

Definition GetStats (s : server) : option ProcessStats :=
  st ← WasmEngine.storage_ (engine_of s);
  cf ← changefeed_engine_ st;
  let storage_stats := Storage.GetStats st in
  let cf_metrics := Changefeed.GetMetrics cf in
  Some {| s_total_tables := total_tables storage_stats; s_total_rows := total_rows storage_stats;
          s_storage_bytes := total_bytes storage_stats;
          s_active_connections := zlength (active_clients_ (web_ s));
          s_active_subscriptions := Changefeed.active_subscriptions cf_metrics;
          s_events_published := Changefeed.total_events_published cf_metrics;
          s_loaded_modules := zlength (WasmEngine.ListModules (engine_of s)) |}.

(** [LogPeriodicStats]: the counters of the scheduler are read and reset at
    most every five seconds. *)
Definition LogPeriodicStats (tick_dt : Z) (s : server) : server :=
  if 5 <=? tick_dt then set_tick (fst ∘ SnapshotAndReset <$> tick_scheduler_ s) s else s.

(** The part of the state the gRPC services work on, at start-up. *)
Definition grpc_node (s : server) : Node W :=
  {| wasm_engine_ := engine_of s; module_store_ := store_ s; modules_disk := store_disk s;
   GrpcServices.auth_ := if decide (AUTH ∈ created s) then WsServer.auth_ (web_ s) else None;
   total_queries_ := 0; successful_queries_ := 0; failed_queries_ := 0 |}.
End server.

Example port_of_examples :
  (port_of "0.0.0.0:8080", port_of "localhost", port_of "0.0.0.0:70000", port_of "0.0.0.0:") =
  (Ret 8080, Ret 8080, Ret 4464, Throw "stoi").
Proof. vm_compute. reflexivity. Qed.
