(* ===== verification/ServerRestart.v ===== *)
(** * Restarting the server

    What was deployed over gRPC, and what the next process serves. *)

From S2P Require Import Prelude Table Codec RowCodec Float64 Json MemTable Txn WalStore Changefeed StorageJson Storage RowJson StorageCommit HostFunctions HostReads SqlEngine WasmSub WasmEngine WasmExec WasmLoad ModuleStore ModuleStoreRestart Auth GrpcServices GrpcCalls GrpcDeploy Config Server.

Section restart.
Context {W : Type} `{WA : WalApi W} `{JL : JsonLib} {ID : IndentedDump JL} {SH : Sha256} `{HO : HashOrder} `{WT : Wasmtime W}.
Context (guests_safe : ∀ bytecode, GuestSafe (G := guest_of bytecode)).
Abbreviation engine := (WasmEngine W).
Abbreviation node := (Node W).

(** A load of a stored module that was refused. *)
Definition refused_load (now : Z) (nm : string) (bytecode : bytes) (ver : string) : Prop :=
  ∃ e1 e2, LoadModule now nm bytecode ver default_capabilities e1 = (e2, Done false).

(** A module that was loaded from the store, without restrictions. *)
Definition restored (nm : string) (bytecode : bytes) (ver : string) (m : WasmModule) : Prop :=
  module_ok nm m ∧ bytecode_ m = bytecode ∧ capabilities_ m = default_capabilities ∧
  (ver ≠ "" → WasmEngine.version (metadata_ m) = ver).

Lemma restore_keeps now st d nm l : ∀ e e' : engine,
  restore_modules now st d l e = (e', Done ()) → is_Some (modules_ e !! nm) → is_Some (modules_ e' !! nm).
Proof.
  induction l as [|info l IH]; intros e e' H Hnm; simpl in H; [by injection H as <-|].
  destruct (LoadBytecode _ _ _) as [err|bytecode]; [by eapply IH|].
  apply host_bind_inv in H as (e1 & b & H1 & H2). eapply IH; [exact H2|].
  apply (LoadModule_cases guests_safe) in H1 as [(_ & -> & _)|(_ & _ & m & -> & _)]; [done|].
  destruct (decide (nm = name info)) as [->|]; [rewrite lookup_insert_eq; by eexists|by rewrite lookup_insert_ne].
Qed.

(** What is registered after the loop came from the store, and what is in the
  store was registered or refused. *)
Lemma restore_sound now st d (P : string → WasmModule → Prop) l :
  (∀ info bytecode m, info ∈ l → LoadBytecode (name info) st d = inr bytecode →
   restored (name info) bytecode (ModuleStore.version info) m → P (name info) m) →
  ∀ e e' : engine, restore_modules now st d l e = (e', Done ()) → map_Forall P (modules_ e) → map_Forall P (modules_ e').
Proof.
  induction l as [|info l IH]; intros HP e e' H He; simpl in H; [by injection H as <-|].
  assert (HP' : ∀ i bytecode m, i ∈ l → LoadBytecode (name i) st d = inr bytecode →
  restored (name i) bytecode (ModuleStore.version i) m → P (name i) m) by (intros i b m Hi; apply HP; by right).
  destruct (LoadBytecode _ _ _) as [err|bytecode] eqn:Eb; [by eapply (IH HP')|].
  apply host_bind_inv in H as (e1 & b & H1 & H2). eapply (IH HP'); [exact H2|].
  apply (LoadModule_cases guests_safe) in H1 as [(_ & -> & _)|(_ & _ & m & -> & Hok & Hb & Hc & Hv & _)]; [done|].
  apply map_Forall_insert_2; [|done]. by apply (HP info bytecode m); [left|..].
Qed.

Lemma restore_complete now st d l : ∀ e e' : engine,
  restore_modules now st d l e = (e', Done ()) →
  ∀ info bytecode, info ∈ l → LoadBytecode (name info) st d = inr bytecode →
  is_Some (modules_ e' !! name info) ∨ refused_load now (name info) bytecode (ModuleStore.version info).
Proof.
  induction l as [|i l IH]; intros e e' H info bytecode Hi Hb; [by apply not_elem_of_nil in Hi|]. simpl in H.
  apply elem_of_cons in Hi as [->|Hi].
  - rewrite Hb in H. apply host_bind_inv in H as (e1 & b & H1 & H2).
  pose proof H1 as Hload. apply (LoadModule_cases guests_safe) in H1 as [(-> & _)|(_ & _ & m & Hm & _)].
  + right. by exists e, e1.
  + left. eapply restore_keeps; [exact H2|]. rewrite Hm, lookup_insert_eq. by eexists.
  - destruct (LoadBytecode (name i) st d); [by eapply IH|].
  apply host_bind_inv in H as (e1 & b & H1 & H2). by eapply IH.
Qed.

(** ** The whole process *)

(** Calls in order, each with its token; the deployments they leave. *)
Definition serve_all (calls : list (rpc * option string)) (s : node) : node := foldl (λ s c, (serve c.1 c.2 s).1) s calls.
Fixpoint deployments (calls : list (rpc * option string)) (m : gmap string deployment) (s : node) : gmap string deployment :=
  match calls with
  | [] => m
  | c :: calls => deployments calls (spec_call m c.1 (serve c.1 c.2 s).2) (serve c.1 c.2 s).1
  end.

Lemma serve_all_ok calls : ∀ m s,
  node_ok m s → Forall (λ c, call_fine c.1) calls → node_ok (deployments calls m s) (serve_all calls s).
Proof.
  induction calls as [|c calls IH]; intros m s Hok Hf; [done|]. apply Forall_cons in Hf as [Hc Hf].
  apply (IH (spec_call m c.1 (serve c.1 c.2 s).2) (serve c.1 c.2 s).1); [|done].
  eapply serve_node_ok; [done|exact Hok|exact Hc|apply surjective_pairing].
Qed.

(** The part of start-up that restores the modules. *)
Lemma init_modules_run w config (s s' : OriginDBServer W) :
  init_modules w config s = (s', Done ()) → w_modules_create_ok w = true → w_modules_list_ok w = true →
  ∀ m st0, represents m st0 (store_disk s) →
  ∃ st, store_ s' = Some st ∧ represents m st (store_disk s) ∧
  restore_modules (w_now w) st (store_disk s) (List_ st) (engine_of s) = (engine_of s', Done ()).
Proof.
  intros H Hc Hl m st0 Hr. destruct s as [req cr stp web wr gr ms d af tk]. simpl in Hr.
  unfold init_modules in H. rewrite Hc, Hl in H. unfold modify_state, get_state, mbind, Prog_bind in H. simpl in H.
  rewrite (Initialize_represents m st0 d _ Hr) in H. simpl in H.
  set (st := set_index _ _) in *. exists st.
  assert (Hr' : represents m st d) by (destruct Hr as (H1 & H2 & H3 & H4); by split_and!).
  unfold on_engine in H. simpl in H. unfold engine_of in *. simpl in *.
  destruct (restore_modules _ _ _ _ _) as [e r] eqn:E. injection H as <- ->. simpl. by split_and!.
Qed.

End restart.

(** ** A concrete restart *)

Import DemoNode.

Definition demo_world : world WalHost :=
  {| w_now := 9; w_wal := wal_ engine1; w_wal_opens := true; w_snapshot := None;
     w_auth_io := {| create_error := false; admin_random := Some [Byte.x0a]; client_random := Some [Byte.x0b]; tmp_io := good_write;
                    persist_error := false |};
     w_modules_create_ok := true; w_modules_list_ok := true; w_hardware_concurrency := 4; w_ws_socket := true;
     w_ws_setsockopt := true; w_ws_bind := true; w_ws_listen := true; w_file := λ _, ""; w_grpc_built := Ret true |}.

(** Deploying a restricted module and calling it; the next process over the same
    directory. *)
Definition demo_calls : list (rpc * option string) :=
  [(CallDeployModule 1 (good_save 1) (request "1.0"), admin); (CallListModules, client)].
Definition next_process : OriginDBServer WalHost :=
  set_engine_of DemoModule.engine (new_OriginDBServer (modules_disk (serve_all demo_calls node0)) ∅).
Definition next_started := init_modules demo_world default_ServerConfig next_process.

Lemma next_started_ok : next_started = (next_started.1, Done ()).
Proof.
  assert (next_started.2 = Done ()) as H by (vm_compute; reflexivity). rewrite <- H. apply surjective_pairing.
Qed.

Lemma node0_ok : node_ok ∅ node0.
Proof. split; [eexists; split; [reflexivity|apply represents_empty]|]. intros name mod_ H. by vm_compute in H. Qed.

