(* ===== verification/ServerLife.v ===== *)
(** * The life of the process (src/cmd/origindb_server.cpp: signals, [Run], [main])

    [main] after the options: the server is constructed, handlers are
    registered, [Initialize] runs, [Run] polls, and the server is destroyed.
    A step is one of these, a delivery of SIGINT or SIGTERM to the main thread,
    the forced-shutdown timer, or work of the components.  The other threads
    and the destructors of the members, which run after [~OriginDBServer], are
    left out; so is the detached thread after the process has exited. *)

From stdpp Require Import relations.
From S2P Require Import Prelude Table Codec RowCodec Float64 Json MemTable Txn WalWriter WalStore Changefeed StorageJson Storage RowJson StorageCommit HostFunctions HostReads WasmEngine WasmSub ModuleStore ModuleStoreRestart Auth GrpcServices GrpcCalls GrpcDeploy WsServer Config Server ServerRestart.

(** Where [main] is, and how it ended. *)
Inductive phase := Starting | Running | Exited (code : Z) | Died.

Record process (W : Type) := {
  server_ : OriginDBServer W;
  g_signal_received : bool;
  g_shutdown_requested : bool;
  g_signal_count : Z;
  timer : bool;
  at_ : phase
}.
Arguments server_ {W} _.
Arguments g_signal_received {W} _.
Arguments g_shutdown_requested {W} _.
Arguments g_signal_count {W} _.
Arguments timer {W} _.
Arguments at_ {W} _.

Section life.
Context {W : Type} `{WA : WalApi W} `{JL : JsonLib} {ID : IndentedDump JL} {SH : Sha256} `{HO : HashOrder} `{WT : Wasmtime W}.
Variable w : world W.
Variable config : ServerConfig.
Variable o : snapshot_io.
Abbreviation server := (OriginDBServer W).

Definition set_server (s : server) (ph : phase) (p : process W) : process W :=
  {| server_ := s; g_signal_received := g_signal_received p; g_shutdown_requested := g_shutdown_requested p;
   g_signal_count := g_signal_count p; timer := timer p; at_ := ph |}.

(** [signal_handler]; [g_server] is set. *)
Definition signal_handler (p : process W) : process W :=
  let count := i32 (g_signal_count p + 1) in
  let immediate := 2 <=? count in
  {| server_ := if immediate then server_ p else RequestShutdown (server_ p); g_signal_received := true;
   g_shutdown_requested := true; g_signal_count := count; timer := timer p || (count =? 1);
   at_ := if immediate then Exited 1 else at_ p |}.

(** Leaving [main]: [~OriginDBServer]; what it throws ends the process. *)
Definition leave (code : Z) (p : process W) : process W :=
  match Shutdown o (server_ p) with
  | (s, Done _) => set_server s (Exited code) p
  | (s, _) => set_server s Died p
  end.

(** [Initialize] inside the try block of [main]. *)
Definition start (p : process W) : process W :=
  match Initialize w config (server_ p) with
  | (s, Done true) => set_server s Running p
  | (s, Done false) => leave 1 (set_server s Starting p)
  | (s, Escaped _) => leave 1 (set_server s Starting p)
  | (s, _) => set_server s Died p
  end.

(** The end of [forced_shutdown_thread]. *)
Definition forced_shutdown (p : process W) : process W :=
  {| server_ := server_ p; g_signal_received := g_signal_received p; g_shutdown_requested := g_shutdown_requested p;
   g_signal_count := g_signal_count p; timer := false;
   at_ := if negb (g_shutdown_requested p) then Exited 1 else at_ p |}.

(** The condition [Run] polls. *)
Definition run_ends (p : process W) : bool := shutdown_requested_ (server_ p) || g_signal_received p.

Definition alive (p : process W) : Prop := at_ p = Starting ∨ at_ p = Running.

Inductive life_step : process W → process W → Prop :=
| step_start p : at_ p = Starting → life_step p (start p)
| step_signal p : alive p → life_step p (signal_handler p)
| step_timer p : alive p → timer p = true → life_step p (forced_shutdown p)
| step_work p s :
  at_ p = Running → shutdown_requested_ s = shutdown_requested_ (server_ p) → created s = created (server_ p) →
  stopped s = stopped (server_ p) → life_step p (set_server s Running p)
| step_leave p :
  at_ p = Running → run_ends p = true → life_step p (leave 0 p).

Definition new_process (s : server) : process W :=
  {| server_ := s; g_signal_received := false; g_shutdown_requested := false; g_signal_count := 0; timer := false; at_ := Starting |}.

(** ** What start-up does to the flags *)

(** Components are only added, none is stopped, and the flag is left alone. *)
Definition grows (s s' : server) : Prop :=
  shutdown_requested_ s' = shutdown_requested_ s ∧ stopped s' = stopped s.
#[export] Instance grows_preorder : PreOrder grows.
Proof. split; [done|]. intros s1 s2 s3 [H1 H2] [H3 H4]. split; congruence. Qed.

Lemma grows_with_web f (s : server) : grows s (with_web f s).
Proof. by destruct s. Qed.
Lemma grows_on_manager {A} (p : Prog (WasmSub.Manager W) A) : always grows (on_manager p).
Proof. intros s. unfold on_manager. destruct (p _). apply grows_with_web. Qed.
Lemma grows_server_engine {A} (p : Prog (WasmEngine W) A) : always grows (Server.on_engine p).
Proof. intros s. unfold Server.on_engine. destruct (p _). apply grows_with_web. Qed.

Ltac grows := repeat first
  [ apply always_ret; exact _ | apply always_lift_exc; exact _ | apply always_get; exact _
  | apply grows_on_manager | apply grows_server_engine
  | apply always_modify; intros s; by (destruct s || apply grows_with_web)
  | apply always_bind; [exact _| |intros ?] | case_match; simplify_eq | by (intros ?) ].

Lemma grows_require p q : always grows p → always grows q → always grows (require p q).
Proof. intros Hp Hq. apply always_bind; [exact _|exact Hp|intros [|]; [exact Hq|apply always_ret, _]]. Qed.

Lemma grows_init_auth : always grows (init_auth w config).
Proof.
  intros s. unfold init_auth. destruct (negb _); [done|]. destruct (Auth.Initialize _ _ _) as [[m files] r].
  by destruct r, s.
Qed.
Lemma grows_init_storage : always grows (init_storage w).
Proof.
  intros s. unfold init_storage. destruct (negb _); [by destruct s|]. destruct (Storage.Initialize _ _) as [st [b|what]]; by destruct s.
Qed.
Lemma grows_init_changefeed : always grows (init_changefeed w config).
Proof. intros s. unfold init_changefeed. destruct (storage_ _); by destruct s. Qed.
Lemma grows_init_wasm : always grows (init_wasm config).
Proof. intros s. unfold init_wasm. destruct (WasmEngine.Initialize _); by destruct s. Qed.
Lemma grows_init_modules : always grows (init_modules w config).
Proof. unfold init_modules. grows. Qed.
Lemma grows_init_wasm_subs : always grows (init_wasm_subs w).
Proof. unfold init_wasm_subs. grows. Qed.
Lemma grows_init_websocket : always grows (init_websocket w config).
Proof. unfold init_websocket, SetChangefeedEngine, StartWebSocket. grows. Qed.
Lemma grows_init_grpc : always grows (init_grpc w config).
Proof.
  unfold init_grpc. apply always_bind; [exact _|apply always_modify; by intros []|intros _ s]. unfold StartGrpc.
  repeat case_match; by destruct s.
Qed.
Lemma grows_init_ticks : always grows (init_ticks w config).
Proof. unfold init_ticks. grows. Qed.

Lemma Initialize_grows : always grows (Initialize w config).
Proof.
  unfold Initialize. apply grows_require; [apply grows_init_auth|]. apply grows_require; [apply grows_init_storage|].
  apply always_bind; [exact _|apply grows_init_changefeed|intros _].
  apply always_bind; [exact _|apply always_modify; by intros []|intros _]. apply grows_require; [apply grows_init_wasm|].
  apply always_bind; [exact _|apply grows_init_modules|intros _]. apply grows_require; [apply grows_init_wasm_subs|].
  apply always_bind; [exact _|apply always_modify; by intros []|intros _]. apply grows_require; [apply grows_init_websocket|].
  apply grows_require; [apply grows_init_grpc|]. apply always_bind; [exact _|apply grows_init_ticks|intros _].
  apply always_bind; [exact _|apply always_lift_exc, _|intros _]. apply always_ret, _.
Qed.

(** ** The invariant *)

Definition life_inv (p : process W) : Prop :=
  match at_ p with
  | Starting | Running =>
    stopped (server_ p) = [] ∧ shutdown_requested_ (server_ p) = g_signal_received p ∧
    g_shutdown_requested p = g_signal_received p ∧ (timer p = true → g_signal_received p = true) ∧
    g_signal_count p = (if g_signal_received p then 1 else 0)
  | Exited code => stopped (server_ p) = [] ∧ g_signal_received p = true ∨ code = 1 ∧ g_signal_received p = false
  | Died => stopped (server_ p) = [] ∨ g_signal_received p = false
  end.

Lemma leave_requested code p :
  shutdown_requested_ (server_ p) = true → leave code p = set_server (server_ p) (Exited code) p.
Proof. intros H. unfold leave, Shutdown. rewrite (host_bind_done _ _ _ _ _ (eq_refl (get_state (server_ p)))). by rewrite H. Qed.

Lemma leave_inv code p :
  life_inv p → alive p → code = 1 ∨ g_signal_received p = true → life_inv (leave code p).
Proof.
  intros Hp Ha Hc. assert (Hi : stopped (server_ p) = [] ∧ shutdown_requested_ (server_ p) = g_signal_received p).
  { unfold life_inv in Hp. destruct Ha as [E|E]; rewrite E in Hp; tauto. }
  destruct Hi as [Hs Hr]. destruct (g_signal_received p) eqn:Eg.
  - rewrite leave_requested by done. unfold life_inv. simpl. left. split; [exact Hs|exact Eg].
  - unfold leave. destruct Hc as [->|]; [|done]. destruct (Shutdown o (server_ p)) as [s []]; unfold life_inv; simpl; auto.
Qed.

Lemma life_step_inv p p' : life_inv p → life_step p p' → life_inv p'.
Proof.
  intros Hp Hstep. destruct Hstep as [p Hat|p Ha|p Ha Ht|p s Hat H1 H2 H3|p Hat Hq].
  - unfold start. pose proof (Initialize_grows (server_ p)) as Hg.
  destruct (Initialize w config (server_ p)) as [s [[|]|t|what|]]; simpl in Hg; destruct Hg as [G1 G2];
    unfold life_inv in Hp; rewrite Hat in Hp; destruct Hp as (P1 & P2 & P3 & P4 & P5).
  + unfold life_inv. simpl. split_and!; (congruence || assumption).
  + apply leave_inv; [unfold life_inv; simpl; split_and!; (congruence || assumption)|by left|by left].
  + unfold life_inv. simpl. left. congruence.
  + apply leave_inv; [unfold life_inv; simpl; split_and!; (congruence || assumption)|by left|by left].
  + unfold life_inv. simpl. left. congruence.
  - assert (Hi : stopped (server_ p) = [] ∧ g_signal_count p = (if g_signal_received p then 1 else 0)).
  { unfold life_inv in Hp. destruct Ha as [E|E]; rewrite E in Hp; tauto. }
  destruct Hi as [Hs Hc]. unfold life_inv, signal_handler. simpl. rewrite Hc.
  destruct (g_signal_received p); [left; simpl; split; [exact Hs|done]|].
  assert (Hreq : stopped (RequestShutdown (server_ p)) = [] ∧ shutdown_requested_ (RequestShutdown (server_ p)) = true)
    by (destruct (server_ p); by split).
  destruct Ha as [E|E]; simpl; rewrite E; split_and!; try done; apply Hreq.
  - unfold life_inv in Hp. destruct Ha as [E|E]; rewrite E in Hp; destruct Hp as (P1 & P2 & P3 & P4 & P5);
    unfold life_inv, forced_shutdown; simpl; rewrite P3, (P4 Ht), E; simpl; rewrite P2, (P4 Ht), P5, (P4 Ht); by split_and!.
  - unfold life_inv in *. rewrite Hat in Hp. simpl. destruct Hp as (P1 & P2 & P3 & P4 & P5). split_and!; (congruence || assumption).
  - apply leave_inv; [exact Hp|by right|]. right. unfold life_inv in Hp. rewrite Hat in Hp.
  destruct Hp as (P1 & P2 & _). unfold run_ends in Hq. rewrite P2 in Hq. by destruct (g_signal_received p).
Qed.

(** C24.  A signal skips the ordered shutdown.  In every process that starts with
    a fresh server: one that ended normally had received a signal, and [Shutdown]
    stopped none of its components, since [RequestShutdown] sets the very flag
    that makes it return at once (what remains are the destructors of the members,
    outside this model; storage engine and changefeed own each other, so theirs
    never run); components are stopped only when start-up failed without a signal;
    the forced-shutdown timer never ends the process, since the handler sets the
    flag it looks at; and a second signal ends it at once, without destructors.
    A running process that was signalled can always end normally. *)
Theorem shutdown_skipped_after_signal d tokens p
  (Hreach : rtc life_step (new_process (new_OriginDBServer d tokens)) p) :
  (at_ p = Exited 0 → g_signal_received p = true ∧ stopped (server_ p) = []) ∧
  (stopped (server_ p) ≠ [] → g_signal_received p = false ∧ (at_ p = Exited 1 ∨ at_ p = Died)) ∧
  (alive p → timer p = true → at_ (forced_shutdown p) = at_ p) ∧
  (alive p → g_signal_received p = true → at_ (signal_handler p) = Exited 1) ∧
  (at_ p = Running → g_signal_received p = true → life_step p (leave 0 p) ∧ at_ (leave 0 p) = Exited 0).
Proof.
  assert (Hinv : life_inv p).
  { remember (new_process (new_OriginDBServer d tokens)) as p0 eqn:E0.
  assert (H0 : life_inv p0) by (subst; by split_and!). clear E0.
  induction Hreach as [|p1 p2 p3 Hs _ IH]; [exact H0|]. apply IH. by eapply life_step_inv. }
  split_and!.
  - intros E. unfold life_inv in Hinv. rewrite E in Hinv. destruct Hinv as [[? ?]|[? _]]; [by split|done].
  - intros Hs. unfold life_inv in Hinv. destruct (at_ p) as [| |code|]; [by destruct Hinv..| |].
  + destruct Hinv as [[? _]|[-> ?]]; [done|]. split; [done|by left].
  + destruct Hinv as [?|?]; [done|]. split; [done|by right].
  - intros Ha Ht. unfold life_inv in Hinv.
  destruct Ha as [E|E]; rewrite E in Hinv |- *; destruct Hinv as (_ & _ & H3 & H4 & _); simpl; by rewrite H3, (H4 Ht).
  - intros Ha Hg. unfold life_inv in Hinv.
  destruct Ha as [E|E]; rewrite E in Hinv; destruct Hinv as (_ & _ & _ & _ & H5); unfold signal_handler; simpl; by rewrite H5, Hg.
  - intros E Hg. unfold life_inv in Hinv. rewrite E in Hinv. destruct Hinv as (_ & H2 & _). split.
  + apply step_leave; [done|]. unfold run_ends. by rewrite H2, Hg.
  + rewrite leave_requested by congruence. done.
Qed.
End life.

(** ** Concrete lives *)

Import DemoNode.

Definition life0 : process WalHost := new_process (new_OriginDBServer ∅ ∅).
Definition snapshot_works : snapshot_io := {| Storage.open_ok := true; Storage.write_ok := true; Storage.kept := None; Storage.rename_ok := true |}.
Definition life1 := start demo_world default_ServerConfig snapshot_works life0.
Definition life2 := signal_handler life1.
Definition life3 := leave snapshot_works 0 life2.

Lemma shutdown_witness_started : at_ life1 = Running.
Proof. vm_compute. reflexivity. Qed.

(** Every component exists, both ports are open, and both global subscriptions
    are registered; after a signal none has been stopped. *)
Example started_server :
  created (server_ life1) = [AUTH; STORAGE; CHANGEFEED; SQL; WASM; MODULES; WASM_SUBS; SQL_SUBS; WEBSOCKET; GRPC] ∧
  (ws_running_ (server_ life1), grpc_running_ (server_ life1)) = (true, true) ∧
  (∃ st cf, storage_ (engine_of (server_ life1)) = Some st ∧ changefeed_engine_ st = Some cf ∧
     map_to_list (callbacks_ cf) = [("sub-1", wasm_callback); ("sub-2", websocket_callback)]) ∧
  (at_ life3, ws_running_ (server_ life3), stopped (server_ life3)) = (Exited 0, true, []).
Proof.
  split_and!; [vm_compute; reflexivity|vm_compute; reflexivity| |vm_compute; reflexivity].
  do 2 eexists. split_and!; vm_compute; reflexivity.
Qed.

Lemma shutdown_skipped_after_signal_witness :
  at_ life3 = Exited 0 ∧ stopped (server_ life3) = [].
Proof.
  assert (E : at_ life3 = Exited 0) by (vm_compute; reflexivity). split; [exact E|].
  assert (E2 : at_ life2 = Running) by (vm_compute; reflexivity).
  assert (F2 : run_ends life2 = true) by (vm_compute; reflexivity).
  pose proof (step_start demo_world default_ServerConfig snapshot_works life0 eq_refl) as S1.
  pose proof (step_signal demo_world default_ServerConfig snapshot_works life1 (or_intror shutdown_witness_started)) as S2.
  pose proof (step_leave demo_world default_ServerConfig snapshot_works life2 E2 F2) as S3.
  pose proof (rtc_l _ _ _ _ S1 (rtc_l _ _ _ _ S2 (rtc_l _ _ _ _ S3 (rtc_refl _ _)))) as Hreach.
  destruct (shutdown_skipped_after_signal demo_world default_ServerConfig snapshot_works ∅ ∅ _ Hreach) as [H _].
  destruct (H E) as [_ Hs]. exact Hs.
Defined.

(** *** A failed start

    The snapshot holds the table "users" and a table "events" one of whose rows
    does not decode, and the log holds entries.  Loading it throws half-way;
    [main] catches, but the server's destructor shuts the storage engine down,
    which overwrites the snapshot with the tables read so far and truncates the
    log: the next start succeeds, with "users" as the snapshot had it and
    nothing else. *)
Definition events_table : json :=
  JObject [("rows", JArray [JString "?"]);
   ("schema", JString (bytes_str (default [] (exc_value (SerializeSchema
     {| sch_name := "events"; sch_columns := []; primary_key := []; sch_options := ∅ |})))))].
Definition damaged_snapshot : string :=
  default "" (exc_value (
    users ← exc_map (λ nt : string * MemTable, table_json nt.2) (hash_iter (tables_ engine1));
    dump (JObject [("last_sequence", JInt 4); ("tables", JArray (users ++ [events_table]))]))).
Definition damaged_world : world WalHost :=
  {| w_now := 9; w_wal := wal_ engine2; w_wal_opens := true; w_snapshot := Some damaged_snapshot;
     w_auth_io := w_auth_io demo_world; w_modules_create_ok := true; w_modules_list_ok := true;
     w_hardware_concurrency := 4; w_ws_socket := true; w_ws_setsockopt := true; w_ws_bind := true; w_ws_listen := true;
     w_file := λ _, ""; w_grpc_built := Ret true |}.
Definition failed_start := start damaged_world default_ServerConfig snapshot_works life0.
Definition storage_left : StorageEngine WalHost :=
  default engine0 (storage_ (engine_of (server_ failed_start))).
Definition next_storage := Storage.Initialize 10 (new_StorageEngine (wal_ storage_left) (snapshot_ storage_left)).

Example failed_start_destroys_data :
  at_ failed_start = Exited 1 ∧ stopped (server_ failed_start) = [STORAGE] ∧
  wal_ReadAll (w_wal damaged_world) ≠ [] ∧ wal_ReadAll (wal_ storage_left) = [] ∧
  next_storage.2 = Ret true ∧ ListTables next_storage.1 = ["users"].
Proof.
  split_and!; [vm_compute; reflexivity|vm_compute; reflexivity|by (intros H; vm_compute in H)|vm_compute; reflexivity..].
Qed.
