(* ===== verification/ServerMain.v ===== *)
(** * The server's command line (src/cmd/origindb_server.cpp: [ParseConfig], [main])

    From the arguments and the environment to the configuration the server is
    started with, or the exit code of [main].  The texts of [PrintUsage] are
    left out. *)

From Stdlib Require Import Strings.Ascii.
From S2P Require Import Prelude WalWriter Regex StdNumbers Config.

(** ** The options *)

(** The local variables of [main] that hold texts. *)
Inductive text_arg :=
| config_file | port_arg | grpc_port_arg | data_dir_arg | log_level_arg | tls_cert_arg | tls_key_arg | sync_mode_arg
| checkpoint_mb_arg | checkpoint_interval_arg | tick_modules_arg | tick_count_arg | tick_hz_arg | tick_substeps_arg
| tick_threads_arg | tick_reducer_arg.

#[export] Instance text_arg_eq_dec : EqDecision text_arg.
Proof. solve_decision. Defined.

Record locals := { text : text_arg → string; no_auth : bool; no_checkpoint : bool }.

Definition initial_locals : locals :=
  {| text := λ v, if decide (v = config_file) then "origindb.conf" else ""; no_auth := false; no_checkpoint := false |}.
Definition set_text (v : text_arg) (s : string) (l : locals) : locals :=
  {| text := λ v', if decide (v' = v) then s else text l v'; no_auth := no_auth l; no_checkpoint := no_checkpoint l |}.
Definition set_no_auth (l : locals) : locals :=
  {| text := text l; no_auth := true; no_checkpoint := no_checkpoint l |}.
Definition set_no_checkpoint (l : locals) : locals :=
  {| text := text l; no_auth := no_auth l; no_checkpoint := true |}.

(** The options that take a value, and what they miss without one. *)
Definition value_options : list (string * (text_arg * string)) :=
  [("-p", (port_arg, "a port number")); ("--port", (port_arg, "a port number"));
   ("-g", (grpc_port_arg, "a port number")); ("--grpc-port", (grpc_port_arg, "a port number"));
   ("-d", (data_dir_arg, "a directory path")); ("--data-dir", (data_dir_arg, "a directory path"));
   ("-l", (log_level_arg, "a log level")); ("--log-level", (log_level_arg, "a log level"));
   ("-c", (config_file, "a config file path")); ("--config", (config_file, "a config file path"));
   ("--tls-cert", (tls_cert_arg, "a path")); ("--tls-key", (tls_key_arg, "a path"));
   ("--sync-mode", (sync_mode_arg, "none|flush|fsync")); ("--checkpoint-mb", (checkpoint_mb_arg, "a size in MB"));
   ("--checkpoint-interval", (checkpoint_interval_arg, "seconds"));
   ("--tick-modules", (tick_modules_arg, "a module name prefix")); ("--tick-count", (tick_count_arg, "a number"));
   ("--tick-hz", (tick_hz_arg, "a number")); ("--tick-substeps", (tick_substeps_arg, "a number"));
   ("--tick-threads", (tick_threads_arg, "a number")); ("--tick-reducer", (tick_reducer_arg, "a name"))].

Fixpoint assoc {A} (k : string) (l : list (string * A)) : option A :=
  match l with
  | [] => None
  | (k', a) :: l => if decide (k = k') then Some a else assoc k l
  end.

(** The rest of [main] with these variables, or [return code]. *)
Inductive parsed := Run (l : locals) | Return (code : Z) (message : string).

Definition is_option (arg : string) : bool :=
  match arg with String c _ => eqc c "-"%char | EmptyString => false end.

Fixpoint parse_args (args : list string) (l : locals) : parsed :=
  match args with
  | [] => Run l
  | arg :: rest =>
      if bool_decide (arg = "-h") || bool_decide (arg = "--help") then Return 0 ""
      else match assoc arg value_options with
      | Some (v, what) =>
          match rest with
          | value :: rest => parse_args rest (set_text v value l)
          | [] => Return 1 ("Error: " +:+ arg +:+ " requires " +:+ what)
          end
      | None =>
          if bool_decide (arg = "--no-auth") then parse_args rest (set_no_auth l)
          else if bool_decide (arg = "--no-checkpoint") then parse_args rest (set_no_checkpoint l)
          else if negb (is_option arg) then parse_args rest (set_text port_arg arg l)
          else Return 1 ("Error: Unknown option " +:+ arg)
      end
  end.

(** ** Numbers *)

(** [std::stoul] and [std::stoull] (both 64 bits): a minus sign negates modulo
    [2^64]. *)
Definition stoull (what : string) (s : string) : exc Z :=
  let '(neg, l) := read_sign (skip_space (string_chars s)) in
  let digits := (read_run isdigit l).1 in
  if decide (digits = []) then Throw what else
  let n := digits_value 10 digits in
  if 2 ^ 64 <=? n then Throw what else Ret (if neg : bool then u64 (- n) else n).

(** ** The configuration *)

Definition level_of (s : string) : option level :=
  if bool_decide (s = "trace") then Some trace
  else if bool_decide (s = "debug") then Some debug
  else if bool_decide (s = "info") then Some info
  else if bool_decide (s = "warn") then Some warn
  else if bool_decide (s = "error") then Some err
  else None.

Definition set_log_level (v : level) : ServerConfig → ServerConfig :=
  with_logging (λ '(Build_LoggingConfig _ b c d), Build_LoggingConfig v b c d).
Definition set_log_file (v : string) : ServerConfig → ServerConfig :=
  with_logging (λ '(Build_LoggingConfig a _ c d), Build_LoggingConfig a v c d).
Definition set_tls_cert (v : string) : ServerConfig → ServerConfig :=
  with_grpc (λ '(Build_GrpcConfig a b c d _ f), Build_GrpcConfig a b c d v f).
Definition set_tls_key (v : string) : ServerConfig → ServerConfig :=
  with_grpc (λ '(Build_GrpcConfig a b c d e _), Build_GrpcConfig a b c d e v).
Definition set_sync_mode (v : SyncMode) : ServerConfig → ServerConfig :=
  with_storage (λ '(Build_StorageConfig a b c d e _ g h i j k l), Build_StorageConfig a b c d e v g h i j k l).
Definition set_checkpoint_enabled (v : bool) : ServerConfig → ServerConfig :=
  with_storage (λ '(Build_StorageConfig a b c d e f g h _ j k l), Build_StorageConfig a b c d e f g h v j k l).
Definition set_checkpoint_wal_bytes (v : Z) : ServerConfig → ServerConfig :=
  with_storage (λ '(Build_StorageConfig a b c d e f g h i _ k l), Build_StorageConfig a b c d e f g h i v k l).
Definition set_checkpoint_interval (v : Z) : ServerConfig → ServerConfig :=
  with_storage (λ '(Build_StorageConfig a b c d e f g h i j _ l), Build_StorageConfig a b c d e f g h i j v l).
Definition set_admin_token (v : string) : ServerConfig → ServerConfig :=
  with_auth (λ '(Build_AuthConfig a _ c), Build_AuthConfig a v c).
Definition set_client_token (v : string) : ServerConfig → ServerConfig :=
  with_auth (λ '(Build_AuthConfig a b _), Build_AuthConfig a b v).
Definition disable_auth : ServerConfig → ServerConfig :=
  with_auth (λ '(Build_AuthConfig _ b c), Build_AuthConfig false b c).
Definition set_tick_prefix (v : string) : ServerConfig → ServerConfig :=
  with_tick (λ '(Build_TickConfig _ b c d e f), Build_TickConfig v b c d e f).
Definition set_tick_count (v : Z) : ServerConfig → ServerConfig :=
  with_tick (λ '(Build_TickConfig a _ c d e f), Build_TickConfig a v c d e f).
Definition set_tick_reducer (v : string) : ServerConfig → ServerConfig :=
  with_tick (λ '(Build_TickConfig a b _ d e f), Build_TickConfig a b v d e f).
Definition set_tick_hz (v : Z) : ServerConfig → ServerConfig :=
  with_tick (λ '(Build_TickConfig a b c _ e f), Build_TickConfig a b c v e f).
Definition set_tick_substeps (v : Z) : ServerConfig → ServerConfig :=
  with_tick (λ '(Build_TickConfig a b c d _ f), Build_TickConfig a b c d v f).
Definition set_tick_threads (v : Z) : ServerConfig → ServerConfig :=
  with_tick (λ '(Build_TickConfig a b c d e _), Build_TickConfig a b c d e v).

(** An assignment if there is a value. *)
Definition when {A} (v : option A) (f : A → ServerConfig → ServerConfig) (c : ServerConfig) : ServerConfig :=
  match v with Some v => f v c | None => c end.

(** The file is not read. *)
Definition ParseConfig (getenv : string → option string) (file : string) : ServerConfig :=
  let c := set_log_file "./logs/origindb.log" (set_log_level info (set_grpc_address "0.0.0.0:50051"
             (set_ws_address "0.0.0.0:8080" (set_data_dir "./origindb_data" default_ServerConfig)))) in
  let c := when (getenv "ORIGINDB_DATA_DIR") set_data_dir c in
  let c := when (getenv "ORIGINDB_WS_PORT") (λ p, set_ws_address ("0.0.0.0:" +:+ p)) c in
  let c := when (getenv "ORIGINDB_GRPC_PORT") (λ p, set_grpc_address ("0.0.0.0:" +:+ p)) c in
  when (getenv "ORIGINDB_LOG_LEVEL" ≫= level_of) set_log_level c.

(** How [main] goes on: the server is created, [return 1] with a message, or an
    exception, which [main] catches to return 1. *)
Inductive configured := Start (c : ServerConfig) | Refuse (message : string) | Caught (what : string).

Definition given (l : locals) (v : text_arg) : option string :=
  if bool_decide (text l v = "") then None else Some (text l v).

Definition sync_mode_of (s : string) : option SyncMode :=
  if bool_decide (s = "none") then Some SyncNone
  else if bool_decide (s = "flush") then Some SyncFlush
  else if bool_decide (s = "fsync") then Some SyncFsync
  else None.

(** A number given on the command line. *)
Definition number (what : string) (l : locals) (v : text_arg) : exc (option Z) :=
  match given l v with Some s => n ← stoull what s; Ret (Some n) | None => Ret None end.

(** The overrides before the first number. *)
Definition override_texts (getenv : string → option string) (l : locals) (c : ServerConfig) : ServerConfig :=
  let c := when (given l port_arg) (λ p, set_ws_address ("0.0.0.0:" +:+ p)) c in
  let c := when (given l grpc_port_arg) (λ p, set_grpc_address ("0.0.0.0:" +:+ p)) c in
  let c := when (given l data_dir_arg) set_data_dir c in
  let c := when (given l tls_cert_arg) set_tls_cert c in
  when (given l tls_key_arg) set_tls_key c.
Definition override_flags (getenv : string → option string) (l : locals) (c : ServerConfig) : ServerConfig :=
  let c := when (getenv "ORIGINDB_ADMIN_TOKEN") set_admin_token c in
  let c := when (getenv "ORIGINDB_CLIENT_TOKEN") set_client_token c in
  let c := if no_auth l then disable_auth c else c in
  if no_checkpoint l then set_checkpoint_enabled false c else c.
Definition override_numbers (l : locals) (c : ServerConfig) : exc ServerConfig :=
  mb ← number "stoull" l checkpoint_mb_arg;
  let c := when mb (λ n, set_checkpoint_wal_bytes (u64 (u64 (n * 1024) * 1024))) c in
  interval ← number "stoul" l checkpoint_interval_arg;
  let c := when interval (λ n, set_checkpoint_interval (u32 n)) c in
  let c := when (given l tick_modules_arg) set_tick_prefix c in
  count ← number "stoul" l tick_count_arg;
  let c := when count (λ n, set_tick_count (u32 n)) c in
  hz ← number "stoul" l tick_hz_arg;
  let c := when hz (λ n, set_tick_hz (u32 n)) c in
  substeps ← number "stoul" l tick_substeps_arg;
  let c := when substeps (λ n, set_tick_substeps (u32 n)) c in
  threads ← number "stoul" l tick_threads_arg;
  let c := when threads (λ n, set_tick_threads (u32 n)) c in
  Ret (when (given l tick_reducer_arg) set_tick_reducer c).

(** The rest once the durability level is set. *)
Definition configure_rest (getenv : string → option string) (l : locals) (c : ServerConfig) : configured :=
  match override_numbers l (override_flags getenv l c) with
  | Throw what => Caught what
  | Ret c =>
      match given l log_level_arg with
      | None => Start c
      | Some s => match level_of s with
                  | Some v => Start (set_log_level v c)
                  | None => Refuse ("Error: Invalid log level '" +:+ s +:+ "'")
                  end
      end
  end.

Definition configure (getenv : string → option string) (l : locals) : configured :=
  let c := override_texts getenv l (ParseConfig getenv (text l config_file)) in
  match given l sync_mode_arg with
  | None => configure_rest getenv l c
  | Some s => match sync_mode_of s with
              | None => Refuse "Error: --sync-mode must be none|flush|fsync"
              | Some m => configure_rest getenv l (set_sync_mode m c)
              end
  end.

(** [main] up to the creation of the server. *)
Definition main (getenv : string → option string) (args : list string) : Z * string + ServerConfig :=
  match parse_args args initial_locals with
  | Return code message => inl (code, message)
  | Run l => match configure getenv l with
             | Start c => inr c
             | Refuse message => inl (1, message)
             | Caught what => inl (1, "Server failed with exception: " +:+ what)
             end
  end.

Definition no_env : string → option string := λ _, None.

(** Sizes and rates wrap around; a negative number is a large one. *)
Example numbers_wrap :
  (match main no_env ["--checkpoint-mb"; "17592186044416"; "--tick-hz"; "4294967296"; "--tick-count"; "-1"] with
   | inr c => (checkpoint_wal_bytes (storage c), tick_hz (tick c), tick_count (tick c)) | inl _ => (0, 0, 0) end)
  = (0, 0, 2 ^ 32 - 1).
Proof. vm_compute. reflexivity. Qed.
Example number_texts :
  (stoull "x" "12abc", stoull "x" " +7", stoull "x" "abc", stoull "x" "18446744073709551616", stoull "x" "-1")
  = (Ret 12, Ret 7, Throw "x", Throw "x", Ret (2 ^ 64 - 1)).
Proof. vm_compute. reflexivity. Qed.
Example argument_errors :
  (main no_env ["--help"; "--bogus"], main no_env ["--port"], main no_env ["--bogus"], main no_env ["--sync-mode"; "always"],
   main no_env ["--tick-hz"; "fast"])
  = (inl (0, ""), inl (1, "Error: --port requires a port number"), inl (1, "Error: Unknown option --bogus"),
     inl (1, "Error: --sync-mode must be none|flush|fsync"), inl (1, "Server failed with exception: stoul")).
Proof. vm_compute. reflexivity. Qed.

(** ** Parsing *)

(** An argument list that is one option. *)
Inductive setting := Value (name value : string) | NoAuth | NoCheckpoint | Port (value : string).

Definition show_setting (s : setting) : list string :=
  match s with
  | Value n v => [n; v]
  | NoAuth => ["--no-auth"]
  | NoCheckpoint => ["--no-checkpoint"]
  | Port v => [v]
  end.
Definition setting_ok (s : setting) : Prop :=
  match s with
  | Value n _ => is_Some (assoc n value_options)
  | Port v => is_option v = false
  | _ => True
  end.
Definition effect (s : setting) (l : locals) : locals :=
  match s with
  | Value n v => match assoc n value_options with Some (x, _) => set_text x v l | None => l end
  | NoAuth => set_no_auth l
  | NoCheckpoint => set_no_checkpoint l
  | Port v => set_text port_arg v l
  end.

Lemma assoc_elem {A} k (l : list (string * A)) a : assoc k l = Some a → k ∈ l.*1.
Proof.
  induction l as [|[k' a'] l IH]; simpl; [done|]. destruct (decide (k = k')) as [->|]; [by left|]. intros H. right. by apply IH.
Qed.

Lemma value_option_name n x : assoc n value_options = Some x → is_option n = true ∧ n ≠ "-h" ∧ n ≠ "--help" ∧
  n ≠ "--no-auth" ∧ n ≠ "--no-checkpoint".
Proof.
  intros H%assoc_elem. revert n H. apply Forall_forall. apply (bool_decide_unpack _). vm_compute. exact I.
Qed.

(** A setting is read whole, whatever its value is. *)
Lemma parse_setting s rest l :
  setting_ok s → parse_args (show_setting s ++ rest) l = parse_args rest (effect s l).
Proof.
  intros Hok. destruct s as [n v| | |v]; cbn [show_setting setting_ok effect app parse_args] in *.
  - destruct Hok as [[x what] Hx]. destruct (value_option_name _ _ Hx) as (_ & H1 & H2 & _).
    rewrite !bool_decide_eq_false_2 by done. cbn [orb]. by rewrite Hx.
  - done.
  - done.
  - assert (Hn : assoc v value_options = None ∧ v ≠ "-h" ∧ v ≠ "--help" ∧ v ≠ "--no-auth" ∧ v ≠ "--no-checkpoint").
    { split; [|split_and!; by intros ->]. destruct (assoc v value_options) as [x|] eqn:E; [|done].
      apply value_option_name in E as [E _]. congruence. }
    destruct Hn as (-> & ? & ? & ? & ?). rewrite !bool_decide_eq_false_2 by done. simpl. by rewrite Hok.
Qed.

Lemma parse_settings settings : ∀ l,
  Forall setting_ok settings → parse_args (concat (show_setting <$> settings)) l = Run (foldl (λ l s, effect s l) l settings).
Proof.
  induction settings as [|s settings IH]; intros l H; [done|]. apply Forall_cons in H as [Hs H].
  rewrite fmap_cons. cbn [concat]. rewrite parse_setting by done. by apply IH.
Qed.

Lemma parse_no_auth args : ∀ l l', parse_args args l = Run l' → no_auth l' = true → no_auth l = true ∨ "--no-auth" ∈ args.
Proof.
  induction args as [args IH] using (well_founded_induction (well_founded_ltof _ (@length string))).
  intros l l' H Hn. destruct args as [|arg rest]; [left; by injection H as ->|]. cbn [parse_args] in H.
  assert (Hrest : ∀ r l1, (length r < length (arg :: rest))%nat → (∀ x, x ∈ r → x ∈ arg :: rest) →
    parse_args r l1 = Run l' → no_auth l1 = true ∨ "--no-auth" ∈ arg :: rest).
  { intros r l1 Hl Hin Hp. destruct (IH r Hl l1 l' Hp Hn) as [?|?]; [by left|right; by apply Hin]. }
  destruct (_ || _); [done|]. destruct (assoc arg value_options) as [[x what]|].
  - destruct rest as [|v rest]; [done|]. apply Hrest in H; [exact H|simpl; lia|intros y Hy; right; by right].
  - case_bool_decide as Harg; [subst arg; right; left|].
    case_bool_decide; [apply Hrest in H; [exact H|simpl; lia|intros y Hy; by right]|].
    destruct (negb _); [|done]. apply Hrest in H; [exact H|simpl; lia|intros y Hy; by right].
Qed.

(** ** What the server is configured with *)

(** A chain of conditional assignments seen through one member. *)
Section members.
Context {B : Type} (π : ServerConfig → B).

Lemma when_other {A} (v : option A) f c : (∀ a c, π (f a c) = π c) → π (when v f c) = π c.
Proof. intros H. destruct v; [apply H|done]. Qed.
Lemma when_this {A} (v : option A) f (g : A → B) c : (∀ a c, π (f a c) = g a) → π (when v f c) = default (π c) (g <$> v).
Proof. intros H. destruct v; [apply H|done]. Qed.
End members.

Ltac member := intros; match goal with c : ServerConfig |- _ => destruct c as [? [] [] ? [] [] [] ? ? [] [] []] end; reflexivity.
Ltac through π g :=
  rewrite ?(when_other π) by member; rewrite (when_this π _ _ g) by member; rewrite ?(when_other π) by member.
Ltac unaffected π := rewrite ?(when_other π) by member.

(** A number that was given, as the member that received it. *)
Definition number_set (what : string) (l : locals) (v : text_arg) (conv : Z → Z) (initial final : Z) : Prop :=
  match given l v with
  | Some s => ∃ n, stoull what s = Ret n ∧ final = conv n
  | None => final = initial
  end.

Lemma number_inv what l v o : number what l v = Ret o → match given l v with Some s => ∃ n, stoull what s = Ret n ∧ o = Some n | None => o = None end.
Proof.
  unfold number. destruct (given l v) as [s|]; [|by intros [= <-]].
  destruct (stoull what s) as [n|]; [|done]. intros [= <-]. by exists n.
Qed.

Lemma number_set_when what l v o conv initial :
  number what l v = Ret o → number_set what l v conv initial (default initial (conv <$> o)).
Proof.
  intros H%number_inv. unfold number_set. destruct (given l v); [|by rewrite H].
  destruct H as (n & H & ->). by exists n.
Qed.

(** The members after the overrides, in terms of those before. *)
Lemma override_numbers_spec l c c' :
  override_numbers l c = Ret c' →
  number_set "stoull" l checkpoint_mb_arg (λ n, u64 (u64 (n * 1024) * 1024)) (checkpoint_wal_bytes (storage c)) (checkpoint_wal_bytes (storage c')) ∧
  number_set "stoul" l checkpoint_interval_arg u32 (checkpoint_interval_sec (storage c)) (checkpoint_interval_sec (storage c')) ∧
  number_set "stoul" l tick_count_arg u32 (tick_count (tick c)) (tick_count (tick c')) ∧
  number_set "stoul" l tick_hz_arg u32 (tick_hz (tick c)) (tick_hz (tick c')) ∧
  number_set "stoul" l tick_substeps_arg u32 (tick_substeps (tick c)) (tick_substeps (tick c')) ∧
  number_set "stoul" l tick_threads_arg u32 (tick_threads (tick c)) (tick_threads (tick c')) ∧
  module_prefix (tick c') = default (module_prefix (tick c)) (given l tick_modules_arg) ∧
  tick_reducer (tick c') = default (tick_reducer (tick c)) (given l tick_reducer_arg) ∧
  auth c' = auth c ∧ grpc c' = grpc c ∧ websocket c' = websocket c ∧ logging c' = logging c ∧
  data_dir (storage c') = data_dir (storage c) ∧ sync_mode (storage c') = sync_mode (storage c) ∧
  checkpoint_enabled (storage c') = checkpoint_enabled (storage c).
Proof.
  unfold override_numbers. intros H.
  destruct (number "stoull" l checkpoint_mb_arg) as [o1|] eqn:E1; [|done].
  destruct (number "stoul" l checkpoint_interval_arg) as [o2|] eqn:E2; [|done].
  destruct (number "stoul" l tick_count_arg) as [o3|] eqn:E3; [|done].
  destruct (number "stoul" l tick_hz_arg) as [o4|] eqn:E4; [|done].
  destruct (number "stoul" l tick_substeps_arg) as [o5|] eqn:E5; [|done].
  destruct (number "stoul" l tick_threads_arg) as [o6|] eqn:E6; [|done].
  cbn [mbind exc_bind] in H. injection H as <-. split_and!.
  - through (λ c, checkpoint_wal_bytes (storage c)) (λ n, u64 (u64 (n * 1024) * 1024)). by apply number_set_when.
  - through (λ c, checkpoint_interval_sec (storage c)) u32. by apply number_set_when.
  - through (λ c, tick_count (tick c)) u32. by apply number_set_when.
  - through (λ c, tick_hz (tick c)) u32. by apply number_set_when.
  - through (λ c, tick_substeps (tick c)) u32. by apply number_set_when.
  - through (λ c, tick_threads (tick c)) u32. by apply number_set_when.
  - through (λ c, module_prefix (tick c)) (λ s : string, s). by rewrite option_fmap_id.
  - through (λ c, tick_reducer (tick c)) (λ s : string, s). by rewrite option_fmap_id.
  - by unaffected auth.
  - by unaffected grpc.
  - by unaffected websocket.
  - by unaffected logging.
  - by unaffected (λ c, data_dir (storage c)).
  - by unaffected (λ c, sync_mode (storage c)).
  - by unaffected (λ c, checkpoint_enabled (storage c)).
Qed.

(** The members before the flags. *)
Lemma override_texts_spec getenv l file :
  let c := override_texts getenv l (ParseConfig getenv file) in
  ws_listen_address (websocket c) = "0.0.0.0:" +:+ default (default "8080" (getenv "ORIGINDB_WS_PORT")) (given l port_arg) ∧
  grpc_listen_address (grpc c) = "0.0.0.0:" +:+ default (default "50051" (getenv "ORIGINDB_GRPC_PORT")) (given l grpc_port_arg) ∧
  data_dir (storage c) = default (default "./origindb_data" (getenv "ORIGINDB_DATA_DIR")) (given l data_dir_arg) ∧
  tls_cert (grpc c) = default "" (given l tls_cert_arg) ∧ tls_key (grpc c) = default "" (given l tls_key_arg) ∧
  log_level (logging c) = default info (getenv "ORIGINDB_LOG_LEVEL" ≫= level_of) ∧
  sync_mode (storage c) = SyncFsync ∧ checkpoint_enabled (storage c) = true ∧
  checkpoint_wal_bytes (storage c) = 256 * 1024 * 1024 ∧ checkpoint_interval_sec (storage c) = 300 ∧
  auth c = default_AuthConfig ∧ tick c = default_TickConfig.
Proof.
  unfold override_texts, ParseConfig. cbv zeta.
  set (address p := "0.0.0.0:" +:+ p). split_and!.
  - through (λ c, ws_listen_address (websocket c)) address.
    through (λ c, ws_listen_address (websocket c)) address.
    by destruct (getenv "ORIGINDB_WS_PORT"), (given l port_arg).
  - through (λ c, grpc_listen_address (grpc c)) address.
    through (λ c, grpc_listen_address (grpc c)) address.
    by destruct (getenv "ORIGINDB_GRPC_PORT"), (given l grpc_port_arg).
  - through (λ c, data_dir (storage c)) (λ s : string, s). through (λ c, data_dir (storage c)) (λ s : string, s).
    by rewrite !option_fmap_id.
  - through (λ c, tls_cert (grpc c)) (λ s : string, s). by rewrite option_fmap_id.
  - through (λ c, tls_key (grpc c)) (λ s : string, s). by rewrite option_fmap_id.
  - through (λ c, log_level (logging c)) (λ v : level, v). by rewrite option_fmap_id.
  - by unaffected (λ c, sync_mode (storage c)).
  - by unaffected (λ c, checkpoint_enabled (storage c)).
  - by unaffected (λ c, checkpoint_wal_bytes (storage c)).
  - by unaffected (λ c, checkpoint_interval_sec (storage c)).
  - by unaffected auth.
  - by unaffected tick.
Qed.

(** The flags change two members besides the tokens. *)
Lemma override_flags_spec getenv l c :
  let c' := override_flags getenv l c in
  (auth c = default_AuthConfig → auth_enabled (auth c') = negb (no_auth l) ∧
   admin_token (auth c') = default "" (getenv "ORIGINDB_ADMIN_TOKEN") ∧
   client_token (auth c') = default "" (getenv "ORIGINDB_CLIENT_TOKEN")) ∧
  (checkpoint_enabled (storage c) = true → checkpoint_enabled (storage c') = negb (no_checkpoint l)) ∧
  data_dir (storage c') = data_dir (storage c) ∧ sync_mode (storage c') = sync_mode (storage c) ∧
  checkpoint_wal_bytes (storage c') = checkpoint_wal_bytes (storage c) ∧
  checkpoint_interval_sec (storage c') = checkpoint_interval_sec (storage c) ∧
  websocket c' = websocket c ∧ grpc c' = grpc c ∧ logging c' = logging c ∧ tick c' = tick c.
Proof.
  unfold override_flags. destruct c as [? [] [] ? [] [] [] ? ? [] [] []], (getenv "ORIGINDB_ADMIN_TOKEN"),
    (getenv "ORIGINDB_CLIENT_TOKEN"), (no_auth l), (no_checkpoint l); simpl;
    (split_and!; try done; try (by intros [= -> -> ->])).
Qed.

Lemma configure_inv getenv l c :
  configure getenv l = Start c →
  ∃ m c1 lv, Some m = from_option sync_mode_of (Some SyncFsync) (given l sync_mode_arg) ∧
    override_numbers l (override_flags getenv l (set_sync_mode m (override_texts getenv l (ParseConfig getenv (text l config_file))))) = Ret c1 ∧
    Some lv = from_option level_of (Some (log_level (logging c1))) (given l log_level_arg) ∧ c = set_log_level lv c1.
Proof.
  assert (Hrest : ∀ m c0, configure_rest getenv l (set_sync_mode m c0) = Start c →
    ∃ c1 lv, override_numbers l (override_flags getenv l (set_sync_mode m c0)) = Ret c1 ∧
      Some lv = from_option level_of (Some (log_level (logging c1))) (given l log_level_arg) ∧ c = set_log_level lv c1).
  { intros m c0. unfold configure_rest. destruct (override_numbers _ _) as [c1|]; [|done].
    destruct (given l log_level_arg) as [s|]; simpl.
    - destruct (level_of s) as [lv|]; [|done]. intros [= <-]. by exists c1, lv.
    - intros [= <-]. exists c1, (log_level (logging c1)). split; [done|]. split; [done|].
      by destruct c1 as [? ? ? ? ? ? ? ? ? [] ? ?]. }
  unfold configure. cbv zeta. set (c0 := override_texts _ _ _).
  assert (Hc0 : c0 = set_sync_mode SyncFsync c0).
  { pose proof (override_texts_spec getenv l (text l config_file)) as (_ & _ & _ & _ & _ & _ & H & _). fold c0 in H.
    clearbody c0. destruct c0 as [? [] ? ? ? ? ? ? ? ? ? ?]. simpl in H. by subst. }
  destruct (given l sync_mode_arg) as [s|]; simpl.
  - destruct (sync_mode_of s) as [m|]; [|done]. intros (c1 & lv & H1 & H2 & H3)%Hrest. by exists m, c1, lv.
  - rewrite Hc0. intros (c1 & lv & H1 & H2 & H3)%Hrest. exists SyncFsync, c1, lv. split_and!; [done|by rewrite <- Hc0|done..].
Qed.

(** C35.  The configuration is the command line over the environment over the
  defaults.  Whenever [main] creates a server, its arguments parsed and the
  configuration is theirs: authentication is on unless --no-auth was given (so
  on whenever the word is not among the arguments), the tokens come from the
  environment, checkpoints are on unless switched off, addresses, directory and
  durability are the option, else the environment variable, else the default;
  and a number that was given is parsed and cut to its member's width, the
  checkpoint size in megabytes modulo [2^64].  [parse_settings] shows that
  parsing reads back any printed options, whatever their values. *)
Theorem main_configures getenv args c (Hmain : main getenv args = inr c) :
  ("--no-auth" ∉ args → auth_enabled (auth c) = true) ∧
  ∃ l, parse_args args initial_locals = Run l ∧
    auth_enabled (auth c) = negb (no_auth l) ∧ checkpoint_enabled (storage c) = negb (no_checkpoint l) ∧
    admin_token (auth c) = default "" (getenv "ORIGINDB_ADMIN_TOKEN") ∧
    client_token (auth c) = default "" (getenv "ORIGINDB_CLIENT_TOKEN") ∧
    ws_listen_address (websocket c) = "0.0.0.0:" +:+ default (default "8080" (getenv "ORIGINDB_WS_PORT")) (given l port_arg) ∧
    grpc_listen_address (grpc c) = "0.0.0.0:" +:+ default (default "50051" (getenv "ORIGINDB_GRPC_PORT")) (given l grpc_port_arg) ∧
    data_dir (storage c) = default (default "./origindb_data" (getenv "ORIGINDB_DATA_DIR")) (given l data_dir_arg) ∧
    (tls_cert (grpc c), tls_key (grpc c)) = (default "" (given l tls_cert_arg), default "" (given l tls_key_arg)) ∧
    Some (sync_mode (storage c)) = from_option sync_mode_of (Some SyncFsync) (given l sync_mode_arg) ∧
    Some (log_level (logging c)) = from_option level_of (Some (default info (getenv "ORIGINDB_LOG_LEVEL" ≫= level_of)))
                                     (given l log_level_arg) ∧
    number_set "stoull" l checkpoint_mb_arg (λ n, u64 (u64 (n * 1024) * 1024)) (256 * 1024 * 1024) (checkpoint_wal_bytes (storage c)) ∧
    number_set "stoul" l checkpoint_interval_arg u32 300 (checkpoint_interval_sec (storage c)) ∧
    number_set "stoul" l tick_count_arg u32 0 (tick_count (tick c)) ∧
    number_set "stoul" l tick_hz_arg u32 60 (tick_hz (tick c)) ∧
    number_set "stoul" l tick_substeps_arg u32 1 (tick_substeps (tick c)) ∧
    number_set "stoul" l tick_threads_arg u32 0 (tick_threads (tick c)) ∧
    module_prefix (tick c) = default "" (given l tick_modules_arg) ∧
    tick_reducer (tick c) = default "tick" (given l tick_reducer_arg).
Proof.
  unfold main in Hmain. destruct (parse_args args initial_locals) as [l|] eqn:Hp; [|done].
  destruct (configure getenv l) as [c'| |] eqn:Hc; [|done..]. injection Hmain as ->.
  apply configure_inv in Hc as (m & c1 & lv & Hm & Hnum & Hlv & ->).
  pose proof (override_texts_spec getenv l (text l config_file)) as Ht. cbv zeta in Ht.
  set (c0 := override_texts _ _ _) in *. clearbody c0.
  pose proof (override_flags_spec getenv l (set_sync_mode m c0)) as Hf. cbv zeta in Hf.
  set (c2 := override_flags _ _ _) in *. clearbody c2. apply override_numbers_spec in Hnum.
  destruct c0 as [? [] ? ? ? [] [] ? ? [] ? ?]. simpl in Ht, Hf.
  destruct Ht as (-> & -> & -> & -> & -> & -> & _ & -> & -> & -> & -> & ->).
  destruct Hf as ((A1 & A2 & A3) & A4 & A5 & A6 & A7 & A8 & A9 & A10 & A11 & A12); [done|].
  specialize (A4 eq_refl). rewrite A7, A8, A12 in Hnum.
  destruct Hnum as (N1 & N2 & N3 & N4 & N5 & N6 & N7 & N8 & N9 & N10 & N11 & N12 & N13 & N14 & N15).
  destruct c1 as [? ? ? ? ? ? ? ? ? [] ? ?]. simpl in *. subst. rewrite A11 in *. simpl in *.
  injection N12 as -> _ _ _.
  assert (Hauth : auth_enabled (auth c2) = negb (no_auth l)) by done. split.
  - intros Hno. rewrite Hauth. destruct (no_auth l) eqn:E; [|done]. exfalso.
    by destruct (parse_no_auth _ _ _ Hp E) as [?|?].
  - exists l. rewrite A9, A10, N13, A5, N14, N15, A4. by split_and!.
Qed.

Definition demo_args : list string := ["--tick-hz"; "30"; "-p"; "9090"; "--no-checkpoint"; "--sync-mode"; "flush"].
Definition demo_env : string → option string :=
  λ v, if decide (v = "ORIGINDB_GRPC_PORT") then Some "6000" else if decide (v = "ORIGINDB_WS_PORT") then Some "6001" else None.

Lemma main_configures_witness :
  ∃ c, main demo_env demo_args = inr c ∧ auth_enabled (auth c) = true ∧
       ws_listen_address (websocket c) = "0.0.0.0:9090" ∧ grpc_listen_address (grpc c) = "0.0.0.0:6000".
Proof.
  assert (Hm : match main demo_env demo_args with inr _ => True | _ => False end) by (vm_compute; exact I).
  destruct (main demo_env demo_args) as [|c] eqn:E; [destruct Hm|]. exists c. split; [reflexivity|].
  destruct (main_configures demo_env demo_args c E) as (H & l & Hl & _ & _ & _ & _ & Hws & Hg & _).
  assert (Hp : parse_args demo_args initial_locals = Run (foldl (λ l s, effect s l) initial_locals
    [Value "--tick-hz" "30"; Value "-p" "9090"; NoCheckpoint; Value "--sync-mode" "flush"])) by reflexivity.
  rewrite Hp in Hl. injection Hl as <-. split; [|split; [exact Hws|exact Hg]].
  apply H. intros Hin. revert Hin. apply (bool_decide_unpack _). vm_compute. exact I.
Defined.
