(* ===== verification/Metrics.v ===== *)
(** * Metrics (src/common/metrics.cpp)

    Counters, gauges and their help texts, and the text for Prometheus.  Doubles
    are bit patterns; histograms and labels have no code behind them. *)

From Stdlib Require Import Strings.Ascii Floats.SpecFloat.
From S2P Require Import Prelude Float64 Regex StdNumbers Config.

Record MetricsExporter := {
  config_ : MetricsConfig;
  counters_ : gmap string Z;
  gauges_ : gmap string Z;
  help_text_ : gmap string string
}.

Definition new_MetricsExporter (config : MetricsConfig) : MetricsExporter :=
  {| config_ := config; counters_ := ∅; gauges_ := ∅; help_text_ := ∅ |}.

(** [Initialize], [Start] and [Stop] only log. *)
Definition Initialize (m : MetricsExporter) : bool := true.
Definition Start (m : MetricsExporter) : bool := true.

(** The addition of doubles. *)
Definition double_add (a b : Z) : Z := double_bits (SFadd 53 1024 (double_sf a) (double_sf b)).
(** Unary minus flips the sign bit. *)
Definition double_neg (a : Z) : Z := Z.lxor a (2 ^ 63).

Abbreviation labels := (gmap string string).

Definition set_counter (name : string) (value : Z) (m : MetricsExporter) : MetricsExporter :=
  {| config_ := config_ m; counters_ := <[name := value]> (counters_ m); gauges_ := gauges_ m; help_text_ := help_text_ m |}.
Definition set_gauge (name : string) (value : Z) (m : MetricsExporter) : MetricsExporter :=
  {| config_ := config_ m; counters_ := counters_ m; gauges_ := <[name := value]> (gauges_ m); help_text_ := help_text_ m |}.
Definition set_help (name help : string) (m : MetricsExporter) : MetricsExporter :=
  {| config_ := config_ m; counters_ := counters_ m; gauges_ := gauges_ m; help_text_ := <[name := help]> (help_text_ m) |}.

Definition RegisterCounter (name help : string) (m : MetricsExporter) : MetricsExporter :=
  set_help name help (set_counter name 0 m).
Definition RegisterGauge (name help : string) (m : MetricsExporter) : MetricsExporter :=
  set_help name help (set_gauge name 0 m).
Definition RegisterHistogram (name help : string) (buckets : list Z) (m : MetricsExporter) : MetricsExporter := m.
Definition IncrementCounter (name : string) (value : Z) (ls : labels) (m : MetricsExporter) : MetricsExporter :=
  set_counter name (double_add (default 0 (counters_ m !! name)) value) m.
Definition SetGauge (name : string) (value : Z) (ls : labels) (m : MetricsExporter) : MetricsExporter :=
  set_gauge name value m.
Definition IncrementGauge (name : string) (value : Z) (ls : labels) (m : MetricsExporter) : MetricsExporter :=
  SetGauge name value ls m.
Definition DecrementGauge (name : string) (value : Z) (ls : labels) (m : MetricsExporter) : MetricsExporter :=
  SetGauge name (double_neg value) ls m.
Definition ObserveHistogram (name : string) (value : Z) (ls : labels) (m : MetricsExporter) : MetricsExporter := m.

(** ** The text *)

Section format.
Context `{HO : HashOrder}.

(** A line feed. *)
Definition nl : string := chars_string [newline].

Definition metric_lines (kind : string) (help : gmap string string) (p : string * Z) : string :=
  (match help !! p.1 with
   | Some h => "# HELP " +:+ p.1 +:+ " " +:+ h +:+ nl +:+ "# TYPE " +:+ p.1 +:+ " " +:+ kind +:+ nl
   | None => ""
   end) +:+ p.1 +:+ " " +:+ to_string_double p.2 +:+ nl.

Definition GetPrometheusFormat (m : MetricsExporter) : string :=
  fold_left (λ result p, result +:+ metric_lines "gauge" (help_text_ m) p) (hash_iter (gauges_ m))
  (fold_left (λ result p, result +:+ metric_lines "counter" (help_text_ m) p) (hash_iter (counters_ m)) "").
End format.

(** [ScopedTimer]: its destructor observes the duration between the two
    readings of the clock, in seconds. *)
Record ScopedTimer := { metric_name_ : string; labels_ : labels; start_ : Z }.
Definition finish_timer (duration : Z → Z → Z) (now : Z) (t : ScopedTimer) (m : MetricsExporter) : MetricsExporter :=
  ObserveHistogram (metric_name_ t) (duration (start_ t) now) (labels_ t) m.

(** ** What the metrics hold *)

Inductive metric_op :=
| OpRegisterCounter (name help : string) | OpRegisterGauge (name help : string)
| OpRegisterHistogram (name help : string) (buckets : list Z)
| OpIncrementCounter (name : string) (value : Z) (ls : labels) | OpSetGauge (name : string) (value : Z) (ls : labels)
| OpIncrementGauge (name : string) (value : Z) (ls : labels) | OpDecrementGauge (name : string) (value : Z) (ls : labels)
| OpObserveHistogram (name : string) (value : Z) (ls : labels).

Definition apply (m : MetricsExporter) (op : metric_op) : MetricsExporter :=
  match op with
  | OpRegisterCounter n h => RegisterCounter n h m
  | OpRegisterGauge n h => RegisterGauge n h m
  | OpRegisterHistogram n h b => RegisterHistogram n h b m
  | OpIncrementCounter n v ls => IncrementCounter n v ls m
  | OpSetGauge n v ls => SetGauge n v ls m
  | OpIncrementGauge n v ls => IncrementGauge n v ls m
  | OpDecrementGauge n v ls => DecrementGauge n v ls m
  | OpObserveHistogram n v ls => ObserveHistogram n v ls m
  end.

(** The value an operation gives a gauge, whatever it was. *)
Definition gauge_write (n : string) (op : metric_op) : option Z :=
  match op with
  | OpRegisterGauge n' _ => if decide (n = n') then Some 0 else None
  | OpSetGauge n' v _ | OpIncrementGauge n' v _ => if decide (n = n') then Some v else None
  | OpDecrementGauge n' v _ => if decide (n = n') then Some (double_neg v) else None
  | _ => None
  end.
(** What an operation makes of a counter. *)
Definition counter_write (n : string) (old : option Z) (op : metric_op) : option Z :=
  match op with
  | OpRegisterCounter n' _ => if decide (n = n') then Some 0 else old
  | OpIncrementCounter n' v _ => if decide (n = n') then Some (double_add (default 0 old) v) else old
  | _ => old
  end.

(** A gauge holds the last value any operation gave it, an increment's or a
    decrement's included; a counter the sum of its increments since it was
    registered; labels are lost. *)
Theorem metrics_values ops config n :
  let m := foldl apply (new_MetricsExporter config) ops in
  gauges_ m !! n = last (omap (gauge_write n) ops) ∧ counters_ m !! n = foldl (counter_write n) None ops.
Proof.
  induction ops as [|op ops [IH1 IH2]] using rev_ind; [done|]. cbv zeta in *.
  rewrite foldl_snoc, omap_app, foldl_snoc. rewrite <- IH2. clear IH2.
  set (m := foldl apply _ ops) in *. clearbody m.
  destruct op as [n' h|n' h|n' h b|n' v ls|n' v ls|n' v ls|n' v ls|n' v ls]; simpl; rewrite ?app_nil_r; try (by split);
    destruct (decide (n = n')) as [->|]; simpl; rewrite ?app_nil_r, ?last_snoc, ?lookup_insert_eq, ?lookup_insert_ne by done; by split.
Qed.

#[local] Existing Instance std_order.

(** "Incrementing" a gauge by 1 twice leaves it at 1. *)
Example increment_gauge_sets :
  GetPrometheusFormat (foldl apply (new_MetricsExporter default_MetricsConfig)
    [OpRegisterGauge "clients" "Connected clients"; OpIncrementGauge "clients" 0x3FF0000000000000 ∅;
     OpIncrementGauge "clients" 0x3FF0000000000000 {["shard" := "a"]}; OpIncrementCounter "calls" 0x3FF0000000000000 ∅;
     OpIncrementCounter "calls" 0x4000000000000000 ∅])
  = "calls 3.000000" +:+ nl +:+ "# HELP clients Connected clients" +:+ nl +:+ "# TYPE clients gauge" +:+ nl +:+
    "clients 1.000000" +:+ nl.
Proof. vm_compute. reflexivity. Qed.
