(* ===== verification/Init.v ===== *)
(** * Project scaffolding (src/cmd/origindb_init.cpp)

    [origindb_init NAME] writes the files of a template into a new directory, with
    the name put in place of the placeholders, and makes it a git repository.  The
    texts of the templates are an argument; the operating system is the class of
    Cli.v with two operations more, and the colours are those of Cli.v, which this
    program repeats. *)

From Stdlib Require Import Strings.Ascii.
From S2P Require Import Prelude Regex StdNumbers HostFunctions Cli.

Record FileTemplate := { path : string; content : string }.

(** [create_directories], and writing a file from its beginning; [None] when it
    cannot be opened. *)
Class OsFiles (W : Type) := {
  os_create_directories : string → W → exc W;
  os_write : string → string → W → option W
}.

(** ** Placeholders *)

Fixpoint is_prefix (p l : chars) : bool :=
  match p, l with
  | [], _ => true
  | a :: p, b :: l => eqc a b && is_prefix p l
  | _ :: _, [] => false
  end.

(** [str.find(from, 0)]. *)
Fixpoint find (from l : chars) : option nat :=
  if is_prefix from l then Some O
  else match l with [] => None | _ :: l => S <$> find from l end.

(** The loop of [replaceAll], whose rounds are counted. *)
Fixpoint replace_loop (rounds : nat) (from to str : chars) (start_pos : nat) : option chars :=
  match rounds with
  | O => None
  | S rounds =>
      match find from (drop start_pos str) with
      | None => Some str
      | Some i =>
          let start_pos := (start_pos + i)%nat in
          replace_loop rounds from to (take start_pos str ++ to ++ drop (start_pos + length from) str) (start_pos + length to)
      end
  end.

Definition replaceAll (str from to : string) : string :=
  let l := string_chars str in
  chars_string (default l (replace_loop (S (length l)) (string_chars from) (string_chars to) l 0)).

Definition toLower (s : string) : string := chars_string (map tolower (string_chars s)).

(** ** Arguments *)

Record InitArgs := { projectName : string; templateName : string; force : bool; initGit : bool }.
Definition init_defaults : InitArgs := {| projectName := ""; templateName := "csharp"; force := false; initGit := true |}.
Definition set_template (v : string) (a : InitArgs) : InitArgs :=
  {| projectName := projectName a; templateName := v; force := force a; initGit := initGit a |}.

(** The loop over the arguments; [None] when the usage is printed. *)
Fixpoint parse_init (l : list string) (a : InitArgs) : option InitArgs :=
  match l with
  | [] => Some a
  | arg :: rest =>
      if is_help arg then None
      else if bool_decide (arg = "--template") then
        match rest with
        | v :: rest => parse_init rest (set_template v a)
        | [] => Some a
        end
      else if String.prefix "--template=" arg then
        parse_init rest (set_template (String.substring 11 (String.length arg - 11) arg) a)
      else if bool_decide (arg = "--force") then
        parse_init rest {| projectName := projectName a; templateName := templateName a; force := true; initGit := initGit a |}
      else if bool_decide (arg = "--no-git") then
        parse_init rest {| projectName := projectName a; templateName := templateName a; force := force a; initGit := false |}
      else if bool_decide (projectName a = "") then
        parse_init rest {| projectName := arg; templateName := templateName a; force := force a; initGit := initGit a |}
      else parse_init rest a
  end.

(** [path / name] where the name may be absolute. *)
Definition join (dir name : string) : string := if String.prefix "/" name then name else path_join dir name.

Definition init_usage : list string :=
  [BOLD +:+ "Usage:" +:+ RESET +:+ " origindb init [PROJECT_NAME] [OPTIONS]";
   "";
   BOLD +:+ "Options:";
   RESET +:+ "  --template TEMPLATE  Project template (default: csharp)";
   "                       Available: csharp, typescript, unity, nodejs";
   "  --force             Overwrite existing files";
   "  --no-git            Don't initialize git repository";
   "  -h, --help          Show this help message";
   "";
   BOLD +:+ "Templates:";
   RESET +:+ "  csharp      WASM module in C# (.NET 8 + wasi-experimental workload)";
   "  typescript  WASM module in AssemblyScript (npm + asc)";
   "  unity       Unity multiplayer client project";
   "  nodejs      Node.js client application";
   "";
   BOLD +:+ "Examples:";
   RESET +:+ "  origindb init myproject                       # C# WASM module";
   "  origindb init mymodule --template typescript  # AssemblyScript WASM module";
   "  origindb init mygame --template unity         # Unity project";
   "  origindb init myapp --template nodejs         # Node.js project"].

(** The next steps printed for a template. *)
Definition next_steps (templateName : string) : list string :=
  if bool_decide (templateName = "csharp") then
  ["  2. Copy the OriginDB C# SDK into the project (no NuGet package yet):";
   "     " +:+ BLUE +:+ "cp /path/to/instant_db/sdk/csharp/OriginDB.cs ." +:+ RESET;
   "  3. Install the WASI workload (requires .NET 8 SDK, once):";
   "     " +:+ BLUE +:+ "dotnet workload install wasi-experimental" +:+ RESET;
   "  4. Build the WASM module:";
   "     " +:+ BLUE +:+ "./build.sh" +:+ RESET +:+ "  (or: dotnet publish -c Release)";
   "  5. Publish to a running OriginDB server:";
   "     " +:+ BLUE +:+ "origindb publish" +:+ RESET]
  else if bool_decide (templateName = "typescript") then
  ["  2. Install dependencies:";
   "     " +:+ BLUE +:+ "npm install" +:+ RESET;
   "  3. Build the WASM module:";
   "     " +:+ BLUE +:+ "npm run asbuild" +:+ RESET;
   "  4. Publish to a running OriginDB server:";
   "     " +:+ BLUE +:+ "origindb publish" +:+ RESET]
  else if bool_decide (templateName = "unity") then
  ["  2. Open the project in Unity";
   "  3. Install the OriginDB Unity package";
   "  4. Start the OriginDB server:";
   "     " +:+ BLUE +:+ "origindb server" +:+ RESET;
   "  5. Play the scene in Unity"]
  else if bool_decide (templateName = "nodejs") then
  ["  2. Install dependencies:";
   "     " +:+ BLUE +:+ "npm install" +:+ RESET;
   "  3. Start the OriginDB server:";
   "     " +:+ BLUE +:+ "origindb server" +:+ RESET;
   "  4. Run your application:";
   "     " +:+ BLUE +:+ "npm start" +:+ RESET]
  else [].

Section init.
Context {W : Type} `{OS : Os W} `{OF : OsFiles W}.
Variable templates : list (string * list FileTemplate).
Abbreviation Cli := (Prog (Terminal W)).

Definition create_directories (p : string) : Cli () := λ s,
  match os_create_directories p (world s) with
  | Ret w => (set_world w s, Done ())
  | Throw what => (s, Escaped what)
  end.
Definition write_file (p text : string) : Cli bool := λ s,
  match os_write p text (world s) with
  | Some w => (set_world w s, Done true)
  | None => (s, Done false)
  end.

Definition createFile (filepath text : string) (force : bool) : Cli bool :=
  _ ← create_directories (parent_path filepath);
  found ← exists_ filepath;
  if found && negb force then
    _ ← say_lines [YELLOW +:+ "  [SKIP]" +:+ RESET +:+ " " +:+ filepath +:+ " (already exists)"]; mret true
  else
    written ← write_file filepath text;
    if negb written then
      _ ← complain (RED +:+ "  [ERROR]" +:+ RESET +:+ " Failed to create " +:+ filepath); mret false
    else _ ← say_lines [GREEN +:+ "  [CREATE]" +:+ RESET +:+ " " +:+ filepath]; mret true.

Definition git_cmd (projectPath : string) : string :=
  "cd " +:+ quoted projectPath +:+ " && git init -q && git add . && git commit -q -m " +:+ quoted "Initial commit".
Definition initGitRepo (projectPath : string) : Cli bool :=
  _ ← say_lines [""; CYAN +:+ "Initializing git repository..." +:+ RESET];
  result ← system (git_cmd projectPath);
  if result =? 0 then _ ← say_lines [GREEN +:+ "  ✓ Git repository initialized" +:+ RESET]; mret true
  else _ ← say_lines [YELLOW +:+ "  ⚠ Could not initialize git repository" +:+ RESET]; mret false.

(** A template's file in the project. *)
Definition file_path (projectPath name : string) (t : FileTemplate) : string :=
  join projectPath (replaceAll (path t) "{{PROJECT_NAME}}" name).
Definition file_content (name : string) (t : FileTemplate) : string :=
  replaceAll (replaceAll (content t) "{{PROJECT_NAME}}" name) "{{PROJECT_NAME_LOWER}}" (toLower name).

Fixpoint create_files (projectPath name : string) (force : bool) (files : list FileTemplate) : Cli bool :=
  match files with
  | [] => mret true
  | t :: files =>
      created ← createFile (file_path projectPath name t) (file_content name t) force;
      if created : bool then create_files projectPath name force files else mret false
  end.

Fixpoint create_all (dirs : list string) : Cli () :=
  match dirs with [] => mret () | dir :: dirs => _ ← create_directories dir; create_all dirs end.
Definition extra_directories (projectPath templateName : string) : list string :=
  if bool_decide (templateName = "unity")
  then (λ name, path_join (path_join projectPath "Assets") name) <$> ["Scripts"; "Prefabs"; "Materials"] else [].

Definition find_template (templateName : string) : option (list FileTemplate) :=
  (λ it : nat * (string * list FileTemplate), it.2.2) <$> list_find (λ t, t.1 = templateName) templates.

Definition create_project (a : InitArgs) (files : list FileTemplate) (projectPath : string) : Cli Z :=
  _ ← say_lines [CYAN +:+ BOLD; "🚀 Initializing OriginDB " +:+ templateName a +:+ " project: " +:+ projectName a +:+ RESET; ""];
  _ ← create_directories projectPath;
  created ← create_files projectPath (projectName a) (force a) files;
  if negb created then _ ← complain (RED +:+ "Failed to create project files" +:+ RESET); mret 1
  else
    _ ← create_all (extra_directories projectPath (templateName a));
    _ ← (if initGit a then initGitRepo projectPath else mret true);
    _ ← say_lines ([""; GREEN +:+ BOLD +:+ "✅ Project created successfully!" +:+ RESET; "";
                    BOLD +:+ "Next steps:" +:+ RESET; "  1. Navigate to your project:";
                    "     " +:+ BLUE +:+ "cd " +:+ projectName a +:+ RESET]
                   ++ next_steps (templateName a) ++ [""; BOLD +:+ "Happy coding! 🎉" +:+ RESET; ""]);
    mret 0.

(** [main], with the arguments after the program's name. *)
Definition main (argv : list string) : Cli Z :=
  match argv with
  | [] => _ ← complain_lines [RED +:+ "Error: Project name required" +:+ RESET; ""]; _ ← say_lines init_usage; mret 1
  | _ =>
      match parse_init argv init_defaults with
      | None => _ ← say_lines init_usage; mret 0
      | Some a =>
          match find_template (templateName a) with
          | None =>
              _ ← complain_lines [RED +:+ "Error: Unknown template '" +:+ templateName a +:+ "'" +:+ RESET;
                                  "Available templates: csharp, typescript, unity, nodejs"]; mret 1
          | Some files =>
              here ← see os_cwd;
              let projectPath := join here (projectName a) in
              found ← exists_ projectPath;
              if found && negb (force a) then
                _ ← complain_lines [RED +:+ "Error: Directory '" +:+ projectName a +:+ "' already exists" +:+ RESET;
                                    "Use --force to overwrite existing files"]; mret 1
              else create_project a files projectPath
          end
      end
  end.
End init.

(** ** Replacing *)

(** The reference: the first occurrence is replaced, and what comes after it. *)
Inductive replaced (from to : chars) : chars → chars → Prop :=
| Replaced_none l : find from l = None → replaced from to l l
| Replaced_one pre rest rest' :
    find from (pre ++ from ++ rest) = Some (length pre) → replaced from to rest rest' →
    replaced from to (pre ++ from ++ rest) (pre ++ to ++ rest').

Lemma is_prefix_app p l : is_prefix p l = true → ∃ rest, l = p ++ rest.
Proof.
  revert l. induction p as [|a p IH]; intros l H; [by exists l|]. destruct l as [|b l]; [done|].
  simpl in H. apply andb_true_iff in H as [->%bool_decide_eq_true H]. apply IH in H as [rest ->]. by exists rest.
Qed.

Lemma find_split from l i : find from l = Some i → ∃ pre rest, l = pre ++ from ++ rest ∧ length pre = i.
Proof.
  revert i. induction l as [|c l IH]; intros i; cbn [find].
  - destruct (is_prefix from []) eqn:E; [|done]. intros [= <-]. apply is_prefix_app in E as [rest E]. by exists [], rest.
  - destruct (is_prefix from (c :: l)) eqn:E.
    + intros [= <-]. apply is_prefix_app in E as [rest E]. by exists [], rest.
    + intros (j & Hj & ->)%fmap_Some. apply IH in Hj as (pre & rest & -> & <-). by exists (c :: pre), rest.
Qed.

(** After a replaced part, as many rounds as characters left are enough. *)
Lemma replace_loop_spec from to rounds : ∀ done_ rest, from ≠ [] → (length rest < rounds)%nat →
  ∃ rest', replace_loop rounds from to (done_ ++ rest) (length done_) = Some (done_ ++ rest') ∧ replaced from to rest rest'.
Proof.
  induction rounds as [|rounds IH]; intros done_ rest Hne Hr; [lia|]. cbn [replace_loop].
  rewrite drop_app_length. destruct (find from rest) as [i|] eqn:E.
  - destruct (find_split _ _ _ E) as (pre & tail_ & -> & <-).
    assert (0 < length from)%nat by (destruct from; [done|simpl; lia]). rewrite !length_app in Hr.
    destruct (IH (done_ ++ pre ++ to) tail_ Hne ltac:(lia)) as (rest' & Hloop & Hrep).
    exists (pre ++ to ++ rest'). split; [|by constructor].
    assert (take (length done_ + length pre) (done_ ++ pre ++ from ++ tail_) = done_ ++ pre) as ->
      by (rewrite app_assoc, <- length_app; apply take_app_length).
    assert (drop (length done_ + length pre + length from) (done_ ++ pre ++ from ++ tail_) = tail_) as ->
      by (rewrite !app_assoc, <- !length_app; apply drop_app_length).
    rewrite !length_app in Hloop. rewrite Nat.add_assoc, <- !app_assoc in Hloop. rewrite <- (app_assoc done_ pre). exact Hloop.
  - exists rest. split; [done|]. by constructor.
Qed.

(** [replaceAll] ends and replaces the occurrences from left to right, without
    looking into what it has put in. *)
Theorem replaceAll_replaces str from to : from ≠ "" →
  replaced (string_chars from) (string_chars to) (string_chars str) (string_chars (replaceAll str from to)).
Proof.
  intros Hne. unfold replaceAll.
  destruct (replace_loop_spec (string_chars from) (string_chars to) (S (length (string_chars str))) [] (string_chars str))
    as (rest' & Hloop & Hrep); [by destruct from|lia|]. rewrite app_nil_l in Hloop. cbn [length] in Hloop.
  by rewrite Hloop, string_chars_string.
Qed.

(** ** Existing files *)

Section keeps.
Context {W : Type} `{OS : Os W} `{OF : OsFiles W}.
Variable templates : list (string * list FileTemplate).
(** The content of a file outside the repositories of git. *)
Variable os_read : string → W → option string.
Definition keeps (w w' : W) : Prop := ∀ p text, os_read p w = Some text → os_read p w' = Some text.
Hypothesis directories_keep : ∀ p w w', os_create_directories p w = Ret w' → keeps w w'.
Hypothesis new_file_keeps : ∀ p text w w', os_exists p w = Ret false → os_write p text w = Some w' → keeps w w'.
Hypothesis git_keeps : ∀ p w, keeps w (os_system (git_cmd p) w).1.

#[local] Instance keeps_preorder : PreOrder keeps.
Proof. split; [by intros w p text|]. intros w1 w2 w3 H1 H2 p text H. auto. Qed.

(** A step keeps the files, however it ends. *)
Definition keeping {A} (p : Prog (Terminal W) A) : Prop := ∀ s, keeps (world s) (world (p s).1).

Lemma keeping_ret {A} (a : A) : keeping (mret a).
Proof. intros s. reflexivity. Qed.
Lemma keeping_bind {A B} (p : Prog (Terminal W) A) (f : A → Prog (Terminal W) B) :
  keeping p → (∀ a, keeping (f a)) → keeping (p ≫= f).
Proof.
  intros Hp Hf s. specialize (Hp s). unfold mbind, Prog_bind. destruct (p s) as [s' [a| | |]]; try exact Hp.
  etransitivity; [exact Hp|apply Hf].
Qed.
Lemma keeping_print l : keeping (say_lines (W := W) l).
Proof. intros s. reflexivity. Qed.
Lemma keeping_complain l : keeping (complain_lines (W := W) l).
Proof. intros s. reflexivity. Qed.
Lemma keeping_see {A} (f : W → exc A) : keeping (see f).
Proof. intros s. unfold see, get_state, mbind, Prog_bind, lift_exc. by destruct (f (world s)). Qed.
Lemma keeping_directories p : keeping (create_directories p).
Proof. intros s. unfold create_directories. destruct (os_create_directories p (world s)) eqn:E; [by eapply directories_keep|done]. Qed.

Lemma createFile_keeps filepath text : keeping (createFile filepath text false).
Proof.
  apply keeping_bind; [apply keeping_directories|]. intros _ s.
  unfold exists_, see, get_state, lift_exc, write_file, mbind, Prog_bind.
  destruct (os_exists filepath (world s)) as [[]|] eqn:E; [reflexivity| |reflexivity]. cbn [andb negb].
  destruct (os_write filepath text (world s)) eqn:Ew; [|reflexivity]. by eapply new_file_keeps.
Qed.

Lemma create_files_keeps dir name files : keeping (create_files dir name false files).
Proof.
  induction files as [|t files IH]; [apply keeping_ret|]. apply keeping_bind; [apply createFile_keeps|].
  intros []; [exact IH|apply keeping_ret].
Qed.

Lemma create_all_keeps dirs : keeping (create_all dirs).
Proof. induction dirs as [|dir dirs IH]; [apply keeping_ret|]. apply keeping_bind; [apply keeping_directories|intros _; exact IH]. Qed.

Lemma initGitRepo_keeps p : keeping (initGitRepo p).
Proof.
  apply keeping_bind; [apply keeping_print|intros _ s]. unfold system. unfold mbind, Prog_bind.
  pose proof (git_keeps p (world s)) as Hg. destruct (os_system (git_cmd p) (world s)) as [w status].
  destruct (status =? 0); exact Hg.
Qed.

(** Without --force a run keeps every file there is, whatever it meets and however
    it ends. *)
Theorem init_keeps_files argv (s : Terminal W) :
  match parse_init argv init_defaults with Some a => force a = false | None => True end →
  keeps (world s) (world (main templates argv s).1).
Proof.
  intros Hf.
  revert s. change (keeping (main templates argv)). unfold main. destruct argv as [|arg argv].
  { apply keeping_bind; [apply keeping_complain|intros _]. apply keeping_bind; [apply keeping_print|intros _; apply keeping_ret]. }
  destruct (parse_init (arg :: argv) init_defaults) as [a|].
  2: { apply keeping_bind; [apply keeping_print|intros _; apply keeping_ret]. }
  destruct (find_template templates (templateName a)) as [files|].
  2: { apply keeping_bind; [apply keeping_complain|intros _; apply keeping_ret]. }
  apply keeping_bind; [apply keeping_see|intros here]. apply keeping_bind; [apply keeping_see|intros found].
  rewrite Hf. destruct (found && negb false).
  { apply keeping_bind; [apply keeping_complain|intros _; apply keeping_ret]. }
  unfold create_project. rewrite Hf. apply keeping_bind; [apply keeping_print|intros _].
  apply keeping_bind; [apply keeping_directories|intros _]. apply keeping_bind; [apply create_files_keeps|intros []]; cbn [negb].
  2: { apply keeping_bind; [apply keeping_complain|intros _; apply keeping_ret]. }
  apply keeping_bind; [apply create_all_keeps|intros _].
  apply keeping_bind; [destruct (initGit a); [apply initGitRepo_keeps|apply keeping_ret]|intros _].
  apply keeping_bind; [apply keeping_print|intros _; apply keeping_ret].
Qed.
End keeps.

(** ** A concrete machine *)

Module DemoInit.
(** The files and directories below /work. *)
Record Tree := { texts : gmap string string; directories : gset string }.

#[export] Instance tree_os : Os Tree := {
  os_exe_link := λ _, None; os_getenv := λ _ _, None;
  os_exists := λ p w, Ret (bool_decide (is_Some (texts w !! p)) || bool_decide (p ∈ directories w));
  os_cwd := λ _, Ret "/work"; os_chdir := λ _ _, None; os_entries := λ _, Ret [];
  os_system := λ _ w, (w, 0); os_exec := λ _ _ _, None
}.
#[export] Instance tree_files : OsFiles Tree := {
  os_create_directories := λ p w, Ret {| texts := texts w; directories := {[p]} ∪ directories w |};
  os_write := λ p text w, Some {| texts := <[p := text]> (texts w); directories := directories w |}
}.

(** Two files of the C# template, the program cut to its first lines. *)
Definition csharp : list FileTemplate :=
  [{| path := "Program.cs"; content := "namespace {{PROJECT_NAME}}; // {{PROJECT_NAME_LOWER}}" |};
   {| path := "{{PROJECT_NAME}}.csproj"; content := "<Project>" |}].
Definition before : Terminal Tree :=
  {| world := {| texts := {["/work/notes" := "mine"]}; directories := {["/work"]} |}; cout := ""; cerr := "" |}.
Definition run (argv : list string) := main [("csharp", csharp)] argv before.
Definition files_of (argv : list string) : list (string * string) := map_to_list (texts (world (run argv).1)).

Lemma tree_keeps argv :
  match parse_init argv init_defaults with Some a => force a = false | None => True end →
  texts (world (run argv).1) !! "/work/notes" = Some "mine".
Proof.
  intros Hf. refine (init_keeps_files [("csharp", csharp)] (λ p w, texts w !! p) _ _ _ argv before Hf "/work/notes" "mine" eq_refl).
  - intros p w w' [= <-] q text. done.
  - intros p text w w' [= Hex] [= <-] q text' Hq. cbn [texts]. rewrite lookup_insert_ne; [done|]. intros <-.
    rewrite Hq in Hex. done.
  - intros p w q text. done.
Qed.
End DemoInit.
Import DemoInit.

Example a_project :
  (run ["Board"]).2 = Done 0
  ∧ texts (world (run ["Board"]).1) !! "/work/Board/Program.cs" = Some "namespace Board; // board"
  ∧ is_Some (texts (world (run ["Board"]).1) !! "/work/Board/Board.csproj").
Proof. split_and!; [vm_compute; reflexivity..|]. apply (bool_decide_unpack _). vm_compute. exact I. Qed.

(** A name that is a path is put into the path of the project file again: the file
    is not where the project is, and the program's namespace is no name. *)
Example path_as_name :
  (run ["guests/board"]).2 = Done 0
  ∧ texts (world (run ["guests/board"]).1) !! "/work/guests/board/board.csproj" = None
  ∧ texts (world (run ["guests/board"]).1) !! "/work/guests/board/guests/board.csproj" = Some "<Project>"
  ∧ texts (world (run ["guests/board"]).1) !! "/work/guests/board/Program.cs" = Some "namespace guests/board; // guests/board".
Proof. split_and!; vm_compute; reflexivity. Qed.

(** Of an absolute name the project file leaves the project. *)
Example absolute_name : texts (world (run ["/work/board"]).1) !! "/work/board.csproj" = Some "<Project>".
Proof. vm_compute. reflexivity. Qed.

(** ** From a new project to its publication *)

(** The paths of the files of the C# template. *)
Definition csharp_paths : list string :=
  ["Program.cs"; "{{PROJECT_NAME}}.csproj"; "global.json"; "README.md"; ".gitignore"; "build.sh"].

Lemma is_prefix_refl p rest : is_prefix p (p ++ rest) = true.
Proof. induction p as [|c p IH]; [done|]. simpl. by rewrite IH, andb_true_r; apply bool_decide_eq_true. Qed.

Lemma replace_first n from to rest : from ≠ [] → find from rest = None →
  replace_loop (S (S n)) from to (from ++ rest) 0 = Some (to ++ rest).
Proof.
  intros Hne Hrest. cbn [replace_loop]. rewrite drop_0.
  assert (find from (from ++ rest) = Some O) as -> 
    by (pose proof (is_prefix_refl from rest) as Hp; destruct from; [done|]; cbn [find app] in *; by rewrite Hp).
  rewrite !Nat.add_0_l, drop_app_length, app_nil_l, drop_app_length. by rewrite Hrest.
Qed.

(** The placeholder of the project file gives way to the name, whatever that is. *)
Lemma project_file name : replaceAll "{{PROJECT_NAME}}.csproj" "{{PROJECT_NAME}}" name = name +:+ ".csproj".
Proof.
  unfold replaceAll.
  change (string_chars "{{PROJECT_NAME}}.csproj") with (string_chars "{{PROJECT_NAME}}" ++ string_chars ".csproj").
  change (length (string_chars "{{PROJECT_NAME}}" ++ string_chars ".csproj")) with 23%nat.
  rewrite (replace_first 22 (string_chars "{{PROJECT_NAME}}") _ (string_chars ".csproj")) by done.
  cbn [default]. rewrite <- chars_append. apply chars_string_chars.
Qed.

Lemma read_run_app p (l rest : chars) : forallb p l = true → (∀ c, head rest = Some c → p c = false) → read_run p (l ++ rest) = (l, rest).
Proof.
  intros Hl Hr. induction l as [|c l IH]; simpl in *.
  - destruct rest as [|c rest]; [done|]. simpl. by rewrite (Hr c eq_refl).
  - apply andb_true_iff in Hl as [-> Hl]. by rewrite IH.
Qed.

Definition plain_name (name : string) : Prop := name ≠ "" ∧ forallb not_slash (string_chars name) = true.

Lemma forallb_rev {A} (p : A → bool) l : forallb p (rev l) = forallb p l.
Proof. induction l as [|a l IH]; [done|]. simpl. rewrite forallb_app, IH. simpl. by rewrite andb_true_r, andb_comm. Qed.

Lemma filename_join dir name : plain_name name → filename (path_join dir name) = name.
Proof.
  intros [Hne Hp]. assert (∀ rest : chars, (∀ c, head rest = Some c → not_slash c = false) →
    chars_string (rev (read_run not_slash (rev (string_chars name) ++ rest)).1) = name) as Hrun.
  { intros rest Hr. rewrite read_run_app; [|by rewrite forallb_rev|done]. simpl. rewrite rev_involutive. apply chars_string_chars. }
  unfold filename, path_join. destruct (rev (string_chars dir)) as [|c l] eqn:E.
  - rewrite <- (app_nil_r (rev (string_chars name))). by apply Hrun.
  - destruct (not_slash c) eqn:Ec; rewrite !chars_append, !rev_app_distr; simpl; rewrite <- ?app_assoc; apply Hrun.
    + by intros ? [= <-].
    + rewrite E. by intros ? [= <-].
Qed.

(** The project file of a created project, as publish reads it. *)
Lemma split_project_file dir name : plain_name name → split_name (path_join dir (name +:+ ".csproj")) = (name, ".csproj").
Proof.
  intros [Hne Hp]. unfold split_name.
  rewrite filename_join by (split; [by destruct name|by rewrite chars_append, forallb_app, Hp]).
  rewrite chars_append, rev_app_distr.
  assert (read_run (λ c, negb (eqc c "."%char)) (rev (string_chars ".csproj") ++ rev (string_chars name))
    = (rev (string_chars "csproj"), "."%char :: rev (string_chars name))) as ->.
  { change (rev (string_chars ".csproj") ++ rev (string_chars name))
      with (rev (string_chars "csproj") ++ "."%char :: rev (string_chars name)).
    apply read_run_app; [done|by intros ? [= <-]]. }
  destruct (rev (string_chars name)) as [|c l] eqn:E.
  { destruct name as [|c name]; [done|]. simpl in E. by destruct (rev (string_chars name)). }
  rewrite bool_decide_eq_false_2.
  - cbn [tail]. rewrite <- E, rev_involutive, chars_string_chars. done.
  - intros H. apply (f_equal string_chars) in H. rewrite chars_append in H. apply (f_equal length) in H.
    rewrite length_app in H. simpl in H. lia.
Qed.

(** A project of the C# template is found by publish under its own name, in
    whatever order the directory is read and whatever else git adds to it. *)
Theorem created_project_is_found dir name entries :
  plain_name name →
  (path_join dir (replaceAll "{{PROJECT_NAME}}.csproj" "{{PROJECT_NAME}}" name)) ∈ entries →
  Forall (λ entry, entry = path_join dir (replaceAll "{{PROJECT_NAME}}.csproj" "{{PROJECT_NAME}}" name)
                   ∨ (split_name entry).2 ≠ ".csproj") entries →
  project_of entries = name.
Proof.
  rewrite project_file. intros Hname Hin Hall. induction Hall as [|entry entries [->|Hext] Hall IH].
  - by apply not_elem_of_nil in Hin.
  - cbn [project_of]. by rewrite (split_project_file dir name Hname).
  - cbn [project_of]. apply elem_of_cons in Hin as [<-|Hin].
    { by rewrite (split_project_file dir name Hname) in Hext. }
    destruct (split_name entry) as [stem ext]. rewrite bool_decide_eq_false_2 by done. auto.
Qed.

(** The other files of the template are no project files. *)
Example other_files : (λ p, (split_name (path_join "/work/board" p)).2) <$> csharp_paths
  = [".cs"; ".csproj"; ".json"; ".md"; ""; ".sh"].
Proof. vm_compute. reflexivity. Qed.
