(* ===== verification/SqlTool.v ===== *)
(** * The one-shot SQL tool (src/cmd/sql_demo.cpp, the executable origindb_sql)

    [main] opens the storage engine on ./origindb_data, executes its first
    argument and shuts the engine down.  The state is the engine and what was
    printed; the engine is destroyed, and so shut down, at the end of the try
    block, before the handler.  The checkpointer's first poll comes after a second
    and is left out, as is logging. *)

From Stdlib Require Import Strings.Ascii Floats.SpecFloat.
From S2P Require Import Prelude Table RowCodec Float64 Regex StdNumbers Json MemTable Txn Wal WalStore Changefeed StorageJson Storage StorageCommit StorageSnapshot HostFunctions SqlEngine.

(** ** Numbers on a stream *)

(** The decimal exponent of a positive fraction: the power of ten below it. *)
Fixpoint exponent_below_one (fuel : nat) (num den x : Z) : Z :=
  match fuel with
  | O => x
  | S fuel => if den <=? num then x else exponent_below_one fuel (num * 10) den (x - 1)
  end.
Definition decimal_exponent (num den : Z) : Z :=
  if den <=? num then Z.of_nat (String.length (pretty (num / den))) - 1
  else exponent_below_one 400 num den 0.

(** Its six significant digits, ties to even, as a number, and their exponent. *)
Definition six_significant (num den : Z) : Z * Z :=
  let x := decimal_exponent num den in
  let n := if x <=? 5 then round_half_even (num * 10 ^ (5 - x)) den else round_half_even num (den * 10 ^ (x - 5)) in
  if n =? 10 ^ 6 then (10 ^ 5, x + 1) else (n, x).

Definition without_zeros (l : chars) : chars := rev (read_run (λ c, eqc c "0"%char) (rev l)).2.
Definition with_point (whole fraction : chars) : string :=
  chars_string (whole ++ match without_zeros fraction with [] => [] | l => "."%char :: l end).

(** "%g" of a positive fraction, as a stream prints it by default. *)
Definition general (num den : Z) : string :=
  let '(n, x) := six_significant num den in
  let digits := string_chars (pretty n) in
  if (-4 <=? x) && (x <? 6) then
    if 0 <=? x then with_point (take (Z.to_nat (x + 1)) digits) (drop (Z.to_nat (x + 1)) digits)
    else with_point ["0"%char] (replicate (Z.to_nat (- x - 1)) "0"%char ++ digits)
  else
    with_point (take 1 digits) (drop 1 digits)
    +:+ (if x <? 0 then "e-" else "e+") +:+ (if Z.abs x <? 10 then "0" else "") +:+ pretty (Z.abs x).

Definition stream_double (bits : Z) : string :=
  (if bits_sign 52 11 bits then "-" else "") +:+
  match double_sf bits with
  | S754_nan => "nan"
  | S754_infinity _ => "inf"
  | S754_zero _ => "0"
  | S754_finite _ m e => if 0 <=? e then general (Zpos m * 2 ^ e) 1 else general (Zpos m) (2 ^ (- e))
  end.

Example stream_doubles :
  (λ s, stream_double (default 0 (stod s))) <$>
    ["0.1"; "-2.50"; "1e6"; "123456"; "1234567"; "999999.5"; "0.0001"; "0.00001234567"; "1e100"; "0"; "-0"; "3.14159265"; "100"]
  = ["0.1"; "-2.5"; "1e+06"; "123456"; "1.23457e+06"; "1e+06"; "0.0001"; "1.23457e-05"; "1e+100"; "0"; "-0"; "3.14159"; "100"].
Proof. vm_compute. reflexivity. Qed.

(** ** The program *)

Definition eol : string := chars_string [ascii_of_nat 10].
Definition dquoted (s : string) : string := chars_string [ascii_of_nat 34] +:+ s +:+ chars_string [ascii_of_nat 34].

(** The visitor of a column. *)
Definition value_text (v : Value) : string :=
  match v with
  | VNull => "NULL"
  | VBytes _ => "[binary data]"
  | VTime _ => "[timestamp]"
  | VString s => dquoted s
  | VInt32 n | VInt64 n => pretty n
  | VFloat bits => stream_double (double_of_float bits)
  | VDouble bits => stream_double bits
  | VBool b => if b then "true" else "false"
  end.

(** What the machine decides: creating the directories, opening the log, the
    clock at the recovery and at the statement, the snapshot's file operations. *)
Record ToolEnv := {
  directories : exc ();
  log_opens : bool;
  at_recovery : Z;
  at_statement : Z;
  at_shutdown : snapshot_io
}.

Record Tool (W : Type) := { storage_of : StorageEngine W; cout : string; cerr : string }.
Arguments storage_of {W} _.
Arguments cout {W} _.
Arguments cerr {W} _.

Section tool.
Context {W : Type} `{WA : WalApi W} `{JL : JsonLib} `{HO : HashOrder}.
Abbreviation engine := (StorageEngine W).
Abbreviation Run := (Prog (Tool W)).

Definition say (text : string) : Run () :=
  modify_state (λ s, {| storage_of := storage_of s; cout := cout s +:+ text; cerr := cerr s |}).
Definition complain (text : string) : Run () :=
  modify_state (λ s, {| storage_of := storage_of s; cout := cout s; cerr := cerr s +:+ text +:+ eol |}).
Definition set_engine (e : engine) (s : Tool W) : Tool W := {| storage_of := e; cout := cout s; cerr := cerr s |}.
Definition on_engine {A} (f : engine → engine * exc A) : Run A := λ s,
  let '(e, r) := f (storage_of s) in lift_exc r (set_engine e s).

(** [StorageEngine::Initialize] from the directories on. *)
Definition initialize (env : ToolEnv) : Run bool :=
  _ ← lift_exc (directories env);
  if log_opens env then on_engine (Storage.Initialize (at_recovery env)) else mret false.

Definition execute_sql (env : ToolEnv) (sql : string) : Run SqlResult := λ s,
  let '(e, r) := SqlEngine.Execute (at_statement env) sql [] "" (new_SqlEngine (storage_of s)) in
  let s := set_engine (storage_ e) s in
  match r with
  | Returns result => (s, Done result)
  | Throws what => (s, Escaped what)
  | SqlEngine.Undefined => (s, HostFunctions.Undefined)
  end.

Definition row_line (r : Row) : string :=
  "  Key: " +:+ row_key r
  +:+ foldr (λ (cv : string * Value) t, ", " +:+ cv.1 +:+ ": " +:+ value_text cv.2 +:+ t) "" (hash_iter (row_columns r)) +:+ eol.

(** The try block. *)
Definition run_statement (env : ToolEnv) (sql : string) : Run Z :=
  ready ← initialize env;
  if negb ready then _ ← complain "❌ Failed to initialize storage engine"; mret 1
  else
    _ ← say ("🔍 Executing SQL: " +:+ sql +:+ eol);
    result ← execute_sql env sql;
    if success result then
      _ ← say ("✅ SQL executed successfully" +:+ eol
               +:+ "⏱️  Execution time: " +:+ pretty (execution_time_ms result) +:+ " ms" +:+ eol
               +:+ "📊 Rows affected: " +:+ pretty (rows_affected result) +:+ eol);
      _ ← say match rows result with
              | [] => ""
              | rows => eol +:+ "📋 Results:" +:+ eol +:+ foldr (λ r t, row_line r +:+ t) "" rows
              end;
      _ ← on_engine (Storage.Shutdown (at_shutdown env)); mret 0
    else _ ← say ("❌ SQL execution failed: " +:+ error result +:+ eol); mret 1.

(** The end of the block destroys the engine; a destructor that throws ends the
    process. *)
Definition destroying (env : ToolEnv) (p : Run Z) : Run Z := λ s,
  let '(s, r) := p s in
  match Storage.Shutdown (at_shutdown env) (storage_of s) with
  | (e, Ret _) => (set_engine e s, r)
  | (e, Throw what) => (set_engine e s, Trapped what)
  end.

Definition usage_text (program : string) : string :=
  foldr (λ line t, line +:+ eol +:+ t) ""
    ["Usage: " +:+ program +:+ " " +:+ dquoted "SQL_STATEMENT"; "Examples:";
     "  " +:+ program +:+ " " +:+ dquoted "CREATE TABLE users (id INT64 PRIMARY KEY, name STRING)";
     "  " +:+ program +:+ " " +:+ dquoted "INSERT INTO users VALUES (1, 'Alice')";
     "  " +:+ program +:+ " " +:+ dquoted "SELECT * FROM users"].

(** [main], with the program's name and the arguments after it. *)
Definition main (env : ToolEnv) (program : string) (argv : list string) : Run Z :=
  match argv with
  | [] => _ ← say (usage_text program); mret 1
  | sql :: _ =>
      try_catch (destroying env (run_statement env sql)) (λ what, _ ← complain ("💥 Error: " +:+ what); mret 1)
  end.
End tool.

(** ** The engine is shut down by Shutdown only *)

Section running.
Context {W : Type} `{WA : WalApi W} `{JL : JsonLib} `{HO : HashOrder}.
Abbreviation engine := (StorageEngine W).

Definition same_phase (e e' : engine) : Prop := shutdown_done_ e' = shutdown_done_ e.

Lemma phase_recover_entry now entry (e : engine) : same_phase e (recover_entry now e entry).
Proof. unfold recover_entry, same_phase. destruct (e_type entry); unfold DropTable; repeat case_match; done. Qed.

Lemma phase_recover now (e : engine) : same_phase e (RecoverFromWAL now e).
Proof.
  unfold RecoverFromWAL. generalize (wal_ReadAll (wal_ e)). intros es. revert e.
  induction es as [|entry es IH]; intros e; [done|]. simpl. unfold same_phase in *. rewrite IH. apply phase_recover_entry.
Qed.

Lemma phase_load_tables ts : ∀ n (e : engine), same_phase e (load_tables ts n e).1.
Proof.
  induction ts as [|t ts IH]; intros n e; [done|]. cbn [load_tables]. destruct (load_table t) as [[table m]|]; [|done].
  unfold same_phase in *. by rewrite IH.
Qed.

Lemma phase_initialize now (e : engine) : same_phase e (Storage.Initialize now e).1.
Proof.
  unfold Storage.Initialize. assert (same_phase e (LoadSnapshotIfPresent e).1) as H.
  { unfold LoadSnapshotIfPresent, same_phase. repeat case_match; try done;
        match goal with E : load_tables ?l _ _ = _ |- _ => pose proof (phase_load_tables l 0 e) as Hl; rewrite E in Hl; exact Hl end. }
  destruct (LoadSnapshotIfPresent e) as [e1 [[]|]]; try exact H. unfold same_phase in *. simpl in *. by rewrite phase_recover.
Qed.

Lemma phase_apply_write now txn w (e : engine) : same_phase e (apply_write now txn w e).1.
Proof. unfold apply_write, same_phase. repeat case_match; done. Qed.

Lemma phase_apply_writes now txn ws : ∀ es evs (e : engine), same_phase e (apply_writes now txn ws es evs e).1.
Proof.
  induction ws as [|w ws IH]; intros es evs e; [done|]. cbn [apply_writes].
  pose proof (phase_apply_write now txn w e) as H. unfold same_phase in *.
  destruct (apply_write now txn w e) as [e1 [[[entry ev]|]|]]; simpl in *; [by rewrite IH|done..].
Qed.

Lemma phase_commit now txn (e : engine) : same_phase e (Commit now txn e).1.1.
Proof.
  unfold Commit, commit_locked. pose proof (phase_apply_writes now txn (t_write_set txn) [] [] e) as H. unfold same_phase in *.
  destruct (negb (IsActive txn)); [done|]. destruct (decide _); [done|].
  destruct (apply_writes _ _ _ _ _ _) as [e1 [[[entries events]|]|]]; simpl in *; try done.
  destruct (wal_append entries (wal_ e1)) as [w' []]; done.
Qed.

Lemma phase_direct now stage (e : engine) : same_phase e (direct now stage e).1.
Proof.
  unfold direct. destruct (Storage.BeginTransaction READ_COMMITTED e) as [e1 txn] eqn:E.
  assert (same_phase e e1) as H by (unfold Storage.BeginTransaction in E; by injection E as <- _). unfold same_phase in *.
  destruct (stage txn) as [txn1 []].
  - pose proof (phase_commit now txn1 e1) as Hc. unfold same_phase in Hc. destruct (Commit now txn1 e1) as [[e2 t2] r]. simpl in *. by rewrite Hc.
  - unfold Rollback. destruct (negb (IsActive txn1)); done.
Qed.

Lemma phase_create schema (e : engine) : same_phase e (CreateTable schema e).1.
Proof. unfold CreateTable, same_phase. repeat case_match; done. Qed.

Lemma phase_execute now sql (e : engine) : same_phase e (execute now sql e).1.
Proof.
  unfold execute, same_phase. destruct (Parse sql) as [[stmt|]|]; [|done..]. destruct (type stmt); try done.
  - unfold ExecuteInsert. destruct (values stmt); [done|]. destruct (GetTable _ e); [|done].
    match goal with |- context [Insert now ?t ?r e] => pose proof (phase_direct now (λ txn, Txn.Insert txn t r) e : same_phase e (Insert now t r e).1) as H;
      destruct (Insert now t r e) as [e1 [[]|]] end; try done.
    unfold insert_as_update, Update. match goal with |- context [direct now ?s e1] => pose proof (phase_direct now s e1) as H1; destruct (direct now s e1) as [e2 r2] end.
    unfold same_phase in *. simpl in *. by rewrite H1.
  - unfold ExecuteUpdate. repeat case_match; simplify_eq/=; try done.
    match goal with E : Update now ?t ?k ?r e = (?e1, _) |- _ => pose proof (phase_direct now (λ txn, Txn.Update txn t k r) e) as Hl;
      unfold Update in E; rewrite E in Hl; exact Hl end.
  - unfold ExecuteCreateTable. pose proof (phase_create (table_schema stmt) e) as H.
    destruct (CreateTable _ e). exact H.
Qed.
End running.

(** ** What a run leaves *)

Section survives.
Context {W : Type} `{WA : WalApi W} `{WS : !WalSpec W} `{JL : JsonLib} `{HO : HashOrder}.
Abbreviation engine := (StorageEngine W).

Lemma on_engine_inv {A} (f : engine → engine * exc A) (s s' : Tool W) a :
  on_engine f s = (s', Done a) → f (storage_of s) = (storage_of s', Ret a).
Proof. unfold on_engine. destruct (f (storage_of s)) as [e [b|]]; [|done]. by intros [= <- <-]. Qed.

Lemma say_keeps text (s s' : Tool W) u : say text s = (s', Done u) → storage_of s' = storage_of s.
Proof. by intros [= <- _]. Qed.

(** The try block, when it answers 0. *)
Lemma run_statement_inv env sql (s s' : Tool W) :
  run_statement env sql s = (s', Done 0) →
  ∃ e1 st result, Storage.Initialize (at_recovery env) (storage_of s) = (e1, Ret true)
    ∧ execute (at_statement env) sql e1 = (st, Returns result) ∧ success result = true
    ∧ Storage.Shutdown (at_shutdown env) st = (storage_of s', Ret ()).
Proof.
  unfold run_statement. intros (s1 & ready & Hi & H)%host_bind_inv.
  destruct ready; cbn [negb] in H; [|apply host_bind_inv in H as (s2 & [] & _ & H); done].
  unfold initialize in Hi. apply host_bind_inv in Hi as (s0 & [] & Hd & Hi).
  assert (s0 = s) as -> by (unfold lift_exc in Hd; destruct (directories env); [by injection Hd as <-|done]).
  destruct (log_opens env); [|done]. apply on_engine_inv in Hi.
  apply host_bind_inv in H as (s2 & [] & Hs2%say_keeps & H). apply host_bind_inv in H as (s3 & result & Hx & H).
  unfold execute_sql, SqlEngine.Execute in Hx. simpl in Hx. rewrite Hs2 in Hx.
  destruct (execute (at_statement env) sql (storage_of s1)) as [st [r| |]] eqn:Ex; [|done..]. injection Hx as <- ->.
  destruct (success result) eqn:Hok; [|apply host_bind_inv in H as (s4 & [] & _ & H); done].
  apply host_bind_inv in H as (s4 & [] & Hs4%say_keeps & H). apply host_bind_inv in H as (s5 & [] & Hs5%say_keeps & H).
  apply host_bind_inv in H as (s6 & [] & Hsd%on_engine_inv & Hret). injection Hret as <-.
  exists (storage_of s1), st, result. split; [done|]. split; [done|]. split; [done|].
  rewrite Hs5, Hs4 in Hsd. exact Hsd.
Qed.

Lemma shutdown_again o (e e' : engine) : Storage.Shutdown o e = (e', Ret ()) → Storage.Shutdown o e' = (e', Ret ()).
Proof.
  unfold Storage.Shutdown. destruct (shutdown_done_ e) eqn:E; [intros [= <-]; by rewrite E|].
  unfold WriteSnapshot. repeat case_match; intros; simplify_eq/=; done.
Qed.

(** When the tool ends with exit code 0, the statement was executed with success on
    what the snapshot and the log recover, and, if its snapshot could be written,
    the next engine on the directory holds the tables as the statement left them,
    up to what JSON can express. *)
Theorem statement_survives env program sql rest w snap out err (s' : Tool W) :
  main env program (sql :: rest) {| storage_of := new_StorageEngine w snap; cout := out; cerr := err |} = (s', Done 0) →
  ∃ e1 st result,
    Storage.Initialize (at_recovery env) (new_StorageEngine w snap) = (e1, Ret true)
    ∧ execute (at_statement env) sql e1 = (st, Returns result) ∧ success result = true
    ∧ (at_shutdown env = snapshot_ok → tables_ st ≠ ∅ → map_Forall table_ok (tables_ st) →
       is_u 64 (wal_GetLastSequence (wal_ st)) → wal_good (wal_ st) →
       wal_good (wal_ (WriteSnapshot snapshot_ok (set_shutdown st)).1) →
       ∀ now, ∃ e2, Storage.Initialize now (new_StorageEngine (wal_ (storage_of s')) (snapshot_ (storage_of s'))) = (e2, Ret true)
                    ∧ views (tables_ e2) = restored_view <$> tables_ st).
Proof.
  unfold main, try_catch, destroying. destruct (run_statement env sql _) as [s1 r] eqn:Er.
  destruct (Storage.Shutdown (at_shutdown env) (storage_of s1)) as [e [u|what]] eqn:Esd; [|done].
  destruct r as [code| |what|]; try done.
  intros [= <- ->]. apply run_statement_inv in Er as (e1 & st & result & Hi & Hx & Hok & Hd). simpl in Hi.
  rewrite (shutdown_again _ _ _ Hd) in Esd. injection Esd as <- _. exists e1, st, result.
  split; [done|]. split; [done|]. split; [done|]. intros Hio Hne Htabs Hseq Hgood Hgood' now. simpl.
  assert (shutdown_done_ st = false) as Hrun.
  { pose proof (phase_initialize (at_recovery env) (new_StorageEngine w snap)) as H1. rewrite Hi in H1.
    pose proof (phase_execute (at_statement env) sql e1) as H2. rewrite Hx in H2. unfold same_phase in *. simpl in H1, H2. congruence. }
  unfold Storage.Shutdown in Hd. rewrite Hrun, Hio in Hd.
  destruct (checkpoint_restart now (set_shutdown st) Hne Htabs Hseq Hgood Hgood') as (e2 & e3 & Hw & _ & _ & Hn & Hv).
  rewrite Hw in Hd. injection Hd as <-. exists e3. split; [exact Hn|exact Hv].
Qed.
End survives.

(** ** A concrete directory *)

Module DemoTool.
#[export] Existing Instance std_json.
#[export] Existing Instance std_order.
Export StorageCommit.Demo.

Definition env1 : ToolEnv :=
  {| directories := Ret (); log_opens := true; at_recovery := 9; at_statement := 10; at_shutdown := snapshot_ok |}.
(** The tool on the log of a server that has committed two rows. *)
Definition opened : Tool WalHost := {| storage_of := new_StorageEngine (wal_ engine1) None; cout := ""; cerr := "" |}.
Definition run (sql : string) := main env1 "origindb_sql" [sql] opened.

(** What a new engine on a log and a snapshot holds. *)
Definition restarted (w : WalHost) (snap : option string) : store :=
  views (tables_ (Storage.Initialize 20 (new_StorageEngine w snap)).1).
Definition has_key (k : string) (ts : store) : bool :=
  match ts !! "users" with Some t => bool_decide (is_Some (t !! k)) | None => false end.

(** The server commits a third row while the tool is between its statement and its
    shutdown: both write the one log and the one snapshot. *)
Definition read_by_tool : StorageEngine WalHost :=
  (execute 10 "SELECT * FROM users" (Storage.Initialize 9 (new_StorageEngine (wal_ engine1) None)).1).1.
Definition served := Commit 11 (txn [write WINSERT "c" 3]) engine1.
Definition tool_shut_down := Storage.Shutdown snapshot_ok (set_wal (wal_ served.1.1) read_by_tool).
End DemoTool.
Import DemoTool.

(** A statement of the tool is in the database: no throw-away engine. *)
Example tool_insert_stays :
  let r := run "INSERT INTO users (ID, NAME) VALUES ('z', 'Zoe')" in
  r.2 = Done 0 ∧ has_key "z" (restarted (wal_ (storage_of r.1)) (snapshot_ (storage_of r.1))) = true.
Proof. split; vm_compute; reflexivity. Qed.

(** A SELECT of the tool on the directory of a running server: a row whose commit
    the server has acknowledged in between is gone after a restart. *)
Example tool_loses_acknowledged_commit :
  served.2 = Ret true ∧ has_key "c" (restarted (wal_ served.1.1) None) = true
  ∧ tool_shut_down.2 = Ret () ∧ has_key "a" (restarted (wal_ tool_shut_down.1) (snapshot_ tool_shut_down.1)) = true
  ∧ has_key "c" (restarted (wal_ tool_shut_down.1) (snapshot_ tool_shut_down.1)) = false.
Proof. split_and!; vm_compute; reflexivity. Qed.
