(* ===== verification/Demo.v ===== *)
(** * The prototype demonstration (src/cmd/prototype_demo.cpp, origindb_demo)

    [main] opens a database, fills a table over SQL, publishes an event for each
    row by hand and prints what it finds.  The state is the storage engine, the
    changefeed, whether the WebSocket server listens, and what was printed.  The
    texts the delivery thread prints through the callback are left out (Changefeed.v
    models the delivery), as are logging and the pauses. *)

From Stdlib Require Import Strings.Ascii.
From S2P Require Import Prelude Table RowCodec Float64 Regex StdNumbers Json MemTable Txn Wal WalStore Changefeed StorageJson Storage StorageCommit StorageSnapshot HostFunctions Cli SqlEngine SqlTool.

(** What the machine decides: the storage engine's directories and log, the clock
    of each step, the processors, the socket, the connections when they are
    counted, the final snapshot's file operations. *)
Record DemoEnv := {
  storage_env : ToolEnv;
  clock : nat → Z;
  time_now : nat → Z;
  hardware_concurrency : Z;
  socket_listens : bool;
  active_connections : Z
}.

Record Demo (W : Type) := {
  storage_of : StorageEngine W; changefeed_of : Changefeed; listening : bool; cout : string; cerr : string
}.
Arguments storage_of {W} _.
Arguments changefeed_of {W} _.
Arguments listening {W} _.
Arguments cout {W} _.
Arguments cerr {W} _.

(** ** Positions in a text *)

Definition npos : Z := 2 ^ 64 - 1.
Fixpoint find_in (c : ascii) (l : chars) (pos : Z) : Z :=
  match l with [] => npos | d :: l => if eqc c d then pos else find_in c l (pos + 1) end.
Definition find_char (c : ascii) (s : string) (pos : Z) : Z :=
  if str_len s <? pos then npos else find_in c (drop (Z.to_nat pos) (string_chars s)) pos.
(** [substr], which throws behind the end. *)
Definition substr (s : string) (pos count : Z) : exc string :=
  if str_len s <? pos then Throw "basic_string::substr"
  else Ret (chars_string (take (Z.to_nat count) (drop (Z.to_nat pos) (string_chars s)))).

(** The key and the name of an INSERT of the demonstration. *)
Definition event_texts (sql : string) : exc (string * string) :=
  let start := u64 (find_char "("%char sql 0 + 1) in
  let stop := find_char ","%char sql start in
  key ← substr sql start (u64 (stop - start));
  let start := u64 (find_char ","%char sql start + 2) in
  let stop := find_char ")"%char sql start in
  name ← substr sql start (u64 (stop - start));
  if bool_decide (front name = Some "'"%char) && bool_decide (back name = Some "'"%char)
  then unquoted ← substr name 1 (u64 (str_len name - 2)); Ret (key, unquoted)
  else Ret (key, name).

Definition users_schema : TableSchema :=
  {| sch_name := "users";
     sch_columns := [{| col_name := "id"; col_type := INT64; nullable := false; is_primary_key := true; default_value := DefNone |};
                     {| col_name := "name"; col_type := STRING; nullable := false; is_primary_key := false; default_value := DefNone |}];
     primary_key := ["id"]; sch_options := ∅ |}.

Definition demo_inserts : list string :=
  ["INSERT INTO users VALUES (1, 'Alice')"; "INSERT INTO users VALUES (2, 'Bob')"; "INSERT INTO users VALUES (3, 'Charlie')"].

(** A column as the demonstration prints it: a string without quotes. *)
Definition demo_value_text (v : Value) : string := match v with VString s => s | v => value_text v end.
Definition demo_row_line `{HO : HashOrder} (r : Row) : string :=
  "  Key: " +:+ row_key r
  +:+ foldr (λ (cv : string * Value) t, ", " +:+ cv.1 +:+ ": " +:+ demo_value_text cv.2 +:+ t) "" (hash_iter (row_columns r)) +:+ eol.

Definition lines (l : list string) : string := foldr (λ line t, line +:+ eol +:+ t) "" l.

Section demo.
Context {W : Type} `{WA : WalApi W} `{JL : JsonLib} `{HO : HashOrder}.
Abbreviation engine := (StorageEngine W).
Abbreviation Run := (Prog (Demo W)).

Definition print (l : list string) : Run () :=
  modify_state (λ s, {| storage_of := storage_of s; changefeed_of := changefeed_of s; listening := listening s;
                        cout := cout s +:+ lines l; cerr := cerr s |}).
Definition complain (l : list string) : Run () :=
  modify_state (λ s, {| storage_of := storage_of s; changefeed_of := changefeed_of s; listening := listening s;
                        cout := cout s; cerr := cerr s +:+ lines l |}).
Definition set_engine (e : engine) (s : Demo W) : Demo W :=
  {| storage_of := e; changefeed_of := changefeed_of s; listening := listening s; cout := cout s; cerr := cerr s |}.
Definition set_changefeed (c : Changefeed) (s : Demo W) : Demo W :=
  {| storage_of := storage_of s; changefeed_of := c; listening := listening s; cout := cout s; cerr := cerr s |}.
Definition set_listening (b : bool) (s : Demo W) : Demo W :=
  {| storage_of := storage_of s; changefeed_of := changefeed_of s; listening := b; cout := cout s; cerr := cerr s |}.
Definition on_engine {A} (f : engine → engine * exc A) : Run A := λ s,
  let '(e, r) := f (storage_of s) in lift_exc r (set_engine e s).
Definition on_changefeed {A} (f : Changefeed → Changefeed * A) : Run A := λ s,
  let '(c, a) := f (changefeed_of s) in (set_changefeed c s, Done a).

Definition fail (message : string) : Run Z := _ ← complain [message]; mret 1.

Definition execute_sql (now : Z) (sql : string) : Run SqlResult := λ s,
  let '(e, r) := SqlEngine.Execute now sql [] "" (new_SqlEngine (storage_of s)) in
  let s := set_engine (storage_ e) s in
  match r with
  | Returns result => (s, Done result)
  | Throws what => (s, Escaped what)
  | SqlEngine.Undefined => (s, HostFunctions.Undefined)
  end.

(** A subscription of the changefeed with its callback. *)
Definition subscribe (now : Z) (table : string) (callback : nat) : Run () :=
  sub_id ← on_changefeed (Changefeed.CreateSubscription now {| table_pattern := table; sql_where_clause := ""; f_columns := [] |} 0 AT_LEAST_ONCE);
  on_changefeed (λ c, (Subscribe sub_id callback c, ())).

(** ** The steps *)

(** The table, created unless the log brought it back. *)
Definition ensure_table : Run bool :=
  existing_tables ← on_engine (λ e, (e, Ret (ListTables e)));
  if bool_decide ("users" ∈ existing_tables) then
    _ ← print ["🗂️  Table 'users' already exists (recovered from WAL)"; "✅ Using existing table"; ""]; mret true
  else
    _ ← print ["🗂️  Creating demo table 'users'..."];
    created ← on_engine (CreateTable users_schema);
    if created : bool then _ ← print ["✅ Table 'users' created"; ""]; mret true else mret false.

Definition demo_event (env : DemoEnv) (i : nat) (key name : string) : ChangefeedEvent :=
  {| ev_offset := 0; ev_transaction_id := "demo-txn-" +:+ pretty (time_now env i); ev_table := "users"; ev_operation := "INSERT";
     ev_key := str_bytes key; ev_old_value := []; ev_new_value := str_bytes name; ev_timestamp := 0 |}.

(** One round of the loop over the inserts. *)
Definition insert_and_publish (env : DemoEnv) (i : nat) (sql : string) : Run () :=
  _ ← print ["💻 Executing SQL: " +:+ sql];
  result ← execute_sql (clock env (10 + 2 * i)) sql;
  _ ← (if success result then
         _ ← print ["✅ SQL executed successfully"];
         '(key, name) ← lift_exc (event_texts sql);
         _ ← on_changefeed (λ c, (PublishEvent (clock env (11 + 2 * i)) (demo_event env i key name) c, ()));
         print ["📡 Change event published"]
       else print ["❌ SQL execution failed: " +:+ error result]);
  print ["---"].

Fixpoint insert_all (env : DemoEnv) (i : nat) (inserts : list string) : Run () :=
  match inserts with
  | [] => mret ()
  | sql :: inserts => _ ← insert_and_publish env i sql; insert_all env (S i) inserts
  end.

Definition fill (env : DemoEnv) : Run () :=
  _ ← print ["🔍 Checking existing data in users table..."];
  existing_data ← execute_sql (clock env 3) "SELECT * FROM users";
  if success existing_data && negb (bool_decide (rows existing_data = [])) then
    print ["📋 Found " +:+ pretty (zlength (rows existing_data)) +:+ " existing records in users table";
           "✅ Skipping demo inserts (data already exists)"; ""]
  else _ ← print ["📝 Users table is empty, inserting demo data..."]; insert_all env 0 demo_inserts.

Definition show_table (env : DemoEnv) : Run () :=
  _ ← print [""; "📊 Current table contents:"];
  select_result ← execute_sql (clock env 4) "SELECT * FROM users";
  if success select_result then
    _ ← print ["Users table:"];
    modify_state (λ s, {| storage_of := storage_of s; changefeed_of := changefeed_of s; listening := listening s;
                          cout := cout s +:+ foldr (λ r t, demo_row_line r +:+ t) "" (rows select_result); cerr := cerr s |})
  else mret ().

Definition show_statistics (env : DemoEnv) (websocket_port : Z) : Run () :=
  s ← get_state;
  let storage_stats := GetStats (storage_of s) in
  let cf_metrics := GetMetrics (changefeed_of s) in
  print [""; "📈 System Statistics:"; "  Tables: " +:+ pretty (total_tables storage_stats);
         "  Rows: " +:+ pretty (total_rows storage_stats); "  Storage bytes: " +:+ pretty (total_bytes storage_stats);
         "  Events published: " +:+ pretty (total_events_published cf_metrics);
         "  Active subscriptions: " +:+ pretty (active_subscriptions cf_metrics);
         "  WebSocket connections: " +:+ pretty (active_connections env); "";
         "🎉 Minimal Demo completed successfully!"; ""; "This demonstrates the core flow:";
         "  SQL → Storage → WAL → Changefeed Events"; ""; "Full version would add:"; "  - Raft consensus for clustering";
         "  - WASM module execution"; "  - Complete SQL parser"; "  - Authentication and authorization"; "";
         "🔗 WebSocket Endpoint: ws://localhost:" +:+ pretty websocket_port;
         "   Connect with Postman or your WebSocket client!"; ""; "💡 Usage: ./origindb_demo [port]";
         "   Example: ./origindb_demo 9090"; ""; "Press Enter to shutdown..."].

(** The callbacks of the two subscriptions: the WebSocket server's and the one that
    prints. *)
Definition websocket_callback : nat := 0.
Definition print_callback : nat := 1.

(** The try block. *)
Definition run_demo (env : DemoEnv) (websocket_port : Z) : Run Z :=
  _ ← print ["📦 Initializing Storage Engine..."];
  _ ← lift_exc (directories (storage_env env));
  ready ← (if log_opens (storage_env env) then on_engine (Storage.Initialize (clock env 0)) else mret false);
  if negb ready then fail "❌ Failed to initialize storage engine"
  else
    _ ← print ["✅ Storage Engine ready"; ""];
    created ← ensure_table;
    if negb created then fail "❌ Failed to create users table"
    else
      _ ← print ["🔍 Initializing SQL Engine..."; "✅ SQL Engine ready"; ""; "📡 Initializing Changefeed Engine..."];
      _ ← on_changefeed (Changefeed.Start (hardware_concurrency env));
      _ ← print ["✅ Changefeed Engine ready"; ""; "🌐 Initializing WebSocket Server..."];
      _ ← subscribe (clock env 1) "*" websocket_callback;
      if negb (socket_listens env) then fail "❌ Failed to start WebSocket server"
      else
        _ ← modify_state (set_listening true);
        _ ← print ["✅ WebSocket Server ready on port " +:+ pretty websocket_port; "";
                   "🎯 Starting End-to-End Demo Flow"; "================================="; ""];
        _ ← subscribe (clock env 2) "users" print_callback;
        _ ← fill env;
        _ ← show_table env;
        _ ← show_statistics env websocket_port;
        _ ← print ["🛑 Shutting down..."];
        _ ← modify_state (set_listening false);
        _ ← on_changefeed (λ c, (StopPool (Changefeed.Stop c), ()));
        _ ← on_engine (Storage.Shutdown (at_shutdown (storage_env env)));
        _ ← print ["✅ Shutdown complete"];
        mret 0.

(** The end of the block destroys server, changefeed and engine, which stops what
    is still running. *)
Definition destroying_all (env : DemoEnv) (p : Run Z) : Run Z := λ s,
  let '(s, r) := p s in
  let s := set_changefeed (StopPool (Changefeed.Stop (changefeed_of s))) (set_listening false s) in
  match Storage.Shutdown (at_shutdown (storage_env env)) (storage_of s) with
  | (e, Ret _) => (set_engine e s, r)
  | (e, Throw what) => (set_engine e s, Trapped what)
  end.

(** The port: 8080, or the number given, cut to 16 bits. *)
Definition parse_port (argv : list string) : Run Z :=
  match argv with
  | [] => mret 8080
  | arg :: _ =>
      match stoi arg with
      | Ret n => let port := n mod 2 ^ 16 in _ ← print ["Using WebSocket port: " +:+ pretty port; ""]; mret port
      | Throw _ => _ ← complain ["Invalid port number: " +:+ arg +:+ ". Using default port 8080."; ""]; mret 8080
      end
  end.

(** [main], with the arguments after the program's name. *)
Definition main (env : DemoEnv) (argv : list string) : Run Z :=
  _ ← print ["🚀 OriginDB Prototype Demo"; "=============================="; ""];
  websocket_port ← parse_port argv;
  try_catch (destroying_all env (run_demo env websocket_port))
    (λ what, _ ← complain ["💥 Demo failed with exception: " +:+ what]; mret 1).
End demo.

(** ** Two runs *)

Module DemoRun.
#[export] Existing Instance std_json.
#[export] Existing Instance std_order.
Export StorageCommit.Demo.

Definition env1 : DemoEnv :=
  {| storage_env := {| directories := Ret (); log_opens := true; at_recovery := 0; at_statement := 0; at_shutdown := snapshot_ok |};
     clock := λ i, Z.of_nat i; time_now := λ i, 1700000000 + Z.of_nat i; hardware_concurrency := 4; socket_listens := true;
     active_connections := 0 |}.
Definition begin_with (w : WalHost) (snap : option string) : Demo WalHost :=
  {| storage_of := new_StorageEngine w snap; changefeed_of := new_Changefeed demo_config; listening := false; cout := ""; cerr := "" |}.

(** The first run, on an empty directory, and one on what it leaves. *)
Definition run1 := main env1 [] (begin_with (new_host [] 100) None).
Definition run2 := main env1 ["9090"] (begin_with (wal_ (storage_of run1.1)) (snapshot_ (storage_of run1.1))).
End DemoRun.
Import DemoRun.

Definition published_texts (c : Changefeed) : list (Z * string * string) :=
  (λ e, (ev_offset e, bytes_str (ev_key e), bytes_str (ev_new_value e))) <$> cf_published c.
Definition row_of (id name : string) : gmap string Value := <["id" := VInt64 (default 0 (stoll id))]> {["name" := VString name]}.

(** The first run inserts three rows and publishes one event for each. *)
Example first_run :
  run1.2 = Done 0 ∧ cerr run1.1 = ""
  ∧ published_texts (changefeed_of run1.1) = [(1, "1", "Alice"); (2, "2", "Bob"); (3, "3", "Charlie")].
Proof. split_and!; vm_compute; reflexivity. Qed.

(** The second finds them in the snapshot the first has left, and inserts nothing. *)
Example second_run :
  run2.2 = Done 0 ∧ published_texts (changefeed_of run2.1) = []
  ∧ views (tables_ (Storage.Initialize 0 (storage_of (begin_with (wal_ (storage_of run1.1)) (snapshot_ (storage_of run1.1))))).1)
    = {["users" := {["1" := row_of "1" "Alice"; "2" := row_of "2" "Bob"; "3" := row_of "3" "Charlie"]}]}.
Proof. split_and!; vm_compute; reflexivity. Qed.

Example port_is_cut :
  (parse_port ["70000"] (begin_with (new_host [] 100) None)).2 = Done 4464
  ∧ (parse_port ["web"] (begin_with (new_host [] 100) None)).2 = Done 8080.
Proof. split; vm_compute; reflexivity. Qed.
